(* ===== verification/_CoqProject ===== *)
-Q . S2P
Prelude.v
RustStr.v
RustNet.v
HttpIface.v
TrustedProxies.v
Snapshots.v
ForwardedSyntax.v
HeaderCommon.v
Forwarding.v
Globals.v
HealthCheck.v
StickyCookie.v
CryptoInstance.v
StickySeal.v
NameExp.v
LoadBalance.v
Backend.v
Config.v
ConfigProps.v
Tls.v
TlsProps.v
Acme.v
AcmeProps.v
HeaderOps.v
RequestOps.v
Handler.v
AccessLog.v
Log.v
BalanceProps.v
HeaderProps.v
RouteProps.v
HandlerProps.v
UpstreamClient.v
Body.v
BodyChannel.v
Cache.v
CacheSpool.v
CacheInv.v
CacheProps.v
CacheContent.v
CacheSystem.v
ProxyProtocol.v
Listener.v
ListenerProps.v
Socket.v
QuicS2n.v
Count.v
Connections.v
ConnectionProps.v
H3Serve.v
Supervise.v
Service.v
Process.v
