(* ===== verification/Prelude.v ===== *)
(** * A verification development for rpxy

    rpxy is an HTTP reverse proxy: it accepts connections, reads the PROXY protocol and
    HTTP requests from them, chooses an application by host name and a route by path,
    rewrites the request, forwards it to one of the upstreams of the route (or answers
    from its cache), and rewrites the response. This library translates that code
    into functions and step relations and proves what makes it correct.

    ** Parts and where they are modelled

    Paths are relative to [src/rpxy-lib/src/] unless they name another crate.

    - Language and libraries. This file holds the notations, the [result] type with its
      bind, machine arithmetic, hash maps as association lists, and the lemmas the rest
      shares. [RustStr] and [RustNet] model what is used of Rust's strings and
      [std::net]. [HttpIface] is the interface of the [http] and [ipnet] crates
      ([HttpApi], [IpNetApi]) with the laws that are relied on ([HttpLaws]) and an
      instance ([Alist]) on which witnesses compute.
    - Configuration. [Config] is [rpxy-bin/src/config/toml.rs] from the deserialized
      file on, [TrustedProxies] the crate [rpxy-trusted-proxies], [Globals] the records
      and defaults of [globals.rs] and [constants.rs]. [ConfigProps]: an accepted
      configuration is well formed, trusts exactly the networks it lists, has a sticky
      secret whenever one is needed, and body sizes follow their grammar without
      overflow. [Snapshots] is the tool that refreshes the address lists
      ([rpxy-trusted-proxies/src/bin/update-snapshots.rs]): it writes what the providers
      publish, settles after one run, and its check misses no change.
    - Forwarding headers. [ForwardedSyntax] parses and prints [Forwarded] and
      [X-Forwarded-For] ([message_handler/header_ops/forwarding.rs]), [Forwarding] is
      the trust boundary and the rewrite, [HeaderCommon] the rest of
      [header_ops/common.rs], [hop.rs] and [redact.rs]. Theorems: printing and parsing
      are inverse, an untrusted peer cannot influence the emitted chain, a chain is cut
      at the first hop that is not trusted, the scheme fails closed.
    - Sticky cookies. [StickyCookie] is [backend/load_balance/sticky_cookie.rs] and
      [sticky_cookie_seal.rs] over an interface for AES-GCM, base64, SHA-256 and the
      clock ([CryptoApi], [CryptoLaws], [ClockApi]); [CryptoInstance] implements it;
      [StickySeal] proves that sealing round trips and that, for a cipher that
      authenticates, only issued and unexpired cookies of the same scope open.
    - Upstreams. [NameExp] ([name_exp.rs]), [HealthCheck] ([backend/health_check/]),
      [LoadBalance] ([backend/load_balance/]) and [Backend] ([backend/upstream.rs],
      [upstream_opts.rs], [backend_main.rs]). [BalanceProps]: policies pick healthy
      upstreams while there are any, round robin is fair, sessions stick.
      [RouteProps]: longest-prefix routing whatever the order of the hash map, and what
      a configuration that is accepted guarantees. [HealthCheck] refines the counters to
      a function of the probe history and shows that the flag converges.
    - Requests. [HeaderOps], [RequestOps] and [Handler] are [message_handler/]: the whole
      path of a request, as a function of the request, the shared state, the clock, the
      random draws, the health flags and the answer of the forwarder. [UpstreamClient] is
      the clients of [forwarder/client.rs] as they are built with rustls, and the protocol
      a request of the handler is sent with. [HeaderProps] and
      [HandlerProps]: no sequence of requests makes the handler panic, requests are
      rejected in a fixed order before any upstream is contacted, a TLS request stays in
      the application its SNI names, and upstreams get sanitised requests (hop-by-hop
      headers, those that [Connection] lists, foreign forwarding headers and the sticky
      cookie are gone; a [Cookie] line that cannot be read is the exception). A panic
      ([unwrap] on [None]) is the value [None], an error of [anyhow] or [HttpError] a
      value of [result].
    - Access log. [AccessLog] is [message_handler/http_log.rs]: the record of a request,
      its line, and the redaction of query values; two requests that differ only in
      query values leave the same line. [Log] is [rpxy-bin/src/log.rs]: levels, filters and
      layers as the places an event is written to, and the formatter of the access log
      file; a request leaves one line there whatever it contains, and the predicate that
      switches access logging on agrees with the layers.
    - Certificates and listeners. [Tls] is the crate [rpxy-certs]: reading certificates,
      the reloader, and the TLS configurations made of them, over an interface for the
      decoders and rustls ([TlsApi]); a [ServerConfig] is the record of the settings
      made. [Acme] is the certificate store of [rpxy-acme] and the part of
      [rpxy-bin/src/config/parse.rs] that finds certificates in it, on a file system
      with modes whose calls may fail. [Listener] is what [lib.rs] opens, what
      [proxy/proxy_main.rs] and [proxy/proxy_quic_quinn.rs] do with a connection, and how
      they follow the reloader ([World], [world_step]); the outcome of a handshake is an
      interface ([HandshakeApi], [HandshakeLaws]). [TlsProps], [AcmeProps] and
      [ListenerProps]: the last certificates that could be read stay in use, client
      authentication cannot be got around by resumption, HTTP/3 or challenges, ticket
      keys survive reloads, certificates are found where they are stored, and the store
      stays in its directories with private modes, below the configured registry if its
      path has no capitals and not below it otherwise. [Socket] is [proxy/socket.rs], the
      calls that set up the sockets of the listeners, over an interface for the delivery
      of connections to bound sockets ([Delivery], [DeliveryLaws]): every destination
      reaches one listener. [QuicS2n] is [proxy/proxy_quic_s2n.rs], the QUIC listener of
      the feature [http3-s2n], over an interface for s2n-quic ([S2nApi], no laws);
      it serves what the library accepts under the certificates it received last and the
      configured limits.
    - The service. [Service] is the building of a service from a configuration and the
      loop that replaces it when the file changes ([rpxy-bin/src/main.rs], the first half
      of [entrypoint] in [lib.rs]); it puts the guarantees of the parts together.
      [Supervise] is the other half: the health checkers that are started
      ([backend/health_check/checker.rs]), the waiting loop of [entrypoint], and
      [start_inner], as steps over the tasks and the cancellation tokens. A TLS or QUIC
      listener is a task of its own that is detached when its proxy task is cancelled, and
      of the ACME tasks only the first to end is waited for: the theorems say what a
      service has waited for when it returns, that what it has not is cancelled, and that
      a cancelled service comes to the end of everything. What happens when a listener ends
      without an error (a TLS or QUIC listener drops its own) is a theorem of its own. [Process]
      composes the two: [main] with the service that runs, its tasks, the services that a
      new configuration has replaced, and the exit code.
    - Bodies and connections. [Body] is the size-limiting body of [hyper_ext/body_type.rs]
      and what the body task of [proxy/proxy_h3.rs] sends. [BodyChannel] is the channel
      body of [body_incoming_like.rs] with its demand signal ([watch.rs]), over an
      interface for the queues of the [futures] crates ([MpscApi], [OneshotApi] and their
      laws), and the system of the body task and a consumer under every schedule.
      [H3Serve] is the rest of [proxy/proxy_h3.rs]: the accept loops over the shared
      counters, and the relay of responses. [ProxyProtocol] is
      [proxy/proxy_protocol.rs]. [Count] is [count.rs] with the admission check of
      [proxy/proxy_main.rs]: its operations are split at their atomic accesses and
      interleaved by step relations. [Connections] runs the tasks of TCP connections, QUIC
      connections and HTTP/3 streams side by side on those counters and on the semaphore
      of PROXY headers, from [accept] to release, one access at a time ([sys_step]).
      [ConnectionProps]: the limits hold in every order and across all listeners, every
      run is a run of the counters of [Count], all that is held is given back, and
      upgraded connections are outside the limits.
    - Cache. [Cache] is [forwarder/cache/cache_main.rs] and the use of it in
      [forwarder/client.rs], over interfaces for the [lru] crate ([LruApi], [LruLaws]) and
      for [http_cache_semantics] ([PolicyApi]). The disk is a map from paths to contents
      with the outcomes of the coming calls, each of which may fail. Lookups and stores
      are tasks ([Task]) that another task may overtake between any two of their
      operations on the map, the counters or the disk ([task_step], [step]); the mutex of
      the map may become poisoned, and files may change from outside where a theorem
      allows it. [CacheSpool] is the loop that relays a body while storing it,
      [CacheInv] and [CacheProps] account for entries, files and counters,
      [CacheContent] ties every entry to the response that was stored, and [CacheSystem]
      states the results: hits are responses stored whole for the same key, counters are
      exact, no file is left behind, and every task ends.

    ** Reading the model

    Bytes are [Z], strings lists of bytes, [usize] has 64 bits. Hash maps and sets are
    lists in iteration order; where the order could matter the theorem holds for every
    order ([HashOrder], or permutations of the list). Features are those of the default
    build, except in [QuicS2n]; the calls on sockets are those of a Linux target. Text
    of log messages and of error messages is dropped, error variants are kept. Code
    outside the repository is always a class parameter; a theorem that relies on its
    laws has a witness on a concrete instance.

    ** Bounds

    Recursion is structural except in two places. Printing a number recurs on the number
    of digits it can have, which [show_go_value] proves to be enough. Reading a version
    1 PROXY line recurs on the number of bytes the code allows for one, after which the
    code itself fails. The theorems about interleavings of the cache count the steps, so
    that the 64-bit counters for files and generations, which start anywhere, have not
    wrapped: they hold while both are below 2^64 - 1. The theorem that every cache task
    ends bounds its steps by twelve, the frames of its body and the chunks of the file it
    sends, each of which has a byte at least. The body channel delivers everything
    within three rounds of the task and a poll for each chunk and three more, and a
    supervised service has a measure that every event but a cancellation decreases. In
    [Connections] the tasks are not bounded, and listeners that admit one connection
    after the other are allowed more orders than they have, so that what is proved
    covers theirs.

    ** Not modelled

    The formatters of the system log and the files themselves (the tracing crates); the
    operating system's sockets beyond the calls that set them up, and the scheduling of
    tasks (calls into tokio: a task takes its next step whenever the schedule says so,
    and wake-ups are not tracked beyond the demand signal); TLS, QUIC, HTTP/3 and ACME
    themselves (rustls, quinn, s2n-quic, h3 and rustls-acme) and what hyper does with a
    connection or a request, which are parameters; the settings of hyper's connection
    builder; the bytes copied over an upgraded connection (tokio's copying loop), of
    which only the start and the end are events; the command line, the runtime's set-up
    and the deserialization of TOML. Files do not change while the certificates of one
    name are read, and the probes of the ACME store run one after the other, where the
    code starts those of several names together. Time passes only through the values of
    the clock that are given to each operation. *)

From Stdlib Require Export ZArith Lia.
From stdpp Require Export base tactics list gmap strings countable relations.

(** ** Scopes and notations *)

Declare Scope rpxy_scope.
Delimit Scope rpxy_scope with rpxy.
#[global] Open Scope Z_scope.

(** A byte is an integer, a [&str]/[&[u8]] the list of its (UTF-8) bytes. *)
Notation byte := Z (only parsing).
Notation str := (list Z) (only parsing).

Notation TAB := 9%Z (only parsing).
Notation LF := 10%Z (only parsing).
Notation CR := 13%Z (only parsing).
Notation SPACE := 32%Z (only parsing).
Notation DQUOTE := 34%Z (only parsing).
Notation AMP := 38%Z (only parsing).
Notation PLUS := 43%Z (only parsing).
Notation COMMA := 44%Z (only parsing).
Notation HYPHEN := 45%Z (only parsing).
Notation DOT := 46%Z (only parsing).
Notation SLASH := 47%Z (only parsing).
Notation ZERO := 48%Z (only parsing).
Notation COLON := 58%Z (only parsing).
Notation SEMICOLON := 59%Z (only parsing).
Notation EQUALS := 61%Z (only parsing).
Notation QMARK := 63%Z (only parsing).
Notation LBRACKET := 91%Z (only parsing).
Notation BACKSLASH := 92%Z (only parsing).
Notation RBRACKET := 93%Z (only parsing).
Notation UNDERSCORE := 95%Z (only parsing).

(** [B "text"] is the byte string of an ASCII literal of the source. *)
Definition Z_of_ascii (c : Ascii.ascii) : Z := Z.of_N (Ascii.N_of_ascii c).

Fixpoint B (s : string) : str :=
  match s with
  | EmptyString => []
  | String c r => Z_of_ascii c :: B r
  end.
Arguments B s%_string_scope.

(** ** Results

    [Result<T, E>] of the source. The [?] operator is the monadic bind. *)

Inductive result (E A : Type) : Type :=
| Ok (a : A)
| Err (e : E).
Arguments Ok {E A} _.
Arguments Err {E A} _.

#[export] Instance result_ret (E : Type) : MRet (result E) := fun A a => Ok a.

#[export] Instance result_bind (E : Type) : MBind (result E) := fun A B f r =>
  match r with Ok a => f a | Err e => Err e end.

#[export] Instance result_fmap (E : Type) : FMap (result E) := fun A B f r =>
  match r with Ok a => Ok (f a) | Err e => Err e end.

#[export] Instance result_eq_dec (E A : Type) `{EqDecision E, EqDecision A} :
  EqDecision (result E A).
Proof. solve_decision. Defined.

(** [.ok()], [.ok_or(e)], [.map_err(f)], [.is_ok()] *)
Definition ok {E A} (r : result E A) : option A :=
  match r with Ok a => Some a | Err _ => None end.

Definition ok_or {E A} (o : option A) (e : E) : result E A :=
  match o with Some a => Ok a | None => Err e end.

Definition map_err {E F A} (f : E -> F) (r : result E A) : result F A :=
  match r with Ok a => Ok a | Err e => Err (f e) end.

Definition is_ok {E A} (r : result E A) : bool :=
  match r with Ok _ => true | Err _ => false end.

(** [ensure!(c, e)] *)
Definition ensure {E} (c : bool) (e : E) : result E () :=
  if c then Ok () else Err e.

(** A [for]/[iter().map().collect::<Result<_,_>>()] that stops at the first error. *)
Fixpoint result_mapM {E A C} (f : A -> result E C) (l : list A) : result E (list C) :=
  match l with
  | [] => Ok []
  | x :: r => y ← f x; ys ← result_mapM f r; Ok (y :: ys)
  end.

(** A [for] loop over [l] that threads a state and may return early with an error. *)
Fixpoint result_foldM {E A S} (f : S -> A -> result E S) (l : list A) (s : S) : result E S :=
  match l with
  | [] => Ok s
  | x :: r => s' ← f s x; result_foldM f r s'
  end.

(** Fallible operations on a state: what was done before an error stays done. *)
Definition StM (S E A : Type) : Type := S -> result E A * S.

#[export] Instance StM_ret S E : MRet (StM S E) := fun A a s => (Ok a, s).
#[export] Instance StM_bind S E : MBind (StM S E) := fun A C f m s =>
  match m s with
  | (Ok a, s') => f a s'
  | (Err e, s') => (Err e, s')
  end.

Definition st_lift {S E A} (r : result E A) : StM S E A := fun s => (r, s).

Definition st_map_err {S E F A} (f : E -> F) (m : StM S E A) : StM S F A := fun s =>
  let '(r, s') := m s in (map_err f r, s').

Fixpoint st_for {S E A} (f : A -> StM S E ()) (l : list A) : StM S E () :=
  match l with
  | [] => mret ()
  | x :: r => _ ← f x; st_for f r
  end.

Fixpoint st_foldM {S E A X} (f : X -> A -> StM S E X) (l : list A) (x : X) : StM S E X :=
  match l with
  | [] => mret x
  | a :: r => x ← f x a; st_foldM f r x
  end.

(** ** Machine integers *)

Definition usize_max : Z := 2 ^ 64 - 1.
Definition u64_max : Z := 2 ^ 64 - 1.
Definition u32_max : Z := 2 ^ 32 - 1.
Definition u16_max : Z := 2 ^ 16 - 1.

(** Wrap-around of [AtomicUsize::fetch_add] and saturating arithmetic at a width. *)
Definition wrap_usize (z : Z) : Z := z mod 2 ^ 64.
Definition saturating_add (max a b : Z) : Z := Z.min (a + b) max.
Definition saturating_sub (a b : Z) : Z := Z.max 0 (a - b).

(** ** Tactics *)

(** Split every [if]/[match] in the goal or in a hypothesis, remembering the equation. *)
Ltac split_match :=
  match goal with
  | H : context [match ?x with _ => _ end] |- _ =>
      lazymatch x with context [match _ with _ => _ end] => fail | _ => destruct x eqn:? end
  | |- context [match ?x with _ => _ end] =>
      lazymatch x with context [match _ with _ => _ end] => fail | _ => destruct x eqn:? end
  end.

(** Reflect boolean facts into [Prop] facts that [lia] and [naive_solver] use. *)
Ltac breflect :=
  repeat match goal with
  | H : _ && _ = true |- _ => apply andb_prop in H as [? ?]
  | H : _ || _ = false |- _ => apply orb_false_elim in H as [? ?]
  | H : negb _ = true |- _ => apply negb_true_iff in H
  | H : negb _ = false |- _ => apply negb_false_iff in H
  | H : bool_decide _ = true |- _ => apply bool_decide_eq_true in H
  | H : bool_decide _ = false |- _ => apply bool_decide_eq_false in H
  | H : (_ =? _) = true |- _ => apply Z.eqb_eq in H
  | H : (_ =? _) = false |- _ => apply Z.eqb_neq in H
  end.

(** Disequality of two closed byte strings (header names, keywords). *)
Ltac closed_ne :=
  let H := fresh in intro H; vm_compute in H; discriminate H.

(** Invert monadic binds that are known to succeed. *)
Ltac bind_inv H :=
  match type of H with
  | context [mbind _ ?r] =>
      let E := fresh "Hbind" in
      destruct r eqn:E; cbn [mbind result_bind option_bind] in H; [| discriminate H]
  end.

Create HintDb rpxy discriminated.

(** ** Generic lemmas *)

Lemma B_app (s t : string) : B (s +:+ t) = B s ++ B t.
Proof. induction s as [|c s IH]; [done|]. cbn. by rewrite <- IH. Qed.

Lemma ok_Some {E A} (r : result E A) (a : A) : ok r = Some a <-> r = Ok a.
Proof. destruct r; naive_solver. Qed.

Lemma ensure_Ok {E} (c : bool) (e : E) : ensure c e = Ok () <-> c = true.
Proof. destruct c; naive_solver. Qed.

Lemma ok_or_Ok {E A} (o : option A) (e : E) a : ok_or o e = Ok a -> o = Some a.
Proof. destruct o; naive_solver. Qed.

Lemma result_bind_Ok {E A C} (r : result E A) (f : A -> result E C) c :
  (a ← r; f a) = Ok c -> exists a, r = Ok a /\ f a = Ok c.
Proof. destruct r; [|done]. cbn. eauto. Qed.

Lemma result_fmap_Ok {E A C} (r : result E A) (f : A -> C) c :
  f <$> r = Ok c -> exists a, r = Ok a /\ c = f a.
Proof. destruct r; [|done]. cbn. intros [= <-]. eauto. Qed.

Lemma map_err_Ok {E F A} (f : E -> F) (r : result E A) a : map_err f r = Ok a -> r = Ok a.
Proof. destruct r; [|done]. by intros [= ->]. Qed.

(** Takes apart the successful run of a function in the result monad. *)
Ltac inv_ok :=
  repeat match goal with
  | H : mbind _ _ = Ok _ |- _ => apply result_bind_Ok in H as (? & ? & H)
  | H : fmap _ _ = Ok _ |- _ => apply result_fmap_Ok in H as (? & ? & H)
  | H : map_err _ _ = Ok _ |- _ => apply map_err_Ok in H
  | H : ensure _ _ = Ok ?u |- _ => destruct u; apply ensure_Ok in H
  | H : ok_or _ _ = Ok _ |- _ => apply ok_or_Ok in H
  | H : Err _ = Ok _ |- _ => discriminate H
  | H : Ok _ = Ok _ |- _ => injection H as H
  end.

Section mapM.
Context {E A C : Type} (f : A -> result E C).

Lemma result_mapM_Ok (l : list A) (k : list C) :
  result_mapM f l = Ok k <-> Forall2 (fun x y => f x = Ok y) l k.
Proof.
  revert k; induction l as [|x l IH]; intros k; cbn.
  - split; [intros [= <-]; constructor | intros H; by inversion H].
  - split.
    + intros H. destruct (f x) as [y|e] eqn:Hx; cbn in H; [|done].
      destruct (result_mapM f l) as [ys|e] eqn:Hl; cbn in H; [|done].
      injection H as <-. constructor; [done|]. by apply IH.
    + intros H. inversion H as [|? y ? ys Hx Hl]; subst.
      rewrite Hx; cbn. apply IH in Hl. by rewrite Hl.
Qed.

Lemma result_mapM_elem l k c :
  result_mapM f l = Ok k -> c ∈ k -> exists a, a ∈ l /\ f a = Ok c.
Proof.
  intros Hm%result_mapM_Ok [i Hi]%list_elem_of_lookup.
  destruct (Forall2_lookup_r _ _ _ _ _ Hm Hi) as (a & Ha & Hf). exists a.
  split; [by eapply list_elem_of_lookup_2|done].
Qed.

Lemma result_mapM_app (l1 l2 : list A) :
  result_mapM f (l1 ++ l2) =
    (k1 ← result_mapM f l1; k2 ← result_mapM f l2; Ok (k1 ++ k2)).
Proof.
  induction l1 as [|x l1 IH]; cbn.
  - by destruct (result_mapM f l2).
  - destruct (f x); cbn; [|done]. rewrite IH.
    destruct (result_mapM f l1); cbn; [|done].
    by destruct (result_mapM f l2).
Qed.
End mapM.

Lemma elem_of_concat_map {A C} (f : A -> list C) l c :
  c ∈ concat (map f l) <-> exists a, a ∈ l /\ c ∈ f a.
Proof. induction l as [|x l IH]; cbn; set_solver. Qed.

(** Invariants of a [for] loop. *)
Lemma result_foldM_ind {E A S} (f : S -> A -> result E S) (P : list A -> S -> Prop)
    (l : list A) (s s' : S) :
  P [] s ->
  (forall done x s1 s2, P done s1 -> f s1 x = Ok s2 -> P (done ++ [x]) s2) ->
  result_foldM f l s = Ok s' -> P l s'.
Proof.
  intros H0 Hstep. change l with ([] ++ l) at 2. revert s H0. generalize (@nil A) as dn.
  induction l as [|x l IH]; intros dn s HP Hl; cbn in Hl.
  - injection Hl as <-. by rewrite app_nil_r.
  - destruct (f s x) as [s1|e] eqn:Hf; cbn in Hl; [|done].
    specialize (IH (dn ++ [x]) s1 (Hstep _ _ _ _ HP Hf) Hl).
    by rewrite <- app_assoc in IH.
Qed.

Lemma st_bind_Ok {S E A C} (m : StM S E A) (f : A -> StM S E C) s c s' :
  (m ≫= f) s = (Ok c, s') -> exists a s1, m s = (Ok a, s1) /\ f a s1 = (Ok c, s').
Proof. unfold mbind, StM_bind. destruct (m s) as [[a|e] s1]; [eauto|done]. Qed.

Lemma st_lift_Ok {S E A} (r : result E A) (s : S) a s' : st_lift r s = (Ok a, s') -> r = Ok a /\ s' = s.
Proof. unfold st_lift. by intros [= -> ->]. Qed.

Lemma st_foldM_ind {S E A X} (f : X -> A -> StM S E X) (P : X -> S -> Prop) l x s x' s' :
  P x s ->
  (forall a x1 s1 x2 s2, a ∈ l -> P x1 s1 -> f x1 a s1 = (Ok x2, s2) -> P x2 s2) ->
  st_foldM f l x s = (Ok x', s') -> P x' s'.
Proof.
  revert x s. induction l as [|a l IH]; intros x s HP Hstep; cbn [st_foldM]; [by intros [= <- <-]|].
  intros (x1 & s1 & Hf & Hr)%st_bind_Ok. apply (IH x1 s1); [|intros; eapply Hstep; [by right|done..]|done].
  eapply Hstep; [by left|done|done].
Qed.

(** Operations that relate the state before to the state after, whatever they return. *)
Section keeps.
Context {S : Type} (R : relation S) `{!PreOrder R}.

Definition st_keeps {E A} (m : StM S E A) : Prop := forall s, R s (m s).2.

Lemma keeps_ret {E A} (a : A) : st_keeps (mret a : StM S E A).
Proof. intros s. done. Qed.

Lemma keeps_lift {E A} (r : result E A) : st_keeps (st_lift r).
Proof. intros s. done. Qed.

Lemma keeps_bind {E A C} (m : StM S E A) (f : A -> StM S E C) :
  st_keeps m -> (forall a, st_keeps (f a)) -> st_keeps (m ≫= f).
Proof.
  intros Hm Hf s. specialize (Hm s). unfold mbind, StM_bind. destruct (m s) as [[a|e] s']; [|done].
  etrans; [exact Hm|apply Hf].
Qed.

Lemma keeps_map_err {E F A} (f : E -> F) (m : StM S E A) : st_keeps m -> st_keeps (st_map_err f m).
Proof. intros Hm s. specialize (Hm s). unfold st_map_err. by destruct (m s). Qed.

Lemma keeps_for {E A} (f : A -> StM S E ()) l : (forall x, x ∈ l -> st_keeps (f x)) -> st_keeps (st_for f l).
Proof.
  induction l as [|x l IH]; intros Hf; cbn [st_for]; [apply keeps_ret|].
  apply keeps_bind; [apply Hf; by left|]. intros _. apply IH. intros y Hy. apply Hf. by right.
Qed.

Lemma keeps_foldM {E A X} (f : X -> A -> StM S E X) l x :
  (forall x a, a ∈ l -> st_keeps (f x a)) -> st_keeps (st_foldM f l x).
Proof.
  revert x. induction l as [|a l IH]; intros x Hf; cbn [st_foldM]; [apply keeps_ret|].
  apply keeps_bind; [apply Hf; by left|]. intros x'. apply IH. intros y b Hb. apply Hf. by right.
Qed.
End keeps.

Lemma saturating_add_bounds max a b :
  0 <= a <= max -> 0 <= b -> 0 <= saturating_add max a b <= max.
Proof. unfold saturating_add. lia. Qed.

Lemma saturating_add_exact max a b : a + b <= max -> saturating_add max a b = a + b.
Proof. unfold saturating_add. lia. Qed.

Lemma saturating_sub_exact a b : b <= a -> saturating_sub a b = a - b.
Proof. unfold saturating_sub. lia. Qed.

Lemma wrap_usize_small z : 0 <= z <= usize_max -> wrap_usize z = z.
Proof. unfold wrap_usize, usize_max. intros. apply Z.mod_small. lia. Qed.

(** ** Counting the elements of a list that satisfy a test *)

Fixpoint count_if {A} (f : A -> bool) (l : list A) : Z :=
  match l with
  | [] => 0
  | x :: r => (if f x then 1 else 0) + count_if f r
  end.

Section count_if.
Context {A : Type} (f : A -> bool).

Lemma count_if_app l k : count_if f (l ++ k) = count_if f l + count_if f k.
Proof. induction l as [|x l IH]; cbn [count_if app]; [done|]. rewrite IH. lia. Qed.

Lemma count_if_bounds l : 0 <= count_if f l <= Z.of_nat (length l).
Proof. induction l as [|x l IH]; cbn [count_if length]; [done|]. case_match; lia. Qed.

Lemma count_if_insert l i x y :
  l !! i = Some x ->
  count_if f (<[i:=y]> l) = count_if f l - (if f x then 1 else 0) + (if f y then 1 else 0).
Proof.
  revert i; induction l as [|z l IH]; intros [|i] Hi; cbn in *; simplify_eq; [lia|].
  rewrite IH by done. lia.
Qed.

Lemma count_if_delete l i x :
  l !! i = Some x -> count_if f (delete i l) = count_if f l - (if f x then 1 else 0).
Proof.
  revert i; induction l as [|z l IH]; intros [|i] Hi; cbn in *; simplify_eq; [lia|].
  rewrite IH by done. lia.
Qed.

Lemma count_if_pos l i x : l !! i = Some x -> f x = true -> 1 <= count_if f l.
Proof.
  intros Hi Hx. apply count_if_delete in Hi. rewrite Hx in Hi.
  pose proof (count_if_bounds (delete i l)). lia.
Qed.

Lemma count_if_zero l : Forall (fun x => f x = false) l -> count_if f l = 0.
Proof. induction 1 as [|x l Hx _ IH]; cbn [count_if]; [done|]. by rewrite Hx, IH. Qed.

Lemma count_if_le (g : A -> bool) l :
  (forall x, f x = true -> g x = true) -> count_if f l <= count_if g l.
Proof.
  intros H. induction l as [|x l IH]; cbn [count_if]; [done|].
  specialize (H x). destruct (f x), (g x); lia.
Qed.
End count_if.

(** ** Filters that keep nothing, or everything *)

Lemma filter_nil_Forall {A} (f : A -> bool) l : List.filter f l = [] <-> Forall (fun x => f x = false) l.
Proof.
  induction l as [|x l IH]; cbn; [done|]. rewrite Forall_cons. destruct (f x); [|rewrite IH]; naive_solver.
Qed.

Lemma filter_negb_id {A} (f : A -> bool) l :
  List.filter f l = [] -> List.filter (fun x => negb (f x)) l = l.
Proof.
  rewrite filter_nil_Forall. induction 1 as [|x l Hx _ IH]; cbn; [done|]. by rewrite Hx, IH.
Qed.

(** ** Hash maps in some iteration order

    A [HashMap] is the list of its entries in the order it would be iterated; the
    theorems about an iteration hold for every permutation of the list. *)

Section hash_map.
Context {K V : Type} `{EqDecision K}.

Fixpoint map_put (k : K) (v : V) (m : list (K * V)) : list (K * V) :=
  match m with
  | [] => [(k, v)]
  | (k', v') :: r => if decide (k = k') then (k, v) :: r else (k', v') :: map_put k v r
  end.

Fixpoint map_find (k : K) (m : list (K * V)) : option V :=
  match m with
  | [] => None
  | (k', v') :: r => if decide (k = k') then Some v' else map_find k r
  end.

Lemma map_find_put k v m : map_find k (map_put k v m) = Some v.
Proof.
  induction m as [|[k' v'] m IH]; cbn; [by rewrite decide_True|].
  case_decide; cbn; [by rewrite decide_True|by rewrite decide_False].
Qed.

Lemma map_find_put_ne k k' v m : k <> k' -> map_find k' (map_put k v m) = map_find k' m.
Proof.
  intros Hne. induction m as [|[j w] m IH]; cbn; [by rewrite decide_False|].
  case_decide; subst; cbn; [by rewrite !decide_False|]. by rewrite IH.
Qed.

Lemma map_put_elem k v m k' v' :
  (k', v') ∈ map_put k v m -> k' = k /\ v' = v \/ (k', v') ∈ m.
Proof.
  induction m as [|[j w] m IH]; cbn.
  - intros [= -> ->]%list_elem_of_singleton. by left.
  - case_decide; subst; intros [[= -> ->]|Hin]%elem_of_cons; [by left|by right; right|by right; left|].
    destruct (IH Hin); [by left|by right; right].
Qed.

Lemma map_put_keys k v m : NoDup (fst <$> m) -> NoDup (fst <$> map_put k v m).
Proof.
  induction m as [|[j w] m IH]; cbn; [intros _; apply NoDup_singleton|].
  intros [Hj Hm]%NoDup_cons. case_decide; subst; cbn; [by constructor|].
  constructor; [|by apply IH]. intros ([j' w'] & -> & Hin)%list_elem_of_fmap.
  apply map_put_elem in Hin as [[-> _]|Hin]; [done|]. apply Hj.
  apply list_elem_of_fmap. by exists (j', w').
Qed.

Lemma map_find_in k v m : map_find k m = Some v -> (k, v) ∈ m.
Proof.
  induction m as [|[k' v'] m IH]; [done|]. cbn. case_decide; subst; [intros [= ->]; by left|].
  intros Hf. right. by apply IH.
Qed.

Lemma map_find_elem k v m : NoDup (fst <$> m) -> map_find k m = Some v <-> (k, v) ∈ m.
Proof.
  induction m as [|[j w] m IH]; cbn; [by rewrite elem_of_nil|].
  intros [Hj Hm]%NoDup_cons. rewrite elem_of_cons. case_decide as E; subst.
  - split; [intros [= ->]; by left|]. intros [[= ->]|Hin]; [done|]. destruct Hj.
    apply list_elem_of_fmap. by exists (j, v).
  - rewrite IH by done. split; [by right|]. by intros [[= -> ->]|?].
Qed.
Lemma fold_put_keys {X} (f : X -> K) (g : X -> V) l m :
  NoDup (fst <$> m) -> NoDup (fst <$> fold_left (fun m x => map_put (f x) (g x) m) l m).
Proof. revert m. induction l as [|x l IH]; intros m Hm; [done|]. cbn [fold_left]. by apply IH, map_put_keys. Qed.

Lemma fold_put_other {X} (f : X -> K) (g : X -> V) l m k :
  k ∉ map f l -> map_find k (fold_left (fun m x => map_put (f x) (g x) m) l m) = map_find k m.
Proof.
  revert m. induction l as [|x l IH]; intros m Hk; [done|]. cbn [fold_left map] in *.
  apply not_elem_of_cons in Hk as [Hne Hk]. rewrite IH, map_find_put_ne by (done || congruence). done.
Qed.

Lemma fold_put_find {X} (f : X -> K) (g : X -> V) l m x :
  NoDup (map f l) -> x ∈ l -> map_find (f x) (fold_left (fun m x => map_put (f x) (g x) m) l m) = Some (g x).
Proof.
  revert m. induction l as [|y l IH]; intros m Hnd Hx; [by apply elem_of_nil in Hx|]. cbn [fold_left map] in *.
  apply NoDup_cons in Hnd as [Hy Hnd]. apply elem_of_cons in Hx as [<- |Hx]; [|by apply IH].
  rewrite fold_put_other by done. apply map_find_put.
Qed.

Lemma fold_put_elem {X} (f : X -> K) (g : X -> V) l m k v :
  (k, v) ∈ fold_left (fun m x => map_put (f x) (g x) m) l m ->
  (k, v) ∈ m \/ exists x, x ∈ l /\ k = f x /\ v = g x.
Proof.
  revert m. induction l as [|y l IH]; intros m Hin; [by left|]. cbn [fold_left] in Hin.
  destruct (IH _ Hin) as [Hm|(x & Hx & -> & ->)]; [|right; exists x; split; [by right|done]].
  apply map_put_elem in Hm as [[-> ->]|Hm]; [right; exists y; split; [by left|done]|by left].
Qed.
End hash_map.

(** [Iterator::max_by_key]: the last of the elements with the greatest key. *)
Definition max_by_key {A} (key : A -> nat) (l : list A) : option A :=
  match l with
  | [] => None
  | x :: r => Some (fold_left (fun best y => if (key y <? key best)%nat then best else y) r x)
  end.

Lemma max_by_key_Some {A} (key : A -> nat) l x :
  max_by_key key l = Some x -> x ∈ l /\ forall y, y ∈ l -> (key y <= key x)%nat.
Proof.
  destruct l as [|z l]; [done|]. cbn [max_by_key]. intros [= <-]. revert z.
  induction l as [|w l IH]; intros z; cbn [fold_left].
  - split; [by left|]. by intros y ->%list_elem_of_singleton.
  - destruct (Nat.ltb_spec (key w) (key z)) as [Hlt|Hge].
    + destruct (IH z) as [Hin Hmax]. split; [apply elem_of_cons in Hin as [->|]; [by left|by right; right]|].
      intros y [->|[->|Hy]%elem_of_cons]%elem_of_cons; [apply Hmax; by left| |apply Hmax; by right].
      pose proof (Hmax z ltac:(by left)). lia.
    + destruct (IH w) as [Hin Hmax]. split; [by right|].
      intros y [->|Hy]%elem_of_cons; [|by apply Hmax]. pose proof (Hmax w ltac:(by left)). lia.
Qed.

Lemma max_by_key_None {A} (key : A -> nat) l : max_by_key key l = None <-> l = [].
Proof. by destruct l. Qed.

(** ** Runs of a system *)

(** The state after a list of events, if each was possible. *)
Definition run_events {S E} (step : S -> E -> option S) (s : S) (es : list E) : option S :=
  foldl (fun s e => s ← s; step s e) (Some s) es.

Lemma run_events_rtc {S E} (step : S -> E -> option S) es s s' :
  run_events step s es = Some s' -> rtc (fun s s' => exists e, step s e = Some s') s s'.
Proof.
  unfold run_events. revert s. induction es as [|e es IH]; intros s; cbn; [by intros [= ->]|].
  destruct (step s e) as [s1|] eqn:E1; cbn.
  - intros Hs. eapply rtc_l; [by exists e|]. by apply IH.
  - intros Hs. exfalso. clear IH E1. by induction es.
Qed.
