(* ===== verification/RustStr.v ===== *)
(** * The string API of the Rust standard library that rpxy calls

    [&str] and [&[u8]] values are lists of bytes (UTF-8 for [&str]). Only the
    functions the sources use are modelled: ASCII classification and case
    folding, [strip_prefix]/[strip_suffix]/[split]/[split_once]/[rsplit_once],
    [trim] (Unicode [White_Space], recognised on its UTF-8 encodings), [join],
    and decimal/hexadecimal printing and parsing. The lemmas are the round
    trips and splitting laws the components use. *)

From S2P Require Import Prelude.

(** ** ASCII *)

Definition is_ascii_digit (b : byte) : bool := (48 <=? b) && (b <=? 57).
Definition is_ascii_uppercase (b : byte) : bool := (65 <=? b) && (b <=? 90).
Definition is_ascii_lowercase (b : byte) : bool := (97 <=? b) && (b <=? 122).
Definition is_ascii_alphanumeric (b : byte) : bool :=
  is_ascii_digit b || is_ascii_uppercase b || is_ascii_lowercase b.

(** [u8::is_ascii_whitespace]: space, tab, line feed, form feed, carriage return. *)
Definition is_ascii_whitespace (b : byte) : bool :=
  (b =? 32) || (b =? 9) || (b =? 10) || (b =? 12) || (b =? 13).

Definition is_ascii (s : str) : bool := forallb (fun b => (0 <=? b) && (b <=? 127)) s.

Definition lower_byte (b : byte) : byte := if is_ascii_uppercase b then b + 32 else b.
Definition to_ascii_lowercase (s : str) : str := map lower_byte s.
Definition eq_ignore_ascii_case (s t : str) : bool :=
  bool_decide (to_ascii_lowercase s = to_ascii_lowercase t).

(** Bytes [HeaderValue::to_str] lets through: visible ASCII and the tab. *)
Definition is_visible_ascii (b : byte) : bool := ((32 <=? b) && (b <? 127)) || (b =? 9).

(** ** Searching and splitting *)

Fixpoint strip_prefix (p s : str) : option str :=
  match p, s with
  | [], _ => Some s
  | a :: p', b :: s' => if a =? b then strip_prefix p' s' else None
  | _ :: _, [] => None
  end.

Definition starts_with (p s : str) : bool := bool_decide (is_Some (strip_prefix p s)).

Definition strip_suffix (p s : str) : option str :=
  r ← strip_prefix (rev p) (rev s); Some (rev r).

(** [bytes.iter().position(|&b| b == c)] *)
Fixpoint position (c : byte) (s : str) : option nat :=
  match s with
  | [] => None
  | b :: r => if b =? c then Some 0%nat else S <$> position c r
  end.

Definition count_byte (c : byte) (s : str) : nat := length (List.filter (fun b => b =? c) s).

(** [s.split(c)]: always at least one piece. *)
Fixpoint split_on (p : byte -> bool) (s : str) : list str :=
  match s with
  | [] => [[]]
  | b :: r =>
      if p b then [] :: split_on p r
      else match split_on p r with
           | [] => [[b]]
           | x :: xs => (b :: x) :: xs
           end
  end.

Definition split_char (c : byte) (s : str) : list str := split_on (fun b => b =? c) s.

(** [Path::join] with a relative path. *)
Definition path_join (dir name : str) : str :=
  match last dir with
  | None => name
  | Some b => if b =? SLASH then dir ++ name else dir ++ SLASH :: name
  end.

Fixpoint split_once (c : byte) (s : str) : option (str * str) :=
  match s with
  | [] => None
  | b :: r =>
      if b =? c then Some ([], r)
      else '(x, y) ← split_once c r; Some (b :: x, y)
  end.

Definition rsplit_once (c : byte) (s : str) : option (str * str) :=
  '(x, y) ← split_once c (rev s); Some (rev y, rev x).

Fixpoint join (sep : str) (l : list str) : str :=
  match l with
  | [] => []
  | [x] => x
  | x :: r => x ++ sep ++ join sep r
  end.

(** ** [str::trim]

    Unicode [White_Space] by UTF-8 length: one byte, U+0085/U+00A0 (two bytes),
    and U+1680, U+2000-200A, U+2028, U+2029, U+202F, U+205F, U+3000 (three). *)

Definition ws1 (a : byte) : bool := ((9 <=? a) && (a <=? 13)) || (a =? 32).
Definition ws2 (a b : byte) : bool := (a =? 194) && ((b =? 133) || (b =? 160)).
Definition ws3 (a b c : byte) : bool :=
  ((a =? 225) && (b =? 154) && (c =? 128))
  || ((a =? 226) && (b =? 128)
      && (((128 <=? c) && (c <=? 138)) || (c =? 168) || (c =? 169) || (c =? 175)))
  || ((a =? 226) && (b =? 129) && (c =? 159))
  || ((a =? 227) && (b =? 128) && (c =? 128)).

Fixpoint trim_start (s : str) : str :=
  match s with
  | [] => []
  | a :: r =>
      if ws1 a then trim_start r
      else match r with
           | b :: r2 =>
               if ws2 a b then trim_start r2
               else match r2 with
                    | c :: r3 => if ws3 a b c then trim_start r3 else s
                    | [] => s
                    end
           | [] => s
           end
  end.

(** The same on the reversed string. *)
Fixpoint trim_rev (s : str) : str :=
  match s with
  | [] => []
  | a :: r =>
      if ws1 a then trim_rev r
      else match r with
           | b :: r2 =>
               if ws2 b a then trim_rev r2
               else match r2 with
                    | c :: r3 => if ws3 c b a then trim_rev r3 else s
                    | [] => s
                    end
           | [] => s
           end
  end.

Definition trim_end (s : str) : str := rev (trim_rev (rev s)).
Definition trim (s : str) : str := trim_end (trim_start s).

(** ** Numbers *)

(** [char::to_digit(radix)] for radix 10 and 16 (both letter cases). *)
Definition to_digit (radix : Z) (b : byte) : option Z :=
  let v := if is_ascii_digit b then b - 48
           else if (97 <=? b) && (b <=? 102) then b - 87
           else if (65 <=? b) && (b <=? 70) then b - 55
           else radix in
  if v <? radix then Some v else None.

Definition is_digit (radix : Z) (b : byte) : bool := bool_decide (is_Some (to_digit radix b)).

Definition digit_char (d : Z) : byte := if d <? 10 then d + 48 else d + 87.

(** [{}] and [{:x}] of an unsigned integer. *)
Fixpoint show_go (radix : Z) (fuel : nat) (n : Z) : str :=
  match fuel with
  | O => []
  | S f => if n <? radix then [digit_char n]
           else show_go radix f (n / radix) ++ [digit_char (n mod radix)]
  end.

Definition show_radix (radix n : Z) : str := show_go radix (S (Z.to_nat (Z.log2 n))) n.
Definition show_dec (n : Z) : str := show_radix 10 n.
Definition show_hex (n : Z) : str := show_radix 16 n.

#[global] Arguments show_radix : simpl never.
#[global] Arguments show_dec : simpl never.
#[global] Arguments show_hex : simpl never.

Definition digits_value (radix : Z) (s : str) : Z :=
  fold_left (fun acc b => acc * radix + default 0 (to_digit radix b)) s 0.

(** [s.parse::<uN>()]: an optional [+], at least one digit, no overflow. *)
Definition parse_uint (max : Z) (s : str) : option Z :=
  let d := match s with b :: r => if b =? PLUS then r else s | [] => s end in
  if negb (bool_decide (d = [])) && forallb (is_digit 10) d
     && (digits_value 10 d <=? max)
  then Some (digits_value 10 d) else None.

(** * Lemmas *)

(** ** Case folding *)

Lemma lower_byte_idem b : lower_byte (lower_byte b) = lower_byte b.
Proof. unfold lower_byte, is_ascii_uppercase. repeat case_match; lia. Qed.

Lemma to_ascii_lowercase_idem s :
  to_ascii_lowercase (to_ascii_lowercase s) = to_ascii_lowercase s.
Proof.
  unfold to_ascii_lowercase. rewrite map_map. apply map_ext, lower_byte_idem.
Qed.

Lemma to_ascii_lowercase_app s t :
  to_ascii_lowercase (s ++ t) = to_ascii_lowercase s ++ to_ascii_lowercase t.
Proof. apply map_app. Qed.

Lemma eq_ignore_ascii_case_refl s : eq_ignore_ascii_case s s = true.
Proof. by apply bool_decide_eq_true. Qed.

Lemma eq_ignore_ascii_case_lower s t :
  eq_ignore_ascii_case (to_ascii_lowercase s) t = eq_ignore_ascii_case s t.
Proof. unfold eq_ignore_ascii_case. by rewrite to_ascii_lowercase_idem. Qed.

#[export] Hint Rewrite to_ascii_lowercase_idem eq_ignore_ascii_case_refl
  eq_ignore_ascii_case_lower : rpxy.

(** ** Prefixes *)

Lemma strip_prefix_Some p s r : strip_prefix p s = Some r <-> s = p ++ r.
Proof.
  revert s; induction p as [|a p IH]; intros s; cbn; [naive_solver|].
  destruct s as [|b s]; [naive_solver|].
  destruct (Z.eqb_spec a b) as [->|Hne]; [rewrite IH; naive_solver|naive_solver].
Qed.

Lemma strip_prefix_app p s : strip_prefix p (p ++ s) = Some s.
Proof. by apply strip_prefix_Some. Qed.

Lemma starts_with_spec p s : starts_with p s = true <-> exists r, s = p ++ r.
Proof.
  unfold starts_with. rewrite bool_decide_eq_true. unfold is_Some.
  by setoid_rewrite strip_prefix_Some.
Qed.

Lemma starts_with_cons a b s : starts_with [a] (b :: s) = (a =? b).
Proof.
  unfold starts_with; cbn. destruct (a =? b); [|by apply bool_decide_eq_false; intros [? ?]].
  apply bool_decide_eq_true; eauto.
Qed.

Lemma strip_suffix_Some p s r : strip_suffix p s = Some r <-> s = r ++ p.
Proof.
  unfold strip_suffix. split.
  - destruct (strip_prefix (rev p) (rev s)) as [q|] eqn:H; cbn; [|done].
    intros [= <-]. apply strip_prefix_Some in H.
    rewrite <- (rev_involutive s), H, rev_app_distr, rev_involutive. done.
  - intros ->. rewrite rev_app_distr, strip_prefix_app. cbn. by rewrite rev_involutive.
Qed.

Lemma strip_suffix_app p s : strip_suffix p (s ++ p) = Some s.
Proof. by apply strip_suffix_Some. Qed.

(** ** Splitting *)

Lemma split_on_nonempty p s : split_on p s <> [].
Proof. destruct s; cbn; repeat case_match; naive_solver. Qed.

Lemma split_on_pieces p s x b : x ∈ split_on p s -> b ∈ x -> p b = false.
Proof.
  revert x; induction s as [|a s IH]; cbn; intros x Hx Hb.
  - apply list_elem_of_singleton in Hx as ->. by apply not_elem_of_nil in Hb.
  - destruct (p a) eqn:Ha.
    + apply elem_of_cons in Hx as [->|Hx]; [by apply not_elem_of_nil in Hb|eauto].
    + destruct (split_on p s) as [|y ys] eqn:E; [by apply split_on_nonempty in E|].
      apply elem_of_cons in Hx as [->|Hx].
      * apply elem_of_cons in Hb as [->|Hb]; [done|]. eapply IH; [|done]. set_solver.
      * eapply IH; [|done]. set_solver.
Qed.

Lemma split_on_nosep p s : forallb (fun b => negb (p b)) s = true -> split_on p s = [s].
Proof.
  induction s as [|a s IH]; cbn; [done|]. intros [Ha Hs]%andb_prop.
  apply negb_true_iff in Ha. by rewrite Ha, (IH Hs).
Qed.

Lemma split_on_app p x c s :
  forallb (fun b => negb (p b)) x = true -> p c = true ->
  split_on p (x ++ c :: s) = x :: split_on p s.
Proof.
  intros Hx Hc. induction x as [|a x IH]; cbn in *; [by rewrite Hc|].
  apply andb_prop in Hx as [Ha Hx]. apply negb_true_iff in Ha.
  by rewrite Ha, (IH Hx).
Qed.

(** Joining what was split gives the input back. *)
Lemma join_split_char c s : join [c] (split_char c s) = s.
Proof.
  unfold split_char. induction s as [|a s IH]; cbn; [done|].
  destruct (split_on _ s) as [|y ys] eqn:E; [by apply split_on_nonempty in E|].
  destruct (Z.eqb_spec a c) as [->|Hne]; [by rewrite <- IH|].
  destruct ys; cbn in *; [by rewrite <- IH|by rewrite <- IH].
Qed.

Lemma not_elem_nosep (c : byte) (x : str) : c ∉ x -> forallb (fun b => negb (b =? c)) x = true.
Proof.
  intros Hx. apply forallb_forall. intros b Hb%list_elem_of_In. apply negb_true_iff, Z.eqb_neq. by intros ->.
Qed.

Lemma split_once_Some c s x y :
  split_once c s = Some (x, y) <-> s = x ++ c :: y /\ c ∉ x.
Proof.
  revert x; induction s as [|a s IH]; intros x; cbn.
  - split; [done|]. intros [H _]. by destruct x.
  - destruct (Z.eqb_spec a c) as [->|Hne].
    + split.
      * intros [= <- <-]. split; [done|]. apply not_elem_of_nil.
      * intros [H Hx]. destruct x as [|b x]; cbn in H; simplify_eq; [done|set_solver].
    + destruct (split_once c s) as [[u v]|] eqn:E; cbn.
      * split.
        -- intros [= <- <-]. destruct (proj1 (IH u) eq_refl) as [-> ?]. split; [done|set_solver].
        -- intros [H Hx]. destruct x as [|b x]; cbn in H; simplify_eq.
           assert (Some (u, v) = Some (x, y)) as [= -> ->]; [|done].
           apply IH. split; [done|set_solver].
      * split; [done|]. intros [H Hx]. destruct x as [|b x]; cbn in H; simplify_eq.
        discriminate (proj2 (IH x)). split; [done|set_solver].
Qed.

Lemma split_once_None c s : split_once c s = None <-> c ∉ s.
Proof.
  induction s as [|a s IH]; cbn; [set_solver|].
  destruct (Z.eqb_spec a c) as [->|Hne]; [set_solver|].
  destruct (split_once c s) as [[u v]|]; cbn; [|set_solver].
  split; [done|]. intros Hn. exfalso. assert (c ∉ s) as H by set_solver.
  by apply IH in H.
Qed.

Lemma rsplit_once_app c x y : c ∉ y -> rsplit_once c (x ++ c :: y) = Some (x, y).
Proof.
  intros Hy. unfold rsplit_once.
  rewrite rev_app_distr; cbn. rewrite <- app_assoc; cbn.
  rewrite (proj2 (split_once_Some c _ (rev y) (rev x))).
  - cbn. by rewrite !rev_involutive.
  - split; [done|]. rewrite list_elem_of_In, <- in_rev, <- list_elem_of_In. done.
Qed.

Lemma join_cons sep x l : l <> [] -> join sep (x :: l) = x ++ sep ++ join sep l.
Proof. by destruct l. Qed.

(** Splitting what was joined gives the pieces back. *)
Lemma split_char_join_pieces (c : byte) (l : list str) :
  l <> [] -> Forall (fun x => c ∉ x) l -> split_char c (join [c] l) = l.
Proof.
  intros Hne Hl. unfold split_char. induction Hl as [|x l Hx%not_elem_nosep Hl IH]; [done|].
  destruct l as [|y l]; [by apply split_on_nosep|].
  rewrite join_cons by done. cbn [app]. rewrite split_on_app by (done || apply Z.eqb_refl). by rewrite IH.
Qed.

Lemma path_join_inj dir x y : path_join dir x = path_join dir y -> x = y.
Proof.
  unfold path_join. destruct (last dir) as [b|]; [|done]. destruct (b =? SLASH).
  - apply app_inv_head.
  - intros E%app_inv_head. by injection E.
Qed.

(** ** Trimming *)

Definition graphic (b : byte) : bool := (33 <=? b) && (b <=? 126).

Lemma graphic_not_ws b : graphic b = true ->
  ws1 b = false /\ (forall c, ws2 b c = false /\ ws2 c b = false)
  /\ (forall c d, ws3 b c d = false /\ ws3 d c b = false).
Proof.
  unfold graphic, ws1, ws2, ws3. intros H. repeat split; lia.
Qed.

Lemma trim_start_graphic a s : graphic a = true -> trim_start (a :: s) = a :: s.
Proof.
  intros (H1 & H2 & H3)%graphic_not_ws. cbn. rewrite H1.
  destruct s as [|b s]; [done|]. rewrite (proj1 (H2 b)).
  destruct s as [|c s]; [done|]. by rewrite (proj1 (H3 b c)).
Qed.

Lemma trim_rev_graphic a s : graphic a = true -> trim_rev (a :: s) = a :: s.
Proof.
  intros (H1 & H2 & H3)%graphic_not_ws. cbn. rewrite H1.
  destruct s as [|b s]; [done|]. rewrite (proj2 (H2 b)).
  destruct s as [|c s]; [done|]. by rewrite (proj2 (H3 b c)).
Qed.

Lemma trim_end_graphic s a : graphic a = true -> trim_end (s ++ [a]) = s ++ [a].
Proof.
  intros H. unfold trim_end. rewrite rev_app_distr; cbn.
  change (rev (trim_rev (a :: rev s)) = s ++ [a]).
  rewrite trim_rev_graphic by done. cbn. by rewrite rev_involutive.
Qed.

(** A string whose first and last bytes are graphic is left alone by [trim]. *)
Lemma trim_id s :
  (forall a, head s = Some a -> graphic a = true) ->
  (forall a, last s = Some a -> graphic a = true) ->
  trim s = s.
Proof.
  intros Hh Hl. unfold trim. destruct s as [|a s]; [done|].
  rewrite trim_start_graphic by naive_solver.
  destruct (@exists_last _ (a :: s)) as (t & z & E); [done|]. rewrite E in *.
  apply trim_end_graphic, Hl. by rewrite last_snoc.
Qed.

Lemma trim_all_graphic s : forallb graphic s = true -> trim s = s.
Proof.
  intros H. rewrite forallb_forall in H. apply trim_id; intros a Ha; apply H.
  - destruct s; [done|]. injection Ha as ->. by left.
  - apply last_Some in Ha as [l ->]. apply in_or_app; right; by left.
Qed.

Lemma trim_space s : trim (SPACE :: s) = trim s.
Proof. done. Qed.

(** ** Printing and reading numbers *)

Lemma to_digit_char radix d :
  2 <= radix <= 16 -> 0 <= d < radix -> to_digit radix (digit_char d) = Some d.
Proof.
  intros Hr Hd. unfold to_digit, digit_char, is_ascii_digit.
  destruct (Z.ltb_spec d 10).
  - replace ((48 <=? d + 48) && (d + 48 <=? 57)) with true by lia.
    replace (d + 48 - 48) with d by lia. by replace (d <? radix) with true by lia.
  - replace ((48 <=? d + 87) && (d + 87 <=? 57)) with false by lia.
    replace ((97 <=? d + 87) && (d + 87 <=? 102)) with true by lia.
    replace (d + 87 - 87) with d by lia. by replace (d <? radix) with true by lia.
Qed.

Lemma to_digit_range radix b d : to_digit radix b = Some d -> 0 <= d < radix.
Proof. unfold to_digit, is_ascii_digit. intros H. repeat case_match; simplify_eq; lia. Qed.

Lemma digits_value_snoc radix s b :
  digits_value radix (s ++ [b]) = digits_value radix s * radix + default 0 (to_digit radix b).
Proof. unfold digits_value. by rewrite fold_left_app. Qed.

Lemma digits_value_nonneg radix s : 0 <= radix -> 0 <= digits_value radix s.
Proof.
  intros Hr. induction s as [|b s IH] using rev_ind; [done|].
  rewrite digits_value_snoc.
  destruct (to_digit radix b) eqn:E; cbn; [apply to_digit_range in E|]; nia.
Qed.

Section show.
Context (radix : Z) (Hradix : 2 <= radix <= 16).

Lemma show_go_value fuel n :
  0 <= n < radix ^ Z.of_nat fuel -> digits_value radix (show_go radix fuel n) = n.
Proof.
  revert n; induction fuel as [|f IH]; intros n Hn; cbn [show_go]; [change (Z.of_nat 0) with 0 in Hn; rewrite Z.pow_0_r in Hn; cbn; lia|].
  destruct (Z.ltb_spec n radix).
  - change [digit_char n] with ([] ++ [digit_char n]).
    rewrite digits_value_snoc, to_digit_char by lia. cbn. lia.
  - rewrite digits_value_snoc, IH.
    + rewrite to_digit_char by (try apply Z.mod_pos_bound; lia). cbn.
      rewrite (Z.div_mod n radix) at 3 by lia. lia.
    + split; [apply Z.div_pos; lia|]. apply Z.div_lt_upper_bound; [lia|].
      rewrite Nat2Z.inj_succ, Z.pow_succ_r in Hn by lia. lia.
Qed.

Lemma show_go_digits fuel n :
  0 <= n -> Forall (fun b => exists d, 0 <= d < radix /\ b = digit_char d) (show_go radix fuel n).
Proof.
  revert n; induction fuel as [|f IH]; intros n Hn; cbn [show_go]; [constructor|].
  destruct (Z.ltb_spec n radix).
  - repeat constructor. exists n. split; [lia|done].
  - apply Forall_app; split; [apply IH, Z.div_pos; lia|].
    repeat constructor. exists (n mod radix). split; [|done].
    apply Z.mod_pos_bound. lia.
Qed.

Lemma show_go_length fuel n k :
  0 <= n < radix ^ Z.of_nat k -> (0 < k)%nat ->
  (length (show_go radix fuel n) <= k)%nat.
Proof.
  revert n k; induction fuel as [|f IH]; intros n k Hn Hk; cbn [show_go]; [cbn; lia|].
  destruct (Z.ltb_spec n radix); [cbn; lia|].
  destruct k as [|[|k]]; [lia|rewrite Z.pow_1_r in Hn; lia|].
  rewrite length_app; cbn.
  enough (length (show_go radix f (n / radix)) <= S k)%nat by lia.
  apply IH; [|lia]. split; [apply Z.div_pos; lia|].
  apply Z.div_lt_upper_bound; [lia|].
  rewrite (Nat2Z.inj_succ (S k)), Z.pow_succ_r in Hn by lia. lia.
Qed.

Lemma show_go_head fuel n :
  0 <= n < radix ^ Z.of_nat fuel -> (0 < fuel)%nat ->
  exists b s, show_go radix fuel n = b :: s /\ (b = ZERO -> s = [] /\ n = 0).
Proof.
  revert n; induction fuel as [|f IH]; intros n Hn Hf; cbn [show_go]; [lia|].
  destruct (Z.ltb_spec n radix).
  - exists (digit_char n), []. split; [done|]. intros Hd. split; [done|].
    unfold digit_char in Hd. case_match; lia.
  - destruct (IH (n / radix)) as (b & s & -> & Hb).
    + split; [apply Z.div_pos; lia|]. apply Z.div_lt_upper_bound; [lia|].
      rewrite Nat2Z.inj_succ, Z.pow_succ_r in Hn by lia. lia.
    + destruct f; [|lia]. change (Z.of_nat 1) with 1 in Hn. rewrite Z.pow_1_r in Hn. lia.
    + exists b, (s ++ [digit_char (n mod radix)]). split; [done|].
      intros ->. destruct (Hb eq_refl) as [_ Hz].
      assert (1 <= n / radix) by (apply Z.div_le_lower_bound; lia). lia.
Qed.

Lemma show_fuel n : 0 <= n -> 0 <= n < radix ^ Z.of_nat (S (Z.to_nat (Z.log2 n))).
Proof.
  intros Hn. split; [done|].
  rewrite Nat2Z.inj_succ, Z2Nat.id by apply Z.log2_nonneg.
  destruct (decide (n = 0)) as [->|].
  - cbn. lia.
  - apply Z.lt_le_trans with (2 ^ Z.succ (Z.log2 n)); [apply Z.log2_spec; lia|].
    apply Z.pow_le_mono_l. split; lia.
Qed.

Lemma show_radix_value n : 0 <= n -> digits_value radix (show_radix radix n) = n.
Proof. intros. by apply show_go_value, show_fuel. Qed.

Lemma show_radix_digit n b :
  0 <= n -> b ∈ show_radix radix n -> exists d, 0 <= d < radix /\ b = digit_char d.
Proof.
  intros Hn Hb. pose proof (show_go_digits (S (Z.to_nat (Z.log2 n))) n Hn) as H.
  rewrite Forall_forall in H. by apply H.
Qed.

Lemma show_radix_length n k :
  0 <= n < radix ^ Z.of_nat k -> (0 < k)%nat -> (length (show_radix radix n) <= k)%nat.
Proof. apply show_go_length. Qed.

Lemma show_radix_head n :
  0 <= n -> exists b s, show_radix radix n = b :: s /\ (b = ZERO -> s = [] /\ n = 0).
Proof. intros. apply show_go_head; [by apply show_fuel|lia]. Qed.
End show.

Lemma digit_char_graphic d : 0 <= d < 16 -> graphic (digit_char d) = true.
Proof. unfold digit_char, graphic. intros. case_match; lia. Qed.

Lemma digit_char_alnum d : 0 <= d < 16 -> is_ascii_alphanumeric (digit_char d) = true.
Proof.
  unfold digit_char, is_ascii_alphanumeric, is_ascii_digit, is_ascii_uppercase,
    is_ascii_lowercase. intros. case_match; lia.
Qed.

Lemma show_dec_digit n b : 0 <= n -> b ∈ show_dec n -> is_ascii_digit b = true.
Proof.
  intros Hn Hb. destruct (show_radix_digit 10 ltac:(lia) n b Hn Hb) as (d & ? & ->).
  unfold digit_char, is_ascii_digit. case_match; lia.
Qed.

Lemma is_digit_char radix d :
  2 <= radix <= 16 -> 0 <= d < radix -> is_digit radix (digit_char d) = true.
Proof. intros. apply bool_decide_eq_true. rewrite to_digit_char by done. eauto. Qed.

Lemma show_dec_inj n m : 0 <= n -> 0 <= m -> show_dec n = show_dec m -> n = m.
Proof.
  intros Hn Hm E. apply (f_equal (digits_value 10)) in E. unfold show_dec in E.
  by rewrite !show_radix_value in E by lia.
Qed.

Lemma is_digit_ascii b : is_digit 10 b = is_ascii_digit b.
Proof.
  unfold is_digit, to_digit. destruct (is_ascii_digit b) eqn:E.
  - unfold is_ascii_digit in E. rewrite bool_decide_eq_true.
    replace (b - 48 <? 10) with true by lia. eauto.
  - rewrite bool_decide_eq_false. intros [d Hd]. repeat case_match; simplify_eq; lia.
Qed.

(** [n.to_string().parse() == Ok(n)] at every width. *)
Lemma parse_show_uint max n : 0 <= n <= max -> parse_uint max (show_dec n) = Some n.
Proof.
  intros Hn. unfold parse_uint.
  destruct (show_radix_head 10 ltac:(lia) n ltac:(lia)) as (b & s & E & _).
  fold (show_dec n) in E.
  assert (is_ascii_digit b = true) as Hb.
  { apply (show_dec_digit n); [lia|]. rewrite E. set_solver. }
  assert (digits_value 10 (show_dec n) = n) as Hv by (apply show_radix_value; lia).
  assert (forallb (is_digit 10) (show_dec n) = true) as Hd.
  { apply forallb_forall. intros x Hx. rewrite is_digit_ascii.
    apply (show_dec_digit n); [lia|]. by apply list_elem_of_In. }
  rewrite E in *. replace (b =? PLUS) with false by (unfold is_ascii_digit in Hb; lia).
  rewrite Hv, Hd. cbn. by replace (n <=? max) with true by lia.
Qed.

(** ** Bytes that do not occur *)

Lemma starts_with_elem c s : starts_with [c] s = true -> c ∈ s.
Proof. intros [r ->]%starts_with_spec. set_solver. Qed.

Lemma starts_with_not_elem c s : c ∉ s -> starts_with [c] s = false.
Proof. intros H. destruct (starts_with [c] s) eqn:E; [|done]. by apply starts_with_elem in E. Qed.

Lemma strip_prefix_not_elem c s : c ∉ s -> strip_prefix [c] s = None.
Proof.
  intros H. destruct (strip_prefix [c] s) as [r|] eqn:E; [|done].
  apply strip_prefix_Some in E as ->. set_solver.
Qed.

Lemma strip_suffix_not_elem c s : c ∉ s -> strip_suffix [c] s = None.
Proof.
  intros H. destruct (strip_suffix [c] s) as [r|] eqn:E; [|done].
  apply strip_suffix_Some in E as ->. set_solver.
Qed.

Lemma count_byte_app c s t : count_byte c (s ++ t) = (count_byte c s + count_byte c t)%nat.
Proof. unfold count_byte. by rewrite List.filter_app, length_app. Qed.

Lemma count_byte_not_elem c s : c ∉ s -> count_byte c s = 0%nat.
Proof.
  unfold count_byte. induction s as [|b s IH]; [done|]. cbn [List.filter]. intros H.
  destruct (Z.eqb_spec b c) as [->|]; [set_solver|]. apply IH. set_solver.
Qed.

Lemma eq_ignore_ascii_case_elem b s t :
  b ∈ s -> lower_byte b ∉ to_ascii_lowercase t -> eq_ignore_ascii_case s t = false.
Proof.
  intros Hb Ht. apply bool_decide_eq_false. intros E. apply Ht. rewrite <- E.
  apply list_elem_of_fmap. by exists b.
Qed.

Lemma forallb_not_elem (f : byte -> bool) c s : forallb f s = true -> f c = false -> c ∉ s.
Proof. intros H Hc Hin%list_elem_of_In. rewrite forallb_forall in H. rewrite H in Hc; done. Qed.

Lemma forallb_weaken (f g : byte -> bool) s :
  (forall b, f b = true -> g b = true) -> forallb f s = true -> forallb g s = true.
Proof. intros H. rewrite !forallb_forall. auto. Qed.

(** A separator that does not occur before (after) it determines the two sides. *)
Lemma app_sep_inj (c : Z) a b x y :
  c ∉ a -> c ∉ b -> a ++ c :: x = b ++ c :: y -> a = b /\ x = y.
Proof.
  revert b; induction a as [|u a IH]; intros b Ha Hb E; destruct b as [|v b]; cbn in E.
  - by simplify_eq.
  - simplify_eq. set_solver.
  - simplify_eq. set_solver.
  - injection E as -> E. destruct (IH b) as [-> ->]; [set_solver..|done|done].
Qed.

Lemma app_sep_inj_r (c : Z) a b x y :
  c ∉ x -> c ∉ y -> a ++ c :: x = b ++ c :: y -> a = b /\ x = y.
Proof.
  intros Hx Hy E. apply (f_equal (@rev Z)) in E. rewrite !rev_app_distr in E. cbn in E.
  rewrite <- !app_assoc in E. apply app_sep_inj in E as [E1 E2];
    [|rewrite list_elem_of_In, <- in_rev, <- list_elem_of_In; done..].
  apply (f_equal (@rev Z)) in E1, E2. by rewrite !rev_involutive in E1, E2.
Qed.

Lemma rsplit_once_Some c s x y :
  rsplit_once c s = Some (x, y) -> s = x ++ c :: y /\ c ∉ y.
Proof.
  unfold rsplit_once. destruct (split_once c (rev s)) as [[u v]|] eqn:E; cbn; [|done].
  intros [= <- <-]. apply split_once_Some in E as [E Hu].
  apply (f_equal (@rev Z)) in E. rewrite rev_involutive, rev_app_distr in E. cbn in E.
  rewrite <- app_assoc in E. split; [done|]. intros H. apply Hu.
  by apply list_elem_of_In, in_rev, list_elem_of_In.
Qed.

(** ** Predicates on all bytes pass to the pieces *)

Section all_bytes.
Context (f : byte -> bool).

Lemma all_trim_start s : forallb f s = true -> forallb f (trim_start s) = true.
Proof.
  revert s. fix IH 1. intros [|a s] H; [done|]. cbn [forallb] in H. apply andb_prop in H as [Ha Hs].
  cbn [trim_start]. destruct (ws1 a); [by apply IH|].
  destruct s as [|b s]; [cbn; by rewrite Ha|]. cbn [forallb] in Hs. apply andb_prop in Hs as [Hb Hs].
  destruct (ws2 a b); [by apply IH|].
  destruct s as [|c s]; [cbn; by rewrite Ha, Hb|]. cbn [forallb] in Hs. apply andb_prop in Hs as [Hc Hs].
  destruct (ws3 a b c); [by apply IH|]. cbn [forallb]. by rewrite Ha, Hb, Hc, Hs.
Qed.

Lemma all_trim_rev s : forallb f s = true -> forallb f (trim_rev s) = true.
Proof.
  revert s. fix IH 1. intros [|a s] H; [done|]. cbn [forallb] in H. apply andb_prop in H as [Ha Hs].
  cbn [trim_rev]. destruct (ws1 a); [by apply IH|].
  destruct s as [|b s]; [cbn; by rewrite Ha|]. cbn [forallb] in Hs. apply andb_prop in Hs as [Hb Hs].
  destruct (ws2 b a); [by apply IH|].
  destruct s as [|c s]; [cbn; by rewrite Ha, Hb|]. cbn [forallb] in Hs. apply andb_prop in Hs as [Hc Hs].
  destruct (ws3 c b a); [by apply IH|]. cbn [forallb]. by rewrite Ha, Hb, Hc, Hs.
Qed.

Lemma all_rev s : forallb f (rev s) = forallb f s.
Proof.
  induction s as [|a s IH]; [done|]. cbn [rev]. rewrite forallb_app, IH. cbn [forallb].
  by rewrite andb_true_r, andb_comm.
Qed.

Lemma all_trim s : forallb f s = true -> forallb f (trim s) = true.
Proof.
  intros H. unfold trim, trim_end. rewrite all_rev. apply all_trim_rev.
  rewrite all_rev. by apply all_trim_start.
Qed.

Lemma all_app s t : forallb f s = true -> forallb f t = true -> forallb f (s ++ t) = true.
Proof. intros Hs Ht. by rewrite forallb_app, Hs, Ht. Qed.

Lemma all_app_inv s t : forallb f (s ++ t) = true -> forallb f s = true /\ forallb f t = true.
Proof. rewrite forallb_app. by intros ?%andb_prop. Qed.

Lemma all_strip_prefix p s r :
  strip_prefix p s = Some r -> forallb f s = true -> forallb f r = true.
Proof. intros ->%strip_prefix_Some. by intros [_ ?]%all_app_inv. Qed.

Lemma all_strip_suffix p s r :
  strip_suffix p s = Some r -> forallb f s = true -> forallb f r = true.
Proof. intros ->%strip_suffix_Some. by intros [? _]%all_app_inv. Qed.

Lemma all_split_once c s x y :
  split_once c s = Some (x, y) -> forallb f s = true ->
  forallb f x = true /\ forallb f y = true.
Proof.
  intros [-> _]%split_once_Some [Hx Hy]%all_app_inv. cbn in Hy. by apply andb_prop in Hy as [_ Hy].
Qed.

Lemma all_split_on p s :
  forallb f s = true -> Forall (fun x => forallb f x = true) (split_on p s).
Proof.
  induction s as [|a s IH]; intros H; [by repeat constructor|].
  cbn in H. apply andb_prop in H as [Ha Hs]. specialize (IH Hs). cbn [split_on].
  case_match; [by constructor|]. destruct (split_on p s) as [|x xs]; [by repeat constructor; cbn; rewrite Ha|].
  apply Forall_cons in IH as [Hx Hxs]. constructor; [|done]. cbn. by rewrite Ha.
Qed.

Lemma all_join sep l :
  forallb f sep = true -> Forall (fun x => forallb f x = true) l ->
  forallb f (join sep l) = true.
Proof.
  intros Hsep. induction 1 as [|x l Hx Hl IH]; [done|]. destruct l as [|y l]; [done|].
  rewrite join_cons by done. auto using all_app.
Qed.
End all_bytes.

(** ** [String::from_utf8] *)

(** The well-formed UTF-8 sequences: one to four bytes, no overlong form, no
    surrogate, nothing above U+10FFFF. *)
Definition utf8_tail (b : byte) : bool := (128 <=? b) && (b <=? 191).

Fixpoint is_utf8 (s : str) : bool :=
  match s with
  | [] => true
  | a :: r =>
      if (0 <=? a) && (a <=? 127) then is_utf8 r
      else if (194 <=? a) && (a <=? 223) then
        match r with b :: r => utf8_tail b && is_utf8 r | _ => false end
      else if (224 <=? a) && (a <=? 239) then
        match r with
        | b :: c :: r =>
            (if a =? 224 then (160 <=? b) && (b <=? 191)
             else if a =? 237 then (128 <=? b) && (b <=? 159) else utf8_tail b)
            && utf8_tail c && is_utf8 r
        | _ => false
        end
      else if (240 <=? a) && (a <=? 244) then
        match r with
        | b :: c :: d :: r =>
            (if a =? 240 then (144 <=? b) && (b <=? 191)
             else if a =? 244 then (128 <=? b) && (b <=? 143) else utf8_tail b)
            && utf8_tail c && utf8_tail d && is_utf8 r
        | _ => false
        end
      else false
  end.

Lemma ascii_is_utf8 s : forallb (fun b => (0 <=? b) && (b <=? 127)) s = true -> is_utf8 s = true.
Proof. induction s as [|b s IH]; [done|]. cbn. intros [-> Hs]%andb_prop. by apply IH. Qed.

Definition from_utf8 (s : str) : option str := if is_utf8 s then Some s else None.

(** The second byte a three- or four-byte sequence may have after its first. *)
Definition utf8_second (a b : byte) : bool :=
  if a =? 224 then (160 <=? b) && (b <=? 191)
  else if a =? 237 then (128 <=? b) && (b <=? 159)
  else if a =? 240 then (144 <=? b) && (b <=? 191)
  else if a =? 244 then (128 <=? b) && (b <=? 143)
  else utf8_tail b.

(** U+FFFD *)
Definition REPLACEMENT : str := [239; 191; 189].

(** [String::from_utf8_lossy]: each maximal ill-formed prefix of a sequence is
    replaced. *)
Fixpoint from_utf8_lossy (s : str) : str :=
  match s with
  | [] => []
  | a :: r =>
      if (0 <=? a) && (a <=? 127) then a :: from_utf8_lossy r
      else if (194 <=? a) && (a <=? 223) then
        match r with
        | b :: r' => if utf8_tail b then a :: b :: from_utf8_lossy r' else REPLACEMENT ++ from_utf8_lossy r
        | [] => REPLACEMENT
        end
      else if (224 <=? a) && (a <=? 239) then
        match r with
        | b :: r1 =>
            if utf8_second a b then
              match r1 with
              | c :: r2 => if utf8_tail c then a :: b :: c :: from_utf8_lossy r2
                           else REPLACEMENT ++ from_utf8_lossy r1
              | [] => REPLACEMENT
              end
            else REPLACEMENT ++ from_utf8_lossy r
        | [] => REPLACEMENT
        end
      else if (240 <=? a) && (a <=? 244) then
        match r with
        | b :: r1 =>
            if utf8_second a b then
              match r1 with
              | c :: r2 =>
                  if utf8_tail c then
                    match r2 with
                    | d :: r3 => if utf8_tail d then a :: b :: c :: d :: from_utf8_lossy r3
                                 else REPLACEMENT ++ from_utf8_lossy r2
                    | [] => REPLACEMENT
                    end
                  else REPLACEMENT ++ from_utf8_lossy r1
              | [] => REPLACEMENT
              end
            else REPLACEMENT ++ from_utf8_lossy r
        | [] => REPLACEMENT
        end
      else REPLACEMENT ++ from_utf8_lossy r
  end.

Lemma utf8_lossy_id s : is_utf8 s = true -> from_utf8_lossy s = s.
Proof.
  revert s. fix IH 1. intros [|a r]; [done|]. cbn [is_utf8 from_utf8_lossy].
  destruct ((0 <=? a) && (a <=? 127)) eqn:E1; [intros H; f_equal; by apply IH|].
  destruct ((194 <=? a) && (a <=? 223)) eqn:E2.
  { destruct r as [|b r]; [done|]. intros [Hb H]%andb_prop. rewrite Hb. do 2 f_equal. by apply IH. }
  destruct ((224 <=? a) && (a <=? 239)) eqn:E3.
  { destruct r as [|b [|c r]]; [done|done|]. intros [[Hb Hc]%andb_prop H]%andb_prop.
    assert (utf8_second a b = true) as ->.
    { unfold utf8_second in *. repeat case_match; try done; lia. }
    rewrite Hc. do 3 f_equal. by apply IH. }
  destruct ((240 <=? a) && (a <=? 244)) eqn:E4; [|done].
  destruct r as [|b [|c [|d r]]]; [done..|]. intros [[[Hb Hc]%andb_prop Hd]%andb_prop H]%andb_prop.
  assert (utf8_second a b = true) as ->.
  { unfold utf8_second in *. repeat case_match; try done; lia. }
  rewrite Hc, Hd. do 4 f_equal. by apply IH.
Qed.

(** ** [i64::to_be_bytes] and [from_be_bytes] *)

(** The [n] big-endian bytes of a non-negative integer, and back. *)
Fixpoint be_bytes (n : nat) (z : Z) : str :=
  match n with
  | O => []
  | S n => be_bytes n (z / 256) ++ [z mod 256]
  end.

Definition be_value (s : str) : Z := fold_left (fun acc b => acc * 256 + b) s 0.

Definition i64_to_be_bytes (z : Z) : str := be_bytes 8 (z mod 2 ^ 64).

Definition i64_from_be_bytes (s : str) : Z :=
  let v := be_value s in if v <? 2 ^ 63 then v else v - 2 ^ 64.

Lemma be_bytes_length n z : length (be_bytes n z) = n.
Proof. revert z; induction n as [|n IH]; intros z; [done|]. cbn. rewrite length_app, IH. cbn. lia. Qed.

Lemma i64_be_length z : length (i64_to_be_bytes z) = 8%nat.
Proof. apply be_bytes_length. Qed.

Lemma be_value_bytes n z : 0 <= z < 256 ^ Z.of_nat n -> be_value (be_bytes n z) = z.
Proof.
  revert z; induction n as [|n IH]; intros z Hz.
  - change (256 ^ Z.of_nat 0) with 1 in Hz. cbn. lia.
  - cbn [be_bytes]. unfold be_value. rewrite fold_left_app. cbn [fold_left].
    fold (be_value (be_bytes n (z / 256))). rewrite IH.
    + pose proof (Z.div_mod z 256). lia.
    + rewrite Nat2Z.inj_succ, Z.pow_succ_r in Hz by lia.
      split; [apply Z.div_pos; lia|apply Z.div_lt_upper_bound; lia].
Qed.

Lemma i64_be_roundtrip z :
  - 2 ^ 63 <= z < 2 ^ 63 -> i64_from_be_bytes (i64_to_be_bytes z) = z.
Proof.
  intros Hz. unfold i64_from_be_bytes, i64_to_be_bytes.
  rewrite be_value_bytes by (change (256 ^ Z.of_nat 8) with (2 ^ 64); apply Z.mod_pos_bound; lia).
  destruct (Z.ltb_spec z 0).
  - rewrite <- (Z.mod_unique z (2 ^ 64) (-1) (z + 2 ^ 64)) by lia.
    replace (z + 2 ^ 64 <? 2 ^ 63) with false by lia. lia.
  - rewrite Z.mod_small by lia. replace (z <? 2 ^ 63) with true by lia. lia.
Qed.

(** ** Lists of bytes *)

Definition is_bytes (s : str) : bool := forallb (fun b => (0 <=? b) && (b <=? 255)) s.

Lemma is_bytes_app s t : is_bytes (s ++ t) = is_bytes s && is_bytes t.
Proof. apply forallb_app. Qed.

Lemma be_bytes_is_bytes n z : is_bytes (be_bytes n z) = true.
Proof.
  revert z; induction n as [|n IH]; intros z; [done|]. cbn [be_bytes].
  rewrite is_bytes_app, IH. cbn. pose proof (Z.mod_pos_bound z 256). lia.
Qed.

Lemma be_value_snoc s b : be_value (s ++ [b]) = be_value s * 256 + b.
Proof. unfold be_value. by rewrite fold_left_app. Qed.

Lemma be_value_range s : is_bytes s = true -> 0 <= be_value s < 256 ^ Z.of_nat (length s).
Proof.
  induction s as [|b s IH] using rev_ind; intros H; [cbn; lia|].
  rewrite is_bytes_app in H. cbn in H. breflect. destruct IH; [done|].
  rewrite be_value_snoc, length_app. cbn [length]. rewrite Nat.add_1_r, Nat2Z.inj_succ, Z.pow_succ_r by lia.
  lia.
Qed.

Lemma be_bytes_value s : is_bytes s = true -> be_bytes (length s) (be_value s) = s.
Proof.
  induction s as [|b s IH] using rev_ind; intros H; [done|].
  rewrite is_bytes_app in H. cbn in H. breflect.
  rewrite be_value_snoc, length_app. cbn [length]. rewrite Nat.add_1_r. cbn [be_bytes].
  rewrite Z.div_add_l by lia. rewrite Z.div_small by lia. rewrite Z.add_0_r, IH by done.
  do 2 f_equal. rewrite Z.add_comm, Z.mod_add by lia. apply Z.mod_small. lia.
Qed.

Lemma i64_be_value s :
  is_bytes s = true -> length s = 8%nat ->
  i64_to_be_bytes (i64_from_be_bytes s) = s /\ - 2 ^ 63 <= i64_from_be_bytes s < 2 ^ 63.
Proof.
  intros Hb Hl. pose proof (be_value_range s Hb) as Hr. rewrite Hl in Hr.
  change (256 ^ Z.of_nat 8) with (2 ^ 64) in Hr.
  unfold i64_to_be_bytes, i64_from_be_bytes.
  assert ((if be_value s <? 2 ^ 63 then be_value s else be_value s - 2 ^ 64) mod 2 ^ 64
          = be_value s) as ->.
  { case_match; [by apply Z.mod_small; lia|].
    symmetry. apply Z.mod_unique with (-1); lia. }
  split; [rewrite <- Hl; by apply be_bytes_value|case_match; lia].
Qed.

(** ** Trimming twice

    On visible ASCII, trimming leaves a string without white space at its ends. *)

Lemma trim_start_head s a : head (trim_start s) = Some a -> ws1 a = false.
Proof.
  revert s a. fix IH 1. intros [|b s] a; [done|]. cbn [trim_start]. destruct (ws1 b) eqn:Eb; [apply IH|].
  destruct s as [|c s]; [by intros [= <-]|]. destruct (ws2 b c); [apply IH|].
  destruct s as [|d s]; [by intros [= <-]|]. destruct (ws3 b c d); [apply IH|by intros [= <-]].
Qed.

Lemma trim_rev_head s a : head (trim_rev s) = Some a -> ws1 a = false.
Proof.
  revert s a. fix IH 1. intros [|b s] a; [done|]. cbn [trim_rev]. destruct (ws1 b) eqn:Eb; [apply IH|].
  destruct s as [|c s]; [by intros [= <-]|]. destruct (ws2 c b); [apply IH|].
  destruct s as [|d s]; [by intros [= <-]|]. destruct (ws3 d c b); [apply IH|by intros [= <-]].
Qed.

Lemma trim_rev_suffix s : exists p, s = p ++ trim_rev s.
Proof.
  revert s. fix IH 1. intros [|b s]; [by exists []|]. cbn [trim_rev].
  destruct (ws1 b); [destruct (IH s) as [p E]; exists (b :: p); cbn; by rewrite <- E|].
  destruct s as [|c s]; [by exists []|].
  destruct (ws2 c b); [destruct (IH s) as [p E]; exists (b :: c :: p); cbn; by rewrite <- E|].
  destruct s as [|d s]; [by exists []|].
  destruct (ws3 d c b); [destruct (IH s) as [p E]; exists (b :: c :: d :: p); cbn; by rewrite <- E|].
  by exists [].
Qed.

Lemma visible_graphic a : is_visible_ascii a = true -> ws1 a = false -> graphic a = true.
Proof. unfold is_visible_ascii, ws1, graphic. lia. Qed.

Lemma trim_idem s : forallb is_visible_ascii s = true -> trim (trim s) = trim s.
Proof.
  intros Hv. pose proof (all_trim _ s Hv) as Ht. rewrite forallb_forall in Ht.
  apply trim_id; intros a Ha.
  - apply visible_graphic.
    { apply Ht. destruct (trim s); [done|]. cbn in Ha. injection Ha as <-. by left. }
    destruct (trim_rev_suffix (rev (trim_start s))) as [p E].
    apply (f_equal (@rev Z)) in E. rewrite rev_involutive, rev_app_distr in E.
    change (rev (trim_rev (rev (trim_start s)))) with (trim s) in E.
    apply (trim_start_head s). rewrite E. by destruct (trim s).
  - apply visible_graphic.
    { apply last_Some in Ha as [l E]. apply Ht. rewrite E. apply in_or_app. right. by left. }
    apply (trim_rev_head (rev (trim_start s))). unfold trim, trim_end in Ha.
    destruct (trim_rev _) as [|b r]; [done|]. cbn in Ha. rewrite last_snoc in Ha. done.
Qed.

(** ** Trimming a word *)

Lemma trim_start_spaces w s : forallb ws1 w = true -> trim_start (w ++ s) = trim_start s.
Proof. induction w as [|a w IH]; [done|]. cbn. intros [-> Hw]%andb_prop. by apply IH. Qed.

Lemma trim_rev_spaces w s : forallb ws1 w = true -> trim_rev (w ++ s) = trim_rev s.
Proof. induction w as [|a w IH]; [done|]. cbn. intros [-> Hw]%andb_prop. by apply IH. Qed.

Lemma trim_end_spaces w s : forallb ws1 w = true -> trim_end (s ++ w) = trim_end s.
Proof.
  intros Hw. unfold trim_end. rewrite rev_app_distr, trim_rev_spaces; [done|]. by rewrite all_rev.
Qed.

(** White space around a word is cut off. *)
Lemma trim_word w1 x w2 :
  forallb ws1 w1 = true -> forallb ws1 w2 = true -> x <> [] -> forallb graphic x = true ->
  trim (w1 ++ x ++ w2) = x.
Proof.
  intros H1 H2 Hne Hx. unfold trim. rewrite trim_start_spaces by done.
  rewrite <- (trim_all_graphic x Hx) at 2. destruct x as [|a x]; [done|].
  cbn [forallb] in Hx. apply andb_prop in Hx as [Ha _]. cbn [app].
  rewrite !trim_start_graphic by done. unfold trim. rewrite trim_start_graphic by done.
  by rewrite app_comm_cons, trim_end_spaces.
Qed.
