(* ===== verification/RustNet.v ===== *)
(** * [std::net]: IP addresses, their text form, and socket addresses

    [IpAddr], [SocketAddr], [IpAddr::from_str] (the backtracking recursive
    descent parser of [core::net::parser]: at most three decimal digits without
    leading zero per octet, at most four hexadecimal digits per group, one [::],
    an embedded trailing IPv4 address) and [Display] (RFC 5952 compression of the
    longest run of zero groups, [::ffff:a.b.c.d] for mapped addresses). The
    main lemma is that parsing a printed address gives the address back. *)

From S2P Require Import Prelude RustStr.

(** ** Addresses *)

(** An IPv4 address is its four octets, an IPv6 address its eight 16-bit groups. *)
Inductive IpAddr : Type :=
| V4 (a b c d : Z)
| V6 (segments : list Z).

#[export] Instance IpAddr_eq_dec : EqDecision IpAddr.
Proof. solve_decision. Defined.

#[export] Instance IpAddr_countable : Countable IpAddr.
Proof.
  refine (inj_countable'
    (fun ip => match ip with V4 a b c d => inl (a, b, c, d) | V6 s => inr s end)
    (fun x => match x with inl (a, b, c, d) => V4 a b c d | inr s => V6 s end) _).
  by intros [].
Defined.

Definition octet (z : Z) : bool := (0 <=? z) && (z <=? 255).
Definition segment (z : Z) : bool := (0 <=? z) && (z <=? 65535).

(** The values of the Rust type. *)
Definition ip_wf (ip : IpAddr) : bool :=
  match ip with
  | V4 a b c d => octet a && octet b && octet c && octet d
  | V6 s => (length s =? 8)%nat && forallb segment s
  end.

Record SocketAddr := { sa_ip : IpAddr; sa_port : Z }.

#[export] Instance SocketAddr_eq_dec : EqDecision SocketAddr.
Proof. solve_decision. Defined.

(** The two octets of a group, and a group from two octets ([u16::from_be_bytes]). *)
Definition hi (s : Z) : Z := s / 256.
Definition lo (s : Z) : Z := s mod 256.
Definition be16 (a b : Z) : Z := a * 256 + b.

(** [Ipv6Addr::to_ipv4_mapped] ([::ffff:a.b.c.d]) and [Ipv6Addr::to_ipv4]
    (mapped, or IPv4-compatible [::a.b.c.d]). *)
Definition to_ipv4_mapped (s : list Z) : option IpAddr :=
  match s with
  | [0; 0; 0; 0; 0; 65535; ab; cd] => Some (V4 (hi ab) (lo ab) (hi cd) (lo cd))
  | _ => None
  end.

Definition to_ipv4 (s : list Z) : option IpAddr :=
  match s with
  | [0; 0; 0; 0; 0; f; ab; cd] =>
      if (f =? 0) || (f =? 65535) then Some (V4 (hi ab) (lo ab) (hi cd) (lo cd)) else None
  | _ => None
  end.

(** ** [Display] *)

Definition show_ipv4 (a b c d : Z) : str :=
  show_dec a ++ [DOT] ++ show_dec b ++ [DOT] ++ show_dec c ++ [DOT] ++ show_dec d.

(** The longest run of zero groups, the leftmost one on ties: [Span { start, len }]. *)
Record span := { sp_start : nat; sp_len : nat }.

Definition span_step (st : span * span) (i : nat) (g : Z) : span * span :=
  let '(longest, current) := st in
  if g =? 0 then
    let current :=
      {| sp_start := if (sp_len current =? 0)%nat then i else sp_start current;
         sp_len := S (sp_len current) |} in
    (if (sp_len longest <? sp_len current)%nat then current else longest, current)
  else (longest, {| sp_start := 0; sp_len := 0 |}).

Fixpoint span_go (st : span * span) (i : nat) (s : list Z) : span * span :=
  match s with
  | [] => st
  | g :: r => span_go (span_step st i g) (S i) r
  end.

Definition zeroes (s : list Z) : span :=
  fst (span_go ({| sp_start := 0; sp_len := 0 |}, {| sp_start := 0; sp_len := 0 |}) 0 s).

Definition fmt_subslice (s : list Z) : str := join [COLON] (map show_hex s).

Definition show_ipv6 (s : list Z) : str :=
  match to_ipv4_mapped s with
  | Some (V4 a b c d) => B "::ffff:" ++ show_ipv4 a b c d
  | _ =>
      let z := zeroes s in
      if (1 <? sp_len z)%nat then
        fmt_subslice (take (sp_start z) s) ++ [COLON; COLON]
          ++ fmt_subslice (drop (sp_start z + sp_len z) s)
      else fmt_subslice s
  end.

Definition show_ip (ip : IpAddr) : str :=
  match ip with
  | V4 a b c d => show_ipv4 a b c d
  | V6 s => show_ipv6 s
  end.

#[global] Arguments show_ipv4 : simpl never.
#[global] Arguments show_ipv6 : simpl never.

(** ** [FromStr]

    A parser returns the value and the remaining input, [None] leaves the input
    where it was ([read_atomically]). *)

Fixpoint take_digits (radix : Z) (s : str) : str * str :=
  match s with
  | [] => ([], [])
  | b :: r => if is_digit radix b then let '(d, t) := take_digits radix r in (b :: d, t)
              else ([], s)
  end.

Definition read_number (radix max : Z) (max_digits : nat) (allow_zero_prefix : bool)
    (s : str) : option (Z * str) :=
  let '(d, r) := take_digits radix s in
  if (max_digits <? length d)%nat then None
  else if (length d =? 0)%nat then None
  else if negb allow_zero_prefix && bool_decide (head d = Some ZERO) && (1 <? length d)%nat
  then None
  else if digits_value radix d <=? max then Some (digits_value radix d, r) else None.

Definition read_given_char (c : byte) (s : str) : option str := strip_prefix [c] s.

(** [read_separator(sep, index, inner)] *)
Definition read_separator {A} (sep : byte) (index : nat) (inner : str -> option (A * str))
    (s : str) : option (A * str) :=
  match index with
  | O => inner s
  | S _ => s' ← read_given_char sep s; inner s'
  end.

Definition read_octet (i : nat) (s : str) : option (Z * str) :=
  read_separator DOT i (read_number 10 255 3 false) s.

Definition read_ipv4_addr (s : str) : option (IpAddr * str) :=
  '(a, s) ← read_octet 0 s; '(b, s) ← read_octet 1 s;
  '(c, s) ← read_octet 2 s; '(d, s) ← read_octet 3 s;
  Some (V4 a b c d, s).

(** [read_groups(p, groups)]: the groups read, whether they end in an embedded
    IPv4 address, and the remaining input. [limit] is [groups.len()], [i] the
    loop index, and [n] counts the slots left ([limit - i]). *)
Fixpoint read_groups (n i limit : nat) (s : str) : list Z * bool * str :=
  match n with
  | O => ([], false, s)
  | S n' =>
      let ipv4 :=
        if (i <? limit - 1)%nat then read_separator COLON i read_ipv4_addr s else None in
      match ipv4 with
      | Some (V4 a b c d, r) => ([be16 a b; be16 c d], true, r)
      | _ =>
          match read_separator COLON i (read_number 16 65535 4 true) s with
          | Some (g, r) =>
              let '(gs, e, t) := read_groups n' (S i) limit r in (g :: gs, e, t)
          | None => ([], false, s)
          end
      end
  end.

Definition read_ipv6_addr (s : str) : option (IpAddr * str) :=
  let '(head, head_ipv4, s1) := read_groups 8 0 8 s in
  if (length head =? 8)%nat then Some (V6 head, s1)
  else if head_ipv4 then None
  else
    s2 ← read_given_char COLON s1;
    s3 ← read_given_char COLON s2;
    let limit := (8 - (length head + 1))%nat in
    let '(tail, _, s4) := read_groups limit 0 limit s3 in
    Some (V6 (head ++ replicate (8 - length head - length tail) 0 ++ tail), s4).

Definition parse_with {A} (inner : str -> option (A * str)) (s : str) : option A :=
  match inner s with
  | Some (a, []) => Some a
  | _ => None
  end.

(** [Ipv4Addr::from_str] rejects inputs longer than [255.255.255.255] up front. *)
Definition parse_ipv4 (s : str) : option IpAddr :=
  if (15 <? length s)%nat then None else parse_with read_ipv4_addr s.

Definition parse_ipv6 (s : str) : option IpAddr := parse_with read_ipv6_addr s.

Definition parse_ip (s : str) : option IpAddr :=
  parse_with (fun s => match read_ipv4_addr s with Some r => Some r | None => read_ipv6_addr s end) s.

(** ** Examples of the two directions *)

Example parse_ip_v6 :
  parse_ip (B "2001:db8::a:0:0:1") = Some (V6 [8193; 3512; 0; 0; 10; 0; 0; 1]).
Proof. reflexivity. Qed.

Example parse_ip_rejects_zero_prefix : parse_ip (B "192.0.02.1") = None.
Proof. reflexivity. Qed.

Example show_ip_v6 :
  map show_ip [V6 [0;0;0;0;0;0;0;1]; V6 [8193; 3512; 0; 0; 10; 0; 0; 1];
               V6 [0;0;0;0;0;65535;258;772]; V6 [1;0;2;0;3;0;4;0]; V6 [0;0;0;0;0;0;0;0]]
  = [B "::1"; B "2001:db8::a:0:0:1"; B "::ffff:1.2.3.4"; B "1:0:2:0:3:0:4:0"; B "::"].
Proof. reflexivity. Qed.

(** ** Reading one number *)

Lemma take_digits_app radix d r :
  forallb (is_digit radix) d = true ->
  (forall b, head r = Some b -> is_digit radix b = false) ->
  take_digits radix (d ++ r) = (d, r).
Proof.
  intros Hd Hr. induction d as [|b d IH]; cbn in *.
  - destruct r as [|b r]; [done|]. cbn. by rewrite (Hr b eq_refl).
  - apply andb_prop in Hd as [Hb Hd]. by rewrite Hb, (IH Hd).
Qed.

Lemma show_radix_is_digit radix n :
  2 <= radix <= 16 -> 0 <= n -> forallb (is_digit radix) (show_radix radix n) = true.
Proof.
  intros Hr Hn. apply forallb_forall. intros b Hb%list_elem_of_In.
  destruct (show_radix_digit radix Hr n b Hn Hb) as (d & ? & ->).
  by apply is_digit_char.
Qed.

(** Reading back a printed number, when the next byte is not a digit. *)
Lemma read_number_show radix max k allow n r :
  2 <= radix <= 16 -> 0 <= n <= max -> n < radix ^ Z.of_nat k -> (0 < k)%nat ->
  (forall b, head r = Some b -> is_digit radix b = false) ->
  read_number radix max k allow (show_radix radix n ++ r) = Some (n, r).
Proof.
  intros Hr Hn Hk Hk0 Hhead. unfold read_number.
  rewrite take_digits_app by (try done; apply show_radix_is_digit; lia).
  pose proof (show_radix_length radix Hr n k ltac:(lia) Hk0) as Hlen.
  destruct (show_radix_head radix Hr n ltac:(lia)) as (b & s & E & Hz).
  replace (k <? length (show_radix radix n))%nat with false by (symmetry; apply Nat.ltb_ge; lia).
  rewrite show_radix_value by lia. rewrite E. cbn [length Nat.eqb head].
  replace (n <=? max) with true by lia.
  destruct (decide (b = ZERO)) as [->|Hb].
  - destruct (Hz eq_refl) as [-> ->]. cbn. by rewrite andb_false_r.
  - rewrite (bool_decide_eq_false_2 (Some b = Some ZERO)) by congruence.
    by rewrite andb_false_r.
Qed.

Lemma read_number_None radix max k allow s :
  (forall b, head s = Some b -> is_digit radix b = false) ->
  read_number radix max k allow s = None.
Proof.
  intros Hs. unfold read_number.
  replace (take_digits radix s) with (@nil Z, s); [by case_match|].
  destruct s as [|b s]; [done|]. cbn. by rewrite (Hs b eq_refl).
Qed.

Lemma take_digits_split radix s d r : take_digits radix s = (d, r) -> s = d ++ r.
Proof.
  revert d r; induction s as [|b s IH]; intros d r; cbn; [naive_solver|].
  destruct (is_digit radix b); [|naive_solver].
  destruct (take_digits radix s) as [d' r'] eqn:E. intros [= <- <-].
  cbn. f_equal. by apply IH.
Qed.

Lemma read_number_suffix radix max k allow s n r :
  read_number radix max k allow s = Some (n, r) -> exists d, s = d ++ r.
Proof.
  unfold read_number. destruct (take_digits radix s) as [d r'] eqn:E. intros H.
  exists d. repeat case_match; simplify_eq. by apply take_digits_split in E.
Qed.

(** ** IPv4 *)

(** An IPv4 address contains a dot. *)
Lemma read_ipv4_addr_dot s : DOT ∉ s -> read_ipv4_addr s = None.
Proof.
  intros Hs. unfold read_ipv4_addr.
  destruct (read_octet 0 s) as [[a r]|] eqn:E; [|done]. cbn [mbind option_bind].
  apply read_number_suffix in E as [d ->].
  destruct (read_octet 1 r) as [[b t]|] eqn:E; [|done]. exfalso. revert E.
  unfold read_octet, read_separator, read_given_char.
  destruct (strip_prefix [DOT] r) as [r'|] eqn:E'; [|done].
  apply strip_prefix_Some in E' as ->. set_solver.
Qed.

Lemma read_octet_show i n r :
  octet n = true -> (forall b, head r = Some b -> is_digit 10 b = false) ->
  read_octet i (match i with O => [] | _ => [DOT] end ++ show_dec n ++ r) = Some (n, r).
Proof.
  intros Hn Hr. unfold octet in Hn. destruct i; cbn [app];
    (apply read_number_show; [lia|lia|cbn; lia|lia|done]).
Qed.

Lemma read_ipv4_addr_show a b c d r :
  octet a && octet b && octet c && octet d = true ->
  (forall x, head r = Some x -> is_digit 10 x = false) ->
  read_ipv4_addr (show_ipv4 a b c d ++ r) = Some (V4 a b c d, r).
Proof.
  intros H Hr. breflect. unfold read_ipv4_addr, show_ipv4.
  rewrite <- !app_assoc.
  assert (forall (s : str) x, head ([DOT] ++ s) = Some x -> is_digit 10 x = false) as Hdot
    by (intros s x [= <-]; done).
  rewrite (read_octet_show 0 a : forall r, _ -> _ -> read_octet 0 (show_dec a ++ r) = _)
    by eauto; cbn [mbind option_bind].
  rewrite (read_octet_show 1 b) by eauto; cbn [mbind option_bind].
  rewrite (read_octet_show 2 c) by eauto; cbn [mbind option_bind].
  by rewrite (read_octet_show 3 d) by eauto.
Qed.

Lemma show_dec_length_octet n : octet n = true -> (length (show_dec n) <= 3)%nat.
Proof.
  intros H. apply show_radix_length; [lia| |lia]. unfold octet in H. cbn. lia.
Qed.

Lemma parse_ipv4_show a b c d :
  ip_wf (V4 a b c d) = true -> parse_ipv4 (show_ipv4 a b c d) = Some (V4 a b c d).
Proof.
  intros H. unfold parse_ipv4.
  assert (length (show_ipv4 a b c d) <= 15)%nat as Hlen.
  { cbn in H. breflect. unfold show_ipv4. rewrite !length_app; cbn [length].
    repeat match goal with H : octet _ = true |- _ => apply show_dec_length_octet in H end.
    lia. }
  replace (15 <? length _)%nat with false by (symmetry; apply Nat.ltb_ge; lia).
  unfold parse_with. rewrite <- (app_nil_r (show_ipv4 a b c d)).
  by rewrite read_ipv4_addr_show.
Qed.

(** ** IPv6 groups *)

Definition not_hex_head (r : str) : Prop := forall b, head r = Some b -> is_digit 16 b = false.

Lemma show_hex_no_dot n : 0 <= n -> DOT ∉ show_hex n.
Proof.
  intros Hn Hd. destruct (show_radix_digit 16 ltac:(lia) n DOT Hn Hd) as (d & ? & E).
  unfold digit_char in E. case_match; lia.
Qed.

Lemma fmt_subslice_no_dot s : forallb segment s = true -> DOT ∉ fmt_subslice s.
Proof.
  unfold fmt_subslice. induction s as [|g s IH]; [set_solver|]. intros [Hg Hs]%andb_prop.
  assert (DOT ∉ show_hex g) by (apply show_hex_no_dot; unfold segment in Hg; lia).
  destruct s as [|h s]; [done|]. cbn [map]. rewrite join_cons by done.
  rewrite !not_elem_of_app. split_and!; [done|set_solver|]. by apply IH.
Qed.

(** The text of groups [i..], as it follows the groups before [i]. *)
Fixpoint colon_groups (i : nat) (s : list Z) : str :=
  match s with
  | [] => []
  | g :: r => match i with O => [] | _ => [COLON] end ++ show_hex g ++ colon_groups (S i) r
  end.

Lemma colon_groups_S i j s : colon_groups (S i) s = colon_groups (S j) s.
Proof.
  revert i j; induction s as [|g s IH]; intros i j; [done|].
  cbn [colon_groups]. by rewrite (IH (S i) (S j)).
Qed.

Lemma fmt_subslice_colon s : fmt_subslice s = colon_groups 0 s.
Proof.
  unfold fmt_subslice. destruct s as [|g s]; [done|]. cbn [map colon_groups app].
  revert g; induction s as [|h s IH]; intros g; cbn [map colon_groups].
  - by rewrite app_nil_r.
  - rewrite join_cons by done. f_equal. cbn [app]. f_equal.
    rewrite IH. f_equal. apply colon_groups_S.
Qed.

Lemma read_group_show i g r :
  segment g = true -> not_hex_head r ->
  read_separator COLON i (read_number 16 65535 4 true)
    (match i with O => [] | _ => [COLON] end ++ show_hex g ++ r) = Some (g, r).
Proof.
  intros Hg Hr. unfold segment in Hg. destruct i; cbn [app];
    (apply read_number_show; [lia|lia|cbn; lia|lia|done]).
Qed.

Lemma read_separator_dot i s : DOT ∉ s -> read_separator COLON i read_ipv4_addr s = None.
Proof.
  intros Hs. destruct i; [by apply read_ipv4_addr_dot|].
  unfold read_separator, read_given_char.
  destruct (strip_prefix [COLON] s) as [r|] eqn:E; [|done]. cbn [mbind option_bind].
  apply strip_prefix_Some in E as ->. apply read_ipv4_addr_dot. set_solver.
Qed.

(** Reading stops where no group follows: at the end, or at [::]. *)
Definition groups_end (r : str) : Prop := r = [] \/ exists t, r = COLON :: COLON :: t.

Lemma groups_end_not_hex r : groups_end r -> not_hex_head r.
Proof. intros [->|[t ->]] b [= <-]. done. Qed.

Lemma read_groups_end n i limit r :
  groups_end r -> DOT ∉ r -> read_groups n i limit r = ([], false, r).
Proof.
  intros Hr Hdot. destruct n as [|n]; [done|]. cbn [read_groups].
  rewrite read_separator_dot by done.
  replace (if (i <? limit - 1)%nat then None else None)
    with (@None (IpAddr * list Z)) by (by case_match).
  replace (read_separator COLON i _ r) with (@None (Z * list Z)); [done|].
  destruct Hr as [->|[t ->]]; destruct i; cbn; try done;
    symmetry; by apply read_number_None; intros b [= <-].
Qed.

Lemma colon_groups_no_dot i s : forallb segment s = true -> DOT ∉ colon_groups i s.
Proof.
  revert i; induction s as [|g s IH]; intros i; [set_solver|]. intros [Hg Hs]%andb_prop.
  cbn. rewrite !not_elem_of_app. split_and!.
  - destruct i; set_solver.
  - apply show_hex_no_dot. unfold segment in Hg. lia.
  - by apply IH.
Qed.

Lemma colon_groups_not_hex i s r :
  not_hex_head r -> not_hex_head (colon_groups (S i) s ++ r).
Proof. intros Hr. destruct s as [|g s]; [done|]. intros b [= <-]. done. Qed.

Lemma read_groups_show n i limit s r :
  (length s <= n)%nat -> forallb segment s = true -> groups_end r -> DOT ∉ r ->
  read_groups n i limit (colon_groups i s ++ r) = (s, false, r).
Proof.
  revert n i; induction s as [|g s IH]; intros n i Hn Hs Hr Hdot.
  - by apply read_groups_end.
  - destruct n as [|n]; cbn in Hn; [lia|]. cbn in Hs. apply andb_prop in Hs as [Hg Hs].
    assert (DOT ∉ colon_groups i (g :: s) ++ r) as Hnd.
    { apply not_elem_of_app; split; [|done]. apply colon_groups_no_dot. cbn. by rewrite Hg. }
    cbn [read_groups]. rewrite read_separator_dot by done.
    replace (if (i <? limit - 1)%nat then None else None)
      with (@None (IpAddr * list Z)) by (by case_match).
    cbn [colon_groups]. rewrite <- !app_assoc.
    rewrite read_group_show by (try done; by apply colon_groups_not_hex, groups_end_not_hex).
    by rewrite IH by (done || lia).
Qed.

(** ** IPv6: the compressed run of zero groups *)

(** [sp] is a run of zero groups inside [s]. *)
Definition zero_run (s : list Z) (sp : span) : Prop :=
  (sp_start sp + sp_len sp <= length s)%nat /\
  s = take (sp_start sp) s ++ replicate (sp_len sp) 0 ++ drop (sp_start sp + sp_len sp) s.

(** [sp], if not empty, is a run of zero groups that ends where [s] ends. *)
Definition open_run (s : list Z) (sp : span) : Prop :=
  sp_len sp = 0%nat \/ exists p, s = p ++ replicate (sp_len sp) 0 /\ sp_start sp = length p.

Lemma zero_run_empty s : zero_run s {| sp_start := 0; sp_len := 0 |}.
Proof. split; cbn; [lia|done]. Qed.

Lemma zero_run_intro p n r : zero_run (p ++ replicate n 0 ++ r) {| sp_start := length p; sp_len := n |}.
Proof.
  split; cbn.
  - rewrite !length_app, length_replicate. lia.
  - rewrite take_app_length, drop_app_ge by lia.
    replace (length p + n - length p)%nat with n by lia.
    by rewrite drop_app_length' by (by rewrite length_replicate).
Qed.

Lemma zero_run_snoc s sp g : zero_run s sp -> zero_run (s ++ [g]) sp.
Proof.
  intros [Hl Hs]. rewrite Hs. rewrite <- !app_assoc.
  pose proof (zero_run_intro (take (sp_start sp) s) (sp_len sp)
    (drop (sp_start sp + sp_len sp) s ++ [g])) as H.
  rewrite length_take_le in H by lia. by destruct sp.
Qed.

Lemma open_run_snoc s sp :
  open_run s sp ->
  exists p, s ++ [0] = p ++ replicate (S (sp_len sp)) 0 /\
    (if (sp_len sp =? 0)%nat then length s else sp_start sp) = length p.
Proof.
  intros [->|(p & -> & Hst)]; [by exists s|].
  exists p. split; [|destruct (sp_len sp); cbn in *; rewrite ?app_nil_r; done].
  rewrite <- app_assoc. f_equal. symmetry. apply replicate_S_end.
Qed.

Lemma span_go_runs s r st :
  zero_run s (fst st) -> open_run s (snd st) ->
  zero_run (s ++ r) (fst (span_go st (length s) r)).
Proof.
  revert s st; induction r as [|g r IH]; intros s [lg cur] Hl Ho; cbn in Hl, Ho; cbn [span_go].
  - by rewrite app_nil_r.
  - replace (s ++ g :: r) with ((s ++ [g]) ++ r) by (by rewrite <- app_assoc).
    replace (S (length s)) with (length (s ++ [g])) by (rewrite length_app; cbn; lia).
    apply IH; unfold span_step; destruct (Z.eqb_spec g 0) as [->|Hg]; cbn [fst snd].
    + case_match; [|by apply zero_run_snoc].
      destruct (open_run_snoc s cur Ho) as (p & -> & ->).
      by rewrite <- (app_nil_r (replicate _ _)); apply zero_run_intro.
    + by apply zero_run_snoc.
    + destruct (open_run_snoc s cur Ho) as (p & -> & ->). right. by exists p.
    + by left.
Qed.

Lemma zeroes_run s : zero_run s (zeroes s).
Proof. apply (span_go_runs [] s); [apply zero_run_empty|by left]. Qed.

Lemma parse_ipv6_groups s :
  length s = 8%nat -> forallb segment s = true ->
  parse_with read_ipv6_addr (fmt_subslice s) = Some (V6 s).
Proof.
  intros Hl Hs. unfold parse_with, read_ipv6_addr.
  rewrite fmt_subslice_colon, <- (app_nil_r (colon_groups 0 s)).
  rewrite read_groups_show by (done || lia || set_solver || by left).
  by rewrite Hl.
Qed.

Lemma parse_ipv6_compressed a n b :
  (length a + n + length b = 8)%nat -> (1 < n)%nat ->
  forallb segment (a ++ b) = true ->
  parse_with read_ipv6_addr (fmt_subslice a ++ [COLON; COLON] ++ fmt_subslice b)
    = Some (V6 (a ++ replicate n 0 ++ b)).
Proof.
  intros Hl Hn Hab. rewrite forallb_app in Hab. apply andb_prop in Hab as [Ha Hb]. unfold parse_with, read_ipv6_addr.
  rewrite !fmt_subslice_colon.
  assert (DOT ∉ [COLON; COLON] ++ colon_groups 0 b) as Hnd.
  { apply not_elem_of_app; split; [set_solver|by apply colon_groups_no_dot]. }
  rewrite read_groups_show; [|lia|done|right; by eexists|done].
  replace (length a =? 8)%nat with false by (symmetry; apply Nat.eqb_neq; lia).
  cbn [read_given_char strip_prefix app Z.eqb Pos.eqb mbind option_bind].
  rewrite <- (app_nil_r (colon_groups 0 b)).
  rewrite read_groups_show by (lia || done || set_solver || by left).
  replace (8 - length a - length b)%nat with n by lia. done.
Qed.

Lemma be16_hi_lo s : be16 (hi s) (lo s) = s.
Proof. unfold be16, hi, lo. pose proof (Z.div_mod s 256). lia. Qed.

Lemma segment_octets s : segment s = true -> octet (hi s) = true /\ octet (lo s) = true.
Proof.
  unfold segment, octet, hi, lo. intros H. breflect.
  pose proof (Z.mod_pos_bound s 256). pose proof (Z.div_mod s 256).
  assert (s / 256 < 256) by (apply Z.div_lt_upper_bound; lia).
  assert (0 <= s / 256) by (apply Z.div_pos; lia). split; lia.
Qed.

Lemma parse_ipv6_double_colon s gs e :
  read_groups 7 0 7 s = (gs, e, []) ->
  parse_with read_ipv6_addr (COLON :: COLON :: s)
    = Some (V6 (replicate (8 - length gs) 0 ++ gs)).
Proof.
  intros H. unfold parse_with, read_ipv6_addr.
  change (read_groups 8 0 8 (COLON :: COLON :: s)) with (@nil Z, false, COLON :: COLON :: s).
  cbn [length Nat.eqb].
  change (read_given_char COLON (COLON :: COLON :: s)) with (Some (COLON :: s)).
  cbn [mbind option_bind].
  change (read_given_char COLON (COLON :: s)) with (Some s).
  cbn [Nat.add Nat.sub mbind option_bind]. by rewrite H.
Qed.

Lemma parse_ipv6_mapped ab cd :
  segment ab = true -> segment cd = true ->
  parse_with read_ipv6_addr (B "::ffff:" ++ show_ipv4 (hi ab) (lo ab) (hi cd) (lo cd))
    = Some (V6 [0; 0; 0; 0; 0; 65535; ab; cd]).
Proof.
  intros [Ha Hb]%segment_octets [Hc Hd]%segment_octets. set (q := show_ipv4 _ _ _ _).
  apply (parse_ipv6_double_colon _ [65535; ab; cd] true).
  change (read_groups 7 0 7 (B "ffff:" ++ q)
          = (65535 :: [ab; cd], true, [])).
  trans (let '(gs, e, t) := read_groups 6 1 7 (COLON :: q) in (65535 :: gs, e, t));
    [reflexivity|].
  assert (read_groups 6 1 7 (COLON :: q) = ([ab; cd], true, [])) as ->; [|done].
  change (read_groups 6 1 7 (COLON :: q)) with
    (match read_ipv4_addr q with
     | Some (V4 a b c d, r) => ([be16 a b; be16 c d], true, r)
     | _ => match read_number 16 65535 4 true q with
            | Some (g, r) => let '(gs, e, t) := read_groups 5 2 7 r in (g :: gs, e, t)
            | None => ([], false, COLON :: q)
            end
     end).
  unfold q. rewrite <- (app_nil_r (show_ipv4 _ _ _ _)), read_ipv4_addr_show;
    [by rewrite !be16_hi_lo|by rewrite Ha, Hb, Hc, Hd|done].
Qed.

Lemma to_ipv4_mapped_Some s ip :
  to_ipv4_mapped s = Some ip ->
  exists ab cd, s = [0; 0; 0; 0; 0; 65535; ab; cd] /\ ip = V4 (hi ab) (lo ab) (hi cd) (lo cd).
Proof. unfold to_ipv4_mapped. intros H. repeat case_match; simplify_eq. eauto. Qed.

Lemma parse_ipv6_show s :
  ip_wf (V6 s) = true -> parse_ipv6 (show_ipv6 s) = Some (V6 s).
Proof.
  cbn [ip_wf]. intros [Hl%Nat.eqb_eq Hs]%andb_prop. unfold parse_ipv6, show_ipv6.
  destruct (to_ipv4_mapped s) as [ip|] eqn:Hm.
  - apply to_ipv4_mapped_Some in Hm as (ab & cd & -> & ->). cbn in Hs. breflect.
    by apply parse_ipv6_mapped.
  - pose proof (zeroes_run s) as [Hr E]. revert Hr E. generalize (zeroes s) as z; intros z Hr E.
    destruct (Nat.ltb_spec 1 (sp_len z)); [|by apply parse_ipv6_groups].
    rewrite parse_ipv6_compressed with (n := sp_len z); [by rewrite <- E| |lia|].
    + rewrite length_take, length_drop. lia.
    + rewrite E, !forallb_app in Hs. rewrite forallb_app. breflect. apply andb_true_intro; done.
Qed.

Lemma forallb_take {A} (f : A -> bool) n l : forallb f l = true -> forallb f (take n l) = true.
Proof. rewrite <- (take_drop n l) at 1. rewrite forallb_app. intros H. by breflect. Qed.

Lemma forallb_drop {A} (f : A -> bool) n l : forallb f l = true -> forallb f (drop n l) = true.
Proof. rewrite <- (take_drop n l) at 1. rewrite forallb_app. intros H. by breflect. Qed.

(** The text of an IPv6 address never starts as an IPv4 address. *)
Lemma read_ipv4_show_ipv6 s :
  forallb segment s = true -> read_ipv4_addr (show_ipv6 s) = None.
Proof.
  intros Hs. unfold show_ipv6. destruct (to_ipv4_mapped s) as [ip|] eqn:Hm.
  - apply to_ipv4_mapped_Some in Hm as (ab & cd & -> & ->). done.
  - apply read_ipv4_addr_dot. case_match; [|by apply fmt_subslice_no_dot].
    rewrite !not_elem_of_app. split_and!; [|set_solver|];
      apply fmt_subslice_no_dot; auto using forallb_take, forallb_drop.
Qed.

(** Parsing a printed address gives the address. *)
Lemma parse_show_ip ip : ip_wf ip = true -> parse_ip (show_ip ip) = Some ip.
Proof.
  intros H. unfold parse_ip, parse_with. destruct ip as [a b c d|s]; cbn [show_ip].
  - rewrite <- (app_nil_r (show_ipv4 a b c d)). by rewrite read_ipv4_addr_show.
  - rewrite read_ipv4_show_ipv6 by (cbn [ip_wf] in H; by breflect).
    apply parse_ipv6_show in H. exact H.
Qed.

(** ** The bytes of a printed address *)

Definition ip_char (b : byte) : bool :=
  is_ascii_digit b || ((97 <=? b) && (b <=? 102)) || (b =? DOT) || (b =? COLON).

Lemma ip_char_graphic b : ip_char b = true -> graphic b = true.
Proof. unfold ip_char, graphic, is_ascii_digit. lia. Qed.

Lemma show_radix_chars radix n :
  2 <= radix <= 16 -> 0 <= n -> forallb ip_char (show_radix radix n) = true.
Proof.
  intros Hr Hn. apply forallb_forall. intros b Hb%list_elem_of_In.
  destruct (show_radix_digit radix Hr n b Hn Hb) as (d & ? & ->).
  unfold ip_char, digit_char, is_ascii_digit. case_match; lia.
Qed.

Lemma show_ipv4_chars a b c d :
  octet a && octet b && octet c && octet d = true ->
  forallb (fun x => is_ascii_digit x || (x =? DOT)) (show_ipv4 a b c d) = true.
Proof.
  intros H. breflect. apply forallb_forall. intros x Hx%list_elem_of_In.
  unfold show_ipv4, octet in *. breflect.
  rewrite !elem_of_app, !list_elem_of_singleton in Hx.
  destruct_or!; try (subst x; done);
    match goal with H : x ∈ show_dec _ |- _ => apply show_dec_digit in H; [by rewrite H|lia] end.
Qed.

Lemma fmt_subslice_chars s :
  forallb segment s = true -> forallb ip_char (fmt_subslice s) = true.
Proof.
  rewrite fmt_subslice_colon. generalize 0%nat as i.
  induction s as [|g s IH]; intros i; [done|]. cbn [forallb colon_groups].
  intros [Hg Hs]%andb_prop. rewrite !forallb_app, IH by done.
  unfold show_hex. rewrite show_radix_chars by (unfold segment in Hg; lia).
  by destruct i.
Qed.

Lemma show_ip_chars ip : ip_wf ip = true -> forallb ip_char (show_ip ip) = true.
Proof.
  assert (forall a b c d, octet a && octet b && octet c && octet d = true ->
    forallb ip_char (show_ipv4 a b c d) = true) as H4.
  { intros a b c d H%show_ipv4_chars. rewrite forallb_forall in *. intros x Hx.
    apply H in Hx. unfold ip_char, is_ascii_digit in *. lia. }
  destruct ip as [a b c d|s]; [apply H4|]. cbn [ip_wf show_ip]. intros [_ Hs]%andb_prop.
  unfold show_ipv6. destruct (to_ipv4_mapped s) as [ip|] eqn:Hm.
  - apply to_ipv4_mapped_Some in Hm as (ab & cd & -> & ->). cbn in Hs. breflect.
    rewrite forallb_app, H4; [done|].
    repeat match goal with H : segment _ = true |- _ => apply segment_octets in H as [? ?] end.
    by repeat match goal with H : octet _ = true |- _ => rewrite H; clear H end.
  - case_match; rewrite ?forallb_app, !fmt_subslice_chars;
      auto using forallb_take, forallb_drop.
Qed.

Lemma show_ip_graphic ip : ip_wf ip = true -> forallb graphic (show_ip ip) = true.
Proof.
  intros H%show_ip_chars. rewrite forallb_forall in *. auto using ip_char_graphic.
Qed.

Lemma show_radix_nonempty radix n : 2 <= radix <= 16 -> 0 <= n -> show_radix radix n <> [].
Proof. intros Hr Hn. destruct (show_radix_head radix Hr n Hn) as (b & s & -> & _). done. Qed.

(** An IPv6 text has a colon, and is not empty. *)
Lemma show_ipv6_colon s : ip_wf (V6 s) = true -> COLON ∈ show_ipv6 s.
Proof.
  cbn [ip_wf]. intros [Hl%Nat.eqb_eq Hs]%andb_prop. unfold show_ipv6.
  assert (COLON ∈ fmt_subslice s) as Hf.
  { rewrite fmt_subslice_colon. destruct s as [|g [|h s]]; try done.
    cbn [colon_groups]. set_solver. }
  repeat case_match; try done; set_solver.
Qed.

Lemma show_ip_nonempty ip : ip_wf ip = true -> show_ip ip <> [].
Proof.
  destruct ip as [a b c d|s]; intros H E.
  - cbn in E. unfold show_ipv4 in E. apply app_eq_nil in E as [_ E]. done.
  - apply show_ipv6_colon in H. cbn in E. rewrite E in H. set_solver.
Qed.

Lemma show_ipv4_no_colon a b c d : ip_wf (V4 a b c d) = true -> COLON ∉ show_ipv4 a b c d.
Proof.
  intros H%show_ipv4_chars Hc. rewrite forallb_forall in H.
  apply list_elem_of_In, H in Hc. done.
Qed.

(** ** Parsed addresses are addresses *)

Lemma read_number_range radix max k allow s n r :
  0 <= radix -> read_number radix max k allow s = Some (n, r) -> 0 <= n <= max.
Proof.
  unfold read_number. intros Hr H. repeat case_match; simplify_eq.
  split; [by apply digits_value_nonneg|lia].
Qed.

Lemma read_octet_octet i s n r : read_octet i s = Some (n, r) -> octet n = true.
Proof.
  unfold read_octet, read_separator. intros H. destruct i; [|bind_inv H];
    apply read_number_range in H; unfold octet; lia.
Qed.

Lemma read_ipv4_addr_wf s ip r :
  read_ipv4_addr s = Some (ip, r) ->
  exists a b c d, ip = V4 a b c d /\ ip_wf ip = true.
Proof.
  unfold read_ipv4_addr. intros H.
  do 4 (bind_inv H; match type of H with context [let '(_, _) := ?p in _] => destruct p end).
  simplify_eq. do 4 eexists. split; [done|]. cbn [ip_wf].
  repeat match goal with E : read_octet _ _ = _ |- _ => apply read_octet_octet in E; rewrite E end.
  done.
Qed.

Lemma read_separator_inv {A} sep i (inner : str -> option (A * str)) s x r :
  read_separator sep i inner s = Some (x, r) -> exists s', inner s' = Some (x, r).
Proof. unfold read_separator. intros H. destruct i; [eauto|]. bind_inv H. eauto. Qed.

Lemma segment_be16 a b : octet a = true -> octet b = true -> segment (be16 a b) = true.
Proof. unfold octet, segment, be16. lia. Qed.

Lemma read_groups_wf n i limit s gs e r :
  (i + n = limit)%nat -> read_groups n i limit s = (gs, e, r) ->
  (length gs <= n)%nat /\ forallb segment gs = true.
Proof.
  revert i s gs e r; induction n as [|n IH]; intros i s gs e r Hn H; cbn [read_groups] in H.
  { by simplify_eq. }
  assert (forall o, (match o with
      | Some (g, r) => let '(gs, e, t) := read_groups n (S i) limit r in (g :: gs, e, t)
      | None => ([], false, s) end) = (gs, e, r) ->
    (forall g r, o = Some (g, r) -> segment g = true) ->
    (length gs <= S n)%nat /\ forallb segment gs = true) as Hgroup.
  { intros o Ho Hseg. destruct o as [[g t]|]; [|simplify_eq; cbn; split; [lia|done]].
    destruct (read_groups n (S i) limit t) as [[gs' e'] t'] eqn:E. simplify_eq.
    apply IH in E as [? ?]; [|lia]. cbn. erewrite Hseg by done. split; [lia|done]. }
  assert (forall g r, read_separator COLON i (read_number 16 65535 4 true) s = Some (g, r) ->
    segment g = true) as Hseg.
  { intros g t [s' Hs']%read_separator_inv. apply read_number_range in Hs'; [|lia].
    unfold segment. lia. }
  destruct (Nat.ltb_spec i (limit - 1)); [|by eapply Hgroup].
  destruct (read_separator COLON i read_ipv4_addr s) as [[ip t]|] eqn:E; [|by eapply Hgroup].
  apply read_separator_inv in E as [s' (a & b & c & d & -> & Hw)%read_ipv4_addr_wf].
  simplify_eq. cbn in *. breflect. rewrite !segment_be16 by done. split; [lia|done].
Qed.

Lemma read_ipv6_addr_wf s ip r : read_ipv6_addr s = Some (ip, r) -> ip_wf ip = true.
Proof.
  unfold read_ipv6_addr. destruct (read_groups 8 0 8 s) as [[h e] s1] eqn:E. intros H.
  apply read_groups_wf in E as [Hl Hh]; [|done].
  destruct (Nat.eqb_spec (length h) 8) as [E8|Hne].
  { simplify_eq. cbn. by rewrite E8, Hh. }
  destruct e; [done|]. do 2 bind_inv H.
  destruct (read_groups _ 0 _ _) as [[t e'] s4] eqn:E'. simplify_eq.
  apply read_groups_wf in E' as [Ht Hs]; [|done].
  cbn [ip_wf]. rewrite !length_app, length_replicate, !forallb_app, Hh, Hs.
  replace (forallb segment (replicate _ 0)) with true.
  - rewrite andb_true_r. apply Nat.eqb_eq. lia.
  - symmetry. apply forallb_forall. intros x Hx%list_elem_of_In.
    by apply elem_of_replicate in Hx as [-> _].
Qed.

Lemma parse_ip_wf s ip : parse_ip s = Some ip -> ip_wf ip = true.
Proof.
  unfold parse_ip, parse_with. destruct (read_ipv4_addr s) as [[ip' r]|] eqn:E.
  - intros H. case_match; simplify_eq. apply read_ipv4_addr_wf in E. naive_solver.
  - destruct (read_ipv6_addr s) as [[ip' r]|] eqn:E'; [|done].
    intros H. case_match; simplify_eq. by apply read_ipv6_addr_wf in E'.
Qed.

(** An IPv6 text has at least two colons. *)
Lemma colon_groups_colons i s : (length s <= count_byte COLON (colon_groups (S i) s))%nat.
Proof.
  revert i; induction s as [|g s IH]; intros i; cbn [colon_groups length]; [lia|].
  rewrite !count_byte_app. specialize (IH (S i)).
  change (count_byte COLON [COLON]) with 1%nat. lia.
Qed.

Lemma show_ipv6_colons s : length s = 8%nat -> (2 <= count_byte COLON (show_ipv6 s))%nat.
Proof.
  intros Hl. unfold show_ipv6.
  assert (2 <= count_byte COLON (fmt_subslice s))%nat as Hf.
  { rewrite fmt_subslice_colon. destruct s as [|g s]; [done|]. cbn [colon_groups length] in *.
    rewrite !count_byte_app. pose proof (colon_groups_colons 0 s). lia. }
  destruct (to_ipv4_mapped s) as [m|] eqn:Hm.
  - apply to_ipv4_mapped_Some in Hm as (ab & cd & -> & ->). rewrite count_byte_app.
    change (count_byte COLON (B "::ffff:")) with 3%nat. lia.
  - case_match; [|done]. rewrite !count_byte_app.
    change (count_byte COLON [COLON; COLON]) with 2%nat. lia.
Qed.
