(* ===== verification/HttpIface.v ===== *)
(** * The interface of the [http] and [ipnet] crates

    [HeaderMap], [HeaderValue] and [Uri] of the [http] crate and [IpNet] of the
    [ipnet] crate are code outside this repository: they are parameters of the
    model. [HttpApi] and [IpNetApi] list the operations the source calls,
    [HttpLaws] states the documented behaviour the theorems rely on, through the
    view [hm_get_all] (the values of one field name, in order). [Alist] is an
    instance on association lists, with its laws proved; the witnesses run on it. *)

From S2P Require Import Prelude RustStr RustNet.

(** ** Operations *)

Class HttpApi := {
  HeaderValue : Type;
  hv_from_str : str -> option HeaderValue;
  hv_from_bytes : str -> option HeaderValue;
  hv_as_bytes : HeaderValue -> str;
  hv_to_str : HeaderValue -> option str;

  (** Field names are given by their (lowercase) [HeaderName::as_str]. *)
  HeaderMap : Type;
  hm_empty : HeaderMap;
  hm_get_all : HeaderMap -> str -> list HeaderValue;
  hm_get : HeaderMap -> str -> option HeaderValue;
  hm_contains_key : HeaderMap -> str -> bool;
  hm_insert : HeaderMap -> str -> HeaderValue -> HeaderMap;
  hm_append : HeaderMap -> str -> HeaderValue -> HeaderMap;
  hm_remove : HeaderMap -> str -> HeaderMap;
  (** [headers.remove(&str)] with a name of any letter case, or no name at all *)
  hm_remove_str : HeaderMap -> str -> HeaderMap;
  (** [for e in entry.iter_mut()]: every value of the field is updated in place *)
  hm_map_values : HeaderMap -> str -> (HeaderValue -> HeaderValue) -> HeaderMap;
  hm_iter : HeaderMap -> list (str * HeaderValue);

  Uri : Type;
  uri_scheme_str : Uri -> option str;
  uri_authority : Uri -> option str;
  uri_host : Uri -> option str;
  uri_port_u16 : Uri -> option Z;
  uri_path : Uri -> str;
  uri_query : Uri -> option str;
  uri_path_and_query : Uri -> option str;
  uri_to_string : Uri -> str;
  uri_parse : str -> option Uri;
  (** [Uri::builder()] with the parts that were set, then [build()] *)
  uri_build : option str -> option str -> option str -> option Uri;
  (** [PathAndQuery::try_from(bytes)], by its [as_str] *)
  pq_try_from : str -> option str
}.

Class IpNetApi := {
  IpNet : Type;
  net_contains : IpNet -> IpAddr -> bool;
  net_parse : str -> option IpNet
}.

(** [HeaderValue::from_static] of a literal of the source, which is always valid. *)
Definition insert_static `{HttpApi} (h : HeaderMap) (k v : str) : HeaderMap :=
  match hv_from_str v with Some hv => hm_insert h k hv | None => h end.

(** ** Documented behaviour *)

Class HttpLaws `(HttpApi) : Prop := {
  hv_from_str_visible s :
    forallb is_visible_ascii s = true -> exists v, hv_from_str s = Some v;
  hv_from_str_as_bytes s v : hv_from_str s = Some v -> hv_as_bytes v = s;
  hv_from_bytes_as_bytes s v : hv_from_bytes s = Some v -> hv_as_bytes v = s;
  hv_from_bytes_visible s :
    forallb is_visible_ascii s = true -> exists v, hv_from_bytes s = Some v;
  hv_to_str_visible v :
    hv_to_str v = if forallb is_visible_ascii (hv_as_bytes v)
                  then Some (hv_as_bytes v) else None;

  hm_get_all_empty k : hm_get_all hm_empty k = [];
  hm_get_first h k : hm_get h k = head (hm_get_all h k);
  hm_contains_key_spec h k : hm_contains_key h k = negb (bool_decide (hm_get_all h k = []));
  hm_get_all_insert h k v k' :
    hm_get_all (hm_insert h k v) k' = if decide (k = k') then [v] else hm_get_all h k';
  hm_get_all_append h k v k' :
    hm_get_all (hm_append h k v) k' =
      if decide (k = k') then hm_get_all h k ++ [v] else hm_get_all h k';
  hm_get_all_remove h k k' :
    hm_get_all (hm_remove h k) k' = if decide (k = k') then [] else hm_get_all h k';
  hm_get_all_remove_str h s k' :
    hm_get_all (hm_remove_str h s) k' =
      if decide (to_ascii_lowercase s = k') then [] else hm_get_all h k';
  hm_get_all_map_values h k f k' :
    hm_get_all (hm_map_values h k f) k' =
      if decide (k = k') then f <$> hm_get_all h k else hm_get_all h k';
  hm_iter_get_all h k :
    (filter (fun p => p.1 = k) (hm_iter h)).*2 = hm_get_all h k;

  uri_build_parts scheme authority pq u :
    uri_build (Some scheme) (Some authority) (Some pq) = Some u ->
    uri_scheme_str u = Some scheme /\ uri_authority u = Some authority
}.

(** ** Consequences *)

Section laws.
Context `{HL : HttpLaws}.

Lemma hm_get_all_insert_eq h k v : hm_get_all (hm_insert h k v) k = [v].
Proof. rewrite hm_get_all_insert. by case_decide. Qed.

Lemma hm_get_all_insert_ne h k v k' :
  k <> k' -> hm_get_all (hm_insert h k v) k' = hm_get_all h k'.
Proof. intros. rewrite hm_get_all_insert. by case_decide. Qed.

Lemma hm_get_all_remove_eq h k : hm_get_all (hm_remove h k) k = [].
Proof. rewrite hm_get_all_remove. by case_decide. Qed.

Lemma hm_get_all_remove_ne h k k' :
  k <> k' -> hm_get_all (hm_remove h k) k' = hm_get_all h k'.
Proof. intros. rewrite hm_get_all_remove. by case_decide. Qed.

Lemma hm_contains_key_false h k : hm_contains_key h k = false <-> hm_get_all h k = [].
Proof. rewrite hm_contains_key_spec. rewrite negb_false_iff. apply bool_decide_eq_true. Qed.

Lemma hm_contains_key_true h k : hm_contains_key h k = true <-> hm_get_all h k <> [].
Proof. rewrite hm_contains_key_spec. rewrite negb_true_iff. apply bool_decide_eq_false. Qed.

Lemma hv_to_str_from_str s v :
  hv_from_str s = Some v -> forallb is_visible_ascii s = true -> hv_to_str v = Some s.
Proof.
  intros Hv Hs. rewrite hv_to_str_visible. apply hv_from_str_as_bytes in Hv as ->.
  by rewrite Hs.
Qed.

Lemma insert_static_get_all h k v k' :
  forallb is_visible_ascii v = true ->
  (hv_as_bytes <$> hm_get_all (insert_static h k v) k')
    = if decide (k = k') then [v] else hv_as_bytes <$> hm_get_all h k'.
Proof.
  intros Hv. unfold insert_static. destruct (hv_from_str_visible _ Hv) as [w Hw].
  rewrite Hw, hm_get_all_insert. case_decide; [|done].
  cbn. by rewrite (hv_from_str_as_bytes _ _ Hw).
Qed.

Lemma insert_static_get_all_ne h k v k' :
  k <> k' -> hm_get_all (insert_static h k v) k' = hm_get_all h k'.
Proof. intros. unfold insert_static. case_match; [by apply hm_get_all_insert_ne|done]. Qed.
End laws.

(** ** An instance: association lists

    Field lines in order, values as bytes. The URI of the instance is its parts,
    and its parser takes the forms [scheme://authority path] and [path]. *)

Module Alist.

Definition valid_byte (b : byte) : bool := (32 <=? b) && (b <=? 255) && negb (b =? 127) || (b =? 9).

Definition from_bytes (s : str) : option str := if forallb valid_byte s then Some s else None.

Definition get_all (h : list (str * str)) (k : str) : list str :=
  (filter (fun p => p.1 = k) h).*2.

Definition remove (h : list (str * str)) (k : str) : list (str * str) :=
  filter (fun p => p.1 <> k) h.

Definition map_values (h : list (str * str)) (k : str) (f : str -> str) : list (str * str) :=
  (fun p => if decide (p.1 = k) then (p.1, f p.2) else p) <$> h.

(** Scheme, authority, path and query. *)
Record uri := { u_scheme : option str; u_authority : option str; u_path : str; u_query : option str }.

Definition u_path_and_query (u : uri) : option str :=
  match u_path u, u_query u with
  | [], None => None
  | p, None => Some p
  | p, Some q => Some (p ++ [QMARK] ++ q)
  end.

(** The host and the port of an authority without user information. *)
Definition authority_port (a : str) : option (str * str) :=
  match rsplit_once COLON a with
  | Some (h, p) => if forallb is_ascii_digit p then Some (h, p) else None
  | None => None
  end.

Definition u_host (u : uri) : option str :=
  a ← u_authority u; Some (match authority_port a with Some (h, _) => h | None => a end).

Definition u_port (u : uri) : option Z :=
  a ← u_authority u; '(_, p) ← authority_port a; parse_uint u16_max p.

Definition split_pq (s : str) : str * option str :=
  match split_once QMARK s with Some (p, q) => (p, Some q) | None => (s, None) end.

Definition build (scheme authority pq : option str) : option uri :=
  let '(p, q) := split_pq (default [] pq) in
  Some {| u_scheme := scheme; u_authority := authority; u_path := p; u_query := q |}.

Definition to_string (u : uri) : str :=
  match u_scheme u with Some s => s ++ B "://" | None => [] end
  ++ default [] (u_authority u) ++ default [] (u_path_and_query u).

Definition parse (s : str) : option uri :=
  match split_once COLON s with
  | Some (scheme, r) =>
      r ← strip_prefix (B "//") r;
      match split_once SLASH r with
      | Some (a, p) => build (Some scheme) (Some a) (Some (SLASH :: p))
      | None => build (Some scheme) (Some r) (Some (B "/"))
      end
  | None => build None None (Some s)
  end.

#[export] Instance api : HttpApi := {|
  HeaderValue := str;
  hv_from_str := from_bytes;
  hv_from_bytes := from_bytes;
  hv_as_bytes := fun v => v;
  hv_to_str := fun v => if forallb is_visible_ascii v then Some v else None;
  HeaderMap := list (str * str);
  hm_empty := [];
  hm_get_all := get_all;
  hm_get := fun h k => head (get_all h k);
  hm_contains_key := fun h k => negb (bool_decide (get_all h k = []));
  hm_insert := fun h k v => remove h k ++ [(k, v)];
  hm_append := fun h k v => h ++ [(k, v)];
  hm_remove := remove;
  hm_remove_str := fun h s => remove h (to_ascii_lowercase s);
  hm_map_values := map_values;
  hm_iter := fun h => h;
  Uri := uri;
  uri_scheme_str := u_scheme;
  uri_authority := u_authority;
  uri_host := u_host;
  uri_port_u16 := u_port;
  uri_path := u_path;
  uri_query := u_query;
  uri_path_and_query := u_path_and_query;
  uri_to_string := to_string;
  uri_parse := parse;
  uri_build := build;
  pq_try_from := fun s => if starts_with (B "/") s then Some s else None
|}.

(** Networks of the instance: an address and a prefix length in bits. *)
Definition ip_bits (ip : IpAddr) : list bool :=
  let bits w z := map (fun i => Z.testbit z (Z.of_nat i)) (rev (seq 0 w)) in
  match ip with
  | V4 a b c d => concat (map (bits 8%nat) [a; b; c; d])
  | V6 s => concat (map (bits 16%nat) s)
  end.

Definition same_family (x y : IpAddr) : bool :=
  match x, y with V4 _ _ _ _, V4 _ _ _ _ | V6 _, V6 _ => true | _, _ => false end.

Definition contains (net : IpAddr * nat) (ip : IpAddr) : bool :=
  same_family (fst net) ip
  && bool_decide (take (snd net) (ip_bits (fst net)) = take (snd net) (ip_bits ip)).

Definition parse_net (s : str) : option (IpAddr * nat) :=
  '(a, p) ← split_once SLASH s;
  ip ← parse_ip a; n ← parse_uint 128 p; Some (ip, Z.to_nat n).

#[export] Instance net_api : IpNetApi := {|
  IpNet := IpAddr * nat;
  net_contains := contains;
  net_parse := parse_net
|}.

Lemma get_all_remove h k k' :
  get_all (remove h k) k' = if decide (k = k') then [] else get_all h k'.
Proof.
  unfold get_all, remove. induction h as [|[a v] h IH]; [by case_decide|].
  rewrite filter_cons; cbn [fst]. rewrite (filter_cons _ (a, v) h). cbn [fst].
  destruct (decide (a = k)) as [->|Hne].
  - rewrite decide_False by naive_solver. rewrite IH. repeat case_decide; by subst.
  - rewrite decide_True by done. rewrite filter_cons; cbn [fst].
    repeat case_decide; subst; cbn; try done; by rewrite IH.
Qed.

Lemma get_all_app h1 h2 k : get_all (h1 ++ h2) k = get_all h1 k ++ get_all h2 k.
Proof. unfold get_all. by rewrite filter_app, fmap_app. Qed.

Lemma get_all_single k v k' : get_all [(k, v)] k' = if decide (k = k') then [v] else [].
Proof. unfold get_all. rewrite filter_cons; cbn [fst]. by case_decide. Qed.

Lemma get_all_map_values h k f k' :
  get_all (map_values h k f) k' = if decide (k = k') then f <$> get_all h k else get_all h k'.
Proof.
  unfold get_all, map_values. induction h as [|[a v] h IH]; cbn [fmap list_fmap]; [by case_decide|].
  rewrite !filter_cons. cbn [fst snd].
  destruct (decide (a = k)) as [->|Hne]; cbn [fst snd]; repeat case_decide; subst;
    cbn [fmap list_fmap fst snd]; try done; try (f_equal; apply IH); apply IH.
Qed.

Lemma visible_valid s : forallb is_visible_ascii s = true -> from_bytes s = Some s.
Proof.
  intros H. unfold from_bytes. replace (forallb valid_byte s) with true; [done|].
  symmetry. rewrite forallb_forall in *. intros b Hb. apply H in Hb.
  unfold is_visible_ascii, valid_byte in *. lia.
Qed.

#[export] Instance laws : HttpLaws api.
Proof.
  split; cbn -[get_all remove map_values from_bytes]; intros.
  - eauto using visible_valid.
  - unfold from_bytes in *. by case_match; simplify_eq.
  - unfold from_bytes in *. by case_match; simplify_eq.
  - eauto using visible_valid.
  - done.
  - done.
  - done.
  - done.
  - rewrite get_all_app, get_all_remove, get_all_single. case_decide; [done|by rewrite app_nil_r].
  - rewrite get_all_app, get_all_single. case_decide; [by subst|by rewrite app_nil_r].
  - apply get_all_remove.
  - apply get_all_remove.
  - apply get_all_map_values.
  - done.
  - unfold build in *. by repeat (case_match; simplify_eq/=).
Qed.

End Alist.
