(* ===== verification/TrustedProxies.v ===== *)
(** * Trusted proxies ([rpxy-trusted-proxies/src/lib.rs], [snapshots.rs])

    The entries of [trusted_forwarded_proxies]: CIDRs, or the names of providers whose
    published ranges are built in. Networks and their parser are the [ipnet] crate's. *)

From S2P Require Import Prelude RustStr RustNet HttpIface.

(** ** The built-in snapshots *)

Definition CLOUDFLARE_CIDRS : list str := map B [
  "103.21.244.0/22"; "103.22.200.0/22"; "103.31.4.0/22"; "104.16.0.0/13"; "104.24.0.0/14";
  "108.162.192.0/18"; "131.0.72.0/22"; "141.101.64.0/18"; "162.158.0.0/15"; "172.64.0.0/13";
  "173.245.48.0/20"; "188.114.96.0/20"; "190.93.240.0/20"; "197.234.240.0/22"; "198.41.128.0/17";
  "2400:cb00::/32"; "2405:8100::/32"; "2405:b500::/32"; "2606:4700::/32"; "2803:f800::/32";
  "2a06:98c0::/29"; "2c0f:f248::/32"]%string.

Definition CLOUDFRONT_CIDRS : list str := map B [
  "108.138.0.0/15"; "108.156.0.0/14"; "111.13.171.128/26"; "111.13.171.192/26";
  "111.13.185.32/27"; "111.13.185.64/27"; "116.129.226.0/25"; "116.129.226.128/26";
  "118.193.97.128/25"; "118.193.97.64/26"; "119.147.182.0/25"; "119.147.182.128/26";
  "120.232.236.0/25"; "120.232.236.128/26"; "120.253.240.192/26"; "120.253.241.160/27";
  "120.253.245.128/26"; "120.253.245.192/27"; "120.52.12.64/26"; "120.52.153.192/26";
  "120.52.22.96/27"; "120.52.39.128/27"; "13.224.0.0/14"; "13.249.0.0/16"; "13.32.0.0/15";
  "13.35.0.0/16"; "130.176.0.0/17"; "130.176.128.0/18"; "130.176.192.0/19"; "130.176.224.0/20";
  "143.204.0.0/16"; "144.220.0.0/16"; "15.158.0.0/16"; "18.154.0.0/15"; "18.160.0.0/15";
  "18.164.0.0/15"; "18.172.0.0/15"; "18.238.0.0/15"; "18.244.0.0/15"; "18.64.0.0/14";
  "18.68.0.0/16"; "180.163.57.0/25"; "180.163.57.128/26"; "204.246.164.0/22"; "204.246.168.0/22";
  "204.246.172.0/24"; "204.246.173.0/24"; "204.246.174.0/23"; "204.246.176.0/20";
  "205.251.202.0/23"; "205.251.204.0/23"; "205.251.206.0/23"; "205.251.208.0/20";
  "205.251.249.0/24"; "205.251.250.0/23"; "205.251.252.0/23"; "205.251.254.0/24";
  "216.137.32.0/19"; "23.228.212.0/24"; "23.228.213.0/24"; "23.228.214.0/24"; "23.228.220.0/24";
  "23.228.221.0/24"; "23.228.222.0/24"; "23.228.223.0/24"; "23.228.244.0/24"; "23.228.248.0/24";
  "23.228.249.0/24"; "23.228.250.0/24"; "23.228.251.0/24"; "23.234.192.0/18"; "23.91.0.0/19";
  "24.110.128.0/17"; "24.110.32.0/19"; "3.160.0.0/14"; "3.164.0.0/18"; "3.164.128.0/17";
  "3.164.64.0/18"; "3.165.0.0/16"; "3.166.0.0/15"; "3.168.0.0/14"; "3.172.0.0/18";
  "3.172.64.0/18"; "3.173.0.0/17"; "3.173.128.0/18"; "3.173.192.0/18"; "3.174.0.0/15";
  "36.103.232.0/25"; "36.103.232.128/26"; "51.74.192.0/18"; "52.124.128.0/17"; "52.222.128.0/17";
  "52.46.0.0/18"; "52.82.128.0/19"; "52.84.0.0/15"; "54.182.0.0/16"; "54.192.0.0/16";
  "54.230.0.0/17"; "54.230.128.0/18"; "54.230.200.0/21"; "54.230.208.0/20"; "54.230.224.0/19";
  "54.239.128.0/18"; "54.239.192.0/19"; "54.240.128.0/18"; "58.254.138.0/25";
  "58.254.138.128/26"; "64.252.128.0/18"; "64.252.64.0/18"; "65.8.0.0/16"; "65.9.0.0/17";
  "65.9.128.0/18"; "70.132.0.0/18"; "71.152.0.0/17"; "99.84.0.0/16"; "99.86.0.0/16"]%string.

Definition FASTLY_CIDRS : list str := map B [
  "103.244.50.0/24"; "103.245.222.0/23"; "103.245.224.0/24"; "104.156.80.0/20";
  "140.248.128.0/17"; "140.248.64.0/18"; "146.75.0.0/17"; "151.101.0.0/16"; "157.52.64.0/18";
  "167.82.0.0/17"; "167.82.128.0/20"; "167.82.160.0/20"; "167.82.224.0/20"; "172.111.64.0/18";
  "185.31.16.0/22"; "199.232.0.0/16"; "199.27.72.0/21"; "23.235.32.0/20"; "2a04:4e40::/32";
  "2a04:4e42::/32"; "43.249.72.0/22"]%string.

(** ** Aliases *)

Inductive BuiltinTrustedProxyAlias := Cloudflare | Cloudfront | Fastly.

#[export] Instance BuiltinTrustedProxyAlias_eq_dec : EqDecision BuiltinTrustedProxyAlias.
Proof. solve_decision. Defined.

Definition BUILTIN_ALIASES : list BuiltinTrustedProxyAlias := [Cloudflare; Cloudfront; Fastly].

Definition builtin_aliases : list BuiltinTrustedProxyAlias := BUILTIN_ALIASES.

Definition as_str (self : BuiltinTrustedProxyAlias) : str :=
  match self with
  | Cloudflare => B "cloudflare"
  | Cloudfront => B "cloudfront"
  | Fastly => B "fastly"
  end.

Definition cidr_strings (self : BuiltinTrustedProxyAlias) : list str :=
  match self with
  | Cloudflare => CLOUDFLARE_CIDRS
  | Cloudfront => CLOUDFRONT_CIDRS
  | Fastly => FASTLY_CIDRS
  end.

Definition source_url (self : BuiltinTrustedProxyAlias) : str :=
  match self with
  | Cloudflare => B "https://api.cloudflare.com/client/v4/ips"
  | Cloudfront => B "https://d7uri8nf7uskq.cloudfront.net/tools/list-cloudfront-ips"
  | Fastly => B "https://api.fastly.com/public-ip-list"
  end.

Definition fetched_at (self : BuiltinTrustedProxyAlias) : str :=
  match self with
  | Cloudflare => B "2026-04-16"
  | Cloudfront => B "2026-07-01"
  | Fastly => B "2026-04-16"
  end.

(** The error messages, with the text they quote. *)
Inductive TrustedProxyError :=
| UnknownAlias (value : str)
| InvalidEntry (value : str)
| InvalidBuiltinCidr (alias : BuiltinTrustedProxyAlias) (cidr : str).

Definition alias_from_str (value : str) : result TrustedProxyError BuiltinTrustedProxyAlias :=
  let v := to_ascii_lowercase (trim value) in
  if bool_decide (v = B "cloudflare") then Ok Cloudflare
  else if bool_decide (v = B "cloudfront") then Ok Cloudfront
  else if bool_decide (v = B "fastly") then Ok Fastly
  else Err (UnknownAlias value).

Section entries.
Context `{IpNetApi} `{!EqDecision IpNet}.

Inductive TrustedProxyEntry :=
| Cidr (net : IpNet)
| Alias (alias : BuiltinTrustedProxyAlias).

Definition entry_from_str (value : str) : result TrustedProxyError TrustedProxyEntry :=
  match alias_from_str value with
  | Ok alias => Ok (Alias alias)
  | Err _ =>
      cidr ← ok_or (net_parse value) (InvalidEntry value);
      Ok (Cidr cidr)
  end.

Record ResolutionReport := {
  cidrs : list IpNet;
  expanded_aliases : list BuiltinTrustedProxyAlias
}.

Definition parse_alias_cidrs (alias : BuiltinTrustedProxyAlias) : result TrustedProxyError (list IpNet) :=
  result_mapM (fun cidr => ok_or (net_parse cidr) (InvalidBuiltinCidr alias cidr)) (cidr_strings alias).

(** The vector of networks and the set of those seen. *)
Definition Nets : Type := list IpNet * list IpNet.

(** [if seen.insert(cidr) { cidrs.push(cidr) }] *)
Definition push_unseen (st : Nets) (cidr : IpNet) : Nets :=
  let '(cidrs, seen) := st in
  if bool_decide (cidr ∈ seen) then (cidrs, seen) else (cidrs ++ [cidr], cidr :: seen).

Definition resolve_step (st : Nets * list BuiltinTrustedProxyAlias) (raw : str)
    : result TrustedProxyError (Nets * list BuiltinTrustedProxyAlias) :=
  let '(nets, aliases) := st in
  entry ← entry_from_str raw;
  match entry with
  | Cidr cidr => Ok (push_unseen nets cidr, aliases)
  | Alias alias =>
      let aliases := if bool_decide (alias ∈ aliases) then aliases else aliases ++ [alias] in
      l ← parse_alias_cidrs alias;
      Ok (fold_left push_unseen l nets, aliases)
  end.

Definition resolve_trusted_proxy_entries (entries : list str) : result TrustedProxyError ResolutionReport :=
  '((cidrs, _), aliases) ← result_foldM resolve_step entries (([], []), []);
  Ok {| cidrs := cidrs; expanded_aliases := aliases |}.
End entries.

(** ** What an entry stands for *)

Section resolution.
Context `{IpNetApi} `{!EqDecision IpNet}.

Definition entry_nets (raw : str) : result TrustedProxyError (list IpNet) :=
  entry ← entry_from_str raw;
  match entry with Cidr cidr => Ok [cidr] | Alias alias => parse_alias_cidrs alias end.

(** The vector and the set agree, and list each network of [l] once. *)
Definition nets_of (l : list IpNet) (st : Nets) : Prop :=
  NoDup (fst st) /\ (forall net, net ∈ fst st <-> net ∈ l) /\ (forall net, net ∈ snd st <-> net ∈ fst st).

Lemma push_unseen_nets l st cidr : nets_of l st -> nets_of (l ++ [cidr]) (push_unseen st cidr).
Proof.
  destruct st as [v seen]. intros (Hnd & Hl & Hs). unfold push_unseen; cbn [fst snd] in *.
  case_bool_decide as Hin; split_and!; cbn [fst snd]; try set_solver.
  apply NoDup_app. repeat split; [done|set_solver|apply NoDup_singleton].
Qed.

Lemma push_all_nets l' l st : nets_of l st -> nets_of (l ++ l') (fold_left push_unseen l' st).
Proof.
  revert l st. induction l' as [|c l' IH]; intros l st Hn; [by rewrite app_nil_r|].
  cbn [fold_left]. rewrite (cons_middle c l l'), app_assoc. by apply IH, push_unseen_nets.
Qed.

Definition aliases_of (raws : list str) (aliases : list BuiltinTrustedProxyAlias) : Prop :=
  NoDup aliases /\ forall a, a ∈ aliases <-> exists raw, raw ∈ raws /\ alias_from_str raw = Ok a.

Lemma entry_alias raw a : entry_from_str raw = Ok (Alias a) <-> alias_from_str raw = Ok a.
Proof.
  unfold entry_from_str. destruct (alias_from_str raw); [naive_solver|].
  destruct (net_parse raw); cbn; naive_solver.
Qed.

Lemma resolve_step_spec nets aliases l raws raw :
  nets_of l nets -> aliases_of raws aliases ->
  match resolve_step (nets, aliases) raw with
  | Ok (nets', aliases') =>
      exists l', entry_nets raw = Ok l' /\ nets_of (l ++ l') nets' /\ aliases_of (raws ++ [raw]) aliases'
  | Err e => entry_nets raw = Err e
  end.
Proof.
  intros Hn [Hnd Ha]. unfold resolve_step, entry_nets.
  pose proof (entry_alias raw) as Hraw.
  destruct (entry_from_str raw) as [[c|a]|e] eqn:Ee; cbn [mbind result_bind]; [| |done].
  - exists [c]. split_and!; [done|by apply push_unseen_nets|split; [done|]].
    intros a. rewrite Ha. setoid_rewrite elem_of_app. setoid_rewrite list_elem_of_singleton.
    specialize (Hraw a). naive_solver.
  - destruct (parse_alias_cidrs a) as [l'|e] eqn:Ep; cbn [mbind result_bind]; [|done].
    exists l'. split_and!; [done|by apply push_all_nets|split].
    + case_bool_decide; [done|]. apply NoDup_app. repeat split; [done|set_solver|apply NoDup_singleton].
    + assert (alias_from_str raw = Ok a) as Er by (by apply Hraw).
      intros b. setoid_rewrite elem_of_app. setoid_rewrite list_elem_of_singleton.
      assert (b ∈ (if bool_decide (a ∈ aliases) then aliases else aliases ++ [a]) <-> b ∈ aliases \/ b = a)
        as -> by (case_bool_decide; set_solver).
      rewrite Ha. naive_solver.
Qed.

Lemma resolve_fold_spec entries nets aliases l raws :
  nets_of l nets -> aliases_of raws aliases ->
  match result_foldM resolve_step entries (nets, aliases) with
  | Ok (nets', aliases') =>
      exists ls, Forall2 (fun raw l => entry_nets raw = Ok l) entries ls /\
        nets_of (l ++ concat ls) nets' /\ aliases_of (raws ++ entries) aliases'
  | Err e =>
      exists pre raw post, entries = pre ++ raw :: post /\
        Forall (fun raw => is_ok (entry_nets raw) = true) pre /\ entry_nets raw = Err e
  end.
Proof.
  revert nets aliases l raws. induction entries as [|raw r IH]; intros nets aliases l raws Hn Ha.
  { exists []. cbn. by rewrite !app_nil_r. }
  cbn [result_foldM]. pose proof (resolve_step_spec _ _ _ _ raw Hn Ha) as Hs.
  destruct (resolve_step (nets, aliases) raw) as [[nets' aliases']|e]; cbn [mbind result_bind].
  - destruct Hs as (l' & El & Hn' & Ha'). specialize (IH _ _ _ _ Hn' Ha').
    destruct (result_foldM _ _ _) as [[n2 a2]|e].
    + destruct IH as (ls & Hf & Hn2 & Ha2). exists (l' :: ls). rewrite <- !app_assoc in *.
      split_and!; [by constructor|done|done].
    + destruct IH as (pre & bad & post & -> & Hpre & Hbad). exists (raw :: pre), bad, post.
      split_and!; [done|constructor; [by rewrite El|done]|done].
  - exists [], raw, r. by split_and!.
Qed.

(** The resolved networks are those of the entries, each once; the first entry that
    stands for nothing is reported. *)
Lemma resolve_spec entries :
  match resolve_trusted_proxy_entries entries with
  | Ok report =>
      NoDup (cidrs report) /\ NoDup (expanded_aliases report) /\
      (forall net, net ∈ cidrs report <->
         exists raw l, raw ∈ entries /\ entry_nets raw = Ok l /\ net ∈ l) /\
      (forall a, a ∈ expanded_aliases report <-> exists raw, raw ∈ entries /\ alias_from_str raw = Ok a)
  | Err e =>
      exists pre raw post, entries = pre ++ raw :: post /\
        Forall (fun raw => is_ok (entry_nets raw) = true) pre /\ entry_nets raw = Err e
  end.
Proof.
  unfold resolve_trusted_proxy_entries.
  assert (nets_of [] ([], [])) as Hn by (split_and!; [constructor| |]; done).
  assert (aliases_of [] []) as Ha by (split; [constructor|intros a; split; set_solver]).
  pose proof (resolve_fold_spec entries _ _ _ _ Hn Ha) as Hs.
  destruct (result_foldM _ _ _) as [[[v seen] aliases]|e]; cbn [mbind result_bind]; [|done].
  destruct Hs as (ls & Hf & (Hnd & Hl & _) & Hnda & Hal). cbn [cidrs expanded_aliases fst] in *.
  split_and!; [done|done| |done]. intros net. rewrite Hl. cbn [app].
  rewrite list_elem_of_In, in_concat. split.
  - intros (l & Hin & Hnet). apply list_elem_of_In, list_elem_of_lookup in Hin as [i Hi].
    destruct (Forall2_lookup_r _ _ _ _ _ Hf Hi) as (raw & Hraw & El).
    exists raw, l. split_and!; [by eapply list_elem_of_lookup_2|done|by apply list_elem_of_In].
  - intros (raw & l & Hraw & El & Hnet). apply list_elem_of_lookup in Hraw as [i Hi].
    destruct (Forall2_lookup_l _ _ _ _ _ Hf Hi) as (l' & Hl' & El'). assert (l' = l) as -> by (cbn in El'; congruence).
    exists l. split; apply list_elem_of_In; [by eapply list_elem_of_lookup_2|done].
Qed.
End resolution.
