(* ===== verification/Snapshots.v ===== *)
(** * The snapshot updater ([rpxy-trusted-proxies/src/bin/update-snapshots.rs])

    The tool that rewrites [snapshots.rs] from what the providers publish. The constants
    a build of the tool was compiled with are an argument, so that a rewrite and the runs
    of the next build can be composed; the answers of the providers, the date and the
    file system's results are inputs. *)

From stdpp Require Import sorting.
From S2P Require Import Prelude RustStr RustNet HttpIface TrustedProxies.

(** ** Strings in order *)

(** The order of [str], byte by byte. *)
Fixpoint str_le (s t : str) : bool :=
  match s, t with
  | [], _ => true
  | _ :: _, [] => false
  | a :: s, b :: t => (a <? b) || ((a =? b) && str_le s t)
  end.

(** [{:?}] of an ASCII string. *)
Definition debug_char (b : Z) : str :=
  if b =? DQUOTE then [92; DQUOTE]
  else if b =? 92 then [92; 92]
  else if b =? 9 then B "\t"
  else if b =? 10 then B "\n"
  else if b =? 13 then B "\r"
  else if b =? 0 then B "\0"
  else if (b <? 32) || (b =? 127) then B "\u{" ++ show_hex b ++ B "}"
  else [b].

Definition debug_str (s : str) : str := [DQUOTE] ++ concat (map debug_char s) ++ [DQUOTE].

(** ** Data *)

Record Args := { a_providers : list BuiltinTrustedProxyAlias; a_check : bool; a_timeout : Z }.

Record SnapshotData := { sd_source_url : str; sd_fetched_at : str; sd_cidrs : list str }.

Record ProviderUpdateStatus := {
  us_alias : BuiltinTrustedProxyAlias;
  us_changed : bool;
  us_cidr_count : Z;
  us_fetched_at : str
}.

Inductive SnapError :=
| MissingValue (arg : str)
| BadAlias (e : TrustedProxyError)
| InvalidTimeout (raw : str)
| UnknownArgument (arg : str)
| FetchFailed (alias : BuiltinTrustedProxyAlias)
| UnsuccessfulResponse
| InvalidCidr (cidr : str)
| MissingSnapshot (alias : BuiltinTrustedProxyAlias)
| Outdated
| WriteFailed.

(** ** Arguments *)

(** What the loop ends with: arguments, or the exit after the usage. *)
Inductive ParsedArgs := Parsed (a : Args) | UsagePrinted.

Fixpoint parse_args_loop (args : list str) (providers : list BuiltinTrustedProxyAlias) (check : bool) (timeout : Z)
    : result SnapError ParsedArgs :=
  match args with
  | [] =>
      Ok (Parsed {| a_providers := match providers with [] => builtin_aliases | _ => providers end;
                    a_check := check; a_timeout := timeout |})
  | arg :: rest =>
      if bool_decide (arg = B "--provider") then
        match rest with
        | [] => Err (MissingValue arg)
        | raw :: rest =>
            if eq_ignore_ascii_case raw (B "all") then parse_args_loop rest builtin_aliases check timeout
            else
              match alias_from_str raw with
              | Err e => Err (BadAlias e)
              | Ok alias =>
                  parse_args_loop rest
                    (if bool_decide (alias ∈ providers) then providers else providers ++ [alias]) check timeout
              end
        end
      else if bool_decide (arg = B "--check") then parse_args_loop rest providers true timeout
      else if bool_decide (arg = B "--timeout-seconds") then
        match rest with
        | [] => Err (MissingValue arg)
        | raw :: rest =>
            match parse_uint u64_max raw with
            | None => Err (InvalidTimeout raw)
            | Some t => parse_args_loop rest providers check t
            end
        end
      else if bool_decide (arg = B "--help") || bool_decide (arg = B "-h") then Ok UsagePrinted
      else Err (UnknownArgument arg)
  end.

Definition parse_args (args : list str) : result SnapError ParsedArgs := parse_args_loop args [] false 10.

(** ** Snapshots *)

(** The constants of [snapshots.rs]. *)
Definition Constants : Type := BuiltinTrustedProxyAlias -> SnapshotData.

Definition builtin_constants : Constants := fun alias =>
  {| sd_source_url := source_url alias; sd_fetched_at := fetched_at alias; sd_cidrs := cidr_strings alias |}.

Definition current_snapshot (c : Constants) (alias : BuiltinTrustedProxyAlias) : SnapshotData :=
  {| sd_source_url := sd_source_url (c alias); sd_fetched_at := sd_fetched_at (c alias); sd_cidrs := sd_cidrs (c alias) |}.

Definition same_cidrs (current fetched : list str) : bool :=
  bool_decide (current ⊆ fetched) && bool_decide (fetched ⊆ current).

(** The decoded answers; [Err] is a failed request, an error status or an answer that does
    not decode. *)
Record Published := {
  p_cloudflare : result () (list str * list str * bool);
  p_cloudfront : result () (list str);
  p_fastly : result () (list str * list str)
}.

(** [Vec::dedup] *)
Fixpoint dedup {A} `{!EqDecision A} (l : list A) : list A :=
  match l with
  | x :: ((y :: _) as r) => if decide (x = y) then dedup r else x :: dedup r
  | _ => l
  end.

Section snapshots.
Context `{IpNetApi} `{!EqDecision IpNet}.
(** [Display] of a network. *)
Context (net_to_string : IpNet -> str).

Definition by_text (a b : IpNet) : Prop := str_le (net_to_string a) (net_to_string b) = true.

#[local] Instance by_text_dec : RelDecision by_text.
Proof. unfold by_text. intros a b. apply _. Defined.

(** [sort_by_key] is stable; networks with one text are equal, so any sort is. *)
Definition normalize_cidrs (cidrs : list str) : result SnapError (list str) :=
  parsed ← result_mapM (fun cidr => ok_or (net_parse cidr) (InvalidCidr cidr)) cidrs;
  Ok (map net_to_string (dedup (merge_sort by_text parsed))).

Definition fetch_cloudflare_snapshot (p : Published) : result SnapError (list str) :=
  match p_cloudflare p with
  | Err _ => Err (FetchFailed Cloudflare)
  | Ok (ipv4_cidrs, ipv6_cidrs, success) =>
      if negb success then Err UnsuccessfulResponse else normalize_cidrs (ipv4_cidrs ++ ipv6_cidrs)
  end.

Definition fetch_cloudfront_snapshot (p : Published) : result SnapError (list str) :=
  match p_cloudfront p with
  | Err _ => Err (FetchFailed Cloudfront)
  | Ok cloudfront_global_ip_list => normalize_cidrs cloudfront_global_ip_list
  end.

Definition fetch_fastly_snapshot (p : Published) : result SnapError (list str) :=
  match p_fastly p with
  | Err _ => Err (FetchFailed Fastly)
  | Ok (addresses, ipv6_addresses) => normalize_cidrs (addresses ++ ipv6_addresses)
  end.

Definition fetch_snapshot (c : Constants) (p : Published) (alias : BuiltinTrustedProxyAlias) (fetched_at : str)
    : result SnapError SnapshotData :=
  cidrs ← match alias with
          | Cloudflare => fetch_cloudflare_snapshot p
          | Cloudfront => fetch_cloudfront_snapshot p
          | Fastly => fetch_fastly_snapshot p
          end;
  Ok {| sd_source_url := sd_source_url (c alias); sd_fetched_at := fetched_at; sd_cidrs := cidrs |}.

(** One provider of the loop of [main]: its snapshot, and its status if it was asked for. *)
Definition update_alias (c : Constants) (p : Published) (date : str) (providers : list BuiltinTrustedProxyAlias)
    (alias : BuiltinTrustedProxyAlias) : result SnapError (SnapshotData * option ProviderUpdateStatus) :=
  if bool_decide (alias ∈ providers) then
    fetched ← fetch_snapshot c p alias date;
    let current := current_snapshot c alias in
    let changed := negb (bool_decide (sd_source_url current = sd_source_url fetched))
                     || negb (same_cidrs (sd_cidrs current) (sd_cidrs fetched)) in
    let snapshot := if changed then fetched else current in
    Ok (snapshot, Some {| us_alias := alias; us_changed := changed;
                          us_cidr_count := Z.of_nat (length (sd_cidrs snapshot));
                          us_fetched_at := sd_fetched_at snapshot |})
  else Ok (current_snapshot c alias, None).

Definition Snapshots : Type := list (BuiltinTrustedProxyAlias * SnapshotData).

Definition update_all (c : Constants) (p : Published) (date : str) (providers : list BuiltinTrustedProxyAlias)
    : result SnapError (list (BuiltinTrustedProxyAlias * (SnapshotData * option ProviderUpdateStatus))) :=
  result_mapM (fun alias => u ← update_alias c p date providers alias; Ok (alias, u)) builtin_aliases.

Definition snapshots_of (us : list (BuiltinTrustedProxyAlias * (SnapshotData * option ProviderUpdateStatus))) : Snapshots :=
  map (fun u => (fst u, fst (snd u))) us.
End snapshots.

(** ** The file *)

Definition constant_prefix (alias : BuiltinTrustedProxyAlias) : str :=
  match alias with Cloudflare => B "CLOUDFLARE" | Cloudfront => B "CLOUDFRONT" | Fastly => B "FASTLY" end.

Definition rust_variant_name (alias : BuiltinTrustedProxyAlias) : str :=
  match alias with Cloudflare => B "Cloudflare" | Cloudfront => B "Cloudfront" | Fastly => B "Fastly" end.

Definition LF : str := [10].

Definition render_header : str :=
  B "use super::BuiltinTrustedProxyAlias;" ++ LF ++ LF ++
  B "// Generated by `cargo run -p rpxy-trusted-proxies --features update-snapshots --bin update-snapshots`." ++ LF ++
  B "// Do not edit by hand unless you are intentionally adjusting a snapshot." ++ LF ++ LF ++
  B "pub const BUILTIN_ALIASES: &[BuiltinTrustedProxyAlias] = &[" ++ LF ++
  concat (map (fun alias => B "  BuiltinTrustedProxyAlias::" ++ rust_variant_name alias ++ B "," ++ LF) builtin_aliases) ++
  B "];" ++ LF ++ LF.

Definition render_cidr (cidr : str) : str := B "  " ++ debug_str cidr ++ B "," ++ LF.

Definition render_snapshot (alias : BuiltinTrustedProxyAlias) (s : SnapshotData) : str :=
  let prefix := constant_prefix alias in
  B "pub const " ++ prefix ++ B "_SOURCE_URL: &str = " ++ debug_str (sd_source_url s) ++ B ";" ++ LF ++
  B "pub const " ++ prefix ++ B "_FETCHED_AT: &str = " ++ debug_str (sd_fetched_at s) ++ B ";" ++ LF ++ LF ++
  B "pub const " ++ prefix ++ B "_CIDRS: &[&str] = &[" ++ LF ++
  concat (map render_cidr (sd_cidrs s)) ++ B "];" ++ LF ++ LF.

Definition render_snapshots_module (snapshots : Snapshots) : result SnapError str :=
  parts ← result_mapM (fun alias =>
    snapshot ← ok_or (map_find alias snapshots) (MissingSnapshot alias);
    Ok (render_snapshot alias snapshot)) builtin_aliases;
  Ok (render_header ++ concat parts).

(** [main]: the text written if any, and the statuses. [existing] is the file, if it could
    be read, and [write_ok] whether it can be written. *)
Definition main `{IpNetApi} `{!EqDecision IpNet} (net_to_string : IpNet -> str) (c : Constants) (p : Published)
    (date : str) (args : Args) (existing : option str) (write_ok : bool)
    : result SnapError (option str * list ProviderUpdateStatus) :=
  us ← update_all net_to_string c p date (a_providers args);
  rendered ← render_snapshots_module (snapshots_of us);
  let existing := default [] existing in
  let same := bool_decide (trim_end existing = trim_end rendered) in
  if a_check args then
    if same then Ok (None, []) else Err Outdated
  else if same then Ok (None, [])
  else if write_ok then Ok (Some rendered, omap (M := list) (fun u => snd (snd u)) us)
  else Err WriteFailed.

(** ** The order *)

Lemma str_le_total s t : str_le s t = true \/ str_le t s = true.
Proof.
  revert t. induction s as [|a s IH]; intros [|b t]; cbn; [auto..|].
  destruct (Z.ltb_spec a b), (Z.ltb_spec b a), (Z.eqb_spec a b), (Z.eqb_spec b a); cbn; auto; lia.
Qed.

Lemma str_le_trans s t u : str_le s t = true -> str_le t u = true -> str_le s u = true.
Proof.
  revert t u. induction s as [|a s IH]; intros [|b t] [|c u]; cbn; try done.
  intros [?|[? Hs]%andb_prop]%orb_prop [?|[? Ht]%andb_prop]%orb_prop.
  1-3: (replace (a <? c) with true by lia; done).
  rewrite (IH t u Hs Ht). replace (a =? c) with true by lia. apply orb_true_r.
Qed.

Lemma str_le_antisym s t : str_le s t = true -> str_le t s = true -> s = t.
Proof.
  revert t. induction s as [|a s IH]; intros [|b t]; cbn; try done.
  intros [?|[? Hs]%andb_prop]%orb_prop [?|[? Ht]%andb_prop]%orb_prop; try lia.
  f_equal; [lia|]. by apply IH.
Qed.

(** ** Normal forms *)

Section dedup.
Context {A} `{!EqDecision A}.

Lemma dedup_cons x y (l : list A) :
  dedup (x :: y :: l) = if decide (x = y) then dedup (y :: l) else x :: dedup (y :: l).
Proof. done. Qed.

Lemma elem_of_dedup (l : list A) x : x ∈ dedup l <-> x ∈ l.
Proof.
  induction l as [|y l IH]; [done|]. destruct l as [|z l]; [done|]. rewrite dedup_cons. case_decide as E.
  - subst z. rewrite IH. set_solver.
  - rewrite !(elem_of_cons _ x y), IH. done.
Qed.

Context (R : relation A) `{!AntiSymm (=) R}.

Lemma dedup_sorted l : StronglySorted R l -> StronglySorted R (dedup l) /\ NoDup (dedup l).
Proof.
  induction 1 as [|y l Hl [IHs IHn] Hy]; [by split; constructor|].
  destruct l as [|z l]; [split; [repeat constructor|apply NoDup_singleton]|].
  rewrite dedup_cons. case_decide as E; [done|]. split; constructor; [done| | |done].
  - apply Forall_forall. intros x Hx. rewrite elem_of_dedup in Hx. rewrite Forall_forall in Hy. by apply Hy.
  - intros Hin. rewrite elem_of_dedup in Hin. apply elem_of_cons in Hin as [?|Hin]; [done|]. destruct E.
    inversion Hl as [|? ? Hl' Hz]; subst. apply (anti_symm R).
    + inversion Hy; by subst.
    + rewrite Forall_forall in Hz. by apply Hz.
Qed.
End dedup.

Section normal.
Context `{IpNetApi} `{!EqDecision IpNet} (net_to_string : IpNet -> str).
(** The text of a network parses back. *)
Context (net_show_parse : forall n, net_parse (net_to_string n) = Some n).

Lemma net_to_string_inj n m : net_to_string n = net_to_string m -> n = m.
Proof. intros E. pose proof (net_show_parse n) as Hn. rewrite E, net_show_parse in Hn. congruence. Qed.

#[local] Existing Instance by_text_dec.

#[local] Instance by_text_total : Total (by_text net_to_string).
Proof. intros a b. apply str_le_total. Qed.
#[local] Instance by_text_trans : Transitive (by_text net_to_string).
Proof. intros a b c. apply str_le_trans. Qed.
#[local] Instance by_text_antisym : AntiSymm (=) (by_text net_to_string).
Proof. intros a b H1 H2. by apply net_to_string_inj, str_le_antisym. Qed.

(** The networks a list of texts stands for. *)
Definition denotes (cidrs : list str) (n : IpNet) : Prop := exists cidr, cidr ∈ cidrs /\ net_parse cidr = Some n.

Lemma normalize_Ok cidrs l :
  normalize_cidrs net_to_string cidrs = Ok l ->
  exists parsed, Forall2 (fun cidr n => net_parse cidr = Some n) cidrs parsed /\
    l = map net_to_string (dedup (merge_sort (by_text net_to_string) parsed)).
Proof.
  unfold normalize_cidrs. destruct (result_mapM _ cidrs) as [parsed|e] eqn:E; [|done]. intros [= <-].
  exists parsed. split; [|done]. apply result_mapM_Ok in E. eapply Forall2_impl; [exact E|].
  intros c n. cbn. unfold ok_or. by destruct (net_parse c); intros [= ->].
Qed.

Lemma denotes_parsed cidrs parsed n :
  Forall2 (fun cidr n => net_parse cidr = Some n) cidrs parsed -> n ∈ parsed <-> denotes cidrs n.
Proof.
  intros HF. unfold denotes. induction HF as [|c m cidrs parsed Hc HF IH]; [set_solver|].
  rewrite elem_of_cons, IH. split.
  - intros [->|(c' & ? & ?)]; [exists c; set_solver|exists c'; set_solver].
  - intros (c' & [->|?]%elem_of_cons & ?); [left; congruence|right; by exists c'].
Qed.

(** The normal form holds the text of every network once, and nothing else. *)
Lemma normalize_elem cidrs l x :
  normalize_cidrs net_to_string cidrs = Ok l -> x ∈ l <-> exists n, denotes cidrs n /\ x = net_to_string n.
Proof.
  intros (parsed & HF & ->)%normalize_Ok. rewrite list_elem_of_fmap. setoid_rewrite elem_of_dedup.
  setoid_rewrite merge_sort_Permutation. setoid_rewrite (denotes_parsed _ _ _ HF). naive_solver.
Qed.

Lemma normalize_sorted cidrs l :
  normalize_cidrs net_to_string cidrs = Ok l ->
  exists nets, l = map net_to_string nets /\ StronglySorted (by_text net_to_string) nets /\ NoDup nets /\
    forall n, n ∈ nets <-> denotes cidrs n.
Proof.
  intros (parsed & HF & ->)%normalize_Ok. eexists. split; [done|].
  destruct (dedup_sorted (by_text net_to_string) (merge_sort (by_text net_to_string) parsed)) as [Hs Hn];
    [apply StronglySorted_merge_sort; apply _|]. split_and!; [done|done|].
  intros n. rewrite elem_of_dedup, merge_sort_Permutation. by apply denotes_parsed.
Qed.

(** It does not depend on the order, the repetitions or the spelling. *)
Lemma normalize_ext cidrs1 cidrs2 l1 l2 :
  normalize_cidrs net_to_string cidrs1 = Ok l1 -> normalize_cidrs net_to_string cidrs2 = Ok l2 ->
  (forall n, denotes cidrs1 n <-> denotes cidrs2 n) -> l1 = l2.
Proof.
  intros (n1 & -> & Hs1 & Hd1 & He1)%normalize_sorted (n2 & -> & Hs2 & Hd2 & He2)%normalize_sorted He.
  f_equal. apply (StronglySorted_unique (by_text net_to_string)); [done|done|].
  apply NoDup_Permutation; [done|done|]. intros n. by rewrite He1, He2, He.
Qed.
End normal.

(** ** The rendered file *)

(** Texts that [{:?}] only quotes. *)
Definition plain_text (s : str) : bool :=
  forallb (fun b => (32 <=? b) && (b <? 127) && negb (b =? DQUOTE) && negb (b =? 92)) s.

Definition plain_snapshot (s : SnapshotData) : bool :=
  plain_text (sd_source_url s) && plain_text (sd_fetched_at s) && forallb plain_text (sd_cidrs s).

Lemma debug_plain s : plain_text s = true -> debug_str s = [DQUOTE] ++ s ++ [DQUOTE].
Proof.
  intros Hs. unfold debug_str. do 2 f_equal. induction s as [|b s IH]; [done|].
  cbn in Hs. apply andb_prop in Hs as [Hb Hs]. cbn [map concat]. rewrite (IH Hs). unfold debug_char.
  repeat match goal with |- context [if ?c then _ else _] => replace c with false by lia end. done.
Qed.

Lemma plain_no_quote s : plain_text s = true -> DQUOTE ∉ s.
Proof. intros Hs Hin. unfold plain_text in Hs. rewrite forallb_forall in Hs. apply list_elem_of_In, Hs in Hin. done. Qed.

Lemma quoted_inj s t r r' :
  plain_text s = true -> plain_text t = true -> debug_str s ++ r = debug_str t ++ r' -> s = t /\ r = r'.
Proof.
  intros Hs Ht. rewrite !debug_plain by done. cbn [app]. rewrite <- !app_assoc. intros [= E].
  pose proof (proj2 (split_once_Some DQUOTE (s ++ DQUOTE :: r) s r) (conj eq_refl (plain_no_quote s Hs))) as E1.
  cbn [app] in E. rewrite E in E1. apply split_once_Some in E1 as [E1 _].
  pose proof (proj2 (split_once_Some DQUOTE _ t r') (conj eq_refl (plain_no_quote t Ht))) as E2.
  pose proof (proj2 (split_once_Some DQUOTE _ s r) (conj eq_refl (plain_no_quote s Hs))) as E3.
  rewrite E1, E3 in E2. by injection E2 as -> ->.
Qed.

Lemma cidrs_inj l l' r r' :
  forallb plain_text l = true -> forallb plain_text l' = true ->
  concat (map render_cidr l) ++ B "];" ++ r = concat (map render_cidr l') ++ B "];" ++ r' -> l = l' /\ r = r'.
Proof.
  revert l'. induction l as [|c l IH]; intros [|c' l'] Hl Hl'; cbn [map concat].
  - by intros ->%app_inv_head%app_inv_head.
  - by intros [=].
  - by intros [=].
  - cbn in Hl, Hl'. apply andb_prop in Hl as [Hc Hl], Hl' as [Hc' Hl']. unfold render_cidr. rewrite <- !app_assoc.
    intros E%app_inv_head. apply quoted_inj in E as [-> E]; [|done..].
    do 2 apply app_inv_head in E. by destruct (IH l' Hl Hl' E) as [-> ->].
Qed.

Lemma render_snapshot_inj alias s s' r r' :
  plain_snapshot s = true -> plain_snapshot s' = true ->
  render_snapshot alias s ++ r = render_snapshot alias s' ++ r' -> s = s' /\ r = r'.
Proof.
  unfold plain_snapshot. intros [[H1 H2]%andb_prop H3]%andb_prop [[H1' H2']%andb_prop H3']%andb_prop.
  unfold render_snapshot. rewrite <- !app_assoc. intros E. do 3 apply app_inv_head in E.
  apply quoted_inj in E as [Eu E]; [|done..]. do 5 apply app_inv_head in E.
  apply quoted_inj in E as [Ef E]; [|done..]. do 7 apply app_inv_head in E.
  apply cidrs_inj in E as [Ec E]; [|done..]. do 2 apply app_inv_head in E.
  destruct s, s'. cbn in *. by subst.
Qed.

Definition render_constants (c : Constants) : str :=
  render_header ++ concat (map (fun alias => render_snapshot alias (c alias)) builtin_aliases).

Lemma render_constants_inj c c' :
  (forall a, plain_snapshot (c a) = true) -> (forall a, plain_snapshot (c' a) = true) ->
  render_constants c = render_constants c' -> forall a, c a = c' a.
Proof.
  intros Hc Hc' E%app_inv_head. cbn [builtin_aliases BUILTIN_ALIASES map concat] in E.
  apply render_snapshot_inj in E as [E1 E]; [|done..]. apply render_snapshot_inj in E as [E2 E]; [|done..].
  apply render_snapshot_inj in E as [E3 _]; [|done..]. by intros [].
Qed.

(** The file ends with a bracket, a semicolon and two line ends. *)
Lemma render_constants_end c : exists t, render_constants c = (t ++ B "]" ++ [59]) ++ [10; 10] /\
  trim_end (render_constants c) = t ++ B "]" ++ [59].
Proof.
  assert (exists t, render_constants c = (t ++ B "]" ++ [59]) ++ [10; 10]) as [t Ht].
  { unfold render_constants. cbn [builtin_aliases BUILTIN_ALIASES map concat]. rewrite app_nil_r.
    unfold render_snapshot at 3. change (B "];" ++ LF ++ LF) with ((B "]" ++ [59]) ++ [10; 10]).
    eexists. rewrite !(app_assoc _ _ [10; 10]). f_equal. rewrite !(app_assoc _ _ (B "]" ++ [59])). reflexivity. }
  exists t. split; [done|]. rewrite Ht, trim_end_spaces, app_assoc by done. by apply trim_end_graphic.
Qed.

Lemma render_trim_inj c c' :
  trim_end (render_constants c) = trim_end (render_constants c') -> render_constants c = render_constants c'.
Proof.
  destruct (render_constants_end c) as (t & -> & ->), (render_constants_end c') as (t' & -> & ->). by intros ->.
Qed.

(** ** Updates *)

Section updates.
Context `{IpNetApi} `{!EqDecision IpNet} (net_to_string : IpNet -> str).

(** The texts a provider publishes. *)
Definition published (p : Published) (alias : BuiltinTrustedProxyAlias) : option (list str) :=
  match alias with
  | Cloudflare => match p_cloudflare p with Ok (v4, v6, true) => Some (v4 ++ v6) | _ => None end
  | Cloudfront => match p_cloudfront p with Ok l => Some l | _ => None end
  | Fastly => match p_fastly p with Ok (v4, v6) => Some (v4 ++ v6) | _ => None end
  end.

Lemma fetch_Ok c p alias date s :
  fetch_snapshot net_to_string c p alias date = Ok s ->
  exists raw, published p alias = Some raw /\ normalize_cidrs net_to_string raw = Ok (sd_cidrs s) /\
    s = {| sd_source_url := sd_source_url (c alias); sd_fetched_at := date; sd_cidrs := sd_cidrs s |}.
Proof.
  unfold fetch_snapshot, published, fetch_cloudflare_snapshot, fetch_cloudfront_snapshot, fetch_fastly_snapshot.
  destruct alias; repeat case_match; try done; cbn [negb] in *; intros E;
    try (match type of E with context [normalize_cidrs net_to_string ?l] =>
      destruct (normalize_cidrs net_to_string l) as [l'|e] eqn:El; [|done]; injection E as <-; by exists l end).
Qed.

(** The answers alone decide whether a snapshot is fetched. *)
Lemma fetch_again c c' p alias date date' s :
  fetch_snapshot net_to_string c p alias date = Ok s ->
  fetch_snapshot net_to_string c' p alias date' =
    Ok {| sd_source_url := sd_source_url (c' alias); sd_fetched_at := date'; sd_cidrs := sd_cidrs s |}.
Proof. unfold fetch_snapshot. destruct (match alias with Cloudflare => _ | _ => _ end); [|done]. by intros [= <-]. Qed.

Lemma same_cidrs_spec l k : same_cidrs l k = true <-> forall x, x ∈ l <-> x ∈ k.
Proof. unfold same_cidrs. rewrite andb_true_iff, !bool_decide_eq_true. set_solver. Qed.

Lemma current_snapshot_eta c alias : current_snapshot c alias = c alias.
Proof. unfold current_snapshot. by destruct (c alias). Qed.

(** What an update makes of one provider. *)
Lemma update_alias_Ok c p date providers alias s st :
  update_alias net_to_string c p date providers alias = Ok (s, st) ->
  (alias ∉ providers /\ s = c alias) \/
  (alias ∈ providers /\ sd_source_url s = sd_source_url (c alias) /\
   exists f, fetch_snapshot net_to_string c p alias date = Ok f /\ (s = f \/ s = c alias) /\
     same_cidrs (sd_cidrs s) (sd_cidrs f) = true).
Proof.
  unfold update_alias. rewrite current_snapshot_eta. case_bool_decide as Hin; [|intros [= <- _]; by left].
  destruct (fetch_snapshot _ _ _ _ _) as [f|e] eqn:Ef; [|done]. intros [= <- _]. right. split; [done|].
  destruct (fetch_Ok _ _ _ _ _ Ef) as (raw & _ & _ & Hf).
  assert (sd_source_url f = sd_source_url (c alias)) as Hu by (by rewrite Hf). rewrite Hu, bool_decide_true by done. cbn.
  destruct (same_cidrs (sd_cidrs (c alias)) (sd_cidrs f)) eqn:Es; cbn; (split; [done|]); exists f; split_and!; auto.
  by apply same_cidrs_spec.
Qed.

(** The next build finds nothing to change in it. *)
Lemma update_alias_again c c' p date date' providers alias s st :
  update_alias net_to_string c p date providers alias = Ok (s, st) -> c' alias = s ->
  exists st', update_alias net_to_string c' p date' providers alias = Ok (s, st').
Proof.
  intros Hu Hc'. destruct (update_alias_Ok _ _ _ _ _ _ _ Hu) as [(Hin & _)|(Hin & Hurl & f & Hf & _ & Hsame)];
    unfold update_alias; rewrite current_snapshot_eta.
  - rewrite bool_decide_false by done. rewrite Hc'. by eexists.
  - rewrite bool_decide_true by done. rewrite (fetch_again _ c' _ _ _ date' _ Hf). cbn.
    rewrite bool_decide_true, Hc', Hsame by done. by eexists.
Qed.

Lemma update_all_Ok c p date providers us :
  update_all net_to_string c p date providers = Ok us ->
  exists u, us = map (fun a => (a, u a)) builtin_aliases /\
    forall a, update_alias net_to_string c p date providers a = Ok (u a).
Proof.
  unfold update_all. cbn [builtin_aliases BUILTIN_ALIASES result_mapM].
  destruct (update_alias _ _ _ _ _ Cloudflare) as [u1|] eqn:E1; [|done].
  destruct (update_alias _ _ _ _ _ Cloudfront) as [u2|] eqn:E2; [|done].
  destruct (update_alias _ _ _ _ _ Fastly) as [u3|] eqn:E3; [|done]. cbn. intros [= <-].
  exists (fun a => match a with Cloudflare => u1 | Cloudfront => u2 | Fastly => u3 end). split; [done|]. by intros [].
Qed.

Lemma update_all_of c p date providers u :
  (forall a, update_alias net_to_string c p date providers a = Ok (u a)) ->
  update_all net_to_string c p date providers = Ok (map (fun a => (a, u a)) builtin_aliases).
Proof. intros Hu. unfold update_all. cbn [builtin_aliases BUILTIN_ALIASES result_mapM map]. by rewrite !Hu. Qed.

Lemma render_snapshots_of u :
  render_snapshots_module (snapshots_of (map (fun a => (a, u a)) builtin_aliases))
    = Ok (render_constants (fun a => fst (u a))).
Proof. done. Qed.

Lemma alias_choice {A} (P : BuiltinTrustedProxyAlias -> A -> Prop) :
  (forall a, exists x, P a x) -> exists f, forall a, P a (f a).
Proof.
  intros HP. destruct (HP Cloudflare) as [x1 H1], (HP Cloudfront) as [x2 H2], (HP Fastly) as [x3 H3].
  exists (fun a => match a with Cloudflare => x1 | Cloudfront => x2 | Fastly => x3 end). by intros [].
Qed.

Lemma render_constants_ext c c' : (forall a, c a = c' a) -> render_constants c = render_constants c'.
Proof. intros Hc. unfold render_constants. cbn [builtin_aliases BUILTIN_ALIASES map]. by rewrite !Hc. Qed.

Lemma update_all_again c p date date' providers u :
  (forall a, update_alias net_to_string c p date providers a = Ok (u a)) ->
  exists us, update_all net_to_string (fun a => fst (u a)) p date' providers = Ok us /\
    render_constants (fun a => default (fst (u a)) (fst <$> map_find a us)) = render_constants (fun a => fst (u a)).
Proof.
  intros Hu. destruct (alias_choice (fun a st =>
    update_alias net_to_string (fun a => fst (u a)) p date' providers a = Ok (fst (u a), st))) as [st Hst].
  { intros a. eapply update_alias_again; [|done]. by rewrite (Hu a), <- surjective_pairing. }
  eexists. split; [by apply (update_all_of _ _ _ _ (fun a => (fst (u a), st a)))|].
  apply render_constants_ext. by intros [].
Qed.

(** A successful run, by what it makes of the constants. *)
Lemma main_spec c p date args existing write_ok :
  main net_to_string c p date args existing write_ok =
    (us ← update_all net_to_string c p date (a_providers args);
     let rendered := render_constants (fun a => default (c a) (fst <$> map_find a us)) in
     if bool_decide (trim_end (default [] existing) = trim_end rendered) then Ok (None, [])
     else if a_check args then Err Outdated
     else if write_ok then Ok (Some rendered, omap (M := list) (fun u => snd (snd u)) us)
     else Err WriteFailed).
Proof.
  unfold main. destruct (update_all _ _ _ _ _) as [us|e] eqn:E; [|done]. cbn [mbind result_bind].
  destruct (update_all_Ok _ _ _ _ _ E) as (u & -> & _). rewrite render_snapshots_of. cbn [mbind result_bind].
  change (render_constants (fun a => default (c a) _)) with (render_constants (fun a => fst (u a))).
  cbv zeta. by destruct (a_check args), (bool_decide _).
Qed.

(** A provider's answer that can be used, and the texts it stands for. *)
Definition publishes (p : Published) (a : BuiltinTrustedProxyAlias) (texts : list str) : Prop :=
  exists raw, published p a = Some raw /\ Forall (fun cidr => is_Some (net_parse cidr)) raw /\
    forall x, x ∈ texts <-> exists n, denotes raw n /\ x = net_to_string n.

Lemma fetch_publishes c p alias date f :
  (forall n, net_parse (net_to_string n) = Some n) ->
  fetch_snapshot net_to_string c p alias date = Ok f -> publishes p alias (sd_cidrs f).
Proof.
  intros Hp (raw & Hraw & Hn & _)%fetch_Ok. exists raw. split_and!; [done| |].
  - destruct (normalize_Ok _ _ _ Hn) as (parsed & HF & _). clear -HF. induction HF; constructor; eauto.
  - intros x. by apply normalize_elem.
Qed.

Lemma publishes_fetch c p alias date texts :
  (forall n, net_parse (net_to_string n) = Some n) -> publishes p alias texts ->
  exists f, fetch_snapshot net_to_string c p alias date = Ok f /\ sd_source_url f = sd_source_url (c alias) /\
    same_cidrs texts (sd_cidrs f) = true.
Proof.
  intros Hp (raw & Hraw & Hall & Hx).
  assert (exists l, normalize_cidrs net_to_string raw = Ok l) as [l Hl].
  { unfold normalize_cidrs. destruct (result_mapM _ raw) as [parsed|e] eqn:E; [by eexists|]. exfalso.
    clear -E Hall. revert e E. induction Hall as [|c r [n Hn] Hr IH]; intros e; cbn; [done|].
    rewrite Hn. cbn. destruct (result_mapM _ r) as [|e'] eqn:Er; cbn; [done|]. intros _. by eapply IH. }
  assert (same_cidrs texts l = true) as Hsame.
  { apply same_cidrs_spec. intros x. rewrite Hx. by rewrite (normalize_elem _ Hp _ _ _ Hl). }
  exists {| sd_source_url := sd_source_url (c alias); sd_fetched_at := date; sd_cidrs := l |}.
  split; [|by split; [|exact Hsame]].
  unfold fetch_snapshot, published, fetch_cloudflare_snapshot, fetch_cloudfront_snapshot, fetch_fastly_snapshot in *.
  destruct alias; repeat case_match; simplify_eq; cbn [negb]; rewrite Hl; reflexivity.
Qed.

Lemma publishes_ext p a l k : (forall x, x ∈ l <-> x ∈ k) -> publishes p a k -> publishes p a l.
Proof. intros Hlk (raw & ? & ? & Hx). exists raw. split_and!; [done..|]. intros x. by rewrite Hlk. Qed.

(** An update leaves the constants of a provider alone exactly when they are what it
    publishes. *)
Lemma update_alias_same c p date providers alias :
  (forall n, net_parse (net_to_string n) = Some n) ->
  (alias ∈ providers -> publishes p alias (sd_cidrs (c alias))) ->
  exists st, update_alias net_to_string c p date providers alias = Ok (c alias, st).
Proof.
  intros Hp Ha. unfold update_alias. rewrite current_snapshot_eta. case_bool_decide as Hin; [|by eexists].
  destruct (publishes_fetch c p alias date _ Hp (Ha Hin)) as (f & -> & Hu & Hs). cbn.
  rewrite bool_decide_true, Hs by done. by eexists.
Qed.

Lemma update_alias_plain c p date providers alias s st :
  (forall n, net_parse (net_to_string n) = Some n) -> (forall n, plain_text (net_to_string n) = true) ->
  plain_text date = true -> plain_snapshot (c alias) = true ->
  update_alias net_to_string c p date providers alias = Ok (s, st) -> plain_snapshot s = true.
Proof.
  intros Hp Hn Hd Hc [(_ & ->)|(_ & _ & f & Hf & [-> | ->] & _)]%update_alias_Ok; [done| |done].
  pose proof (fetch_Ok _ _ _ _ _ Hf) as (raw & _ & Hl & Ef).
  rewrite Ef. unfold plain_snapshot in *. cbn [sd_source_url sd_fetched_at sd_cidrs].
  apply andb_prop in Hc as [[-> _]%andb_prop _]. rewrite Hd. cbn [andb]. apply forallb_forall. intros x Hx%list_elem_of_In.
  apply (normalize_elem _ Hp _ _ _ Hl) in Hx as (n & _ & ->). apply Hn.
Qed.
End updates.

(** ** Theorems *)

(** The file after a run. *)
Definition file_after (existing : option str) (written : option str) : option str :=
  match written with Some t => Some t | None => existing end.

(** An update writes what the providers publish and is stable: after a successful run
    there are constants that the file renders up to trailing white space, in which every
    requested provider has exactly the networks it published, whatever their order,
    repetitions or spelling, and every other provider is as before; and a build with
    these constants finds the file up to date, on any later day. *)
Theorem update_publishes_and_settles `{IpNetApi} `{!EqDecision IpNet} (net_to_string : IpNet -> str)
    c p date args existing written statuses :
  (forall n, net_parse (net_to_string n) = Some n) -> a_check args = false ->
  main net_to_string c p date args existing true = Ok (written, statuses) ->
  exists c',
    trim_end (default [] (file_after existing written)) = trim_end (render_constants c') /\
    (forall a, a ∉ a_providers args -> c' a = c a) /\
    (forall a, a ∈ a_providers args -> exists raw, published p a = Some raw /\
       forall x, x ∈ sd_cidrs (c' a) <-> exists n, denotes raw n /\ x = net_to_string n) /\
    (forall date' write_ok,
       main net_to_string c' p date'
         {| a_providers := a_providers args; a_check := true; a_timeout := a_timeout args |}
         (file_after existing written) write_ok = Ok (None, [])).
Proof.
  intros Hp Hcheck. rewrite main_spec, Hcheck. destruct (update_all _ _ _ _ _) as [us|e] eqn:E; [|done].
  cbn [mbind result_bind]. destruct (update_all_Ok _ _ _ _ _ _ E) as (u & -> & Hu).
  change (render_constants (fun a => default (c a) _)) with (render_constants (fun a => fst (u a))). cbv zeta.
  intros Hmain. exists (fun a => fst (u a)).
  assert (trim_end (default [] (file_after existing written)) = trim_end (render_constants (fun a => fst (u a)))) as Hfile.
  { case_bool_decide as Hb; injection Hmain as <- _; [exact Hb|done]. }
  split; [exact Hfile|]. split; [|split].
  - intros a Ha. specialize (Hu a). destruct (u a) as [s st]. by destruct (update_alias_Ok _ _ _ _ _ _ _ _ Hu) as [(_ & ?)|(? & _)].
  - intros a Ha. specialize (Hu a). destruct (u a) as [s st].
    destruct (update_alias_Ok _ _ _ _ _ _ _ _ Hu) as [(? & _)|(_ & _ & f & Hf & _ & Hs)]; [done|].
    destruct (fetch_Ok _ _ _ _ _ _ Hf) as (raw & Hraw & Hn & _). exists raw. split; [done|]. intros x.
    rewrite same_cidrs_spec in Hs. rewrite Hs. by apply normalize_elem.
  - intros date' write_ok. rewrite main_spec. cbn [a_providers a_check].
    destruct (update_all_again net_to_string c p date date' _ u Hu) as (us & -> & Er). cbn [mbind result_bind].
    by rewrite Er, bool_decide_true.
Qed.

(** A check is exact: against the file of the tool's own constants it passes precisely
    when every requested provider answers with networks that parse and publishes exactly
    the built-in ones, so no added, removed or changed network goes unnoticed. *)
Theorem check_is_exact `{IpNetApi} `{!EqDecision IpNet} (net_to_string : IpNet -> str) c p date args write_ok :
  (forall n, net_parse (net_to_string n) = Some n) -> (forall n, plain_text (net_to_string n) = true) ->
  plain_text date = true -> (forall a, plain_snapshot (c a) = true) -> a_check args = true ->
  main net_to_string c p date args (Some (render_constants c)) write_ok = Ok (None, []) <->
  (forall a, a ∈ a_providers args -> publishes net_to_string p a (sd_cidrs (c a))).
Proof.
  intros Hp Hn Hd Hc Hcheck. rewrite main_spec, Hcheck. split.
  - destruct (update_all _ _ _ _ _) as [us|e] eqn:E; [|done]. cbn [mbind result_bind].
    destruct (update_all_Ok _ _ _ _ _ _ E) as (u & -> & Hu). cbv zeta.
    change (render_constants (fun a => default (c a) _)) with (render_constants (fun a => fst (u a))).
    case_bool_decide as Hb; [|done]. intros _ a Ha. cbn [default from_option] in Hb.
    assert (c a = fst (u a)) as Hca.
    { apply (render_constants_inj c (fun a => fst (u a))); [done| |by apply render_trim_inj].
      intros b. specialize (Hu b). destruct (u b) as [s st]. by eapply update_alias_plain. }
    specialize (Hu a). destruct (u a) as [s st]. cbn in Hca. subst s.
    destruct (update_alias_Ok _ _ _ _ _ _ _ _ Hu) as [[? _]|(_ & _ & f & Hf & _ & Hs)]; [done|].
    eapply publishes_ext; [by apply same_cidrs_spec|]. by eapply fetch_publishes.
  - intros Ha. destruct (alias_choice _ (fun a => update_alias_same net_to_string c p date (a_providers args) a Hp (Ha a)))
      as [st Hst]. rewrite (update_all_of _ _ _ _ _ (fun a => (c a, st a)) Hst). cbn [mbind result_bind]. cbv zeta.
    rewrite bool_decide_true; [done|]. cbn [default from_option]. f_equal.
Qed.

(** ** Witnesses *)

Module SnapshotExamples.

(** Two networks, one with a second spelling. *)
#[local] Instance two_nets : IpNetApi := {|
  IpNet := bool;
  net_contains := fun _ _ => false;
  net_parse := fun s =>
    if bool_decide (s = B "10.0.0.0/8") then Some true
    else if bool_decide (s = B "2001:db8::/32") then Some false
    else if bool_decide (s = B "2001:0db8::/32") then Some false
    else None
|}.
#[local] Instance two_nets_eq : EqDecision (@IpNet two_nets).
Proof. change (EqDecision bool). apply _. Defined.

Definition text (n : @IpNet two_nets) : str := if n : bool then B "10.0.0.0/8" else B "2001:db8::/32".

Lemma text_parse n : net_parse (text n) = Some n.
Proof. by destruct n. Qed.

Definition answers : Published := {|
  p_cloudflare := Ok ([B "10.0.0.0/8"], [B "2001:0db8::/32"; B "2001:db8::/32"], true);
  p_cloudfront := Err ();
  p_fastly := Ok ([], [])
|}.

Definition old : Constants := fun a =>
  {| sd_source_url := source_url a; sd_fetched_at := B "2026-04-16"; sd_cidrs := [B "2001:db8::/32"] |}.

Definition new : Constants := fun a =>
  match a with
  | Cloudflare => {| sd_source_url := source_url Cloudflare; sd_fetched_at := B "2026-05-01";
                     sd_cidrs := [B "10.0.0.0/8"; B "2001:db8::/32"] |}
  | _ => old a
  end.

Definition only_cloudflare (check : bool) : Args :=
  {| a_providers := [Cloudflare]; a_check := check; a_timeout := 10 |}.

Definition first_run := main text old answers (B "2026-05-01") (only_cloudflare false) None true.

Lemma first_run_writes : first_run = Ok (Some (render_constants new),
  [{| us_alias := Cloudflare; us_changed := true; us_cidr_count := 2; us_fetched_at := B "2026-05-01" |}]).
Proof. vm_compute. reflexivity. Qed.

Lemma update_publishes_and_settles_witness :
  exists c', (forall a, a ∉ [Cloudflare] -> c' a = old a) /\
    (forall date' write_ok, main text c' answers date' (only_cloudflare true) (Some (render_constants new)) write_ok
       = Ok (None, [])).
Proof.
  destruct (update_publishes_and_settles text old answers (B "2026-05-01") (only_cloudflare false) None
    (Some (render_constants new)) _ text_parse eq_refl first_run_writes) as (c' & _ & H1 & _ & H2).
  exists c'. split; [exact H1|exact H2].
Defined.

Lemma new_published : publishes text answers Cloudflare (sd_cidrs (new Cloudflare)).
Proof.
  exists [B "10.0.0.0/8"; B "2001:0db8::/32"; B "2001:db8::/32"]. split_and!; [done|repeat constructor; by eexists|].
  intros x. cbn. split.
  - intros [->|[->|?%elem_of_nil]%elem_of_cons]%elem_of_cons; [exists true|exists false|done]; (split; [|done]).
    + exists (B "10.0.0.0/8"). split; [by left|done].
    + exists (B "2001:db8::/32"). split; [by right; right; left|done].
  - intros ([] & _ & ->); [by left|by right; left].
Qed.

Lemma check_is_exact_witness :
  main text new answers (B "2026-06-01") (only_cloudflare true) (Some (render_constants new)) false = Ok (None, []) /\
  main text old answers (B "2026-06-01") (only_cloudflare true) (Some (render_constants old)) false = Err Outdated.
Proof.
  split; [|vm_compute; reflexivity].
  apply (check_is_exact text new answers (B "2026-06-01") (only_cloudflare true) false text_parse).
  - intros []; vm_compute; reflexivity.
  - vm_compute. reflexivity.
  - intros []; vm_compute; reflexivity.
  - reflexivity.
  - intros a ->%list_elem_of_singleton. exact new_published.
Defined.

(** The built-in constants are in the form the tool renders. *)
Lemma builtin_plain : forallb (fun a => plain_snapshot (builtin_constants a)) builtin_aliases = true.
Proof. vm_compute. reflexivity. Qed.

End SnapshotExamples.
