(* ===== verification/ForwardedSyntax.v ===== *)
(** * The text of forwarding headers

    Parsing and printing of [Forwarded] (RFC 7239) and [X-Forwarded-For] values, as
    in [rpxy-lib/src/message_handler/header_ops/forwarding.rs], and the address
    canonicalisation of [message_handler/canonical_address.rs]. The header flow
    built on it is in [Forwarding]. Main results: what the printer emits the parser
    reads back, and the parser only produces nodes the printer accepts. *)

From S2P Require Import Prelude RustStr RustNet.

(** ** Canonical addresses *)

(** [ToCanonical for SocketAddr] *)
Definition to_canonical (a : SocketAddr) : SocketAddr :=
  match sa_ip a with
  | V4 _ _ _ _ => a
  | V6 s =>
      match to_ipv4 s with
      | Some mapped =>
          if bool_decide (mapped = V4 0 0 0 1) then a
          else {| sa_ip := mapped; sa_port := sa_port a |}
      | None => a
      end
  end.

Definition canonicalize_ip (ip : IpAddr) : IpAddr :=
  sa_ip (to_canonical {| sa_ip := ip; sa_port := 0 |}).

(** ** Data *)

Inductive ForwardedPort :=
| Numeric (p : Z)
| Obfuscated (s : str).

Inductive ForwardedNodeRaw :=
| RawIp
| RawUnknown
| RawObfuscated (s : str).

Record ForwardedNode := {
  ip : option IpAddr;
  port : option ForwardedPort;
  raw : ForwardedNodeRaw
}.

Record ForwardedEntry := {
  for_node : ForwardedNode;
  proto : option str;
  host : option str;
  by_ : option str
}.

#[export] Instance ForwardedPort_eq_dec : EqDecision ForwardedPort.
Proof. solve_decision. Defined.
#[export] Instance ForwardedNodeRaw_eq_dec : EqDecision ForwardedNodeRaw.
Proof. solve_decision. Defined.
#[export] Instance ForwardedNode_eq_dec : EqDecision ForwardedNode.
Proof. solve_decision. Defined.
#[export] Instance ForwardedEntry_eq_dec : EqDecision ForwardedEntry.
Proof. solve_decision. Defined.

(** The [anyhow!] errors of the module. *)
Inductive fwd_error :=
| HeaderMissing
| InvalidHeaderValue
| DuplicateParameter
| MissingFor
| UnterminatedQuotedString
| UnterminatedEscape
| NotAnIpAddress
| InvalidForwardedAddress
| InvalidObfnode
| InvalidObfport
| InvalidPort
| NoForwardingChain
| InvalidNodeState.

(** ** Parsing *)

(** The loop of [split_respecting_quotes]: [cur] is [input[start..idx]]. *)
Fixpoint split_quotes_go (delimiter : byte) (in_quotes escaped : bool) (cur s : str) : list str :=
  match s with
  | [] => [trim cur]
  | b :: r =>
      if escaped then split_quotes_go delimiter in_quotes false (cur ++ [b]) r
      else if (b =? BACKSLASH) && in_quotes then
        split_quotes_go delimiter in_quotes true (cur ++ [b]) r
      else if b =? DQUOTE then
        split_quotes_go delimiter (negb in_quotes) false (cur ++ [b]) r
      else if (b =? delimiter) && negb in_quotes then
        trim cur :: split_quotes_go delimiter in_quotes false [] r
      else split_quotes_go delimiter in_quotes false (cur ++ [b]) r
  end.

Definition split_respecting_quotes (input : str) (delimiter : byte) : list str :=
  split_quotes_go delimiter false false [] input.

(** The unescaping loop of [unquote_http_value]. *)
Fixpoint unescape (escaped : bool) (s : str) : result fwd_error str :=
  match s with
  | [] => if escaped then Err UnterminatedEscape else Ok []
  | c :: r =>
      if escaped then t ← unescape false r; Ok (c :: t)
      else if c =? BACKSLASH then unescape true r
      else t ← unescape false r; Ok (c :: t)
  end.

Definition unquote_http_value (value : str) : result fwd_error str :=
  let trimmed := trim value in
  if negb (starts_with [DQUOTE] trimmed) then Ok trimmed
  else
    match (s ← strip_prefix [DQUOTE] trimmed; strip_suffix [DQUOTE] s) with
    | None => Err UnterminatedQuotedString
    | Some inner => unescape false inner
    end.

Definition is_forwarded_obfuscated_id (s : str) : bool :=
  match strip_prefix [UNDERSCORE] s with
  | None => false
  | Some rest =>
      negb (bool_decide (rest = []))
      && forallb (fun b => is_ascii_alphanumeric b
                           || (b =? DOT) || (b =? UNDERSCORE) || (b =? HYPHEN)) rest
  end.

Definition is_obfnode (s : str) : bool := is_forwarded_obfuscated_id s.
Definition is_obfport (s : str) : bool := is_forwarded_obfuscated_id s.

Definition parse_forwarded_port (port : str) : result fwd_error ForwardedPort :=
  if starts_with [UNDERSCORE] port then
    if is_obfport port then Ok (Obfuscated port) else Err InvalidObfport
  else if bool_decide (port = []) || (5 <? length port)%nat || negb (forallb is_ascii_digit port)
  then Err InvalidPort
  else match parse_uint u16_max port with
       | Some p => Ok (Numeric p)
       | None => Err InvalidPort
       end.

(** [node.strip_prefix('[').and_then(|s| s.strip_suffix(']'))] *)
Definition strip_brackets (s : str) : option str :=
  t ← strip_prefix [LBRACKET] s; strip_suffix [RBRACKET] t.

(** The tail of [parse_forwarded_node]: a node without port. *)
Definition parse_node_without_port (trimmed : str) : result fwd_error ForwardedNode :=
  match strip_brackets trimmed with
  | Some inner =>
      ip ← ok_or (parse_ip inner) InvalidForwardedAddress;
      Ok {| ip := Some (canonicalize_ip ip); port := None; raw := RawIp |}
  | None =>
      if is_obfnode trimmed then
        Ok {| ip := None; port := None; raw := RawObfuscated trimmed |}
      else if starts_with [UNDERSCORE] trimmed then Err InvalidObfnode
      else
        ip ← ok_or (parse_ip trimmed) InvalidForwardedAddress;
        Ok {| ip := Some (canonicalize_ip ip); port := None; raw := RawIp |}
  end.

(** The branch for exactly one colon: [None] falls through to the tail. *)
Definition parse_node_one_colon (node port : str) : option (result fwd_error ForwardedNode) :=
  if eq_ignore_ascii_case node (B "unknown") then
    Some (p ← parse_forwarded_port port;
          Ok {| ip := None; port := Some p; raw := RawUnknown |})
  else if is_obfnode node then
    Some (p ← parse_forwarded_port port;
          Ok {| ip := None; port := Some p; raw := RawObfuscated node |})
  else if starts_with [UNDERSCORE] node then Some (Err InvalidObfnode)
  else
    match parse_ip node with
    | Some ip =>
        Some (p ← parse_forwarded_port port;
              Ok {| ip := Some (canonicalize_ip ip); port := Some p; raw := RawIp |})
    | None => None
    end.

(** [parse_forwarded_node] after the unquoting. *)
Definition parse_node_unquoted (trimmed : str) : result fwd_error ForwardedNode :=
  if eq_ignore_ascii_case trimmed (B "unknown") then
    Ok {| ip := None; port := None; raw := RawUnknown |}
  else
    let bracketed :=
      if starts_with [LBRACKET] trimmed then
        '(node, port) ← rsplit_once COLON trimmed;
        inner ← strip_brackets node; Some (inner, port)
      else None in
    match bracketed with
    | Some (inner, port) =>
        ip ← ok_or (parse_ip inner) InvalidForwardedAddress;
        p ← parse_forwarded_port port;
        Ok {| ip := Some (canonicalize_ip ip); port := Some p; raw := RawIp |}
    | None =>
        let one_colon :=
          if (count_byte COLON trimmed =? 1)%nat then
            '(node, port) ← rsplit_once COLON trimmed; parse_node_one_colon node port
          else None in
        match one_colon with
        | Some r => r
        | None => parse_node_without_port trimmed
        end
    end.

Definition parse_forwarded_node (token : str) : result fwd_error ForwardedNode :=
  trimmed ← unquote_http_value token; parse_node_unquoted trimmed.

Definition parse_forwarded_ip_token (token : str) : result fwd_error IpAddr :=
  node ← parse_forwarded_node token;
  match ip node with
  | Some ip => Ok ip
  | None => Err NotAnIpAddress
  end.

(** The four parameters collected by [parse_forwarded_header_entry]. *)
Definition entry_params : Type :=
  option ForwardedNode * option str * option str * option str.

Definition entry_param_step (acc : entry_params) (param : str) : result fwd_error entry_params :=
  let '(for_node, proto, host, by_) := acc in
  match split_once EQUALS param with
  | None => Ok acc
  | Some (key, value) =>
      let key := to_ascii_lowercase (trim key) in
      let value := trim value in
      if bool_decide (key = B "for") then
        if bool_decide (is_Some for_node) then Err DuplicateParameter
        else n ← parse_forwarded_node value; Ok (Some n, proto, host, by_)
      else if bool_decide (key = B "proto") then
        if bool_decide (is_Some proto) then Err DuplicateParameter
        else v ← unquote_http_value value; Ok (for_node, Some v, host, by_)
      else if bool_decide (key = B "host") then
        if bool_decide (is_Some host) then Err DuplicateParameter
        else v ← unquote_http_value value; Ok (for_node, proto, Some v, by_)
      else if bool_decide (key = B "by") then
        if bool_decide (is_Some by_) then Err DuplicateParameter
        else v ← unquote_http_value value; Ok (for_node, proto, host, Some v)
      else Ok acc
  end.

Definition not_empty (s : str) : bool := negb (bool_decide (s = [])).

Definition parse_forwarded_header_entry (entry : str) : result fwd_error ForwardedEntry :=
  acc ← result_foldM entry_param_step
          (List.filter not_empty (split_respecting_quotes entry SEMICOLON))
          (None, None, None, None);
  match acc with
  | (Some n, p, h, b) => Ok {| for_node := n; proto := p; host := h; by_ := b |}
  | (None, _, _, _) => Err MissingFor
  end.

(** [parse_forwarded_header] on the joined header value. *)
Definition parse_forwarded_text (forwarded : str) : result fwd_error (list ForwardedEntry) :=
  result_mapM parse_forwarded_header_entry
    (List.filter not_empty (split_respecting_quotes forwarded COMMA)).

(** ** Printing *)

Definition is_tchar (c : byte) : bool :=
  (c =? 33) || (c =? 35) || (c =? 36) || (c =? 37) || (c =? 38) || (c =? 39) || (c =? 42)
  || (c =? 43) || (c =? 45) || (c =? 46) || (c =? 94) || (c =? 95) || (c =? 96) || (c =? 124)
  || (c =? 126) || is_ascii_alphanumeric c.

Fixpoint escape (s : str) : str :=
  match s with
  | [] => []
  | c :: r => (if (c =? BACKSLASH) || (c =? DQUOTE) then [BACKSLASH; c] else [c]) ++ escape r
  end.

Definition write_forwarded_param_value (value : str) : str :=
  if not_empty value && forallb is_tchar value then value
  else [DQUOTE] ++ escape value ++ [DQUOTE].

Definition push_ipv4 (a b c d : Z) : str := show_ipv4 a b c d.

Definition push_ip_addr (ip : IpAddr) : str :=
  match ip with
  | V4 a b c d => push_ipv4 a b c d
  | V6 s => show_ip (V6 s)
  end.

Definition push_forwarded_port (p : ForwardedPort) : str :=
  match p with
  | Numeric n => show_dec n
  | Obfuscated s => s
  end.

Definition write_forwarded_node (node : ForwardedNode) : result fwd_error str :=
  match raw node, ip node, port node with
  | RawIp, Some (V4 a b c d), None => Ok (push_ipv4 a b c d)
  | RawIp, Some (V4 a b c d), Some p =>
      Ok ([DQUOTE] ++ push_ipv4 a b c d ++ [COLON] ++ push_forwarded_port p ++ [DQUOTE])
  | RawIp, Some (V6 s), None =>
      Ok ([DQUOTE; LBRACKET] ++ show_ip (V6 s) ++ [RBRACKET; DQUOTE])
  | RawIp, Some (V6 s), Some p =>
      Ok ([DQUOTE; LBRACKET] ++ show_ip (V6 s) ++ [RBRACKET; COLON]
            ++ push_forwarded_port p ++ [DQUOTE])
  | RawUnknown, None, None => Ok (B "unknown")
  | RawUnknown, None, Some p =>
      Ok ([DQUOTE] ++ B "unknown:" ++ push_forwarded_port p ++ [DQUOTE])
  | RawObfuscated n, None, None => Ok n
  | RawObfuscated n, None, Some p =>
      Ok ([DQUOTE] ++ n ++ [COLON] ++ push_forwarded_port p ++ [DQUOTE])
  | _, _, _ => Err InvalidNodeState
  end.

(** [if let Some(v) = .. { out.push_str(";name="); write_forwarded_param_value(out, v) }] *)
Definition write_param (name : str) (v : option str) : str :=
  match v with
  | Some v => [SEMICOLON] ++ name ++ [EQUALS] ++ write_forwarded_param_value v
  | None => []
  end.

Definition write_forwarded_entry (e : ForwardedEntry) : result fwd_error str :=
  n ← write_forwarded_node (for_node e);
  Ok (B "for=" ++ n ++ write_param (B "proto") (proto e) ++ write_param (B "host") (host e)
        ++ write_param (B "by") (by_ e)).

Definition generate_forwarded_header (chain : list ForwardedEntry) : result fwd_error str :=
  if bool_decide (chain = []) then Err NoForwardingChain
  else es ← result_mapM write_forwarded_entry chain; Ok (join (B ", ") es).

(** The csv and the length of its first element; [None] for a hop without address. *)
Fixpoint xff_csv_go (first : bool) (chain : list ForwardedEntry) (out : str) (first_len : nat)
    : option (str * nat) :=
  match chain with
  | [] => Some (out, first_len)
  | e :: r =>
      ip ← ip (for_node e);
      let out := (if first then out else out ++ B ", ") ++ push_ip_addr ip in
      xff_csv_go false r out (if first then length out else first_len)
  end.

Definition xff_csv_from_chain (chain : list ForwardedEntry) : option (str * nat) :=
  if bool_decide (chain = []) then None else xff_csv_go true chain [] 0.

(** ** Well-formed nodes *)

Definition port_wf (p : ForwardedPort) : bool :=
  match p with
  | Numeric n => (0 <=? n) && (n <=? u16_max)
  | Obfuscated s => is_obfport s
  end.

Definition node_wf (n : ForwardedNode) : bool :=
  match port n with Some p => port_wf p | None => true end &&
  match raw n, ip n with
  | RawIp, Some a => ip_wf a && bool_decide (canonicalize_ip a = a)
  | RawUnknown, None => true
  | RawObfuscated s, None => is_obfnode s
  | _, _ => false
  end.

(** ** Canonicalisation *)

Lemma to_ipv4_v4 s m : to_ipv4 s = Some m -> exists a b c d, m = V4 a b c d.
Proof. unfold to_ipv4. intros H. repeat case_match; simplify_eq. eauto. Qed.

Lemma to_canonical_ip a : sa_ip (to_canonical a) = canonicalize_ip (sa_ip a).
Proof.
  unfold canonicalize_ip, to_canonical; cbn [sa_ip]. destruct (sa_ip a) as [a1 a2 a3 a4|s] eqn:E;
    [done|]. destruct (to_ipv4 s); [|done]. by case_bool_decide.
Qed.

Lemma canonicalize_ip_idem a : canonicalize_ip (canonicalize_ip a) = canonicalize_ip a.
Proof.
  destruct a as [a b c d|s]; [done|]. unfold canonicalize_ip at 2 3, to_canonical; cbn.
  destruct (to_ipv4 s) as [m|] eqn:E; cbn.
  - case_bool_decide as Hm; cbn.
    + unfold canonicalize_ip, to_canonical; cbn. rewrite E. by rewrite bool_decide_true.
    + by apply to_ipv4_v4 in E as (? & ? & ? & ? & ->).
  - unfold canonicalize_ip, to_canonical; cbn. by rewrite E.
Qed.

Lemma to_ipv4_wf s m : forallb segment s = true -> to_ipv4 s = Some m -> ip_wf m = true.
Proof.
  unfold to_ipv4. intros Hs H. repeat case_match; simplify_eq. cbn in Hs. breflect.
  repeat match goal with H : segment _ = true |- _ => apply segment_octets in H as [? ?] end.
  cbn [ip_wf]. by repeat match goal with H : octet _ = true |- _ => rewrite H; clear H end.
Qed.

Lemma canonicalize_ip_wf a : ip_wf a = true -> ip_wf (canonicalize_ip a) = true.
Proof.
  destruct a as [a b c d|s]; [done|]. unfold canonicalize_ip, to_canonical; cbn [sa_ip].
  intros H. destruct (to_ipv4 s) as [m|] eqn:E; [|done]. case_bool_decide; [done|].
  cbn [sa_ip]. eapply to_ipv4_wf; [|done]. cbn [ip_wf] in H. by breflect.
Qed.

(** ** The parser only produces well-formed nodes *)

Lemma parse_forwarded_port_wf s p : parse_forwarded_port s = Ok p -> port_wf p = true.
Proof.
  unfold parse_forwarded_port. intros H. repeat case_match; simplify_eq; cbn; [done|].
  match goal with E : parse_uint _ _ = Some _ |- _ => unfold parse_uint in E end.
  repeat case_match; simplify_eq; breflect;
    apply andb_true_intro; split; apply Z.leb_le; try (apply digits_value_nonneg; lia); lia.
Qed.

Lemma node_wf_ip a p :
  ip_wf a = true -> match p with Some p => port_wf p | None => true end = true ->
  node_wf {| ip := Some (canonicalize_ip a); port := p; raw := RawIp |} = true.
Proof.
  intros Ha Hp. unfold node_wf; cbn. rewrite Hp, canonicalize_ip_wf by done.
  by rewrite bool_decide_true by apply canonicalize_ip_idem.
Qed.

(** Successful parses, one bind at a time. *)
Ltac parse_inv :=
  repeat match goal with
  | H : mbind _ ?r = Ok _ |- _ =>
      let E := fresh "Hb" in destruct r eqn:E; cbn [mbind result_bind] in H; [|discriminate H]
  | H : Ok _ = Ok _ |- _ => injection H as <-
  | H : Err _ = Ok _ |- _ => discriminate H
  | H : ok_or _ _ = Ok _ |- _ => apply ok_or_Ok in H; apply parse_ip_wf in H
  | H : parse_forwarded_port _ = Ok _ |- _ => apply parse_forwarded_port_wf in H
  end.

Lemma parse_node_one_colon_wf node port n :
  parse_node_one_colon node port = Some (Ok n) -> node_wf n = true.
Proof.
  unfold parse_node_one_colon. intros H.
  repeat case_match; simplify_eq; match goal with H : _ = Ok _ |- _ => revert H end;
    intros; parse_inv.
  - unfold node_wf; cbn. by rewrite Hb.
  - unfold node_wf; cbn. by rewrite Hb.
  - apply node_wf_ip; [by eapply parse_ip_wf|done].
Qed.

Lemma parse_node_without_port_wf s n : parse_node_without_port s = Ok n -> node_wf n = true.
Proof.
  unfold parse_node_without_port. intros H. repeat case_match; parse_inv;
    try (by apply node_wf_ip). unfold node_wf; cbn. done.
Qed.

Lemma parse_forwarded_node_wf token n : parse_forwarded_node token = Ok n -> node_wf n = true.
Proof.
  unfold parse_forwarded_node. intros H. parse_inv. unfold parse_node_unquoted in H.
  case_match; [by parse_inv|].
  match goal with H : match ?m with _ => _ end = _ |- _ => destruct m as [[inner port]|] end;
    [parse_inv; by apply node_wf_ip|].
  match goal with H : match ?m with _ => _ end = _ |- _ => destruct m as [r|] eqn:E end;
    [|by eapply parse_node_without_port_wf].
  subst r. case_match; [|done].
  destruct (rsplit_once COLON _) as [[x y]|]; [|done]. by eapply parse_node_one_colon_wf.
Qed.

(** ** Quoting *)

Lemma unescape_escape v : unescape false (escape v) = Ok v.
Proof.
  induction v as [|c v IH]; [done|]. cbn [escape].
  destruct (Z.eqb_spec c BACKSLASH) as [->|Hb]; [cbn; by rewrite IH|].
  destruct (Z.eqb_spec c DQUOTE) as [->|Hq]; cbn [orb app unescape].
  - cbn [Z.eqb Pos.eqb]. by rewrite IH.
  - rewrite (proj2 (Z.eqb_neq c BACKSLASH) Hb). by rewrite IH.
Qed.

Lemma unquote_quoted t v :
  unescape false t = Ok v -> unquote_http_value ([DQUOTE] ++ t ++ [DQUOTE]) = Ok v.
Proof.
  intros Ht. unfold unquote_http_value. rewrite trim_id.
  - rewrite (proj2 (starts_with_spec _ _)) by (by eexists). cbn [negb].
    rewrite strip_prefix_app. cbn [mbind option_bind]. by rewrite strip_suffix_app.
  - by intros a [= <-].
  - intros a. rewrite app_assoc, last_snoc. by intros [= <-].
Qed.

Lemma unquote_token t :
  forallb graphic t = true -> DQUOTE ∉ t -> unquote_http_value t = Ok t.
Proof.
  intros Hg Hq. unfold unquote_http_value. rewrite trim_all_graphic by done.
  by rewrite starts_with_not_elem by done.
Qed.

Lemma is_tchar_props b :
  is_tchar b = true -> graphic b = true /\ b <> DQUOTE /\ b <> COMMA /\ b <> SEMICOLON.
Proof.
  unfold is_tchar, graphic, is_ascii_alphanumeric, is_ascii_digit, is_ascii_uppercase,
    is_ascii_lowercase. lia.
Qed.

(** Reading back a printed parameter value gives the value, whatever its bytes. *)
Lemma unquote_write_param v : unquote_http_value (write_forwarded_param_value v) = Ok v.
Proof.
  unfold write_forwarded_param_value. case_match eqn:E.
  - apply andb_prop in E as [_ E]. apply unquote_token.
    + eapply forallb_weaken; [|done]. intros b Hb. by apply is_tchar_props.
    + by eapply forallb_not_elem.
  - apply unquote_quoted, unescape_escape.
Qed.

(** ** Ports *)

Definition obf_char (b : byte) : bool :=
  is_ascii_alphanumeric b || (b =? DOT) || (b =? UNDERSCORE) || (b =? HYPHEN).

Lemma obfuscated_id_chars s : is_forwarded_obfuscated_id s = true -> forallb obf_char s = true.
Proof.
  unfold is_forwarded_obfuscated_id. destruct (strip_prefix _ s) as [r|] eqn:E; [|done].
  apply strip_prefix_Some in E as ->. intros [_ H]%andb_prop. done.
Qed.

Lemma obfuscated_id_underscore s : is_forwarded_obfuscated_id s = true -> UNDERSCORE ∈ s.
Proof.
  unfold is_forwarded_obfuscated_id. destruct (strip_prefix _ s) as [r|] eqn:E; [|done].
  apply strip_prefix_Some in E as ->. set_solver.
Qed.

Lemma is_obfnode_not_elem s : UNDERSCORE ∉ s -> is_obfnode s = false.
Proof.
  intros H. destruct (is_obfnode s) eqn:E; [|done]. by apply obfuscated_id_underscore in E.
Qed.

Lemma show_dec_obf_char n : 0 <= n -> forallb obf_char (show_dec n) = true.
Proof.
  intros Hn. apply forallb_forall. intros b Hb%list_elem_of_In.
  apply show_dec_digit in Hb; [|done]. unfold obf_char, is_ascii_alphanumeric. by rewrite Hb.
Qed.

Lemma push_port_chars p : port_wf p = true -> forallb obf_char (push_forwarded_port p) = true.
Proof.
  destruct p as [n|s]; cbn; [|apply obfuscated_id_chars].
  intros H. breflect. apply show_dec_obf_char. lia.
Qed.

Lemma parse_push_port p :
  port_wf p = true -> parse_forwarded_port (push_forwarded_port p) = Ok p.
Proof.
  destruct p as [n|s]; cbn [port_wf push_forwarded_port]; intros H; unfold parse_forwarded_port.
  - assert (0 <= n <= u16_max) as Hn by lia.
    assert (forallb is_ascii_digit (show_dec n) = true) as Hd.
    { apply forallb_forall. intros b Hb%list_elem_of_In. by apply show_dec_digit in Hb; [|lia]. }
    rewrite starts_with_not_elem by (by eapply forallb_not_elem).
    rewrite bool_decide_false by (apply show_radix_nonempty; lia).
    replace (5 <? length (show_dec n))%nat with false.
    + rewrite Hd. cbn [orb negb]. by rewrite parse_show_uint.
    + symmetry. apply Nat.ltb_ge. apply show_radix_length; [lia| |lia].
      unfold u16_max in Hn. cbn in *. lia.
  - unfold is_obfport in *. rewrite H. unfold is_forwarded_obfuscated_id in H.
    destruct (strip_prefix _ s) as [r|] eqn:E; [|done]. apply strip_prefix_Some in E as ->.
    by rewrite (proj2 (starts_with_spec _ _)) by (by eexists).
Qed.

(** ** Nodes: the text without quotes, and its parse *)

Definition node_text (n : ForwardedNode) : str :=
  match raw n, ip n with
  | RawIp, Some (V6 s) => [LBRACKET] ++ show_ip (V6 s) ++ [RBRACKET]
  | RawIp, Some a => show_ip a
  | RawObfuscated s, _ => s
  | _, _ => B "unknown"
  end ++ match port n with Some p => [COLON] ++ push_forwarded_port p | None => [] end.

(** Nodes printed without quotes: no port, and no bracketed IPv6 address. *)
Definition node_bare (n : ForwardedNode) : bool :=
  match port n, ip n with
  | None, Some (V6 _) => false
  | None, _ => true
  | Some _, _ => false
  end.

Definition node_char (b : byte) : bool :=
  obf_char b || (b =? COLON) || (b =? LBRACKET) || (b =? RBRACKET).

Lemma node_char_props b :
  node_char b = true ->
  graphic b = true /\ b <> DQUOTE /\ b <> BACKSLASH /\ b <> COMMA /\ b <> SEMICOLON.
Proof.
  unfold node_char, obf_char, graphic, is_ascii_alphanumeric, is_ascii_digit,
    is_ascii_uppercase, is_ascii_lowercase. lia.
Qed.

Lemma ip_char_node_char b : ip_char b = true -> node_char b = true.
Proof.
  unfold ip_char, node_char, obf_char, is_ascii_alphanumeric, is_ascii_digit,
    is_ascii_uppercase, is_ascii_lowercase. lia.
Qed.

Lemma obf_char_node_char b : obf_char b = true -> node_char b = true.
Proof. unfold node_char. intros ->. done. Qed.

Lemma show_ip_node_chars a : ip_wf a = true -> forallb node_char (show_ip a) = true.
Proof. intros H%show_ip_chars. eapply forallb_weaken; [|done]. apply ip_char_node_char. Qed.

Lemma node_text_chars n : node_wf n = true -> forallb node_char (node_text n) = true.
Proof.
  unfold node_wf, node_text. intros [Hp Hn]%andb_prop. rewrite forallb_app.
  apply andb_true_intro; split.
  - destruct (raw n) as [| |o]; destruct (ip n) as [[a b c d|s]|]; try done.
    + breflect. by apply show_ip_node_chars.
    + breflect. rewrite !forallb_app, show_ip_node_chars by done. done.
    + eapply forallb_weaken; [apply obf_char_node_char|by apply obfuscated_id_chars].
  - destruct (port n) as [p|]; [|done]. rewrite forallb_app; cbn [forallb].
    eapply forallb_weaken; [apply obf_char_node_char|by apply push_port_chars].
Qed.

Lemma write_node_text n :
  node_wf n = true ->
  write_forwarded_node n =
    Ok (if node_bare n then node_text n else [DQUOTE] ++ node_text n ++ [DQUOTE]).
Proof.
  unfold node_wf, write_forwarded_node, node_bare, node_text. intros [_ Hn]%andb_prop.
  destruct n as [i p r]; cbn in *.
  destruct r as [| |o]; destruct i as [[a b c d|s]|]; try done; destruct p as [p|]; cbn [app];
    rewrite ?app_nil_r, <- ?app_assoc; try done.
Qed.

Lemma not_unknown b s :
  b ∈ s -> (b =? DOT) || (b =? UNDERSCORE) || (b =? COLON) || (b =? LBRACKET) = true ->
  eq_ignore_ascii_case s (B "unknown") = false.
Proof.
  intros Hb Hc. eapply eq_ignore_ascii_case_elem; [exact Hb|].
  assert (b = DOT \/ b = UNDERSCORE \/ b = COLON \/ b = LBRACKET) as H by lia.
  by destruct H as [->|[->|[->| ->]]]; apply (bool_decide_unpack _).
Qed.

(** Bytes that do not occur in the text of an address, an identifier or a port. *)
Lemma obf_char_not c s :
  forallb obf_char s = true -> obf_char c = false -> c ∉ s.
Proof. apply forallb_not_elem. Qed.

Lemma show_ip_not c a : ip_wf a = true -> ip_char c = false -> c ∉ show_ip a.
Proof. intros H. eapply forallb_not_elem, show_ip_chars, H. Qed.

(** [addr:port] *)
Lemma parse_node_with_port x p n :
  COLON ∉ x -> LBRACKET ∉ x -> port_wf p = true ->
  parse_node_one_colon x (push_forwarded_port p) = Some (Ok n) ->
  parse_node_unquoted (x ++ [COLON] ++ push_forwarded_port p) = Ok n.
Proof.
  intros Hx Hl Hp Hn. unfold parse_node_unquoted.
  pose proof (push_port_chars p Hp) as Hc.
  rewrite (not_unknown COLON) by (set_solver || done).
  rewrite starts_with_not_elem.
  2:{ rewrite !not_elem_of_app. split_and!; [done|set_solver|by eapply obf_char_not]. }
  rewrite !count_byte_app, (count_byte_not_elem _ x), (count_byte_not_elem _ (push_forwarded_port p))
    by (done || by eapply obf_char_not).
  cbn [count_byte List.filter Z.eqb Pos.eqb length Nat.add Nat.eqb].
  rewrite (rsplit_once_app COLON x : forall y, _ -> rsplit_once COLON (x ++ [COLON] ++ y) = _)
    by (by eapply obf_char_not). cbn [mbind option_bind]. by rewrite Hn.
Qed.

(** A text without colon or bracket falls to the tail of the parser. *)
Lemma parse_node_no_colon x :
  COLON ∉ x -> LBRACKET ∉ x -> eq_ignore_ascii_case x (B "unknown") = false ->
  parse_node_unquoted x = parse_node_without_port x.
Proof.
  intros Hx Hl Hu. unfold parse_node_unquoted. rewrite Hu.
  rewrite starts_with_not_elem by done. by rewrite count_byte_not_elem by done.
Qed.

Lemma strip_brackets_app s : strip_brackets ([LBRACKET] ++ s ++ [RBRACKET]) = Some s.
Proof.
  unfold strip_brackets. rewrite strip_prefix_app. cbn [mbind option_bind].
  by rewrite strip_suffix_app.
Qed.

(** [[v6]:port] *)
Lemma parse_node_bracketed_port s p :
  ip_wf (V6 s) = true -> canonicalize_ip (V6 s) = V6 s -> port_wf p = true ->
  parse_node_unquoted (([LBRACKET] ++ show_ip (V6 s) ++ [RBRACKET]) ++ [COLON]
                         ++ push_forwarded_port p)
    = Ok {| ip := Some (V6 s); port := Some p; raw := RawIp |}.
Proof.
  intros Hs Hc Hp. unfold parse_node_unquoted.
  rewrite (not_unknown COLON) by (set_solver || done).
  rewrite (proj2 (starts_with_spec [LBRACKET] _)) by (by eexists).
  rewrite (rsplit_once_app COLON (_ ++ _) : forall y, _ -> rsplit_once COLON (_ ++ [COLON] ++ y) = _)
    by (eapply obf_char_not; [by apply push_port_chars|done]).
  cbn [mbind option_bind]. rewrite strip_brackets_app. cbn [mbind option_bind].
  rewrite parse_show_ip by done. cbn [ok_or mbind result_bind].
  rewrite parse_push_port by done. cbn [mbind result_bind]. by rewrite Hc.
Qed.

(** [[v6]]: the last colon is inside the brackets. *)
Lemma parse_node_bracketed s :
  ip_wf (V6 s) = true -> canonicalize_ip (V6 s) = V6 s ->
  parse_node_unquoted ([LBRACKET] ++ show_ip (V6 s) ++ [RBRACKET])
    = Ok {| ip := Some (V6 s); port := None; raw := RawIp |}.
Proof.
  intros Hs Hc. unfold parse_node_unquoted.
  rewrite (not_unknown LBRACKET) by (set_solver || done).
  rewrite (proj2 (starts_with_spec [LBRACKET] _)) by (by eexists).
  assert (('(node, port) ← rsplit_once COLON ([LBRACKET] ++ show_ip (V6 s) ++ [RBRACKET]);
           inner ← strip_brackets node; Some (inner, port)) = None) as ->.
  { destruct (rsplit_once COLON _) as [[x y]|] eqn:E; [|done]. cbn [mbind option_bind].
    apply rsplit_once_Some in E as [E Hy]. unfold strip_brackets.
    destruct (strip_prefix [LBRACKET] x) as [x'|] eqn:Ex; [|done]. cbn [mbind option_bind].
    apply strip_prefix_Some in Ex as ->. rewrite strip_suffix_not_elem; [done|].
    cbn [app] in E. injection E as E.
    destruct y as [|b y _] using rev_ind; [by apply app_inj_tail in E as [_ E]|].
    rewrite app_comm_cons, app_assoc in E. apply app_inj_tail in E as [E _].
    intros Hin. apply (show_ip_not RBRACKET (V6 s) Hs eq_refl). cbn [show_ip]. rewrite E.
    set_solver. }
  replace (count_byte COLON _ =? 1)%nat with false.
  - unfold parse_node_without_port. rewrite strip_brackets_app.
    rewrite parse_show_ip by done. cbn [ok_or mbind result_bind]. by rewrite Hc.
  - symmetry. apply Nat.eqb_neq. rewrite !count_byte_app.
    cbn [ip_wf] in Hs. breflect. pose proof (show_ipv6_colons s ltac:(by apply Nat.eqb_eq)).
    cbn [show_ip]. lia.
Qed.

Lemma one_colon_v4 a b c d p :
  ip_wf (V4 a b c d) = true -> port_wf p = true ->
  parse_node_one_colon (show_ip (V4 a b c d)) (push_forwarded_port p)
    = Some (Ok {| ip := Some (V4 a b c d); port := Some p; raw := RawIp |}).
Proof.
  intros Ha Hp. unfold parse_node_one_colon.
  assert (DOT ∈ show_ip (V4 a b c d)) by (cbn [show_ip]; unfold show_ipv4; set_solver).
  assert (UNDERSCORE ∉ show_ip (V4 a b c d)) by (by apply show_ip_not).
  rewrite (not_unknown DOT), is_obfnode_not_elem, starts_with_not_elem by done.
  by rewrite parse_show_ip, parse_push_port by done.
Qed.

Lemma parse_node_v4 a b c d :
  ip_wf (V4 a b c d) = true ->
  parse_node_unquoted (show_ip (V4 a b c d))
    = Ok {| ip := Some (V4 a b c d); port := None; raw := RawIp |}.
Proof.
  intros Ha.
  assert (DOT ∈ show_ip (V4 a b c d)) by (cbn [show_ip]; unfold show_ipv4; set_solver).
  assert (UNDERSCORE ∉ show_ip (V4 a b c d)) by (by apply show_ip_not).
  assert (LBRACKET ∉ show_ip (V4 a b c d)) by (by apply show_ip_not).
  rewrite parse_node_no_colon by (by apply show_ipv4_no_colon || by eapply not_unknown || done).
  unfold parse_node_without_port, strip_brackets.
  rewrite strip_prefix_not_elem by done. cbn [mbind option_bind].
  rewrite is_obfnode_not_elem, starts_with_not_elem, parse_show_ip by done. done.
Qed.

Lemma parse_node_obf s p :
  is_obfnode s = true -> match p with Some p => port_wf p | None => true end = true ->
  parse_node_unquoted (s ++ match p with Some p => [COLON] ++ push_forwarded_port p
                                       | None => [] end)
    = Ok {| ip := None; port := p; raw := RawObfuscated s |}.
Proof.
  intros Hs Hp. pose proof (obfuscated_id_chars _ Hs) as Hc.
  pose proof (obfuscated_id_underscore _ Hs) as Hu.
  assert (COLON ∉ s) by (by eapply obf_char_not).
  assert (LBRACKET ∉ s) by (by eapply obf_char_not).
  assert (eq_ignore_ascii_case s (B "unknown") = false) as Hn by (by eapply not_unknown).
  destruct p as [p|].
  - apply parse_node_with_port; [done..|]. unfold parse_node_one_colon.
    by rewrite Hn, Hs, parse_push_port.
  - rewrite app_nil_r, parse_node_no_colon by done. unfold parse_node_without_port, strip_brackets.
    rewrite strip_prefix_not_elem by done. cbn [mbind option_bind]. by rewrite Hs.
Qed.

Lemma parse_node_text n : node_wf n = true -> parse_node_unquoted (node_text n) = Ok n.
Proof.
  unfold node_wf, node_text. destruct n as [i p r]; cbn [ip port raw].
  intros [Hp Hn]%andb_prop. destruct r as [| |o].
  - destruct i as [[a b c d|s]|]; [| |done]; apply andb_prop in Hn as [Hw Hc];
      apply bool_decide_eq_true in Hc; destruct p as [p|]; rewrite ?app_nil_r.
    + apply parse_node_with_port; [by apply show_ipv4_no_colon|by apply show_ip_not|done|].
      by apply one_colon_v4.
    + by apply parse_node_v4.
    + by apply parse_node_bracketed_port.
    + by apply parse_node_bracketed.
  - destruct i as [[a b c d|s]|]; [done..|]. destruct p as [p|]; [|done].
    apply parse_node_with_port; [by apply (bool_decide_unpack _)..|done|].
    unfold parse_node_one_colon. rewrite eq_ignore_ascii_case_refl. by rewrite parse_push_port.
  - destruct i as [[a b c d|s]|]; [done..|]. by apply parse_node_obf.
Qed.

Lemma escape_plain s : BACKSLASH ∉ s -> DQUOTE ∉ s -> escape s = s.
Proof.
  induction s as [|c s IH]; [done|]. intros Hb Hq. cbn [escape].
  rewrite (proj2 (Z.eqb_neq c BACKSLASH)), (proj2 (Z.eqb_neq c DQUOTE)) by set_solver.
  cbn. f_equal. apply IH; set_solver.
Qed.

(** Every node the parser produces is printed, and read back as the same node. *)
Lemma parse_write_node n :
  node_wf n = true ->
  exists t, write_forwarded_node n = Ok t /\ parse_forwarded_node t = Ok n.
Proof.
  intros Hn. rewrite write_node_text by done. eexists; split; [done|].
  pose proof (node_text_chars n Hn) as Hc. unfold parse_forwarded_node.
  assert (DQUOTE ∉ node_text n) by (by eapply forallb_not_elem).
  assert (BACKSLASH ∉ node_text n) by (by eapply forallb_not_elem).
  case_match.
  - rewrite unquote_token; [by apply parse_node_text| |done].
    eapply forallb_weaken; [|done]. intros b Hb. by apply node_char_props.
  - rewrite (unquote_quoted _ (node_text n)); [by apply parse_node_text|].
    rewrite <- (escape_plain (node_text n)) at 1 by done. apply unescape_escape.
Qed.

(** ** Splitting what the printer joined *)

(** The scanner over a piece of text: [None] when it meets the delimiter outside
    quotes, otherwise its state after the piece. *)
Fixpoint scan (delimiter : byte) (in_quotes escaped : bool) (s : str) : option (bool * bool) :=
  match s with
  | [] => Some (in_quotes, escaped)
  | b :: r =>
      if escaped then scan delimiter in_quotes false r
      else if (b =? BACKSLASH) && in_quotes then scan delimiter in_quotes true r
      else if b =? DQUOTE then scan delimiter (negb in_quotes) false r
      else if (b =? delimiter) && negb in_quotes then None
      else scan delimiter in_quotes false r
  end.

Definition closed (delimiter : byte) (s : str) : Prop :=
  scan delimiter false false s = Some (false, false).

Lemma split_quotes_go_scan d s cur rest q e q' e' :
  scan d q e s = Some (q', e') ->
  split_quotes_go d q e cur (s ++ rest) = split_quotes_go d q' e' (cur ++ s) rest.
Proof.
  revert cur q e; induction s as [|b s IH]; intros cur q e; cbn [scan app split_quotes_go].
  - intros [= -> ->]. by rewrite app_nil_r.
  - intros H. repeat case_match; try done; rewrite (IH _ _ _ H), <- app_assoc; done.
Qed.

Lemma scan_app d q e s t q' e' :
  scan d q e s = Some (q', e') -> scan d q e (s ++ t) = scan d q' e' t.
Proof.
  revert q e; induction s as [|b s IH]; intros q e; cbn [scan app]; [by intros [= -> ->]|].
  intros H. repeat case_match; try done; by apply IH.
Qed.

Lemma closed_app d s t : closed d s -> closed d t -> closed d (s ++ t).
Proof. intros Hs Ht. unfold closed. by rewrite (scan_app _ _ _ _ _ _ _ Hs). Qed.

Lemma closed_plain d s : DQUOTE ∉ s -> d ∉ s -> closed d s.
Proof.
  unfold closed. induction s as [|b s IH]; [done|]. intros Hq Hd. cbn [scan].
  rewrite andb_false_r. rewrite (proj2 (Z.eqb_neq b DQUOTE)) by set_solver.
  rewrite (proj2 (Z.eqb_neq b d)) by set_solver. apply IH; set_solver.
Qed.

Lemma scan_escape d v t : scan d true false (escape v ++ t) = scan d true false t.
Proof.
  induction v as [|c v IH]; [done|]. cbn [escape]. rewrite <- app_assoc.
  destruct (Z.eqb_spec c BACKSLASH) as [->|Hb]; cbn [orb].
  - cbn [app scan Z.eqb Pos.eqb andb]. apply IH.
  - destruct (Z.eqb_spec c DQUOTE) as [->|Hq]; cbn [app scan].
    + cbn [Z.eqb Pos.eqb andb]. apply IH.
    + rewrite (proj2 (Z.eqb_neq c BACKSLASH) Hb), (proj2 (Z.eqb_neq c DQUOTE) Hq).
      cbn [andb]. rewrite andb_false_r. apply IH.
Qed.

Lemma closed_quoted d v : closed d ([DQUOTE] ++ escape v ++ [DQUOTE]).
Proof. unfold closed. cbn [app scan andb Z.eqb Pos.eqb negb]. rewrite scan_escape. done. Qed.

Lemma closed_param_value d v :
  d = COMMA \/ d = SEMICOLON -> closed d (write_forwarded_param_value v).
Proof.
  intros Hd. unfold write_forwarded_param_value. case_match eqn:E; [|apply closed_quoted].
  apply andb_prop in E as [_ E]. apply closed_plain.
  - by eapply forallb_not_elem.
  - by destruct Hd as [-> | ->]; eapply forallb_not_elem.
Qed.

Lemma closed_node d n t :
  d = COMMA \/ d = SEMICOLON -> node_wf n = true -> write_forwarded_node n = Ok t -> closed d t.
Proof.
  intros Hd Hn. rewrite write_node_text by done. intros [= <-].
  pose proof (node_text_chars n Hn) as Hc.
  assert (DQUOTE ∉ node_text n) by (by eapply forallb_not_elem).
  assert (BACKSLASH ∉ node_text n) by (by eapply forallb_not_elem).
  case_match.
  - apply closed_plain; [done|]. by destruct Hd as [-> | ->]; eapply forallb_not_elem.
  - rewrite <- (escape_plain (node_text n)) by done. apply closed_quoted.
Qed.

(** Joining closed pieces with the delimiter (and a space) and splitting again. *)
Lemma split_closed d s : closed d s -> split_respecting_quotes s d = [trim s].
Proof.
  intros H. unfold split_respecting_quotes. rewrite <- (app_nil_r s) at 1.
  by rewrite (split_quotes_go_scan _ _ _ _ _ _ _ _ H).
Qed.

Lemma split_closed_cons d s t :
  d <> DQUOTE -> d <> BACKSLASH -> closed d s ->
  split_respecting_quotes (s ++ d :: t) d = trim s :: split_respecting_quotes t d.
Proof.
  intros Hq Hb H. unfold split_respecting_quotes.
  rewrite (split_quotes_go_scan _ _ _ _ _ _ _ _ H). cbn [app split_quotes_go].
  rewrite (proj2 (Z.eqb_neq d BACKSLASH) Hb), (proj2 (Z.eqb_neq d DQUOTE) Hq), Z.eqb_refl.
  done.
Qed.

(** Text that starts and ends with a graphic byte is not changed by [trim]. *)
Definition tight (s : str) : Prop :=
  exists a b, head s = Some a /\ last s = Some b /\ graphic a = true /\ graphic b = true.

Lemma tight_trim s : tight s -> trim s = s.
Proof. intros (a & b & Ha & Hb & ? & ?). apply trim_id; intros; congruence. Qed.

Lemma tight_app s t : tight s -> tight t -> tight (s ++ t).
Proof.
  intros (a & b & Ha & Hb & Hga & Hgb) (c & d & Hc & Hd & Hgc & Hgd). exists a, d.
  split_and!; [by destruct s; simplify_eq/=| |done|done].
  rewrite last_app. by rewrite Hd.
Qed.

Lemma tight_graphic s : s <> [] -> forallb graphic s = true -> tight s.
Proof.
  intros Hs Hg. rewrite forallb_forall in Hg.
  destruct s as [|a s]; [done|]. destruct (last (a :: s)) as [b|] eqn:E.
  - exists a, b. split_and!; [done..| |].
    + apply Hg. by left.
    + apply Hg, list_elem_of_In. by apply last_Some_elem_of in E.
  - by apply last_None in E.
Qed.

Lemma tight_quoted t : tight ([DQUOTE] ++ t ++ [DQUOTE]).
Proof. exists DQUOTE, DQUOTE. split_and!; [done| |done|done]. by rewrite app_assoc, last_snoc. Qed.

Lemma tight_param_value v : tight (write_forwarded_param_value v).
Proof.
  unfold write_forwarded_param_value. case_match eqn:E.
  - apply andb_prop in E as [Hn Ht]. unfold not_empty in Hn. breflect.
    apply tight_graphic; [done|]. eapply forallb_weaken; [|done].
    intros b Hb. by apply is_tchar_props.
  - apply tight_quoted.
Qed.

Lemma tight_node n t : node_wf n = true -> write_forwarded_node n = Ok t -> tight t.
Proof.
  intros Hn. rewrite write_node_text by done. intros [= <-].
  pose proof (node_text_chars n Hn) as Hc. case_match.
  - apply tight_graphic.
    + intros E. pose proof (parse_node_text n Hn) as Hp. by rewrite E in Hp.
    + eapply forallb_weaken; [|done]. intros b Hb. by apply node_char_props.
  - apply tight_quoted.
Qed.

Lemma tight_not_empty s : tight s -> not_empty s = true.
Proof. intros (a & b & Ha & _). by destruct s. Qed.

Lemma filter_tight l : Forall tight l -> List.filter not_empty l = l.
Proof.
  induction 1 as [|s l Hs _ IH]; [done|]. cbn [List.filter].
  by rewrite tight_not_empty, IH by done.
Qed.

Lemma map_trim_tight l : Forall tight l -> map trim l = l.
Proof. induction 1 as [|s l Hs _ IH]; [done|]. cbn. by rewrite tight_trim, IH. Qed.

Lemma split_concat d x ps :
  d <> DQUOTE -> d <> BACKSLASH -> closed d x -> Forall (closed d) ps ->
  split_respecting_quotes (x ++ concat (map (cons d) ps)) d = map trim (x :: ps).
Proof.
  intros Hq Hb Hx Hps. revert x Hx. induction Hps as [|p ps Hp _ IH]; intros x Hx.
  - cbn. rewrite app_nil_r. by apply split_closed.
  - cbn [map concat app]. rewrite split_closed_cons by done. by rewrite IH.
Qed.

Lemma split_join_comma pre es :
  closed COMMA pre -> Forall (closed COMMA) es -> es <> [] ->
  split_respecting_quotes (pre ++ join (B ", ") es) COMMA
    = match es with [] => [] | e :: es => trim (pre ++ e) :: map trim es end.
Proof.
  intros Hpre Hes Hne. revert pre Hpre. induction Hes as [|e es He Hes IH]; [done|].
  intros pre Hpre. destruct es as [|e' es].
  - cbn. by apply split_closed, closed_app.
  - rewrite join_cons by done.
    trans (split_respecting_quotes
      ((pre ++ e) ++ COMMA :: ([SPACE] ++ join (B ", ") (e' :: es))) COMMA);
      [by rewrite <- app_assoc|].
    rewrite split_closed_cons by (try done; by apply closed_app). f_equal.
    rewrite (IH ltac:(done) [SPACE]) by done. done.
Qed.

(** ** Entries *)

(** The parameters after [for=], as they are printed. *)
Definition param_texts (e : ForwardedEntry) : list str :=
  omap (fun p => (fun v => p.1 ++ [EQUALS] ++ write_forwarded_param_value v) <$> p.2)
    [(B "proto", proto e); (B "host", host e); (B "by", by_ e)].

Lemma write_entry_texts e :
  node_wf (for_node e) = true ->
  exists n, write_forwarded_node (for_node e) = Ok n /\ parse_forwarded_node n = Ok (for_node e) /\
    write_forwarded_entry e =
      Ok ((B "for=" ++ n) ++ concat (map (cons SEMICOLON) (param_texts e))).
Proof.
  intros Hn. destruct (parse_write_node _ Hn) as (n & Hw & Hp). exists n. split_and!; [done..|].
  unfold write_forwarded_entry. rewrite Hw. cbn [mbind result_bind]. f_equal.
  rewrite <- app_assoc. do 2 f_equal. unfold param_texts.
  destruct (proto e), (host e), (by_ e); cbn -[write_forwarded_param_value]; rewrite ?app_nil_r;
    rewrite <- ?app_assoc; done.
Qed.

Lemma param_text_props d nm v :
  d = COMMA \/ d = SEMICOLON -> nm ∈ [B "proto"; B "host"; B "by"] ->
  closed d (nm ++ [EQUALS] ++ write_forwarded_param_value v) /\
  tight (nm ++ [EQUALS] ++ write_forwarded_param_value v).
Proof.
  intros Hd Hnm. rewrite (app_assoc nm).
  assert (closed d (nm ++ [EQUALS]) /\ tight (nm ++ [EQUALS])) as [Hc Ht].
  { rewrite !elem_of_cons, elem_of_nil in Hnm.
    destruct_or! Hnm; try done; subst; destruct Hd as [-> | ->];
      (split; [reflexivity|by do 2 eexists]). }
  split; [apply closed_app; [done|by apply closed_param_value]|].
  apply tight_app; [done|apply tight_param_value].
Qed.

Lemma param_texts_props d e :
  d = COMMA \/ d = SEMICOLON ->
  Forall (closed d) (param_texts e) /\ Forall tight (param_texts e).
Proof.
  intros Hd. unfold param_texts. rewrite <- Forall_and. apply Forall_forall.
  intros t Ht. apply list_elem_of_omap in Ht as ([nm v] & Hin & Hv).
  destruct v as [v|]; simplify_eq/=. apply param_text_props; [done|]. set_solver.
Qed.

Lemma split_once_key c k v : c ∉ k -> split_once c (k ++ [c] ++ v) = Some (k, v).
Proof. intros H. by apply split_once_Some. Qed.

Lemma step_for n t acc :
  node_wf n = true -> write_forwarded_node n = Ok t -> parse_forwarded_node t = Ok n ->
  acc.1.1.1 = None ->
  entry_param_step acc (B "for=" ++ t) = Ok (Some n, acc.1.1.2, acc.1.2, acc.2).
Proof.
  intros Hn Hw Hp Hacc. destruct acc as [[[f p] h] b]. cbn in Hacc; subst f.
  unfold entry_param_step.
  change (B "for=" ++ t) with (B "for" ++ [EQUALS] ++ t).
  rewrite split_once_key by (by apply (bool_decide_unpack _)).
  rewrite (tight_trim t) by (by eapply tight_node).
  cbn -[parse_forwarded_node]. by rewrite Hp.
Qed.

(** A parameter is collected in its own slot, when the slot is free. *)
Lemma step_proto v f h b :
  entry_param_step (f, None, h, b) (B "proto" ++ [EQUALS] ++ write_forwarded_param_value v)
    = Ok (f, Some v, h, b).
Proof.
  unfold entry_param_step. rewrite split_once_key by (by apply (bool_decide_unpack _)).
  rewrite (tight_trim _ (tight_param_value v)), unquote_write_param. done.
Qed.

Lemma step_host v f p b :
  entry_param_step (f, p, None, b) (B "host" ++ [EQUALS] ++ write_forwarded_param_value v)
    = Ok (f, p, Some v, b).
Proof.
  unfold entry_param_step. rewrite split_once_key by (by apply (bool_decide_unpack _)).
  rewrite (tight_trim _ (tight_param_value v)), unquote_write_param. done.
Qed.

Lemma step_by v f p h :
  entry_param_step (f, p, h, None) (B "by" ++ [EQUALS] ++ write_forwarded_param_value v)
    = Ok (f, p, h, Some v).
Proof.
  unfold entry_param_step. rewrite split_once_key by (by apply (bool_decide_unpack _)).
  rewrite (tight_trim _ (tight_param_value v)), unquote_write_param. done.
Qed.

Lemma fold_param_texts e n :
  result_foldM entry_param_step (param_texts e) (Some n, None, None, None)
    = Ok (Some n, proto e, host e, by_ e).
Proof.
  unfold param_texts. destruct (proto e) as [p|], (host e) as [h|], (by_ e) as [b|];
    cbn -[entry_param_step write_forwarded_param_value B app];
    rewrite ?step_proto; cbn [mbind result_bind]; rewrite ?step_host; cbn [mbind result_bind];
    rewrite ?step_by; done.
Qed.

Lemma parse_write_entry e :
  node_wf (for_node e) = true ->
  exists t, write_forwarded_entry e = Ok t /\ closed COMMA t /\ tight t /\
    parse_forwarded_header_entry t = Ok e.
Proof.
  intros Hn. destruct (write_entry_texts e Hn) as (n & Hw & Hp & ->). eexists; split; [done|].
  destruct (param_texts_props SEMICOLON e (or_intror eq_refl)) as [Hcs Hts].
  assert (forall d, d = COMMA \/ d = SEMICOLON -> closed d (B "for=" ++ n)) as Hfor.
  { intros d Hd. apply closed_app; [by destruct Hd as [-> | ->]|by eapply closed_node]. }
  assert (tight (B "for=" ++ n)) as Htf.
  { apply tight_app; [by do 2 eexists|by eapply tight_node]. }
  split_and!.
  - apply closed_app; [by apply Hfor; left|]. clear Hcs Hts Htf Hfor.
    destruct (param_texts_props COMMA e (or_introl eq_refl)) as [Hcc _].
    induction Hcc as [|t l Ht _ IH]; [done|]. cbn [map concat].
    apply closed_app; [|done]. by apply (closed_app COMMA [SEMICOLON]).
  - clear Hcs Hfor Hw Hp. revert Htf. generalize (B "for=" ++ n).
    induction Hts as [|t l Ht _ IH]; intros s Hs; cbn [map concat]; [by rewrite app_nil_r|].
    rewrite app_assoc. apply IH. apply tight_app; [done|].
    apply (tight_app [SEMICOLON]); [by do 2 eexists|done].
  - unfold parse_forwarded_header_entry.
    rewrite split_concat by (done || apply Hfor; by right).
    rewrite map_trim_tight, filter_tight by (by constructor).
    cbn [result_foldM]. rewrite (step_for _ _ (None, None, None, None) Hn Hw Hp eq_refl).
    cbn [mbind result_bind fst snd]. rewrite fold_param_texts. by destruct e.
Qed.

(** The entries of a parsed header are well-formed. *)
Definition entry_wf (e : ForwardedEntry) : Prop := node_wf (for_node e) = true.

Lemma parse_forwarded_header_entry_wf s e :
  parse_forwarded_header_entry s = Ok e -> entry_wf e.
Proof.
  unfold parse_forwarded_header_entry. intros H.
  destruct (result_foldM _ _ _) as [acc|] eqn:Hb; [|done]. cbn [mbind result_bind] in H.
  assert (forall n, acc.1.1.1 = Some n -> node_wf n = true) as Hwf.
  { refine (result_foldM_ind entry_param_step
      (fun _ acc => forall n, acc.1.1.1 = Some n -> node_wf n = true) _ _ _ _ _ Hb); [done|].
    intros _ x [[[f p] h] b] s2 IH Hstep. unfold entry_param_step in Hstep.
    repeat case_match; parse_inv; cbn in *; try done; try (by simplify_eq).
    intros n' [= <-]. by eapply parse_forwarded_node_wf. }
  destruct acc as [[[[n|] p] h] b]; parse_inv. by apply Hwf.
Qed.

Lemma parse_forwarded_text_wf s chain :
  parse_forwarded_text s = Ok chain -> Forall entry_wf chain.
Proof.
  unfold parse_forwarded_text. intros H%result_mapM_Ok.
  induction H; constructor; eauto using parse_forwarded_header_entry_wf.
Qed.

Lemma write_entries chain :
  Forall entry_wf chain ->
  exists es, result_mapM write_forwarded_entry chain = Ok es /\ Forall (closed COMMA) es /\
    Forall tight es /\ result_mapM parse_forwarded_header_entry es = Ok chain.
Proof.
  induction 1 as [|e chain He _ (es & Hw & Hc & Ht & Hp)].
  - by exists [].
  - destruct (parse_write_entry e He) as (t & Hwt & Hct & Htt & Hpt). exists (t :: es).
    cbn [result_mapM]. rewrite Hwt, Hpt. cbn [mbind result_bind]. rewrite Hw, Hp.
    split_and!; [done|by constructor|by constructor|done].
Qed.

Lemma generate_parse chain :
  chain <> [] -> Forall entry_wf chain ->
  exists t, generate_forwarded_header chain = Ok t /\ parse_forwarded_text t = Ok chain.
Proof.
  intros Hne Hwf. destruct (write_entries chain Hwf) as (es & Hw & Hc & Ht & Hp).
  assert (es <> []) as Hes by (intros ->; cbn in Hp; congruence).
  exists (join (B ", ") es). unfold generate_forwarded_header.
  rewrite bool_decide_false, Hw by done. split; [done|].
  unfold parse_forwarded_text.
  pose proof (split_join_comma [] es eq_refl Hc Hes) as E. cbn [app] in E. rewrite E.
  destruct es as [|e es]; [done|].
  change (trim e :: map trim es) with (map trim (e :: es)).
  by rewrite map_trim_tight, filter_tight.
Qed.

(** ** X-Forwarded-For *)

(** The addresses of a chain, when every hop has one. *)
Definition chain_ips (chain : list ForwardedEntry) : option (list IpAddr) :=
  mapM (fun e => ip (for_node e)) chain.

Lemma push_ip_addr_show a : push_ip_addr a = show_ip a.
Proof. by destruct a. Qed.

Lemma xff_csv_go_spec chain ips out n :
  chain_ips chain = Some ips ->
  xff_csv_go false chain out n
    = Some (out ++ concat (map (fun a => B ", " ++ show_ip a) ips), n).
Proof.
  revert ips out; induction chain as [|e chain IH]; intros ips out H.
  - injection H as <-. cbn [map concat xff_csv_go]. by rewrite app_nil_r.
  - unfold chain_ips in H. cbn [mapM] in H.
    destruct (ip (for_node e)) as [a|] eqn:Ha; cbn in H; [|done].
    destruct (mapM _ chain) as [ips'|] eqn:E; cbn in H; [|done]. injection H as <-.
    cbn [xff_csv_go]. rewrite Ha. cbn [mbind option_bind].
    rewrite (IH ips') by done. rewrite push_ip_addr_show. cbn [map concat].
    by rewrite <- !app_assoc.
Qed.

Lemma xff_csv_go_None chain out n : chain_ips chain = None -> xff_csv_go false chain out n = None.
Proof.
  revert out n; induction chain as [|e chain IH]; intros out n H; [done|].
  unfold chain_ips in H. cbn [mapM] in H. cbn [xff_csv_go].
  destruct (ip (for_node e)) as [a|]; cbn in *; [|done].
  destruct (mapM _ chain) as [ips'|] eqn:E; cbn in H; [done|]. by apply IH.
Qed.

Lemma join_show a ips :
  join (B ", ") (map show_ip (a :: ips))
    = show_ip a ++ concat (map (fun a => B ", " ++ show_ip a) ips).
Proof.
  revert a; induction ips as [|b ips IH]; intros a; [cbn; by rewrite app_nil_r|].
  cbn [map]. rewrite join_cons by done. cbn [map] in IH. rewrite IH.
  cbn [map concat]. by rewrite <- app_assoc.
Qed.

Lemma xff_csv_spec chain :
  xff_csv_from_chain chain =
    match chain_ips chain with
    | Some (a :: ips) => Some (join (B ", ") (map show_ip (a :: ips)), length (show_ip a))
    | _ => None
    end.
Proof.
  unfold xff_csv_from_chain. destruct chain as [|e chain]; [done|].
  rewrite bool_decide_false by done. cbn [xff_csv_go].
  unfold chain_ips. cbn [mapM]. fold (chain_ips chain).
  destruct (ip (for_node e)) as [a|]; cbn [mbind option_bind]; [|done].
  rewrite push_ip_addr_show. cbn [app]. destruct (chain_ips chain) as [ips|] eqn:E.
  - rewrite (xff_csv_go_spec _ ips) by done. cbn [mbind option_bind mret option_ret].
    by rewrite join_show.
  - by rewrite xff_csv_go_None.
Qed.

(** [xff.split(',').map(str::trim).filter(non-empty)] *)
Definition xff_elements (xff : str) : list str :=
  List.filter not_empty (map trim (split_char COMMA xff)).

Lemma split_char_join pre es :
  forallb (fun b => negb (b =? COMMA)) pre = true ->
  Forall (fun e => forallb (fun b => negb (b =? COMMA)) e = true) es -> es <> [] ->
  map trim (split_char COMMA (pre ++ join (B ", ") es))
    = match es with [] => [] | e :: es => trim (pre ++ e) :: map trim es end.
Proof.
  intros Hpre Hes Hne. revert pre Hpre. induction Hes as [|e es He Hes IH]; [done|].
  intros pre Hpre. unfold split_char in *. destruct es as [|e' es].
  - cbn [join]. rewrite split_on_nosep; [done|]. rewrite forallb_app. by rewrite Hpre, He.
  - rewrite join_cons by done.
    trans (map trim (split_on (fun b => b =? COMMA)
      ((pre ++ e) ++ COMMA :: ([SPACE] ++ join (B ", ") (e' :: es)))));
      [by rewrite <- app_assoc|].
    rewrite split_on_app by (try done; rewrite forallb_app; by rewrite Hpre, He).
    cbn [map]. f_equal. rewrite (IH ltac:(done) [SPACE]) by done. done.
Qed.

Lemma parse_node_v6_bare s :
  ip_wf (V6 s) = true -> canonicalize_ip (V6 s) = V6 s ->
  parse_node_unquoted (show_ip (V6 s)) = Ok {| ip := Some (V6 s); port := None; raw := RawIp |}.
Proof.
  intros Hs Hc. unfold parse_node_unquoted.
  rewrite (not_unknown COLON) by (by apply show_ipv6_colon || done).
  assert (LBRACKET ∉ show_ip (V6 s)) by (by apply show_ip_not).
  assert (UNDERSCORE ∉ show_ip (V6 s)) by (by apply show_ip_not).
  rewrite starts_with_not_elem by done.
  replace (count_byte COLON _ =? 1)%nat with false.
  - unfold parse_node_without_port, strip_brackets.
    rewrite strip_prefix_not_elem by done. cbn [mbind option_bind].
    rewrite is_obfnode_not_elem, starts_with_not_elem, parse_show_ip by done.
    cbn [ok_or mbind result_bind]. by rewrite Hc.
  - symmetry. apply Nat.eqb_neq. cbn [ip_wf] in Hs. breflect.
    pose proof (show_ipv6_colons s ltac:(by apply Nat.eqb_eq)). cbn [show_ip]. lia.
Qed.

Lemma parse_ip_token_show a :
  ip_wf a = true -> canonicalize_ip a = a -> parse_forwarded_ip_token (show_ip a) = Ok a.
Proof.
  intros Hw Hc. unfold parse_forwarded_ip_token, parse_forwarded_node.
  rewrite unquote_token by (by apply show_ip_graphic || by apply show_ip_not).
  cbn [mbind result_bind]. destruct a as [a b c d|s].
  - by rewrite parse_node_v4.
  - by rewrite parse_node_v6_bare.
Qed.

Lemma xff_elements_join ips :
  ips <> [] -> Forall (fun a => ip_wf a = true) ips ->
  xff_elements (join (B ", ") (map show_ip ips)) = map show_ip ips.
Proof.
  intros Hne Hw. unfold xff_elements.
  assert (Forall tight (map show_ip ips)) as Ht.
  { apply Forall_map. eapply Forall_impl; [done|]. intros a Ha.
    apply tight_graphic; [by apply show_ip_nonempty|by apply show_ip_graphic]. }
  pose proof (split_char_join [] (map show_ip ips)) as E. cbn [app] in E. rewrite E.
  - destruct ips as [|a ips]; [done|]. cbn [map].
    change (trim (show_ip a) :: map trim (map show_ip ips))
      with (map trim (map show_ip (a :: ips))).
    by rewrite map_trim_tight, filter_tight.
  - done.
  - apply Forall_map. eapply Forall_impl; [done|]. intros a Ha%show_ip_chars.
    eapply forallb_weaken; [|done]. intros b Hb. apply negb_true_iff, Z.eqb_neq.
    unfold ip_char, is_ascii_digit in Hb. lia.
  - by destruct ips.
Qed.

Lemma chain_ips_canonical chain ips :
  Forall entry_wf chain -> chain_ips chain = Some ips ->
  Forall (fun a => ip_wf a = true /\ canonicalize_ip a = a) ips.
Proof.
  unfold chain_ips. intros Hwf E%mapM_Some. revert Hwf.
  induction E as [|e x chain' l Hx _ IH]; intros Hwf; [constructor|].
  apply Forall_cons in Hwf as [He Hwf]. constructor; [|by apply IH].
  unfold entry_wf, node_wf in He. apply andb_prop in He as [_ He].
  rewrite Hx in He. destruct (raw (for_node e)); breflect; done.
Qed.

Lemma chain_ips_wf chain ips :
  Forall entry_wf chain -> chain_ips chain = Some ips -> Forall (fun a => ip_wf a = true) ips.
Proof.
  intros Hwf E. eapply Forall_impl; [by eapply chain_ips_canonical|]. by intros a [? _].
Qed.

(** The rendered X-Forwarded-For value parses back to the addresses it was rendered from. *)
Lemma xff_csv_parse chain csv n :
  Forall entry_wf chain -> xff_csv_from_chain chain = Some (csv, n) ->
  exists a ips, chain_ips chain = Some (a :: ips) /\ take n csv = show_ip a /\
    csv = join (B ", ") (map show_ip (a :: ips)) /\
    result_mapM parse_forwarded_ip_token (xff_elements csv) = Ok (a :: ips).
Proof.
  intros Hwf. rewrite xff_csv_spec.
  destruct (chain_ips chain) as [[|a ips]|] eqn:E; [done| |done]. intros H.
  assert (csv = join (B ", ") (map show_ip (a :: ips)) /\ n = length (show_ip a)) as [-> ->]
    by (split; congruence).
  exists a, ips. split_and!; [done| |done|].
  - rewrite join_show. by rewrite take_app_length.
  - pose proof (chain_ips_canonical _ _ Hwf E) as Hw.
    rewrite xff_elements_join; [|done|by eapply Forall_impl; [exact Hw|]; naive_solver].
    apply result_mapM_Ok. clear E H. induction Hw as [|x l [Hx Hc] _ IH]; cbn [map]; constructor;
      [by apply parse_ip_token_show|apply IH].
Qed.

(** ** Visible text in, visible text out

    What is printed from a parsed header only has bytes a header value may have. *)

Notation visible s := (forallb is_visible_ascii s = true) (only parsing).

Definition opt_visible (o : option str) : Prop := forall s, o = Some s -> visible s.

Definition entry_visible (e : ForwardedEntry) : Prop :=
  opt_visible (proto e) /\ opt_visible (host e) /\ opt_visible (by_ e).

Lemma split_quotes_visible d q e cur s :
  visible cur -> visible s -> Forall (fun x => visible x) (split_quotes_go d q e cur s).
Proof.
  revert q e cur; induction s as [|b s IH]; intros q e cur Hcur Hs; cbn [split_quotes_go].
  - constructor; [|done]. by apply all_trim.
  - cbn in Hs. apply andb_prop in Hs as [Hb Hs].
    assert (visible (cur ++ [b])) by (apply all_app; [done|cbn; by rewrite Hb]).
    repeat case_match; auto. constructor; [by apply all_trim|auto].
Qed.

Lemma split_respecting_visible s d x :
  visible s -> x ∈ List.filter not_empty (split_respecting_quotes s d) -> visible x.
Proof.
  intros Hs Hx. apply list_elem_of_In, filter_In in Hx as [Hx%list_elem_of_In _].
  pose proof (split_quotes_visible d false false [] s eq_refl Hs) as Hf.
  rewrite Forall_forall in Hf. by apply Hf.
Qed.

Lemma unescape_visible e s v : unescape e s = Ok v -> visible s -> visible v.
Proof.
  revert e v; induction s as [|c s IH]; intros e v H Hs; cbn in H.
  - destruct e; by simplify_eq.
  - cbn in Hs. apply andb_prop in Hs as [Hc Hs].
    repeat case_match; parse_inv; eauto; cbn; rewrite Hc; eauto.
Qed.

Lemma unquote_visible s v : unquote_http_value s = Ok v -> visible s -> visible v.
Proof.
  unfold unquote_http_value. intros H Hs%(all_trim is_visible_ascii).
  case_match; [by simplify_eq|].
  destruct (strip_prefix [DQUOTE] (trim s)) as [t|] eqn:Et; cbn [mbind option_bind] in H; [|done].
  destruct (strip_suffix [DQUOTE] t) as [u|] eqn:Eu; [|done].
  eapply unescape_visible; [done|]. eauto using all_strip_suffix, all_strip_prefix.
Qed.

Lemma opt_visible_None : opt_visible None.
Proof. by intros s. Qed.

Lemma opt_visible_Some s : visible s -> opt_visible (Some s).
Proof. by intros H t [= <-]. Qed.

#[export] Hint Resolve opt_visible_None opt_visible_Some : rpxy.

Lemma entry_param_step_visible acc x acc' :
  visible x -> entry_param_step acc x = Ok acc' ->
  opt_visible acc.1.1.2 -> opt_visible acc.1.2 -> opt_visible acc.2 ->
  opt_visible acc'.1.1.2 /\ opt_visible acc'.1.2 /\ opt_visible acc'.2.
Proof.
  destruct acc as [[[f p] h] b]. unfold entry_param_step. cbn [fst snd]. intros Hx H Hp Hh Hb.
  destruct (split_once EQUALS x) as [[k v]|] eqn:E; [|by simplify_eq].
  destruct (all_split_once is_visible_ascii _ _ _ _ E Hx) as [_ Hv%(all_trim is_visible_ascii)].
  repeat case_match; parse_inv; cbn [fst snd]; split_and!; try done;
    apply opt_visible_Some; by eapply unquote_visible.
Qed.

Lemma result_foldM_inv {E A S} (f : S -> A -> result E S) (P : S -> Prop) l s s' :
  (forall x s1 s2, x ∈ l -> f s1 x = Ok s2 -> P s1 -> P s2) ->
  result_foldM f l s = Ok s' -> P s -> P s'.
Proof.
  revert s; induction l as [|x l IH]; intros s Hf H Hs; cbn in H; [by simplify_eq|].
  bind_inv H. eapply IH; [|done|].
  - intros y s1 s2 Hy. apply Hf. by right.
  - eapply Hf; [by left|done|done].
Qed.

Lemma parse_entry_visible x e :
  visible x -> parse_forwarded_header_entry x = Ok e -> entry_visible e.
Proof.
  unfold parse_forwarded_header_entry. intros Hx H.
  destruct (result_foldM _ _ _) as [acc|] eqn:Hf; [|done]. cbn [mbind result_bind] in H.
  assert (opt_visible acc.1.1.2 /\ opt_visible acc.1.2 /\ opt_visible acc.2) as Hacc.
  { refine (result_foldM_inv _ (fun acc => opt_visible acc.1.1.2 /\ opt_visible acc.1.2
      /\ opt_visible acc.2) _ _ _ _ Hf _); [|cbn; auto with rpxy].
    intros y s1 s2 Hy Hs (?&?&?). eapply entry_param_step_visible; [|done..].
    by eapply split_respecting_visible. }
  destruct acc as [[[[n|] p] h] b]; parse_inv. done.
Qed.

Lemma parse_forwarded_text_visible s chain :
  visible s -> parse_forwarded_text s = Ok chain -> Forall entry_visible chain.
Proof.
  unfold parse_forwarded_text. intros Hs H%result_mapM_Ok.
  assert (forall x, x ∈ List.filter not_empty (split_respecting_quotes s COMMA) -> visible x) as Hv
    by (intros; by eapply split_respecting_visible).
  induction H as [|x e l k Hx _ IH]; constructor.
  - eapply parse_entry_visible; [|done]. apply Hv. by left.
  - apply IH. intros y Hy. apply Hv. by right.
Qed.

Lemma escape_visible s : visible s -> visible (escape s).
Proof.
  induction s as [|c s IH]; [done|]. cbn [escape forallb]. intros [Hc Hs]%andb_prop.
  apply all_app; [|by apply IH]. case_match; cbn; by rewrite Hc.
Qed.

Lemma write_value_visible v : visible v -> visible (write_forwarded_param_value v).
Proof.
  intros H. unfold write_forwarded_param_value. case_match; [done|].
  apply all_app; [done|]. apply all_app; [by apply escape_visible|done].
Qed.

Lemma write_param_visible nm v : visible nm -> opt_visible v -> visible (write_param nm v).
Proof.
  intros Hn Hv. destruct v as [v|]; [|done]. unfold write_param.
  repeat apply all_app; try done. by apply write_value_visible, Hv.
Qed.

Lemma graphic_visible s : forallb graphic s = true -> visible s.
Proof.
  apply forallb_weaken. unfold graphic, is_visible_ascii. intros b Hb. lia.
Qed.

Lemma write_node_visible n t : node_wf n = true -> write_forwarded_node n = Ok t -> visible t.
Proof.
  intros Hn. rewrite write_node_text by done. intros [= <-].
  assert (visible (node_text n)) as Hv.
  { apply graphic_visible. eapply forallb_weaken; [|by apply node_text_chars].
    intros b Hb. by apply node_char_props. }
  case_match; [done|]. cbn [app forallb]. by rewrite forallb_app, Hv.
Qed.

Lemma generate_visible chain t :
  Forall entry_wf chain -> Forall entry_visible chain ->
  generate_forwarded_header chain = Ok t -> visible t.
Proof.
  unfold generate_forwarded_header. intros Hwf Hv H. case_bool_decide as Hne; [done|].
  clear Hne. parse_inv. apply all_join; [done|]. apply result_mapM_Ok in Hb.
  induction Hb as [|e x l k He _ IH]; [constructor|].
  apply Forall_cons in Hwf as [He1 Hwf]. apply Forall_cons in Hv as [(Hp & Hh & Hb) Hv].
  constructor; [|by apply IH]. unfold write_forwarded_entry in He. parse_inv.
  repeat apply all_app; try done; [by eapply write_node_visible|..];
    by apply write_param_visible.
Qed.

(** ** Properties *)

(** C32: printing a chain of forwarding entries as a [Forwarded] value and parsing
    that value gives back the same entries, whatever bytes the proto, host and by
    values hold (quotes, backslashes, commas and semicolons included), for IPv4,
    IPv6, unknown and obfuscated nodes with numeric, obfuscated or no port. *)
Theorem forwarded_header_roundtrip (chain : list ForwardedEntry) :
  chain <> [] -> Forall entry_wf chain ->
  exists value, generate_forwarded_header chain = Ok value /\
                parse_forwarded_text value = Ok chain.
Proof. apply generate_parse. Qed.

(** Whatever a client sends, a [Forwarded] value that parses has only
    well-formed nodes (canonical addresses, ABNF-valid obfuscated names, ports in
    range), so it can always be printed again, with the same parse. *)
Theorem forwarded_parse_normalizes (value : str) (chain : list ForwardedEntry) :
  parse_forwarded_text value = Ok chain -> chain <> [] ->
  Forall entry_wf chain /\
  exists value', generate_forwarded_header chain = Ok value' /\
                 parse_forwarded_text value' = Ok chain.
Proof.
  intros Hp Hne. assert (Forall entry_wf chain) as Hwf by (by eapply parse_forwarded_text_wf).
  split; [done|]. by apply generate_parse.
Qed.

(** The [X-Forwarded-For] value rendered from a chain is the comma-separated
    list of its addresses, its marked prefix is the first address, and reading it
    with the incoming-header parser gives the same addresses back. *)
Theorem xff_csv_roundtrip (chain : list ForwardedEntry) (csv : str) (n : nat) :
  Forall entry_wf chain -> xff_csv_from_chain chain = Some (csv, n) ->
  exists first rest,
    chain_ips chain = Some (first :: rest) /\ take n csv = show_ip first /\
    result_mapM parse_forwarded_ip_token (xff_elements csv) = Ok (first :: rest).
Proof.
  intros Hwf Hx. destruct (xff_csv_parse _ _ _ Hwf Hx) as (a & ips & ? & ? & _ & ?).
  by exists a, ips.
Qed.

(** A chain with an IPv6 hop with an obfuscated port, an unknown hop, and values
    that need quoting. *)
Definition sample_chain : list ForwardedEntry :=
  [ {| for_node := {| ip := Some (V6 [8193; 3512; 0; 0; 0; 0; 0; 1]);
                      port := Some (Obfuscated (B "_p.1")); raw := RawIp |};
       proto := Some (B "https"); host := Some (B "a\b,c;d"); by_ := None |};
    {| for_node := {| ip := None; port := Some (Numeric 443); raw := RawUnknown |};
       proto := None; host := Some []; by_ := Some (B "_x") |} ].

Lemma forwarded_header_roundtrip_witness :
  exists value, generate_forwarded_header sample_chain = Ok value /\
                parse_forwarded_text value = Ok sample_chain.
Proof.
  apply (forwarded_header_roundtrip sample_chain); [discriminate|].
  repeat (constructor; [reflexivity|]). constructor.
Defined.

Lemma forwarded_parse_normalizes_witness :
  exists chain value',
    parse_forwarded_text (B "for=192.0.2.1;HOST=x , for=_hidden:_9") = Ok chain /\
    generate_forwarded_header chain = Ok value' /\ parse_forwarded_text value' = Ok chain.
Proof.
  eexists _. destruct (forwarded_parse_normalizes (B "for=192.0.2.1;HOST=x , for=_hidden:_9") _
    eq_refl) as [_ (v & Hg & Hp)]; [discriminate|].
  exists v. split; [vm_compute; reflexivity|]. split; [exact Hg|exact Hp].
Defined.

Definition sample_hops : list ForwardedEntry :=
  [ {| for_node := {| ip := Some (V4 198 51 100 10); port := None; raw := RawIp |};
       proto := None; host := None; by_ := None |};
    {| for_node := {| ip := Some (V6 [8193; 3512; 0; 0; 0; 0; 0; 1]); port := None; raw := RawIp |};
       proto := None; host := None; by_ := None |} ].

Lemma xff_csv_roundtrip_witness :
  exists first rest,
    chain_ips sample_hops = Some (first :: rest) /\
    take 13 (B "198.51.100.10, 2001:db8::1") = show_ip first /\
    result_mapM parse_forwarded_ip_token (xff_elements (B "198.51.100.10, 2001:db8::1"))
      = Ok (first :: rest).
Proof.
  apply (xff_csv_roundtrip sample_hops (B "198.51.100.10, 2001:db8::1") 13).
  - repeat (constructor; [reflexivity|]). constructor.
  - vm_compute. reflexivity.
Defined.
