(* ===== verification/HeaderCommon.v ===== *)
(** * Header operations shared by requests and responses

    The custom header names ([header_ops/mod.rs]), the overwriting insert, the
    cookie line merge and the host of a request ([header_ops/common.rs]), the
    hop-by-hop headers ([header_ops/hop.rs]) and the redacted debug view of a
    header map ([header_ops/redact.rs]). *)

From S2P Require Import Prelude RustStr RustNet HttpIface ForwardedSyntax.

(** ** Header names *)

Definition X_FORWARDED_FOR : str := B "x-forwarded-for".
Definition X_FORWARDED_PROTO : str := B "x-forwarded-proto".
Definition X_FORWARDED_PORT : str := B "x-forwarded-port".
Definition X_FORWARDED_SSL : str := B "x-forwarded-ssl".
Definition X_ORIGINAL_URI : str := B "x-original-uri".
Definition X_REAL_IP : str := B "x-real-ip".
Definition X_FORWARDED_HOST : str := B "x-forwarded-host".
Definition PROXY : str := B "proxy".

(** [http::header] constants *)
Definition FORWARDED : str := B "forwarded".
Definition COOKIE : str := B "cookie".
Definition SET_COOKIE : str := B "set-cookie".
Definition HOST : str := B "host".
Definition CONNECTION : str := B "connection".
Definition TE : str := B "te".
Definition TRAILER : str := B "trailer".
Definition UPGRADE : str := B "upgrade".
Definition AUTHORIZATION : str := B "authorization".
Definition PROXY_AUTHENTICATE : str := B "proxy-authenticate".
Definition PROXY_AUTHORIZATION : str := B "proxy-authorization".
Definition TRANSFER_ENCODING : str := B "transfer-encoding".
Definition UPGRADE_INSECURE_REQUESTS : str := B "upgrade-insecure-requests".
Definition CONTENT_TYPE : str := B "content-type".
Definition CONTENT_LENGTH : str := B "content-length".
Definition SERVER : str := B "server".
Definition ALT_SVC : str := B "alt-svc".

(** The [anyhow::Error]s of the header and request operations. *)
Inductive anyhow :=
| HeaderValueError
| NoHostFound
| NoHostnameGiven
| ForwardedParse (e : fwd_error)
| HostMismatch
| NoValidHost
| InvalidRequest
| NoCipher
| NoUpstream
| BrokenUpstreamUri
| BrokenPathAndQuery
| UriError
| NoCookieMetadata
| SealError
| SetCookieError.

#[export] Instance anyhow_eq_dec : EqDecision anyhow.
Proof. assert (EqDecision fwd_error) by solve_decision. solve_decision. Defined.

Section common.
Context `{HttpApi}.

(** ** [common.rs] *)

(** A vacant entry parses the value, an occupied one takes its bytes; both leave
    exactly one value. *)
Definition add_header_entry_overwrite_if_exist (headers : HeaderMap) (key value : str)
    : result anyhow HeaderMap :=
  if hm_contains_key headers key
  then v ← ok_or (hv_from_bytes value) HeaderValueError; Ok (hm_insert headers key v)
  else v ← ok_or (hv_from_str value) HeaderValueError; Ok (hm_insert headers key v).

Definition make_cookie_single_line (headers : HeaderMap) : result anyhow HeaderMap :=
  let cookies := hm_get_all headers COOKIE in
  if (length cookies <? 2)%nat then Ok headers
  else
    let joined := join (B "; ") (map (fun v => default [] (hv_to_str v)) cookies) in
    let headers := hm_remove headers COOKIE in
    v ← ok_or (hv_from_bytes joined) HeaderValueError;
    Ok (hm_insert headers COOKIE v).

Definition host_from_uri_or_host_header (uri : Uri) (host_header_value : option HeaderValue)
    : result anyhow str :=
  match uri_host uri with
  | Some host =>
      Ok (match uri_port_u16 uri with
          | Some port => host ++ [COLON] ++ show_dec port
          | None => host
          end)
  | None =>
      match host_header_value with
      | Some h => ok_or (hv_to_str h) HeaderValueError
      | None => Err NoHostFound
      end
  end.

(** ** [hop.rs] *)

(** [v.split(',').map(trim).filter(non-empty)] *)
Definition list_elements (v : str) : list str :=
  List.filter not_empty (map trim (split_char COMMA v)).

(** [headers.remove(CONNECTION)] removes every value and returns the first. *)
Definition remove_connection_header (headers : HeaderMap) : HeaderMap :=
  let removed := hm_remove headers CONNECTION in
  match hm_get headers CONNECTION with
  | None => removed
  | Some values =>
      match hv_to_str values with
      | None => removed
      | Some v => fold_left hm_remove_str (list_elements v) removed
      end
  end.

Definition HOP_HEADERS : list str :=
  [CONNECTION; TE; TRAILER; B "keep-alive"; B "proxy-connection"; PROXY_AUTHENTICATE;
   PROXY_AUTHORIZATION; TRANSFER_ENCODING; UPGRADE].

Definition remove_hop_header (headers : HeaderMap) : HeaderMap :=
  fold_left hm_remove HOP_HEADERS headers.

Definition extract_upgrade (headers : HeaderMap) : option str :=
  c ← hm_get headers CONNECTION;
  let has_upgrade_token :=
    existsb (fun w => eq_ignore_ascii_case (trim w) UPGRADE)
      (split_char COMMA (default [] (hv_to_str c))) in
  if negb has_upgrade_token then None
  else u ← hm_get headers UPGRADE; hv_to_str u.

(** ** [redact.rs] *)

Definition SENSITIVE_HEADERS : list str := [AUTHORIZATION; PROXY_AUTHORIZATION; COOKIE].

(** What the debug map shows for one field line: the placeholder or the value. *)
Inductive shown :=
| Redacted
| Shown (v : HeaderValue).

Record DebugHeaders := { dh_headers : HeaderMap; dh_redact : bool }.

Definition DebugHeaders_new (headers : HeaderMap) (unsafe_debug_headers : bool) : DebugHeaders :=
  {| dh_headers := headers; dh_redact := negb unsafe_debug_headers |}.

Definition DebugHeaders_fmt (self : DebugHeaders) : list (str * shown) :=
  (fun p => (p.1, if dh_redact self && bool_decide (p.1 ∈ SENSITIVE_HEADERS)
                  then Redacted else Shown p.2)) <$> hm_iter (dh_headers self).
End common.

Section props.
Context `{HL : HttpLaws}.

(** ** Lemmas *)

Lemma overwrite_get_all h k v h' k' :
  add_header_entry_overwrite_if_exist h k v = Ok h' ->
  hm_get_all h' k' = hm_get_all h k' /\ k <> k' \/
  k = k' /\ exists w, hm_get_all h' k' = [w] /\ hv_as_bytes w = v.
Proof.
  unfold add_header_entry_overwrite_if_exist. intros Hv.
  destruct (decide (k = k')) as [->|Hne]; [right|left]; split; try done.
  - case_match; bind_inv Hv; simplify_eq; rewrite hm_get_all_insert_eq;
      eexists; (split; [done|]); apply ok_or_Ok in Hbind;
      [by eapply hv_from_bytes_as_bytes|by eapply hv_from_str_as_bytes].
  - case_match; bind_inv Hv; simplify_eq; by apply hm_get_all_insert_ne.
Qed.

Lemma overwrite_ne h k v h' k' :
  add_header_entry_overwrite_if_exist h k v = Ok h' -> k <> k' ->
  hm_get_all h' k' = hm_get_all h k'.
Proof. intros Hv Hne. by destruct (overwrite_get_all _ _ _ _ k' Hv) as [[? _]|[? _]]. Qed.

Lemma overwrite_eq h k v h' :
  add_header_entry_overwrite_if_exist h k v = Ok h' ->
  exists w, hm_get_all h' k = [w] /\ hv_as_bytes w = v.
Proof. intros Hv. by destruct (overwrite_get_all _ _ _ _ k Hv) as [[_ ?]|[_ ?]]. Qed.

Lemma overwrite_visible h k v :
  forallb is_visible_ascii v = true ->
  exists h', add_header_entry_overwrite_if_exist h k v = Ok h'.
Proof.
  intros Hv. unfold add_header_entry_overwrite_if_exist.
  destruct (hv_from_bytes_visible _ Hv) as [w ->], (hv_from_str_visible _ Hv) as [w' ->].
  case_match; by eexists.
Qed.

Lemma cookie_line_ne h h' k :
  make_cookie_single_line h = Ok h' -> k <> COOKIE -> hm_get_all h' k = hm_get_all h k.
Proof.
  unfold make_cookie_single_line. intros Hc Hk. case_match; [by simplify_eq|].
  bind_inv Hc. simplify_eq. by rewrite hm_get_all_insert_ne, hm_get_all_remove_ne.
Qed.

Lemma fold_remove_get_all ks h k :
  hm_get_all (fold_left hm_remove ks h) k = if decide (k ∈ ks) then [] else hm_get_all h k.
Proof.
  revert h; induction ks as [|k' ks IH]; intros h; [by rewrite decide_False by set_solver|].
  cbn [fold_left]. rewrite IH, hm_get_all_remove. repeat case_decide; set_solver.
Qed.

Lemma fold_remove_str_get_all ks h k :
  hm_get_all (fold_left hm_remove_str ks h) k
    = if decide (k ∈ map to_ascii_lowercase ks) then [] else hm_get_all h k.
Proof.
  revert h; induction ks as [|k' ks IH]; intros h; [by rewrite decide_False by set_solver|].
  cbn [fold_left map]. rewrite IH, hm_get_all_remove_str. repeat case_decide; set_solver.
Qed.

(** The names the first [Connection] line lists. *)
Definition connection_listed (h : HeaderMap) : list str :=
  match hm_get h CONNECTION with
  | Some v => map to_ascii_lowercase (list_elements (default [] (hv_to_str v)))
  | None => []
  end.

(** Exactly the hop-by-hop headers and the listed ones are removed. *)
Lemma hop_headers_removed h k :
  hm_get_all (remove_hop_header (remove_connection_header h)) k
    = if decide (k ∈ HOP_HEADERS \/ k ∈ connection_listed h) then [] else hm_get_all h k.
Proof.
  unfold remove_hop_header, remove_connection_header, connection_listed.
  rewrite fold_remove_get_all.
  assert (CONNECTION ∈ HOP_HEADERS) as Hc by (by apply (bool_decide_unpack _)).
  destruct (decide (k ∈ HOP_HEADERS)) as [Hk|Hk]; [by rewrite decide_True by (by left)|].
  assert (CONNECTION <> k) as Hne by (intros <-; done).
  destruct (hm_get h CONNECTION) as [v|].
  - destruct (hv_to_str v) as [s|]; cbn [default].
    + rewrite fold_remove_str_get_all, hm_get_all_remove_ne by done.
      repeat case_decide; try done; tauto.
    + rewrite hm_get_all_remove_ne by done. rewrite decide_False; [done|].
      intros [?|Hin]; [done|]. by apply not_elem_of_nil in Hin.
  - rewrite hm_get_all_remove_ne by done. rewrite decide_False; [done|]. set_solver.
Qed.
End props.
