(* ===== verification/Forwarding.v ===== *)
(** * Forwarding headers: the trust boundary

    The flow of [rpxy-lib/src/message_handler/header_ops/forwarding.rs] over the
    header map: reading the incoming [X-Forwarded-For] and [Forwarded] chains,
    cutting them at the trust boundary, rewriting the outgoing headers, and the
    client-visible scheme. The text of the headers is in [ForwardedSyntax]. *)

From S2P Require Import Prelude RustStr RustNet HttpIface ForwardedSyntax HeaderCommon.

Section forwarding.
Context `{HttpApi} `{IpNetApi}.

(** ** Reading *)

Definition first_header_value (headers : HeaderMap) (key : str) : result fwd_error (option str) :=
  match hm_get headers key with
  | None => Ok None
  | Some first => s ← ok_or (hv_to_str first) InvalidHeaderValue; Ok (Some s)
  end.

(** One field line is borrowed, several are joined with a comma and a space; an
    unreadable line is an error wherever it is. *)
Definition join_header_values (headers : HeaderMap) (key : str)
    : result fwd_error (option str) :=
  match hm_get_all headers key with
  | [] => Ok None
  | [first] => s ← ok_or (hv_to_str first) InvalidHeaderValue; Ok (Some s)
  | first :: rest =>
      s ← ok_or (hv_to_str first) InvalidHeaderValue;
      joined ← result_foldM
                 (fun acc v => t ← ok_or (hv_to_str v) InvalidHeaderValue; Ok (acc ++ B ", " ++ t))
                 rest s;
      Ok (Some joined)
  end.

Definition parse_x_forwarded_for_header (headers : HeaderMap) (authoritative_host : option str)
    : result fwd_error (list ForwardedEntry) :=
  xff ← join_header_values headers X_FORWARDED_FOR;
  xff ← ok_or xff HeaderMissing;
  xf_proto ← first_header_value headers X_FORWARDED_PROTO;
  let xf_proto := trim <$> xf_proto in
  let ips := xff_elements xff in
  let last_idx := (length ips - 1)%nat in
  for_ips ← result_mapM parse_forwarded_ip_token ips;
  Ok (imap (fun idx for_ip =>
        {| for_node := {| ip := Some for_ip; port := None; raw := RawIp |};
           proto := if (idx =? last_idx)%nat then xf_proto else None;
           host := if (idx =? last_idx)%nat then authoritative_host else None;
           by_ := None |}) for_ips).

Definition parse_forwarded_header (headers : HeaderMap)
    : result fwd_error (list ForwardedEntry) :=
  forwarded ← join_header_values headers FORWARDED;
  forwarded ← ok_or forwarded HeaderMissing;
  parse_forwarded_text forwarded.

Definition entry_ip (e : ForwardedEntry) : option IpAddr := ip (for_node e).

Definition forwarded_is_consistent (forwarded xff_chain : list ForwardedEntry) : bool :=
  if negb (length forwarded =? length xff_chain)%nat then false
  else if negb (bool_decide (map entry_ip forwarded = map entry_ip xff_chain)) then false
  else
    match last forwarded ≫= proto, last xff_chain ≫= proto with
    | Some forwarded_proto, Some proto => eq_ignore_ascii_case forwarded_proto (trim proto)
    | _, _ => true
    end.

Definition extract_forwarding_chain_from_headers (headers : HeaderMap)
    (authoritative_host : option str) : result fwd_error (option (list ForwardedEntry)) :=
  xff_chain ← (if hm_contains_key headers X_FORWARDED_FOR
               then c ← parse_x_forwarded_for_header headers authoritative_host; Ok (Some c)
               else Ok None);
  forwarded_chain ←
    (if hm_contains_key headers FORWARDED
     then match parse_forwarded_header headers with
          | Ok chain => Ok (Some chain)
          | Err e => match xff_chain with Some _ => Ok None | None => Err e end
          end
     else Ok None);
  match forwarded_chain, xff_chain with
  | Some forwarded, Some xff =>
      if forwarded_is_consistent forwarded xff then Ok (Some forwarded) else Ok (Some xff)
  | Some forwarded, None => Ok (Some forwarded)
  | None, Some xff => Ok (Some xff)
  | None, None => Ok None
  end.

(** ** The trust boundary *)

Definition is_trusted_proxy (a : IpAddr) (trusted : list IpNet) : bool :=
  let canonical := canonicalize_ip a in
  existsb (fun net => net_contains net canonical) trusted.

Definition entry_is_trusted_proxy (e : ForwardedEntry) (trusted : list IpNet) : bool :=
  match entry_ip e with
  | Some a => is_trusted_proxy a trusted
  | None => false
  end.

(** The [while idx > 0 && trusted(chain[idx - 1])] loop. *)
Fixpoint trusted_suffix_start (chain : list ForwardedEntry) (trusted : list IpNet) (idx : nat)
    : nat :=
  match idx with
  | O => O
  | S i =>
      match chain !! i with
      | Some e => if entry_is_trusted_proxy e trusted
                  then trusted_suffix_start chain trusted i else idx
      | None => idx
      end
  end.

Definition reduce_trusted_proxy_chain (chain : list ForwardedEntry) (trusted : list IpNet)
    : list ForwardedEntry :=
  let idx := trusted_suffix_start chain trusted (length chain) in
  if (idx =? 0)%nat then chain else drop (idx - 1) chain.

Definition build_peer_forwarded_entry (peer_ip : IpAddr) (tls : bool)
    (authoritative_host : option str) : ForwardedEntry :=
  {| for_node := {| ip := Some peer_ip; port := None; raw := RawIp |};
     proto := if tls then Some (B "https") else Some (B "http");
     host := authoritative_host;
     by_ := None |}.

Definition normalize_forwarding_chain (headers : HeaderMap) (peer_ip : IpAddr) (tls : bool)
    (authoritative_host : option str) (trusted : list IpNet) : list ForwardedEntry :=
  let peer_entry := build_peer_forwarded_entry peer_ip tls authoritative_host in
  if negb (is_trusted_proxy peer_ip trusted) then [peer_entry]
  else
    match extract_forwarding_chain_from_headers headers None with
    | Ok (Some chain) =>
        if bool_decide (chain = []) then [peer_entry]
        else
          let normalized := reduce_trusted_proxy_chain (chain ++ [peer_entry]) trusted in
          if bool_decide (normalized = [])
          then [build_peer_forwarded_entry peer_ip tls authoritative_host]
          else normalized
    | Ok None => [peer_entry]
    | Err _ => [peer_entry]
    end.

(** ** Writing *)

Definition overwrite_x_forwarded_host_from_original (headers : HeaderMap)
    (authoritative_host : option str) : result anyhow HeaderMap :=
  match authoritative_host with
  | Some host =>
      v ← ok_or (hv_from_str host) HeaderValueError;
      Ok (hm_insert headers X_FORWARDED_HOST v)
  | None => Ok (hm_remove headers X_FORWARDED_HOST)
  end.

(** The chain that is emitted, with its [X-Forwarded-For] text and the length of
    the first element: the normalized chain, or the peer alone when a hop of the
    chain has no address. *)
Definition emitted_chain (chain : list ForwardedEntry) (peer_ip : IpAddr) (tls : bool)
    (authoritative_host : option str) : list ForwardedEntry * str * nat :=
  match xff_csv_from_chain chain with
  | Some (csv, first_len) => (chain, csv, first_len)
  | None =>
      let csv := push_ip_addr peer_ip in
      ([build_peer_forwarded_entry peer_ip tls authoritative_host], csv, length csv)
  end.

Definition add_forwarding_header (headers : HeaderMap) (client_addr listen_addr : SocketAddr)
    (tls : bool) (original_uri : Uri) (authoritative_host : option str) (trusted : list IpNet)
    : result anyhow HeaderMap :=
  let peer_ip := canonicalize_ip (sa_ip (to_canonical client_addr)) in
  let has_forwarded := hm_contains_key headers FORWARDED in
  let normalized := normalize_forwarding_chain headers peer_ip tls authoritative_host trusted in
  let '(chain, xff_csv, xff_first_len) :=
    emitted_chain normalized peer_ip tls authoritative_host in
  x_real_ip ← ok_or (hv_from_str (take xff_first_len xff_csv)) HeaderValueError;
  xff ← ok_or (hv_from_str xff_csv) HeaderValueError;
  let headers := hm_insert headers X_FORWARDED_FOR xff in
  headers ← (if has_forwarded
             then match generate_forwarded_header chain with
                  | Ok value => add_header_entry_overwrite_if_exist headers FORWARDED value
                  | Err _ => Ok headers
                  end
             else Ok (hm_remove headers FORWARDED));
  headers ← make_cookie_single_line headers;
  let headers := insert_static headers X_FORWARDED_PROTO (if tls then B "https" else B "http") in
  let headers := insert_static headers X_FORWARDED_PORT (show_dec (sa_port listen_addr)) in
  let headers := hm_insert headers X_REAL_IP x_real_ip in
  let headers := insert_static headers X_FORWARDED_SSL (if tls then B "on" else B "off") in
  headers ← add_header_entry_overwrite_if_exist headers X_ORIGINAL_URI (uri_to_string original_uri);
  headers ← overwrite_x_forwarded_host_from_original headers authoritative_host;
  Ok (insert_static headers PROXY []).

(** ** The client-visible scheme *)

Definition xforwarded_proto_first (headers : HeaderMap) : result () (option str) :=
  match join_header_values headers X_FORWARDED_PROTO with
  | Err _ => Err ()
  | Ok None => Ok None
  | Ok (Some raw) =>
      let first := trim (default [] (head (split_char COMMA raw))) in
      if bool_decide (first = []) then Ok None else Ok (Some first)
  end.

(** The first [proto] parameter decides: [None] when there is none. *)
Fixpoint first_proto_param (params : list str) : option (result () (option str)) :=
  match params with
  | [] => None
  | param :: r =>
      match split_once EQUALS param with
      | None => first_proto_param r
      | Some (key, value) =>
          if negb (eq_ignore_ascii_case (trim key) (B "proto")) then first_proto_param r
          else Some (match unquote_http_value (trim value) with
                     | Ok v => if bool_decide (v = []) then Ok None else Ok (Some v)
                     | Err _ => Err ()
                     end)
      end
  end.

Definition forwarded_first_proto (headers : HeaderMap) : result () (option str) :=
  match join_header_values headers FORWARDED with
  | Err _ => Err ()
  | Ok None => Ok None
  | Ok (Some raw) =>
      match List.find not_empty (split_respecting_quotes raw COMMA) with
      | None => Ok None
      | Some first_entry =>
          default (Ok None)
            (first_proto_param
               (List.filter not_empty (split_respecting_quotes first_entry SEMICOLON)))
      end
  end.

Definition client_visible_scheme (tls_enabled : bool) (client_addr : SocketAddr)
    (headers : HeaderMap) (trusted : list IpNet) : str :=
  if tls_enabled then B "https"
  else
    let peer_ip := canonicalize_ip (sa_ip (to_canonical client_addr)) in
    if negb (is_trusted_proxy peer_ip trusted) then B "http"
    else
      let scheme :=
        match xforwarded_proto_first headers with
        | Err _ => None
        | Ok (Some s) => Some s
        | Ok None => match forwarded_first_proto headers with Err _ => None | Ok s => s end
        end in
      match scheme with
      | Some s => if eq_ignore_ascii_case s (B "https") then B "https" else B "http"
      | None => B "http"
      end.

Definition client_visible_secure (tls_enabled : bool) (client_addr : SocketAddr)
    (headers : HeaderMap) (trusted : list IpNet) : bool :=
  bool_decide (client_visible_scheme tls_enabled client_addr headers trusted = B "https").

Definition build_client_facing_effective_uri (scheme : str) (authority : option str)
    (original_uri : Uri) : option Uri :=
  authority ← authority;
  let path_and_query := default (B "/") (uri_path_and_query original_uri) in
  uri_build (Some scheme) (Some authority) (Some path_and_query).
End forwarding.

(** ** The boundary of a chain *)

Section boundary.
Context `{IpNetApi} (trusted : list IpNet).

Notation is_trusted e := (entry_is_trusted_proxy e trusted = true).

Lemma trusted_suffix_start_spec chain n :
  (n <= length chain)%nat ->
  let idx := trusted_suffix_start chain trusted n in
  (idx <= n)%nat /\
  (forall i e, (idx <= i < n)%nat -> chain !! i = Some e -> is_trusted e) /\
  (forall e, (0 < idx)%nat -> chain !! (idx - 1)%nat = Some e -> ~ is_trusted e).
Proof.
  induction n as [|n IH]; intros Hn; cbn; [split_and!; [lia|lia|lia]|].
  destruct (lookup_lt_is_Some_2 chain n) as [e He]; [lia|]. rewrite He.
  destruct (entry_is_trusted_proxy e trusted) eqn:Ht.
  - destruct (IH ltac:(lia)) as (Hle & Htr & Hun). split_and!; [lia| |done].
    intros i e' Hi He'. destruct (decide (i = n)) as [->|Hne]; [by simplify_eq|].
    apply (Htr i); [lia|done].
  - split_and!; [lia|intros; lia|]. intros e' _ He'.
    replace (S n - 1)%nat with n in He' by lia. rewrite He in He'.
    injection He' as <-. by rewrite Ht.
Qed.

(** What is kept is a suffix; every hop after its first is trusted; and its first
    hop is trusted only when nothing was cut off. *)
Lemma reduce_spec chain :
  chain <> [] ->
  exists pre hop rest,
    chain = pre ++ hop :: rest /\
    reduce_trusted_proxy_chain chain trusted = hop :: rest /\
    Forall (fun e => is_trusted e) rest /\
    (is_trusted hop -> pre = []).
Proof.
  intros Hne. unfold reduce_trusted_proxy_chain.
  destruct (trusted_suffix_start_spec chain (length chain)) as (Hle & Htr & Hun); [done|].
  set (idx := trusted_suffix_start chain trusted (length chain)) in *. clearbody idx.
  destruct (Nat.eqb_spec idx 0) as [E|E].
  - destruct chain as [|hop rest]; [done|]. exists [], hop, rest. split_and!; [done..| |done].
    apply Forall_lookup. intros i e Hi. apply (Htr (S i)); [|done].
    apply lookup_lt_Some in Hi. cbn [length]. lia.
  - destruct (lookup_lt_is_Some_2 chain (idx - 1)) as [hop Hhop]; [lia|].
    exists (take (idx - 1) chain), hop, (drop idx chain).
    assert (drop (idx - 1) chain = hop :: drop idx chain) as Hd.
    { rewrite (drop_S _ hop) by done. by replace (S (idx - 1)) with idx by lia. }
    split_and!; [by rewrite <- Hd, take_drop|done| |].
    + apply Forall_lookup. intros i e Hi. rewrite lookup_drop in Hi.
      apply (Htr (idx + i)%nat); [|done]. apply lookup_lt_Some in Hi. lia.
    + intros Ht. exfalso. apply (Hun hop); [lia|done|done].
Qed.

(** The description determines the result. *)
Lemma reduce_unique pre hop rest pre' hop' rest' :
  pre ++ hop :: rest = pre' ++ hop' :: rest' ->
  Forall (fun e => is_trusted e) rest -> Forall (fun e => is_trusted e) rest' ->
  (is_trusted hop -> pre = []) -> (is_trusted hop' -> pre' = []) ->
  hop :: rest = hop' :: rest'.
Proof.
  intros E Hr Hr' Hp Hp'.
  apply app_eq_inv in E as [(k & -> & E)|(k & -> & E)]; destruct k as [|x k].
  - done.
  - cbn in E. injection E as <- ->. apply Forall_app in Hr' as [_ Hr'].
    apply Forall_cons in Hr' as [Hr' _]. apply Hp in Hr'. by destruct pre'.
  - done.
  - cbn in E. injection E as <- ->. apply Forall_app in Hr as [_ Hr].
    apply Forall_cons in Hr as [Hr _]. apply Hp' in Hr. by destruct pre.
Qed.

Lemma reduce_idempotent chain :
  reduce_trusted_proxy_chain (reduce_trusted_proxy_chain chain trusted) trusted
    = reduce_trusted_proxy_chain chain trusted.
Proof.
  destruct (decide (chain = [])) as [->|Hne]; [done|].
  destruct (reduce_spec chain Hne) as (pre & hop & rest & _ & -> & Hr & _).
  destruct (reduce_spec (hop :: rest)) as (pre' & hop' & rest' & E & -> & Hr' & Hp'); [done|].
  symmetry. by apply (reduce_unique [] _ _ pre' hop' rest').
Qed.

Lemma reduce_last chain : last (reduce_trusted_proxy_chain chain trusted) = last chain.
Proof.
  destruct (decide (chain = [])) as [->|Hne]; [done|].
  destruct (reduce_spec chain Hne) as (pre & hop & rest & -> & -> & _ & _).
  rewrite last_app. destruct (last (hop :: rest)) eqn:E; [done|by apply last_None in E].
Qed.

Lemma reduce_incl chain e : e ∈ reduce_trusted_proxy_chain chain trusted -> e ∈ chain.
Proof.
  destruct (decide (chain = [])) as [->|Hne]; [done|].
  destruct (reduce_spec chain Hne) as (pre & hop & rest & -> & -> & _ & _). set_solver.
Qed.
End boundary.

(** ** Well-formed chains *)

Section chains.
Context `{HL : HttpLaws} `{IpNetApi}.

Lemma canonical_entry_wf a p h b :
  ip_wf a = true ->
  entry_wf {| for_node := {| ip := Some (canonicalize_ip a); port := None; raw := RawIp |};
              proto := p; host := h; by_ := b |}.
Proof. intros Ha. by apply node_wf_ip. Qed.

Lemma parse_ip_token_wf t a :
  parse_forwarded_ip_token t = Ok a -> ip_wf a = true /\ canonicalize_ip a = a.
Proof.
  unfold parse_forwarded_ip_token. intros Hk. parse_inv.
  apply parse_forwarded_node_wf in Hb. unfold node_wf in Hb. apply andb_prop in Hb as [_ Hb].
  destruct (ip _) as [a'|]; simplify_eq. by destruct (raw _); breflect.
Qed.

Lemma parse_xff_wf headers host chain :
  parse_x_forwarded_for_header headers host = Ok chain -> Forall entry_wf chain.
Proof.
  unfold parse_x_forwarded_for_header. intros Hk. parse_inv.
  match goal with E : result_mapM _ _ = Ok ?l |- _ => rename E into Hm end.
  apply result_mapM_Ok in Hm. apply Forall_lookup. intros i e Hi.
  rewrite list_lookup_imap in Hi.
  destruct (_ !! i) as [hop|] eqn:Ha; simplify_eq/=.
  eapply Forall2_lookup_r in Hm as (t & _ & Ht); [|done].
  apply parse_ip_token_wf in Ht as [Hw Hc]. unfold entry_wf, node_wf; cbn.
  by rewrite Hw, Hc, bool_decide_true.
Qed.

Lemma parse_forwarded_header_wf headers chain :
  parse_forwarded_header headers = Ok chain -> Forall entry_wf chain.
Proof.
  unfold parse_forwarded_header. intros Hk. parse_inv. by eapply parse_forwarded_text_wf.
Qed.

Lemma extract_wf headers host chain :
  extract_forwarding_chain_from_headers headers host = Ok (Some chain) -> Forall entry_wf chain.
Proof.
  unfold extract_forwarding_chain_from_headers. intros Hk.
  destruct (if hm_contains_key headers X_FORWARDED_FOR then _ else _) as [xc|] eqn:Ex;
    [|done]. cbn [mbind result_bind] in Hk.
  destruct (if hm_contains_key headers FORWARDED then _ else _) as [fc|] eqn:Ef; [|done].
  cbn [mbind result_bind] in Hk.
  assert (forall c, xc = Some c -> Forall entry_wf c) as Hx.
  { intros c ->. destruct (hm_contains_key headers X_FORWARDED_FOR); [|done].
    bind_inv Ex. simplify_eq. by eapply parse_xff_wf. }
  assert (forall c, fc = Some c -> Forall entry_wf c) as Hf.
  { intros c ->. destruct (hm_contains_key headers FORWARDED); [|done].
    destruct (parse_forwarded_header headers) eqn:E; [|by destruct xc].
    simplify_eq. by eapply parse_forwarded_header_wf. }
  destruct fc, xc; repeat case_match; simplify_eq; auto.
Qed.

Lemma normalize_cases headers peer tls host trusted :
  let peer_entry := build_peer_forwarded_entry peer tls host in
  normalize_forwarding_chain headers peer tls host trusted = [peer_entry] \/
  exists chain,
    is_trusted_proxy peer trusted = true /\ chain <> [] /\
    extract_forwarding_chain_from_headers headers None = Ok (Some chain) /\
    normalize_forwarding_chain headers peer tls host trusted
      = reduce_trusted_proxy_chain (chain ++ [peer_entry]) trusted.
Proof.
  cbn. unfold normalize_forwarding_chain.
  destruct (is_trusted_proxy peer trusted) eqn:Ht; [|by left]. cbn [negb].
  destruct (extract_forwarding_chain_from_headers headers None) as [[chain|]|e] eqn:E;
    [|by left|by left].
  case_bool_decide as Hc; [by left|].
  case_bool_decide as Hn; [by left|]. right. by exists chain.
Qed.

Lemma normalize_wf headers peer tls host trusted :
  ip_wf peer = true -> canonicalize_ip peer = peer ->
  Forall entry_wf (normalize_forwarding_chain headers peer tls host trusted).
Proof.
  intros Hw Hc.
  assert (entry_wf (build_peer_forwarded_entry peer tls host)) as Hp.
  { unfold build_peer_forwarded_entry. rewrite <- Hc. by apply canonical_entry_wf. }
  destruct (normalize_cases headers peer tls host trusted) as [->|(chain & _ & _ & E & ->)];
    [by repeat constructor|].
  apply extract_wf in E. apply Forall_forall. intros e He%reduce_incl.
  apply elem_of_app in He as [He| ->%list_elem_of_singleton]; [|done].
  by eapply Forall_forall.
Qed.

Lemma normalize_last headers peer tls host trusted :
  last (normalize_forwarding_chain headers peer tls host trusted)
    = Some (build_peer_forwarded_entry peer tls host).
Proof.
  destruct (normalize_cases headers peer tls host trusted) as [->|(chain & _ & _ & E & ->)];
    [done|]. by rewrite reduce_last, last_snoc.
Qed.
End chains.

(** ** The rewritten headers *)

(** The names [add_forwarding_header] writes. *)
Definition FORWARDING_HEADERS : list str :=
  [X_FORWARDED_FOR; FORWARDED; COOKIE; X_FORWARDED_PROTO; X_FORWARDED_PORT; X_REAL_IP;
   X_FORWARDED_SSL; X_ORIGINAL_URI; X_FORWARDED_HOST; PROXY].

Definition peer_ip_of (client_addr : SocketAddr) : IpAddr :=
  canonicalize_ip (sa_ip (to_canonical client_addr)).

Section rewritten.
Context `{HL : HttpLaws} `{NA : IpNetApi}.

(** The bytes of the values of a field. *)
Definition field (h : HeaderMap) (k : str) : list str := hv_as_bytes <$> hm_get_all h k.

Lemma field_insert_eq h k v : field (hm_insert h k v) k = [hv_as_bytes v].
Proof. unfold field. by rewrite hm_get_all_insert_eq. Qed.

Lemma field_insert_ne h k v k' : k <> k' -> field (hm_insert h k v) k' = field h k'.
Proof. intros. unfold field. by rewrite hm_get_all_insert_ne. Qed.

Lemma field_remove_eq h k : field (hm_remove h k) k = [].
Proof. unfold field. by rewrite hm_get_all_remove_eq. Qed.

Lemma field_remove_ne h k k' : k <> k' -> field (hm_remove h k) k' = field h k'.
Proof. intros. unfold field. by rewrite hm_get_all_remove_ne. Qed.

Lemma field_static_eq h k v :
  forallb is_visible_ascii v = true -> field (insert_static h k v) k = [v].
Proof. intros Hv. unfold field. rewrite insert_static_get_all by done. by case_decide. Qed.

Lemma field_static_ne h k v k' : k <> k' -> field (insert_static h k v) k' = field h k'.
Proof. intros. unfold field. by rewrite insert_static_get_all_ne. Qed.

Lemma field_overwrite_eq h k v h' :
  add_header_entry_overwrite_if_exist h k v = Ok h' -> field h' k = [v].
Proof. intros (w & Hw & Hv)%overwrite_eq. unfold field. rewrite Hw. cbn. by rewrite Hv. Qed.

Lemma field_overwrite_ne h k v h' k' :
  add_header_entry_overwrite_if_exist h k v = Ok h' -> k <> k' -> field h' k' = field h k'.
Proof. intros Hv Hne. unfold field. by rewrite (overwrite_ne _ _ _ _ _ Hv Hne). Qed.

Lemma field_cookie_ne h h' k :
  make_cookie_single_line h = Ok h' -> COOKIE <> k -> field h' k = field h k.
Proof. intros Hc Hk. unfold field. by rewrite (cookie_line_ne _ _ _ Hc). Qed.

Lemma field_xfh_ne h host h' k :
  overwrite_x_forwarded_host_from_original h host = Ok h' -> X_FORWARDED_HOST <> k ->
  field h' k = field h k.
Proof.
  unfold overwrite_x_forwarded_host_from_original. intros Ho Hk. case_match.
  - bind_inv Ho. simplify_eq. by apply field_insert_ne.
  - simplify_eq. by apply field_remove_ne.
Qed.

Lemma field_xfh_eq h host h' :
  overwrite_x_forwarded_host_from_original h host = Ok h' ->
  field h' X_FORWARDED_HOST = match host with Some x => [x] | None => [] end.
Proof.
  unfold overwrite_x_forwarded_host_from_original. intros Ho. destruct host as [x|].
  - bind_inv Ho. simplify_eq. rewrite field_insert_eq. f_equal.
    apply hv_from_str_as_bytes. by apply ok_or_Ok in Hbind.
  - simplify_eq. apply field_remove_eq.
Qed.

(** The stages of a successful rewrite. *)
Definition forwarded_stage (has_forwarded : bool) (chain : list ForwardedEntry)
    (h h' : HeaderMap) : Prop :=
  (if has_forwarded
   then match generate_forwarded_header chain with
        | Ok value => add_header_entry_overwrite_if_exist h FORWARDED value
        | Err _ => Ok h
        end
   else Ok (hm_remove h FORWARDED)) = Ok h'.

Lemma forwarded_stage_ne b chain h h' k :
  forwarded_stage b chain h h' -> FORWARDED <> k -> field h' k = field h k.
Proof.
  unfold forwarded_stage. intros Hs Hk. destruct b; [|simplify_eq; by apply field_remove_ne].
  case_match; [by eapply field_overwrite_ne|by simplify_eq].
Qed.

Lemma forwarded_stage_eq b chain h h' :
  forwarded_stage b chain h h' -> chain <> [] -> Forall entry_wf chain ->
  exists t, generate_forwarded_header chain = Ok t /\ parse_forwarded_text t = Ok chain /\
    field h' FORWARDED = if b then [t] else [].
Proof.
  unfold forwarded_stage. intros Hs Hne Hwf.
  destruct (generate_parse chain Hne Hwf) as (t & Ht & Hp). exists t. split_and!; [done..|].
  rewrite Ht in Hs. destruct b; [by eapply field_overwrite_eq|].
  simplify_eq. apply field_remove_eq.
Qed.
End rewritten.

(** Skip the stages that do not write the field [k]. *)
Ltac skip_stages :=
  repeat match goal with
  | |- context [field (insert_static _ _ _) _] => rewrite field_static_ne by closed_ne
  | |- context [field (hm_insert _ _ _) _] => rewrite field_insert_ne by closed_ne
  | H : overwrite_x_forwarded_host_from_original _ _ = Ok ?h |- context [field ?h _] =>
      rewrite (field_xfh_ne _ _ _ _ H) by closed_ne
  | H : add_header_entry_overwrite_if_exist _ _ _ = Ok ?h |- context [field ?h _] =>
      rewrite (field_overwrite_ne _ _ _ _ _ H) by closed_ne
  | H : make_cookie_single_line _ = Ok ?h |- context [field ?h _] =>
      rewrite (field_cookie_ne _ _ _ H) by closed_ne
  | H : forwarded_stage _ _ _ ?h |- context [field ?h _] =>
      rewrite (forwarded_stage_ne _ _ _ _ _ H) by closed_ne
  end.

Section rewritten_props.
Context `{HL : HttpLaws} `{NA : IpNetApi}.

Lemma emitted_chain_wf chain peer tls host ec csv n :
  Forall entry_wf chain -> ip_wf peer = true -> canonicalize_ip peer = peer ->
  emitted_chain chain peer tls host = (ec, csv, n) ->
  ec <> [] /\ Forall entry_wf ec /\
  exists a ips, chain_ips ec = Some (a :: ips) /\ take n csv = show_ip a /\
    csv = join (B ", ") (map show_ip (a :: ips)).
Proof.
  intros Hwf Hp Hc. unfold emitted_chain.
  destruct (xff_csv_from_chain chain) as [[csv' n']|] eqn:E.
  - intros [= <- <- <-]. split; [by intros ->|]. split; [done|].
    destruct (xff_csv_parse _ _ _ Hwf E) as (a & ips & ? & ? & ? & _). by exists a, ips.
  - intros [= <- <- <-]. split; [done|]. split.
    + constructor; [|done]. unfold build_peer_forwarded_entry.
      rewrite <- Hc. by apply canonical_entry_wf.
    + exists peer, []. rewrite push_ip_addr_show. split_and!; [done| |done].
      by rewrite firstn_all.
Qed.

Lemma static_visible (b : bool) s t :
  forallb is_visible_ascii (B s) = true -> forallb is_visible_ascii (B t) = true ->
  forallb is_visible_ascii (if b then B s else B t) = true.
Proof. by destruct b. Qed.

Lemma show_dec_visible n : 0 <= n -> forallb is_visible_ascii (show_dec n) = true.
Proof.
  intros Hn. apply forallb_forall. intros b Hb%list_elem_of_In.
  apply show_dec_digit in Hb; [|done]. unfold is_ascii_digit, is_visible_ascii in *. lia.
Qed.

(** A successful rewrite, stage by stage. *)
Lemma add_forwarding_header_stages h ca la tls uri host trusted h' :
  add_forwarding_header h ca la tls uri host trusted = Ok h' ->
  exists ec csv n xri xff h1 h2 h3 h4,
    emitted_chain (normalize_forwarding_chain h (peer_ip_of ca) tls host trusted)
      (peer_ip_of ca) tls host = (ec, csv, n) /\
    hv_as_bytes xri = take n csv /\ hv_as_bytes xff = csv /\
    forwarded_stage (hm_contains_key h FORWARDED) ec (hm_insert h X_FORWARDED_FOR xff) h1 /\
    make_cookie_single_line h1 = Ok h2 /\
    add_header_entry_overwrite_if_exist
      (insert_static
         (hm_insert
            (insert_static (insert_static h2 X_FORWARDED_PROTO (if tls then B "https" else B "http"))
               X_FORWARDED_PORT (show_dec (sa_port la)))
            X_REAL_IP xri)
         X_FORWARDED_SSL (if tls then B "on" else B "off"))
      X_ORIGINAL_URI (uri_to_string uri) = Ok h3 /\
    overwrite_x_forwarded_host_from_original h3 host = Ok h4 /\
    h' = insert_static h4 PROXY [].
Proof.
  unfold add_forwarding_header. fold (peer_ip_of ca).
  destruct (emitted_chain _ _ _ _) as [[ec csv] n] eqn:Ee. intros Ha.
  destruct (hv_from_str (take n csv)) as [xri|] eqn:Hx; [|done]. cbn [ok_or mbind result_bind] in Ha.
  destruct (hv_from_str csv) as [xff|] eqn:Hf; [|done]. cbn [ok_or mbind result_bind] in Ha.
  match type of Ha with mbind _ ?r = _ => destruct r as [h1|] eqn:H1; [|done] end.
  cbn [mbind result_bind] in Ha.
  destruct (make_cookie_single_line h1) as [h2|] eqn:H2; [|done]. cbn [mbind result_bind] in Ha.
  match type of Ha with mbind _ ?r = _ => destruct r as [h3|] eqn:H3; [|done] end.
  cbn [mbind result_bind] in Ha.
  match type of Ha with mbind _ ?r = _ => destruct r as [h4|] eqn:H4; [|done] end.
  cbn [mbind result_bind] in Ha. injection Ha as <-.
  exists ec, csv, n, xri, xff, h1, h2, h3, h4.
  split_and!; try done; by apply hv_from_str_as_bytes.
Qed.

(** The outgoing values of every field the rewrite touches, and that it touches no other. *)
Lemma add_forwarding_header_fields h ca la tls uri host trusted h' :
  ip_wf (sa_ip ca) = true -> 0 <= sa_port la ->
  add_forwarding_header h ca la tls uri host trusted = Ok h' ->
  exists ec a ips t,
    fst (fst (emitted_chain (normalize_forwarding_chain h (peer_ip_of ca) tls host trusted)
                (peer_ip_of ca) tls host)) = ec /\
    chain_ips ec = Some (a :: ips) /\
    generate_forwarded_header ec = Ok t /\ parse_forwarded_text t = Ok ec /\
    field h' X_FORWARDED_FOR = [join (B ", ") (map show_ip (a :: ips))] /\
    field h' X_REAL_IP = [show_ip a] /\
    field h' FORWARDED = (if hm_contains_key h FORWARDED then [t] else []) /\
    field h' X_FORWARDED_PROTO = [if tls then B "https" else B "http"] /\
    field h' X_FORWARDED_PORT = [show_dec (sa_port la)] /\
    field h' X_FORWARDED_SSL = [if tls then B "on" else B "off"] /\
    field h' X_ORIGINAL_URI = [uri_to_string uri] /\
    field h' X_FORWARDED_HOST = (match host with Some x => [x] | None => [] end) /\
    field h' PROXY = [[]] /\
    (forall k, k ∉ FORWARDING_HEADERS -> field h' k = field h k).
Proof.
  intros Hca Hla (ec & csv & n & xri & xff & h1 & h2 & h3 & h4 & He & Hx & Hf & H1 & H2 & H3 & H4 & ->)%add_forwarding_header_stages.
  assert (ip_wf (peer_ip_of ca) = true) as Hp.
  { unfold peer_ip_of. rewrite to_canonical_ip. by do 2 apply canonicalize_ip_wf. }
  assert (canonicalize_ip (peer_ip_of ca) = peer_ip_of ca) as Hc by apply canonicalize_ip_idem.
  destruct (emitted_chain_wf _ _ _ _ _ _ _ (normalize_wf h _ tls host trusted Hp Hc) Hp Hc He)
    as (Hne & Hwf & a & ips & Hips & Hfirst & Hcsv).
  destruct (forwarded_stage_eq _ _ _ _ H1 Hne Hwf) as (t & Ht & Hpt & Hfwd).
  exists ec, a, ips, t. rewrite He. split_and!; try done.
  - skip_stages. by rewrite field_insert_eq, Hf, Hcsv.
  - skip_stages. by rewrite field_insert_eq, Hx, Hfirst.
  - skip_stages. done.
  - skip_stages. by rewrite field_static_eq by (by apply static_visible).
  - skip_stages. by rewrite field_static_eq by (by apply show_dec_visible).
  - skip_stages. by rewrite field_static_eq by (by apply static_visible).
  - skip_stages. by eapply field_overwrite_eq.
  - rewrite field_static_ne by closed_ne. by eapply field_xfh_eq.
  - by apply field_static_eq.
  - intros k Hk. unfold FORWARDING_HEADERS in Hk. rewrite !not_elem_of_cons in Hk.
    destruct Hk as (?&?&?&?&?&?&?&?&?&?&_).
    rewrite field_static_ne, (field_xfh_ne _ _ _ _ H4), (field_overwrite_ne _ _ _ _ _ H3),
      field_static_ne, field_insert_ne, !field_static_ne, (field_cookie_ne _ _ _ H2),
      (forwarded_stage_ne _ _ _ _ _ H1), field_insert_ne by done. done.
Qed.

(** What becomes of the [Cookie] lines: a single line is kept as it is, several become one
    line of the readable ones. *)
Lemma add_forwarding_header_cookies h ca la tls uri host trusted h' :
  add_forwarding_header h ca la tls uri host trusted = Ok h' ->
  field h' COOKIE = field h COOKIE /\ (length (field h COOKIE) < 2)%nat \/
  (2 <= length (field h COOKIE))%nat /\ exists line, field h' COOKIE = [line] /\ forallb is_visible_ascii line = true.
Proof.
  intros (ec & csv & n & xri & xff & h1 & h2 & h3 & h4 & _ & _ & _ & H1 & H2 & H3 & H4 & ->)%add_forwarding_header_stages.
  assert (field h1 COOKIE = field h COOKIE) as E1.
  { rewrite (forwarded_stage_ne _ _ _ _ _ H1), field_insert_ne by closed_ne. done. }
  assert (field (insert_static h4 PROXY []) COOKIE = field h2 COOKIE) as ->.
  { rewrite field_static_ne, (field_xfh_ne _ _ _ _ H4), (field_overwrite_ne _ _ _ _ _ H3),
      field_static_ne, field_insert_ne, !field_static_ne by closed_ne. done. }
  rewrite <- E1. unfold make_cookie_single_line in H2. cbv zeta in H2. assert (length (field h1 COOKIE) = length (hm_get_all h1 COOKIE)) as El.
  { unfold field. apply length_fmap. }
  destruct (Nat.ltb_spec (length (hm_get_all h1 COOKIE)) 2); [injection H2 as <-; left; split; [done|lia]|].
  right. split; [lia|].
  match type of H2 with context [hv_from_bytes ?x] => destruct (hv_from_bytes x) as [v|] eqn:Ev; [|done] end.
  cbn in H2. injection H2 as <-. rewrite field_insert_eq, (hv_from_bytes_as_bytes _ _ Ev). eexists. split; [done|].
  apply all_join; [done|]. apply Forall_forall. intros x Hx. apply list_elem_of_In, in_map_iff in Hx as (w & <- & _).
  rewrite hv_to_str_visible. by destruct (forallb is_visible_ascii (hv_as_bytes w)) eqn:E.
Qed.
End rewritten_props.

(** ** The rewrite never fails on what a client sends *)

Section total.
Context `{HL : HttpLaws} `{NA : IpNetApi}.

Lemma hv_to_str_is_visible v s : hv_to_str v = Some s -> visible s.
Proof. rewrite hv_to_str_visible. intros Hv. by case_match; simplify_eq. Qed.

Lemma first_header_value_visible h k s : first_header_value h k = Ok (Some s) -> visible s.
Proof.
  unfold first_header_value. intros Hv. case_match; [|done]. bind_inv Hv. simplify_eq.
  apply ok_or_Ok in Hbind. by eapply hv_to_str_is_visible.
Qed.

Lemma join_header_values_visible h k s : join_header_values h k = Ok (Some s) -> visible s.
Proof.
  unfold join_header_values. intros Hj. destruct (hm_get_all h k) as [|v [|w rest]]; [done| |].
  - bind_inv Hj. simplify_eq. apply ok_or_Ok in Hbind. by eapply hv_to_str_is_visible.
  - bind_inv Hj. apply ok_or_Ok in Hbind. apply hv_to_str_is_visible in Hbind.
    destruct (result_foldM _ _ _) as [joined|] eqn:E; [|done]. cbn in Hj. simplify_eq.
    refine (result_foldM_inv _ (fun acc => visible acc) _ _ _ _ E Hbind).
    intros x s1 s2 _ Hx Hs1. bind_inv Hx. simplify_eq. apply ok_or_Ok in Hbind0.
    apply hv_to_str_is_visible in Hbind0. by repeat apply all_app.
Qed.

Lemma parse_xff_visible h chain :
  parse_x_forwarded_for_header h None = Ok chain -> Forall entry_visible chain.
Proof.
  unfold parse_x_forwarded_for_header. intros Hk.
  destruct (join_header_values h X_FORWARDED_FOR) as [xff|]; [|done]. cbn [mbind result_bind] in Hk.
  destruct (ok_or xff HeaderMissing); [|done]. cbn [mbind result_bind] in Hk.
  destruct (first_header_value h X_FORWARDED_PROTO) as [p|] eqn:Ep; [|done].
  cbn [mbind result_bind] in Hk. bind_inv Hk. simplify_eq.
  apply Forall_lookup. intros i e Hi. rewrite list_lookup_imap in Hi.
  destruct (_ !! i); simplify_eq/=. unfold entry_visible; cbn.
  split_and!; [|case_match; auto with rpxy|auto with rpxy].
  case_match; [|auto with rpxy]. destruct p as [p|]; cbn; [|auto with rpxy].
  apply opt_visible_Some, all_trim. by eapply first_header_value_visible.
Qed.

Lemma extract_visible h chain :
  extract_forwarding_chain_from_headers h None = Ok (Some chain) -> Forall entry_visible chain.
Proof.
  unfold extract_forwarding_chain_from_headers. intros Hk.
  destruct (if hm_contains_key h X_FORWARDED_FOR then _ else _) as [xc|] eqn:Ex;
    [|done]. cbn [mbind result_bind] in Hk.
  destruct (if hm_contains_key h FORWARDED then _ else _) as [fc|] eqn:Ef; [|done].
  cbn [mbind result_bind] in Hk.
  assert (forall c, xc = Some c -> Forall entry_visible c) as Hx.
  { intros c ->. destruct (hm_contains_key h X_FORWARDED_FOR); [|done].
    bind_inv Ex. simplify_eq. by eapply parse_xff_visible. }
  assert (forall c, fc = Some c -> Forall entry_visible c) as Hf.
  { intros c ->. destruct (hm_contains_key h FORWARDED); [|done].
    destruct (parse_forwarded_header h) eqn:E; [|by destruct xc]. simplify_eq.
    unfold parse_forwarded_header in E. bind_inv E. bind_inv E. apply ok_or_Ok in Hbind0.
    subst. eapply parse_forwarded_text_visible; [|done]. by eapply join_header_values_visible. }
  destruct fc, xc; repeat case_match; simplify_eq; auto.
Qed.

Lemma peer_entry_visible peer tls host :
  opt_visible host -> entry_visible (build_peer_forwarded_entry peer tls host).
Proof.
  intros Hh. unfold entry_visible; cbn. split_and!; [|done|auto with rpxy].
  destruct tls; by apply opt_visible_Some.
Qed.

Lemma normalize_visible h peer tls host trusted :
  opt_visible host ->
  Forall entry_visible (normalize_forwarding_chain h peer tls host trusted).
Proof.
  intros Hh. pose proof (peer_entry_visible peer tls host Hh) as Hp.
  destruct (normalize_cases h peer tls host trusted) as [->|(chain & _ & _ & E & ->)];
    [by apply Forall_singleton|].
  apply extract_visible in E. apply Forall_forall. intros e He%reduce_incl.
  apply elem_of_app in He as [He| ->%list_elem_of_singleton]; [|done].
  by eapply Forall_forall.
Qed.

Lemma show_ip_visible a : ip_wf a = true -> visible (show_ip a).
Proof. intros H1%show_ip_graphic. by apply graphic_visible. Qed.

Lemma cookie_line_total h : exists h', make_cookie_single_line h = Ok h'.
Proof.
  unfold make_cookie_single_line. case_match; [by eexists|].
  match goal with |- context [hv_from_bytes ?s] =>
    destruct (hv_from_bytes_visible s) as [v ->] end; [|by eexists].
  apply all_join; [done|]. apply Forall_map, Forall_forall. intros v _.
  destruct (hv_to_str v) eqn:E; [|done]. by eapply hv_to_str_is_visible.
Qed.

Lemma forwarded_stage_total b chain h :
  Forall entry_wf chain -> Forall entry_visible chain ->
  exists h', forwarded_stage b chain h h'.
Proof.
  intros Hwf Hv. unfold forwarded_stage. destruct b; [|by eexists].
  destruct (generate_forwarded_header chain) as [t|] eqn:E; [|by eexists].
  apply overwrite_visible. by eapply generate_visible.
Qed.

Lemma add_forwarding_header_ok h ca la tls uri host trusted :
  ip_wf (sa_ip ca) = true -> visible (uri_to_string uri) -> opt_visible host ->
  exists h', add_forwarding_header h ca la tls uri host trusted = Ok h'.
Proof.
  intros Hca Huri Hhost. unfold add_forwarding_header. fold (peer_ip_of ca).
  assert (ip_wf (peer_ip_of ca) = true) as Hp.
  { unfold peer_ip_of. rewrite to_canonical_ip. by do 2 apply canonicalize_ip_wf. }
  assert (canonicalize_ip (peer_ip_of ca) = peer_ip_of ca) as Hc by apply canonicalize_ip_idem.
  pose proof (normalize_wf h _ tls host trusted Hp Hc) as Hwf.
  pose proof (normalize_visible h (peer_ip_of ca) tls host trusted Hhost) as Hvis.
  destruct (emitted_chain _ _ _ _) as [[ec csv] n] eqn:Ee.
  destruct (emitted_chain_wf _ _ _ _ _ _ _ Hwf Hp Hc Ee) as (Hne & Hwfe & a & ips & Hips & Hn & ->).
  assert (Forall entry_visible ec) as Hve.
  { unfold emitted_chain in Ee. case_match; simplify_eq; [by case_match; simplify_eq|].
    by apply Forall_singleton, peer_entry_visible. }
  assert (Forall (fun a => ip_wf a = true) (a :: ips)) as Hall by (by eapply chain_ips_wf).
  apply Forall_cons in Hall as [Ha Hall]. rewrite Hn.
  destruct (hv_from_str_visible (show_ip a)) as [xri ->]; [by apply show_ip_visible|].
  cbn [ok_or mbind result_bind].
  destruct (hv_from_str_visible (join (B ", ") (map show_ip (a :: ips)))) as [xff ->].
  { apply all_join; [done|]. apply Forall_map. constructor; [by apply show_ip_visible|].
    eapply Forall_impl; [done|]. intros x Hx. by apply show_ip_visible. }
  cbn [ok_or mbind result_bind].
  destruct (forwarded_stage_total (hm_contains_key h FORWARDED) ec
    (hm_insert h X_FORWARDED_FOR xff) Hwfe Hve) as [h1 H1].
  unfold forwarded_stage in H1. rewrite H1. cbn [mbind result_bind].
  destruct (cookie_line_total h1) as [h2 ->]. cbn [mbind result_bind].
  match goal with |- context [add_header_entry_overwrite_if_exist ?h ?k ?v] =>
    destruct (overwrite_visible h k v Huri) as [h3 ->] end. cbn [mbind result_bind].
  unfold overwrite_x_forwarded_host_from_original. destruct host as [x|]; [|by eexists].
  destruct (hv_from_str_visible x) as [v ->]; [by apply Hhost|]. by eexists.
Qed.
End total.

(** ** The emitted addresses *)

Section emitted.
Context `{HL : HttpLaws} `{NA : IpNetApi}.

Lemma chain_ips_app c1 c2 :
  chain_ips (c1 ++ c2) = (l1 ← chain_ips c1; l2 ← chain_ips c2; Some (l1 ++ l2)).
Proof.
  unfold chain_ips. induction c1 as [|e c1 IH]; cbn [app mapM].
  - cbn. by destruct (mapM _ c2).
  - destruct (ip (for_node e)); cbn [mbind option_bind]; [|done]. rewrite IH.
    destruct (mapM _ c1); cbn [mbind option_bind mret option_ret]; [|done].
    by destruct (mapM _ c2).
Qed.

(** The emitted chain: its addresses after the first are trusted, the last is the
    peer, and a trusted first address means that nothing was cut off. *)
Lemma emitted_ips h peer tls host trusted :
  let ec := fst (fst (emitted_chain (normalize_forwarding_chain h peer tls host trusted)
                        peer tls host)) in
  forall a ips, chain_ips ec = Some (a :: ips) ->
  last (a :: ips) = Some peer /\
  Forall (fun x => is_trusted_proxy x trusted = true) ips /\
  (is_trusted_proxy a trusted = true -> ips <> [] ->
     exists chain ips', extract_forwarding_chain_from_headers h None = Ok (Some chain) /\
       chain_ips chain = Some ips' /\ a :: ips = ips' ++ [peer]).
Proof.
  intros ec a ips. unfold ec, emitted_chain; clear ec.
  destruct (xff_csv_from_chain _) as [[csv n]|] eqn:Ex; cbn [fst].
  2:{ cbn. by intros [= <- <-]. }
  destruct (normalize_cases h peer tls host trusted) as [->|(chain & Ht & Hne & E & ->)].
  { cbn. by intros [= <- <-]. }
  set (full := chain ++ [build_peer_forwarded_entry peer tls host]).
  destruct (reduce_spec trusted full) as (pre & hop & rest & Hfull & -> & Hr & Hp);
    [unfold full; by destruct chain|].
  intros Hips. unfold chain_ips in Hips. cbn [mapM] in Hips.
  destruct (ip (for_node hop)) as [a'|] eqn:Ha; cbn in Hips; [|done].
  destruct (mapM _ rest) as [ips'|] eqn:Er; cbn in Hips; [|done]. injection Hips as -> ->.
  apply mapM_Some in Er. split_and!.
  - assert (last (hop :: rest) ≫= entry_ip = Some peer) as Hl.
    { trans (last full ≫= entry_ip); [|unfold full; by rewrite last_snoc].
      rewrite Hfull, last_app. by destruct (last (hop :: rest)) eqn:El; [|apply last_None in El]. }
    revert Hl. clear -Er Ha. revert hop a Ha. induction Er as [|e x rest l Hx _ IH]; intros hop a Ha.
    + cbn. unfold entry_ip. by rewrite Ha.
    + rewrite !last_cons_cons. by apply IH.
  - clear -Er Hr. induction Er as [|e x rest l Hx _ IH]; [constructor|].
    apply Forall_cons in Hr as [He Hr]. constructor; [|by apply IH].
    unfold entry_is_trusted_proxy, entry_ip in He. by rewrite Hx in He.
  - intros Hta _. rewrite Hp in Hfull.
    2:{ unfold entry_is_trusted_proxy, entry_ip. by rewrite Ha. }
    cbn [app] in Hfull.
    assert (chain_ips full = Some (a :: ips)) as Hf.
    { rewrite Hfull. unfold chain_ips. cbn [mapM]. rewrite Ha. cbn [mbind option_bind].
      apply mapM_Some in Er. by rewrite Er. }
    unfold full in Hf. rewrite chain_ips_app in Hf.
    destruct (chain_ips chain) as [ips'|] eqn:Ec; cbn in Hf; [|done]. simplify_eq.
    by exists chain, ips'.
Qed.

Lemma join_header_values_unreadable h k v s :
  v ∈ hm_get_all h k -> hv_to_str v = None -> join_header_values h k <> Ok s.
Proof.
  unfold join_header_values. intros Hin Hv.
  destruct (hm_get_all h k) as [|x [|y rest]]; [by apply not_elem_of_nil in Hin| |].
  - apply list_elem_of_singleton in Hin as <-. by rewrite Hv.
  - apply elem_of_cons in Hin as [<-|Hin]; [by rewrite Hv|].
    destruct (hv_to_str x) as [x'|]; [|done]. cbn [ok_or mbind result_bind]. revert x' Hin.
    generalize (y :: rest) as l. clear y rest x.
    induction l as [|y l IH]; intros acc Hin; [by apply not_elem_of_nil in Hin|].
    cbn [result_foldM]. apply elem_of_cons in Hin as [<-|Hin].
    + by rewrite Hv.
    + destruct (hv_to_str y); cbn; [by apply IH|done].
Qed.
End emitted.

(** ** Properties *)

Section claims.
Context `{HL : HttpLaws} `{NA : IpNetApi}.

(** C1: a request from a peer outside [trusted_forwarded_proxies] leaves the proxy
    with the peer as its only forwarding identity, whatever forwarding headers the
    client sent: [X-Forwarded-For] and [X-Real-IP] are the peer address, a
    [Forwarded] header that was present is replaced by one for the peer alone, and
    the scheme and host are those of this proxy's connection. *)
Theorem untrusted_peer_cannot_spoof (h h' : HeaderMap) (ca la : SocketAddr) (tls : bool)
    (uri : Uri) (host : option str) (trusted : list IpNet) :
  ip_wf (sa_ip ca) = true -> 0 <= sa_port la ->
  is_trusted_proxy (peer_ip_of ca) trusted = false ->
  add_forwarding_header h ca la tls uri host trusted = Ok h' ->
  field h' X_FORWARDED_FOR = [show_ip (peer_ip_of ca)] /\
  field h' X_REAL_IP = [show_ip (peer_ip_of ca)] /\
  field h' X_FORWARDED_PROTO = [if tls then B "https" else B "http"] /\
  field h' X_FORWARDED_HOST = match host with Some x => [x] | None => [] end /\
  exists value,
    parse_forwarded_text value = Ok [build_peer_forwarded_entry (peer_ip_of ca) tls host] /\
    field h' FORWARDED = if hm_contains_key h FORWARDED then [value] else [].
Proof.
  intros Hca Hla Ht Ha.
  destruct (add_forwarding_header_fields _ _ _ _ _ _ _ _ Hca Hla Ha)
    as (ec & a & ips & t & Hec & Hips & _ & Hp & Hxff & Hxri & Hfwd & Hproto & _ & _ & _ & Hhost & _).
  unfold normalize_forwarding_chain in Hec. rewrite Ht in Hec. cbn in Hec.
  subst ec. injection Hips as <- <-. split_and!; try done. by exists t.
Qed.

(** C7: the [X-Forwarded-For] list sent upstream ends with the immediate peer, all
    its addresses after the first are trusted proxies, [X-Real-IP] is its first
    address, and that first address is a trusted proxy only if the list is the peer
    alone or the complete incoming chain followed by the peer: no address an
    untrusted hop could have invented survives. *)
Theorem x_forwarded_for_trust_boundary (h h' : HeaderMap) (ca la : SocketAddr) (tls : bool)
    (uri : Uri) (host : option str) (trusted : list IpNet) :
  ip_wf (sa_ip ca) = true -> 0 <= sa_port la ->
  add_forwarding_header h ca la tls uri host trusted = Ok h' ->
  exists first rest,
    field h' X_FORWARDED_FOR = [join (B ", ") (map show_ip (first :: rest))] /\
    field h' X_REAL_IP = [show_ip first] /\
    last (first :: rest) = Some (peer_ip_of ca) /\
    Forall (fun a => is_trusted_proxy a trusted = true) rest /\
    (is_trusted_proxy first trusted = true -> rest <> [] ->
       exists chain ips, extract_forwarding_chain_from_headers h None = Ok (Some chain) /\
         chain_ips chain = Some ips /\ first :: rest = ips ++ [peer_ip_of ca]).
Proof.
  intros Hca Hla Ha.
  destruct (add_forwarding_header_fields _ _ _ _ _ _ _ _ Hca Hla Ha)
    as (ec & a & ips & t & Hec & Hips & _ & _ & Hxff & Hxri & _). subst ec.
  destruct (emitted_ips h (peer_ip_of ca) tls host trusted a ips Hips) as (Hl & Hr & Hf).
  exists a, ips. by split_and!.
Qed.

(** The rewrite of the forwarding headers succeeds on every header map: no
    forwarding or cookie header a client sends makes the proxy reject the request,
    as long as the request URI and the authoritative host are header text. *)
Theorem add_forwarding_header_never_fails (h : HeaderMap) (ca la : SocketAddr) (tls : bool)
    (uri : Uri) (host : option str) (trusted : list IpNet) :
  ip_wf (sa_ip ca) = true -> visible (uri_to_string uri) -> opt_visible host ->
  exists h', add_forwarding_header h ca la tls uri host trusted = Ok h'.
Proof. apply add_forwarding_header_ok. Qed.

(** The headers a rewrite does not own are left alone, and the ones it owns
    hold exactly one value each, except [X-Forwarded-Host] (absent without a host)
    and [Forwarded] (absent if it was); the emitted [Forwarded] value is the print of
    the same chain as [X-Forwarded-For]. *)
Theorem add_forwarding_header_writes (h h' : HeaderMap) (ca la : SocketAddr) (tls : bool)
    (uri : Uri) (host : option str) (trusted : list IpNet) :
  ip_wf (sa_ip ca) = true -> 0 <= sa_port la ->
  add_forwarding_header h ca la tls uri host trusted = Ok h' ->
  field h' X_FORWARDED_PORT = [show_dec (sa_port la)] /\
  field h' X_FORWARDED_SSL = [if tls then B "on" else B "off"] /\
  field h' X_ORIGINAL_URI = [uri_to_string uri] /\
  field h' PROXY = [[]] /\
  (exists chain ips value,
     parse_forwarded_text value = Ok chain /\ chain_ips chain = Some ips /\
     field h' FORWARDED = (if hm_contains_key h FORWARDED then [value] else []) /\
     field h' X_FORWARDED_FOR = [join (B ", ") (map show_ip ips)]) /\
  (forall k, k ∉ FORWARDING_HEADERS -> field h' k = field h k).
Proof.
  intros Hca Hla Ha.
  destruct (add_forwarding_header_fields _ _ _ _ _ _ _ _ Hca Hla Ha)
    as (ec & a & ips & t & Hec & Hips & _ & Hp & Hxff & Hxri & Hfwd & Hproto & Hport & Hssl
        & Horig & _ & Hproxy & Hrest).
  split_and!; try done. by exists ec, (a :: ips), t.
Qed.
End claims.

(** Cutting a chain at the trust boundary keeps exactly its longest suffix whose
    hops after the first are all trusted proxies: the kept part starts at the last
    untrusted hop, or is the whole chain when every hop is trusted. *)
Theorem reduce_trusted_proxy_chain_spec `{IpNetApi} (trusted : list IpNet)
    (chain : list ForwardedEntry) (hop : ForwardedEntry) (rest : list ForwardedEntry) :
  chain <> [] ->
  reduce_trusted_proxy_chain chain trusted = hop :: rest <->
  exists pre, chain = pre ++ hop :: rest /\
    Forall (fun e => entry_is_trusted_proxy e trusted = true) rest /\
    (entry_is_trusted_proxy hop trusted = true -> pre = []).
Proof.
  intros Hne. destruct (reduce_spec trusted chain Hne) as (pre & hop' & rest' & -> & -> & Hr & Hp).
  split.
  - intros [= -> ->]. by exists pre.
  - intros (pre' & E & Hr' & Hp'). by eapply reduce_unique.
Qed.

(** Over plain HTTP the client-visible scheme is https only for a trusted peer
    whose forwarding headers are readable and say so: every [X-Forwarded-Proto] line
    must be readable, and when that header names no scheme every [Forwarded] line
    must be. A malformed header never falls through to a weaker source. *)
Theorem client_visible_scheme_fails_closed `{HL : HttpLaws} `{NA : IpNetApi}
    (h : HeaderMap) (ca : SocketAddr) (trusted : list IpNet) :
  client_visible_secure false ca h trusted = true ->
  is_trusted_proxy (peer_ip_of ca) trusted = true /\
  (forall v, v ∈ hm_get_all h X_FORWARDED_PROTO -> hv_to_str v <> None) /\
  exists scheme, eq_ignore_ascii_case scheme (B "https") = true /\
    (xforwarded_proto_first h = Ok (Some scheme) \/
     xforwarded_proto_first h = Ok None /\ forwarded_first_proto h = Ok (Some scheme) /\
     forall v, v ∈ hm_get_all h FORWARDED -> hv_to_str v <> None).
Proof.
  unfold client_visible_secure, client_visible_scheme. fold (peer_ip_of ca). intros Hs.
  apply bool_decide_eq_true in Hs.
  destruct (is_trusted_proxy (peer_ip_of ca) trusted); [|done]. cbn [negb] in Hs.
  split; [done|]. split.
  { intros v Hv Hn. unfold xforwarded_proto_first in Hs.
    destruct (join_header_values h X_FORWARDED_PROTO) eqn:E; [|done].
    by eapply join_header_values_unreadable in E. }
  destruct (xforwarded_proto_first h) as [[s|]|e]; [| |done].
  - exists s. destruct (eq_ignore_ascii_case s (B "https")) eqn:E; [|done]. by auto.
  - destruct (forwarded_first_proto h) as [[s|]|e] eqn:Ef; [|done|done].
    exists s. destruct (eq_ignore_ascii_case s (B "https")) eqn:E; [|done]. split; [done|].
    right. split_and!; [done..|]. intros v Hv Hn. unfold forwarded_first_proto in Ef.
    destruct (join_header_values h FORWARDED) eqn:E'; [|done].
    by eapply join_header_values_unreadable in E'.
Qed.

(** ** Examples *)

Module ForwardingExamples.
Import Alist.

Definition sock (a : IpAddr) (p : Z) : SocketAddr := {| sa_ip := a; sa_port := p |}.
Definition listen : SocketAddr := sock (V4 192 0 2 80) 443.
Definition trusted_nets : list (IpNet (IpNetApi := net_api)) := [(V4 10 0 0 0, 8%nat)].
Definition sample_uri : Uri (HttpApi := api) :=
  {| u_scheme := None; u_authority := None; u_path := B "/a"; u_query := Some (B "b=1") |}.

(** A client that sends forged forwarding headers. *)
Definition spoofed : HeaderMap (HttpApi := api) :=
  [(B "host", B "app.example"); (X_FORWARDED_FOR, B "1.2.3.4");
   (FORWARDED, B "for=1.2.3.4;proto=https"); (X_FORWARDED_PROTO, B "https")].

(** The headers after the rewrite. *)
Definition rewritten (h : HeaderMap (HttpApi := api)) (ca : SocketAddr) (tls : bool)
    : HeaderMap (HttpApi := api) :=
  match add_forwarding_header h ca listen tls sample_uri (Some (B "app.example")) trusted_nets with
  | Ok h' => h'
  | Err _ => []
  end.

Lemma untrusted_peer_cannot_spoof_witness :
  field (rewritten spoofed (sock (V4 203 0 113 9) 5000) false) X_FORWARDED_FOR
    = [B "203.0.113.9"].
Proof.
  apply (untrusted_peer_cannot_spoof spoofed
    (rewritten spoofed (sock (V4 203 0 113 9) 5000) false)
    (sock (V4 203 0 113 9) 5000) listen false sample_uri (Some (B "app.example")) trusted_nets);
    [reflexivity|vm_compute; discriminate|reflexivity|reflexivity].
Defined.

(** Behind a trusted proxy (seen as an IPv4-mapped address): the chain is kept back to
    the last untrusted hop. *)
Definition chained : HeaderMap (HttpApi := api) :=
  [(X_FORWARDED_FOR, B "6.6.6.6, 198.51.100.10, 10.1.1.1"); (X_FORWARDED_PROTO, B "https")].
Definition mapped_peer : SocketAddr := sock (V6 [0; 0; 0; 0; 0; 65535; 2560; 9]) 5000.

Lemma x_forwarded_for_trust_boundary_witness :
  field (rewritten chained mapped_peer false) X_FORWARDED_FOR
    = [B "198.51.100.10, 10.1.1.1, 10.0.0.9"] /\
  exists first rest,
    field (rewritten chained mapped_peer false) X_FORWARDED_FOR
      = [join (B ", ") (map show_ip (first :: rest))] /\
    last (first :: rest) = Some (V4 10 0 0 9).
Proof.
  split; [reflexivity|].
  destruct (x_forwarded_for_trust_boundary chained (rewritten chained mapped_peer false)
    mapped_peer listen false sample_uri (Some (B "app.example")) trusted_nets)
    as (f & r & Hx & _ & Hl & _);
    [reflexivity|vm_compute; discriminate|reflexivity|].
  exists f, r. split; [exact Hx|exact Hl].
Defined.

Lemma add_forwarding_header_never_fails_witness :
  exists h', add_forwarding_header spoofed mapped_peer listen true sample_uri
               (Some (B "app.example")) trusted_nets = Ok h'.
Proof.
  apply (add_forwarding_header_never_fails spoofed mapped_peer listen true sample_uri
    (Some (B "app.example")) trusted_nets); [reflexivity|reflexivity|].
  intros s E. injection E as <-. reflexivity.
Defined.

Lemma add_forwarding_header_writes_witness :
  field (rewritten spoofed mapped_peer true) X_ORIGINAL_URI = [B "/a?b=1"] /\
  field (rewritten spoofed mapped_peer true) PROXY = [[]].
Proof.
  destruct (add_forwarding_header_writes spoofed (rewritten spoofed mapped_peer true)
    mapped_peer listen true sample_uri (Some (B "app.example")) trusted_nets)
    as (_ & _ & Ho & Hp & _); [reflexivity|vm_compute; discriminate|reflexivity|].
  split; [exact Ho|exact Hp].
Defined.

Definition hop_of (a : IpAddr) : ForwardedEntry :=
  {| for_node := {| ip := Some a; port := None; raw := RawIp |};
     proto := None; host := None; by_ := None |}.

Lemma reduce_trusted_proxy_chain_spec_witness :
  reduce_trusted_proxy_chain
    (map hop_of [V4 6 6 6 6; V4 198 51 100 10; V4 10 1 1 1]) trusted_nets
    = map hop_of [V4 198 51 100 10; V4 10 1 1 1].
Proof.
  apply (reduce_trusted_proxy_chain_spec trusted_nets
    (map hop_of [V4 6 6 6 6; V4 198 51 100 10; V4 10 1 1 1]) (hop_of (V4 198 51 100 10))
    [hop_of (V4 10 1 1 1)]); [discriminate|].
  exists [hop_of (V4 6 6 6 6)]. split; [reflexivity|]. split.
  - constructor; [reflexivity|constructor].
  - vm_compute. discriminate.
Defined.

Lemma client_visible_scheme_fails_closed_witness :
  is_trusted_proxy (peer_ip_of mapped_peer) trusted_nets = true.
Proof.
  apply (client_visible_scheme_fails_closed chained mapped_peer trusted_nets). reflexivity.
Defined.

End ForwardingExamples.
