(* ===== verification/Globals.v ===== *)
(** * Configuration records and constants

    The records of [rpxy-lib/src/globals.rs] that the handlers read, the defaults of
    [ProxyConfig], and the constants of [rpxy-lib/src/constants.rs]. A [Duration] is
    its number of milliseconds. *)

From S2P Require Import Prelude RustStr RustNet HttpIface.

(** ** Constants *)

Definition RESPONSE_HEADER_SERVER : str := B "rpxy".
Definition TCP_LISTEN_BACKLOG : Z := 1024.
Definition PROXY_IDLE_TIMEOUT_SEC : Z := 20.
Definition UPSTREAM_IDLE_TIMEOUT_SEC : Z := 20.
Definition MAX_CLIENTS : Z := 512.
Definition MAX_CLIENTS_PER_IP : Z := 0.
Definition MAX_CONCURRENT_STREAMS : Z := 64.
Definition REQUEST_MAX_BODY_SIZE : Z := 268435456.
Definition ALT_SVC_MAX_AGE : Z := 3600.
Definition MAX_CONCURRENT_CONNECTIONS : Z := 4096.
Definition MAX_CONCURRENT_BIDISTREAM : Z := 64.
Definition MAX_CONCURRENT_UNISTREAM : Z := 64.
Definition MAX_IDLE_TIMEOUT : Z := 10.
Definition STICKY_COOKIE_NAME : str := B "rpxy_sticky_token".
Definition STICKY_COOKIE_DURATION_SECS : Z := 300.
Definition MAX_CACHE_ENTRY : Z := 1000.
Definition MAX_CACHE_EACH_SIZE : Z := 65535.
Definition MAX_CACHE_EACH_SIZE_ON_MEMORY : Z := 65535.
Definition PROXY_PROTOCOL_TIMEOUT_MSEC : Z := 50.
Definition DEFAULT_INTERVAL_SEC : Z := 10.
Definition DEFAULT_TIMEOUT_SEC : Z := 5.
Definition DEFAULT_UNHEALTHY_THRESHOLD : Z := 3.
Definition DEFAULT_HEALTHY_THRESHOLD : Z := 2.
Definition DEFAULT_EXPECTED_STATUS : Z := 200.

(** ** Durations *)

Definition Duration : Type := Z.
Definition from_secs (s : Z) : Duration := s * 1000.
Definition from_millis (ms : Z) : Duration := ms.

(** ** Health checks *)

Inductive HealthCheckType :=
| Tcp
| Http (path : str) (expected_status : Z).

Record HealthCheckConfig := {
  check_type : HealthCheckType;
  hc_interval : Duration;
  hc_timeout : Duration;
  unhealthy_threshold : Z;
  healthy_threshold : Z
}.

#[export] Instance HealthCheckType_eq_dec : EqDecision HealthCheckType.
Proof. solve_decision. Defined.
#[export] Instance HealthCheckConfig_eq_dec : EqDecision HealthCheckConfig.
Proof. solve_decision. Defined.

(** ** Applications *)

Section apps.
Context `{HttpApi}.

Record UpstreamUri := { uu_inner : Uri }.

Record ReverseProxyConfig := {
  rp_path : option str;
  rp_replace_path : option str;
  rp_upstream : list UpstreamUri;
  rp_upstream_options : option (list str);
  rp_load_balance : option str;
  rp_health_check : option HealthCheckConfig
}.

Record TlsConfig := { mutual_tls : bool; https_redirection : bool; acme : bool }.

Record AppConfig := {
  ac_app_name : str;
  ac_server_name : str;
  ac_reverse_proxy : list ReverseProxyConfig;
  ac_tls : option TlsConfig
}.

Record AppConfigList := { acl_inner : list AppConfig; acl_default_app : option str }.
End apps.

(** ** The proxy *)

Section proxy.
Context `{IpNetApi}.

Record TcpRecvProxyProtocolConfig := {
  pp_trusted_proxies : list IpNet;
  pp_timeout : Duration
}.

Record ProxyConfig := {
  listen_sockets : list SocketAddr;
  http_port : option Z;
  https_port : option Z;
  public_https_port : option Z;
  tcp_listen_backlog : Z;
  proxy_idle_timeout : Duration;
  upstream_idle_timeout : Duration;
  max_clients : Z;
  max_clients_per_ip : Z;
  max_concurrent_streams : Z;
  keepalive : bool;
  redact_query_in_access_log : bool;
  sni_consistency : bool;
  trusted_forwarded_proxies : list IpNet;
  tcp_recv_proxy_protocol : option TcpRecvProxyProtocolConfig;
  connection_handling_timeout : option Duration;
  request_max_body_size : option Z;
  cache_enabled : bool;
  cache_dir : option str;
  cache_max_entry : Z;
  cache_max_each_size : Z;
  cache_max_each_size_on_memory : Z;
  http3 : bool;
  h3_alt_svc_max_age : Z;
  h3_request_max_body_size : option Z;
  h3_max_concurrent_bidistream : Z;
  h3_max_concurrent_unistream : Z;
  h3_max_concurrent_connections : Z;
  h3_max_idle_timeout : option Duration
}.

Definition ProxyConfig_default : ProxyConfig := {|
  listen_sockets := [];
  http_port := None;
  https_port := None;
  public_https_port := None;
  tcp_listen_backlog := TCP_LISTEN_BACKLOG;
  proxy_idle_timeout := from_secs PROXY_IDLE_TIMEOUT_SEC;
  upstream_idle_timeout := from_secs UPSTREAM_IDLE_TIMEOUT_SEC;
  max_clients := MAX_CLIENTS;
  max_clients_per_ip := MAX_CLIENTS_PER_IP;
  max_concurrent_streams := MAX_CONCURRENT_STREAMS;
  keepalive := true;
  redact_query_in_access_log := false;
  sni_consistency := true;
  trusted_forwarded_proxies := [];
  tcp_recv_proxy_protocol := None;
  connection_handling_timeout := None;
  request_max_body_size := Some REQUEST_MAX_BODY_SIZE;
  cache_enabled := false;
  cache_dir := None;
  cache_max_entry := MAX_CACHE_ENTRY;
  cache_max_each_size := MAX_CACHE_EACH_SIZE;
  cache_max_each_size_on_memory := MAX_CACHE_EACH_SIZE_ON_MEMORY;
  http3 := false;
  h3_alt_svc_max_age := ALT_SVC_MAX_AGE;
  h3_request_max_body_size := None;
  h3_max_concurrent_bidistream := MAX_CONCURRENT_BIDISTREAM;
  h3_max_concurrent_unistream := MAX_CONCURRENT_UNISTREAM;
  h3_max_concurrent_connections := MAX_CONCURRENT_CONNECTIONS;
  h3_max_idle_timeout := Some (from_secs MAX_IDLE_TIMEOUT)
|}.
End proxy.
