(* ===== verification/HealthCheck.v ===== *)
(** * Health checks ([rpxy-lib/src/backend/health_check/])

    [UpstreamHealth] is the flag a checker task shares with the request handlers,
    [ConsecutiveCounter] decides its transitions, and [run_health_checker] probes the
    upstreams of one path at every tick. The outcome of a connection attempt or of an
    HTTP exchange is a parameter (the network). The specification is the history of
    probe results: the flag changes exactly when a threshold of consecutive equal
    results is reached. *)

From S2P Require Import Prelude RustStr RustNet HttpIface Globals.

(** ** The shared flag *)

Record UpstreamHealth := { healthy : bool }.

Definition UpstreamHealth_new : UpstreamHealth := {| healthy := true |}.
Definition UpstreamHealth_is_healthy (h : UpstreamHealth) : bool := healthy h.
Definition UpstreamHealth_set (h : UpstreamHealth) (b : bool) : UpstreamHealth := {| healthy := b |}.

(** ** The counter *)

Record ConsecutiveCounter := {
  consecutive_ok : Z;
  consecutive_fail : Z;
  cc_unhealthy_threshold : Z;
  cc_healthy_threshold : Z;
  cc_is_healthy : bool
}.

Definition ConsecutiveCounter_new (unhealthy_threshold healthy_threshold : Z) : ConsecutiveCounter :=
  {| consecutive_ok := 0; consecutive_fail := 0;
     cc_unhealthy_threshold := unhealthy_threshold;
     cc_healthy_threshold := healthy_threshold; cc_is_healthy := true |}.

(** [record]: the counter after the result, and the transition if there is one. *)
Definition record (self : ConsecutiveCounter) (ok : bool) : ConsecutiveCounter * option bool :=
  if ok then
    let n := saturating_add u32_max (consecutive_ok self) 1 in
    if negb (cc_is_healthy self) && (cc_healthy_threshold self <=? n)
    then ({| consecutive_ok := 0; consecutive_fail := 0;
             cc_unhealthy_threshold := cc_unhealthy_threshold self;
             cc_healthy_threshold := cc_healthy_threshold self; cc_is_healthy := true |}, Some true)
    else ({| consecutive_ok := n; consecutive_fail := 0;
             cc_unhealthy_threshold := cc_unhealthy_threshold self;
             cc_healthy_threshold := cc_healthy_threshold self;
             cc_is_healthy := cc_is_healthy self |}, None)
  else
    let n := saturating_add u32_max (consecutive_fail self) 1 in
    if cc_is_healthy self && (cc_unhealthy_threshold self <=? n)
    then ({| consecutive_ok := 0; consecutive_fail := 0;
             cc_unhealthy_threshold := cc_unhealthy_threshold self;
             cc_healthy_threshold := cc_healthy_threshold self; cc_is_healthy := false |}, Some false)
    else ({| consecutive_ok := 0; consecutive_fail := n;
             cc_unhealthy_threshold := cc_unhealthy_threshold self;
             cc_healthy_threshold := cc_healthy_threshold self;
             cc_is_healthy := cc_is_healthy self |}, None).

(** ** Probes *)

Section probes.
Context `{HttpApi}.

(** What the network answers: [TcpStream::connect] within the timeout, and the
    status of a GET of a URI with a [Host] value ([None]: an error or a timeout). *)
Class Network := {
  tcp_connect : str -> Duration -> bool;
  http_get_status : Uri -> str -> Duration -> option Z
}.

Context `{Network}.

(** [host] of the authority, with the port of the URI or of its scheme. *)
Definition build_tcp_addr (uri : Uri) : str :=
  let default_port := if bool_decide (uri_scheme_str uri = Some (B "https")) then 443 else 80 in
  let port := default default_port (uri_port_u16 uri) in
  default [] (uri_host uri) ++ [COLON] ++ show_dec port.

Definition check_tcp (uri : Uri) (timeout : Duration) : bool :=
  match uri_authority uri with
  | None => false
  | Some _ => tcp_connect (build_tcp_addr uri) timeout
  end.

Definition build_health_check_uri (base : Uri) (path : str) : option Uri :=
  authority ← uri_authority base;
  let scheme := default (B "http") (uri_scheme_str base) in
  uri_parse (scheme ++ B "://" ++ authority ++ path).

Definition check_http (uri : Uri) (path : str) (expected_status : Z) (timeout : Duration) : bool :=
  match build_health_check_uri uri path with
  | None => false
  | Some target_uri =>
      let host := default [] (uri_authority target_uri) in
      match hv_from_str host with
      | None => false
      | Some _ =>
          match http_get_status target_uri host timeout with
          | Some status => status =? expected_status
          | None => false
          end
      end
  end.

(** The probe of one upstream at a tick; [http_client] says whether the HTTP client exists. *)
Definition probe (config : HealthCheckConfig) (http_client : bool) (uri : Uri) : bool :=
  match check_type config with
  | Tcp => check_tcp uri (hc_timeout config)
  | Http path expected_status =>
      if http_client then check_http uri path expected_status (hc_timeout config) else false
  end.
End probes.

(** ** The checker task *)

(** The counter of the task and the shared flag, for one upstream. *)
Definition checked : Type := ConsecutiveCounter * UpstreamHealth.

(** One result in the [results.into_iter().for_each] loop. *)
Definition apply_result (st : checked) (ok : bool) : checked :=
  let '(counter, health) := st in
  let '(counter', transition) := record counter ok in
  (counter', match transition with
             | Some new_state => UpstreamHealth_set health new_state
             | None => health
             end).

(** A tick: every upstream is probed, then every result is recorded. *)
Definition checker_tick (sts : list checked) (results : list bool) : list checked :=
  zip_with apply_result sts results.

Definition checker_init (config : HealthCheckConfig) (n : nat) : list checked :=
  replicate n (ConsecutiveCounter_new (unhealthy_threshold config) (healthy_threshold config),
               UpstreamHealth_new).

(** The state after the ticks so far, [ticks] listing the results of each tick. *)
Definition run_health_checker (config : HealthCheckConfig) (n : nat) (ticks : list (list bool))
    : list checked :=
  fold_left checker_tick ticks (checker_init config n).

(** ** Specification: the history of one upstream *)

(** The length of the run of [b] at the end of the history (latest result first). *)
Fixpoint streak (b : bool) (h : list bool) : Z :=
  match h with
  | x :: r => if Bool.eqb x b then 1 + streak b r else 0
  | [] => 0
  end.

(** The state a history leads to: a healthy upstream turns unhealthy when its last
    [u] results are failures, an unhealthy one turns healthy when its last [k] results
    are successes; [since] is the part of the history after the last transition. *)
Fixpoint spec_state (u k : Z) (h : list bool) : bool * list bool :=
  match h with
  | [] => (true, [])
  | x :: r =>
      let '(st, since) := spec_state u k r in
      let since := x :: since in
      if st then (if u <=? streak false since then (false, []) else (true, since))
      else (if k <=? streak true since then (true, []) else (false, since))
  end.

Definition spec_healthy (u k : Z) (h : list bool) : bool := fst (spec_state u k h).

(** ** Refinement *)

(** The counters saturate: they hold the streaks as far as 32 bits go. *)
Definition counter_refines (u k : Z) (h : list bool) (c : ConsecutiveCounter) : Prop :=
  let '(st, since) := spec_state u k h in
  cc_is_healthy c = st /\ cc_unhealthy_threshold c = u /\ cc_healthy_threshold c = k /\
  consecutive_ok c = Z.min (streak true since) u32_max /\
  consecutive_fail c = Z.min (streak false since) u32_max.

Lemma streak_nonneg b h : 0 <= streak b h.
Proof. induction h as [|x h IH]; cbn; [lia|]. case_match; lia. Qed.

Lemma streak_cons_eq b h : streak b (b :: h) = 1 + streak b h.
Proof. cbn. by rewrite eqb_reflx. Qed.

Lemma streak_cons_ne b x h : x <> b -> streak b (x :: h) = 0.
Proof. cbn. intros Hne. destruct (eqb x b) eqn:E; [by apply eqb_prop in E|done]. Qed.

Lemma saturating_streak b h :
  saturating_add u32_max (Z.min (streak b h) u32_max) 1 = Z.min (streak b (b :: h)) u32_max.
Proof. rewrite streak_cons_eq. unfold saturating_add. pose proof (streak_nonneg b h). lia. Qed.

Lemma threshold_reached t n : t <= u32_max -> (t <=? Z.min n u32_max) = (t <=? n).
Proof. intros. lia. Qed.

Lemma record_refines u k h c ok :
  1 <= u <= u32_max -> 1 <= k <= u32_max -> counter_refines u k h c ->
  counter_refines u k (ok :: h) (fst (record c ok)) /\
  snd (record c ok) =
    (if Bool.eqb (spec_healthy u k (ok :: h)) (spec_healthy u k h) then None
     else Some (spec_healthy u k (ok :: h))).
Proof.
  intros Hu Hk. unfold counter_refines, spec_healthy. cbn [spec_state].
  destruct (spec_state u k h) as [st since]. destruct c as [co cf cu ck ch].
  cbn [cc_is_healthy consecutive_ok consecutive_fail cc_unhealthy_threshold cc_healthy_threshold].
  intros (-> & -> & -> & Hok & Hfail). unfold record.
  cbn [cc_is_healthy consecutive_ok consecutive_fail cc_unhealthy_threshold cc_healthy_threshold].
  destruct ok.
  - rewrite Hok, saturating_streak, threshold_reached by lia.
    rewrite (streak_cons_ne false true) by done.
    destruct st; cbn [negb andb].
    + replace (u <=? 0) with false by lia. cbn [fst snd eqb cc_is_healthy consecutive_ok
        consecutive_fail cc_unhealthy_threshold cc_healthy_threshold].
      rewrite (streak_cons_ne false true) by done. by split_and!.
    + destruct (k <=? streak true (true :: since)) eqn:E; cbn [fst snd eqb cc_is_healthy
        consecutive_ok consecutive_fail cc_unhealthy_threshold cc_healthy_threshold];
        rewrite ?(streak_cons_ne false true) by done; by split_and!.
  - rewrite Hfail, saturating_streak, threshold_reached by lia.
    rewrite (streak_cons_ne true false) by done.
    destruct st; cbn [andb].
    + destruct (u <=? streak false (false :: since)) eqn:E; cbn [fst snd eqb cc_is_healthy
        consecutive_ok consecutive_fail cc_unhealthy_threshold cc_healthy_threshold];
        rewrite ?(streak_cons_ne true false) by done; by split_and!.
    + replace (k <=? 0) with false by lia. cbn [fst snd eqb cc_is_healthy consecutive_ok
        consecutive_fail cc_unhealthy_threshold cc_healthy_threshold].
      rewrite (streak_cons_ne true false) by done. by split_and!.
Qed.

(** The flag is the state of its counter. *)
Definition checked_refines (u k : Z) (h : list bool) (st : checked) : Prop :=
  counter_refines u k h (fst st) /\ healthy (snd st) = spec_healthy u k h.

Lemma apply_result_refines u k h st ok :
  1 <= u <= u32_max -> 1 <= k <= u32_max -> checked_refines u k h st ->
  checked_refines u k (ok :: h) (apply_result st ok).
Proof.
  intros Hu Hk [Hc Hh]. destruct st as [c f]. cbn [fst snd] in *.
  destruct (record_refines u k h c ok Hu Hk Hc) as [Hc' Ht].
  unfold apply_result. destruct (record c ok) as [c' t]. cbn [fst snd] in *. subst t.
  split; [done|]. cbn [snd]. destruct (eqb _ _) eqn:E; [|done].
  apply eqb_prop in E. by rewrite Hh, E.
Qed.

(** The history of upstream [i], latest result first. *)
Definition history (i : nat) (ticks : list (list bool)) : list bool :=
  rev (omap (fun t => t !! i) ticks).

Lemma run_snoc config n ticks t :
  run_health_checker config n (ticks ++ [t]) = checker_tick (run_health_checker config n ticks) t.
Proof. unfold run_health_checker. by rewrite fold_left_app. Qed.

Lemma history_snoc i ticks t ok :
  t !! i = Some ok -> history i (ticks ++ [t]) = ok :: history i ticks.
Proof.
  intros Ht. unfold history. rewrite omap_app. cbn. rewrite Ht. cbn.
  by rewrite rev_app_distr.
Qed.

Lemma run_refines config n ticks :
  1 <= unhealthy_threshold config <= u32_max -> 1 <= healthy_threshold config <= u32_max ->
  Forall (fun t => length t = n) ticks ->
  length (run_health_checker config n ticks) = n /\
  forall i st, run_health_checker config n ticks !! i = Some st ->
    checked_refines (unhealthy_threshold config) (healthy_threshold config) (history i ticks) st.
Proof.
  intros Hu Hk. induction ticks as [|t ticks IH] using rev_ind; intros Hl.
  - unfold run_health_checker, checker_init; cbn [fold_left]. split; [apply length_replicate|].
    intros i st Hi. apply lookup_replicate in Hi as [-> _]. by split.
  - apply Forall_app in Hl as [Hl Ht]. apply Forall_cons in Ht as [Ht _].
    destruct (IH Hl) as [Hn Hi]. rewrite run_snoc. unfold checker_tick. split.
    + rewrite length_zip_with, Hn, Ht. apply Nat.min_id.
    + intros i st Hst. apply lookup_zip_with_Some in Hst as (st0 & ok & -> & H0 & Hok).
      rewrite (history_snoc _ _ _ ok) by done. apply apply_result_refines; auto.
Qed.

(** A run of [b] of the length of its threshold decides. *)
Lemma spec_state_steady u k (b : bool) m h :
  1 <= u -> 1 <= k ->
  let '(st, since) := spec_state u k (replicate m b ++ h) in
  st = b \/ st = negb b /\ Z.of_nat m <= streak b since /\ Z.of_nat m < (if b then k else u).
Proof.
  intros Hu Hk. induction m as [|m IH]; cbn [replicate app].
  - destruct (spec_state u k h) as [st since]. destruct (decide (st = b)) as [|Hne]; [by left|right].
    split_and!; [by destruct st, b|apply streak_nonneg|destruct b; lia].
  - cbn [spec_state]. destruct (spec_state u k (replicate m b ++ h)) as [st since].
    destruct IH as [-> |(-> & Hs & Hm)].
    + destruct b.
      * rewrite (streak_cons_ne false true) by done. replace (u <=? 0) with false by lia. by left.
      * rewrite (streak_cons_ne true false) by done. replace (k <=? 0) with false by lia. by left.
    + destruct b; cbn [negb]; rewrite streak_cons_eq.
      * destruct (k <=? 1 + streak true since) eqn:E; [by left|right]. rewrite streak_cons_eq. split_and!; [done|lia..].
      * destruct (u <=? 1 + streak false since) eqn:E; [by left|right]. rewrite streak_cons_eq. split_and!; [done|lia..].
Qed.

Lemma spec_healthy_steady u k (b : bool) m h :
  1 <= u -> 1 <= k -> (if b then k else u) <= Z.of_nat m -> spec_healthy u k (replicate m b ++ h) = b.
Proof.
  intros Hu Hk Hm. pose proof (spec_state_steady u k b m h Hu Hk) as Hs. unfold spec_healthy.
  destruct (spec_state _ _ _) as [st since]. destruct Hs as [?|(_ & _ & ?)]; [done|lia].
Qed.

Lemma history_constant i ticks more b :
  Forall (fun t => t !! i = Some b) more -> history i (ticks ++ more) = replicate (length more) b ++ history i ticks.
Proof.
  induction more as [|t more IH] using rev_ind; intros Hb; [by rewrite app_nil_r|].
  apply Forall_app in Hb as [Hmore Ht]. apply Forall_cons in Ht as [Ht _]. rewrite app_assoc, (history_snoc i _ t b Ht), IH by done.
  by rewrite length_app, Nat.add_1_r.
Qed.

(** ** Properties *)

(** C33: after any sequence of probe rounds, the flag the request handlers read for an
    upstream is the one its probe history determines: healthy at the start, unhealthy
    once [unhealthy_threshold] consecutive probes fail, healthy again once
    [healthy_threshold] consecutive probes succeed, and unchanged otherwise. *)
Theorem health_flag_follows_history (config : HealthCheckConfig) (n : nat)
    (ticks : list (list bool)) (i : nat) (counter : ConsecutiveCounter) (health : UpstreamHealth) :
  1 <= unhealthy_threshold config <= u32_max -> 1 <= healthy_threshold config <= u32_max ->
  Forall (fun t => length t = n) ticks ->
  run_health_checker config n ticks !! i = Some (counter, health) ->
  UpstreamHealth_is_healthy health
    = spec_healthy (unhealthy_threshold config) (healthy_threshold config) (history i ticks) /\
  cc_is_healthy counter = UpstreamHealth_is_healthy health.
Proof.
  intros Hu Hk Hl Hi. destruct (run_refines config n ticks Hu Hk Hl) as [_ Hr].
  destruct (Hr i _ Hi) as [Hc Hh]. cbn [fst snd] in *. split; [done|].
  unfold UpstreamHealth_is_healthy. rewrite Hh. unfold counter_refines, spec_healthy in *.
  destruct (spec_state _ _ _). by destruct Hc.
Qed.

(** A transition is reported exactly when the health of the history changes, and it
    reports the new health, so the shared flag is written only at transitions. *)
Theorem record_reports_transitions (u k : Z) (h : list bool) (c : ConsecutiveCounter) (ok : bool) :
  1 <= u <= u32_max -> 1 <= k <= u32_max -> counter_refines u k h c ->
  counter_refines u k (ok :: h) (fst (record c ok)) /\
  snd (record c ok) =
    (if Bool.eqb (spec_healthy u k (ok :: h)) (spec_healthy u k h) then None
     else Some (spec_healthy u k (ok :: h))).
Proof. apply record_refines. Qed.

(** However an upstream was doing, once its probes keep failing the flag goes down after
    [unhealthy_threshold] rounds at the latest, and once they keep succeeding it comes up
    after [healthy_threshold] rounds at the latest, and it then stays so. *)
Theorem health_flag_converges (config : HealthCheckConfig) (n : nat) (ticks more : list (list bool)) (i : nat) (b : bool) :
  1 <= unhealthy_threshold config <= u32_max -> 1 <= healthy_threshold config <= u32_max ->
  Forall (fun t => length t = n) (ticks ++ more) -> Forall (fun t => t !! i = Some b) more ->
  (if b then healthy_threshold config else unhealthy_threshold config) <= Z.of_nat (length more) ->
  exists counter health, run_health_checker config n (ticks ++ more) !! i = Some (counter, health) /\
    UpstreamHealth_is_healthy health = b.
Proof.
  intros Hu Hk Hl Hb Hm. destruct (run_refines config n (ticks ++ more) Hu Hk Hl) as [Hn Hr].
  destruct (run_health_checker config n (ticks ++ more) !! i) as [[counter health]|] eqn:E.
  - exists counter, health. split; [done|]. destruct (Hr i _ E) as [_ Hh]. cbn [snd] in Hh.
    unfold UpstreamHealth_is_healthy. rewrite Hh, (history_constant i ticks more b Hb).
    apply spec_healthy_steady; lia.
  - exfalso. apply lookup_ge_None in E. assert (n <= i)%nat as Hi by (rewrite <- Hn; exact E). destruct more as [|t more]; [destruct b; cbn in Hm; lia|].
    apply Forall_cons in Hb as [Hb _]. apply lookup_lt_Some in Hb.
    apply Forall_app in Hl as [_ Hl]. apply Forall_cons in Hl as [Hl _]. lia.
Qed.

Definition sample_check : HealthCheckConfig :=
  {| check_type := Tcp; hc_interval := from_secs 10; hc_timeout := from_secs 5;
     unhealthy_threshold := 3; healthy_threshold := 2 |}.

Definition sample_ticks : list (list bool) :=
  [[true; false]; [false; false]; [false; false]; [false; true]; [true; true]].

Lemma health_flag_follows_history_witness :
  exists counter, run_health_checker sample_check 2 sample_ticks !! 0%nat
                    = Some (counter, {| healthy := false |}) /\
    false = spec_healthy 3 2 (history 0 sample_ticks).
Proof.
  eexists. split; [vm_compute; reflexivity|].
  refine (proj1 (health_flag_follows_history sample_check 2 sample_ticks 0 _
    {| healthy := false |} _ _ _ _));
    [vm_compute; split; discriminate|vm_compute; split; discriminate
    |repeat constructor|vm_compute; reflexivity].
Defined.

Lemma health_flag_converges_witness :
  exists counter health, run_health_checker sample_check 2 (sample_ticks ++ [[false; true]; [false; true]]) !! 1%nat
    = Some (counter, health) /\ UpstreamHealth_is_healthy health = true.
Proof.
  apply (health_flag_converges sample_check 2 sample_ticks [[false; true]; [false; true]] 1 true);
    [vm_compute; split; discriminate|vm_compute; split; discriminate|repeat constructor|repeat constructor
    |vm_compute; discriminate].
Defined.

Lemma record_reports_transitions_witness :
  snd (record (fst (record (fst (record (ConsecutiveCounter_new 3 2) false)) false)) false)
    = Some false.
Proof.
  rewrite (proj2 (record_reports_transitions 3 2 [false; false]
    (fst (record (fst (record (ConsecutiveCounter_new 3 2) false)) false)) false
    ltac:(vm_compute; split; discriminate) ltac:(vm_compute; split; discriminate)
    ltac:(vm_compute; repeat split))).
  reflexivity.
Defined.
