(* ===== verification/StickyCookie.v ===== *)
(** * Sticky cookies

    The cookie of sticky load balancing ([backend/load_balance/sticky_cookie.rs]) and
    its authenticated encryption ([sticky_cookie_seal.rs]). AES-256-GCM, base64 and
    SHA-256 are parameters ([CryptoApi]), as are the clock and the date text of
    [chrono]. *)

From S2P Require Import Prelude RustStr RustNet HttpIface Globals.

(** ** Cryptography and encodings outside the repository *)

Class CryptoApi := {
  Cipher : Type;
  aead_encrypt : Cipher -> str -> str -> str -> option str;   (* nonce, aad, message *)
  aead_decrypt : Cipher -> str -> str -> str -> option str;   (* nonce, aad, ciphertext *)
  new_cipher : str -> option Cipher;
  b64_encode : str -> str;
  b64_decode : str -> option str;
  sha256 : str -> str
}.

Class CryptoLaws `(CryptoApi) : Prop := {
  (** decrypting what was encrypted under the same nonce and associated data *)
  aead_correct c n aad m ct :
    aead_encrypt c n aad m = Some ct -> aead_decrypt c n aad ct = Some m;
  (** the ciphertext carries a 16-byte tag *)
  aead_length c n aad m ct :
    aead_encrypt c n aad m = Some ct -> length ct = (length m + 16)%nat;
  aead_bytes c n aad m ct : aead_encrypt c n aad m = Some ct -> is_bytes ct = true;
  (** unpadded base64: round trip, length, alphabet *)
  b64_roundtrip s : is_bytes s = true -> b64_decode (b64_encode s) = Some s;
  b64_length s :
    Z.of_nat (length (b64_encode s)) =
      ((Z.of_nat (length s) + 2) / 3) * 4
      - (if Z.of_nat (length s) mod 3 =? 0 then 0 else if Z.of_nat (length s) mod 3 =? 1 then 2 else 1);
  b64_alphabet s :
    forallb (fun b => is_ascii_alphanumeric b || (b =? HYPHEN) || (b =? UNDERSCORE)) (b64_encode s)
      = true;
  (** a digest is a string of bytes *)
  sha256_bytes s : is_bytes (sha256 s) = true
}.

(** [chrono]: the text of a Unix time, when it is representable. *)
Class ClockApi := { format_gmt : Z -> option str }.

(** ** Errors *)

Inductive LoadBalanceError :=
| FailedToConversionStickyCookie
| InvalidStickyCookieStructure
| NoStickyCookieValue
| NoStickyCookieNoMetaInfo
| FailedToBuildStickyCookie.

(** The [RpxyError]s of configuration and sealing. *)
Inductive RpxyError :=
| InvalidStickyCookieConfig
| InvalidStickyCookieSecret
| InvalidStickyCookieAad
| FailedToSealStickyCookie
| InvalidReverseProxyConfig
| InvalidUpstreamOptionSetting
| UnsupportedUpstreamOption
| FailedToBuildBackendApp.

(** ** [sticky_cookie.rs] *)

Record StickyCookieValue := { cv_name : str; cv_value : str }.

Definition StickyCookieValue_build (name value : str) : StickyCookieValue :=
  {| cv_name := to_ascii_lowercase name; cv_value := value |}.

Definition StickyCookieValue_try_from (value expected_name : str)
    : result LoadBalanceError StickyCookieValue :=
  match split_once EQUALS value with
  | None => Err InvalidStickyCookieStructure
  | Some (name, val) =>
      let name := trim name in
      let val := trim val in
      if negb (bool_decide (name = expected_name)) then Err FailedToConversionStickyCookie
      else if bool_decide (val = []) then Err NoStickyCookieValue
      else Ok {| cv_name := expected_name; cv_value := val |}
  end.

Record StickyCookieInfo := { expires : Z; domain : str; ci_path : str }.

(** The builder: domain in lower case, path verbatim, expiry relative to now. *)
Definition StickyCookieInfo_build (now : Z) (domain path : str) (duration_secs : Z)
    : StickyCookieInfo :=
  {| expires := now + duration_secs; domain := to_ascii_lowercase domain; ci_path := path |}.

Record StickyCookie := { sc_value : StickyCookieValue; sc_info : option StickyCookieInfo }.

(** [{}] of a signed integer. *)
Definition show_i64 (z : Z) : str := if z <? 0 then HYPHEN :: show_dec (- z) else show_dec z.

Section sticky.
Context `{CryptoApi} `{ClockApi}.

Definition to_set_cookie_value_with_value (self : StickyCookie) (secure : bool) (cookie_value : str)
    (now_ts : Z) : result LoadBalanceError str :=
  match sc_info self with
  | None => Err NoStickyCookieNoMetaInfo
  | Some info =>
      exp_str ← ok_or (format_gmt (expires info)) FailedToConversionStickyCookie;
      let max_age := expires info - now_ts in
      Ok (cv_name (sc_value self) ++ B "=" ++ cookie_value ++ B "; expires=" ++ exp_str
            ++ B "; Max-Age=" ++ show_i64 max_age ++ B "; path=" ++ ci_path info
            ++ B "; domain=" ++ domain info ++ B "; HttpOnly; SameSite=Lax"
            ++ (if secure then B "; Secure" else []))
  end.

(** ** [sticky_cookie_seal.rs] *)

Definition VERSION_V1 : Z := 1.
Definition NONCE_LEN : Z := 12.
Definition TAG_LEN : Z := 16.
Definition EXPIRES_LEN : Z := 8.
Definition MAX_SERVER_ID_LEN : Z := 256.
Definition MIN_SERVER_ID_LEN : Z := 1.
Definition MIN_PLAINTEXT_LEN : Z := EXPIRES_LEN + MIN_SERVER_ID_LEN.
Definition MAX_PLAINTEXT_LEN : Z := EXPIRES_LEN + MAX_SERVER_ID_LEN.
Definition MIN_BLOB_LEN : Z := 1 + NONCE_LEN + TAG_LEN + MIN_PLAINTEXT_LEN.
Definition MAX_BLOB_LEN : Z := 1 + NONCE_LEN + TAG_LEN + MAX_PLAINTEXT_LEN.

Definition base64_url_no_pad_encoded_len (raw_len : Z) : Z :=
  let padded_len := ((raw_len + 2) / 3) * 4 in
  let padding_len :=
    if raw_len mod 3 =? 0 then 0 else if raw_len mod 3 =? 1 then 2 else 1 in
  padded_len - padding_len.

Definition MIN_BLOB_B64_LEN : Z := base64_url_no_pad_encoded_len MIN_BLOB_LEN.
Definition MAX_BLOB_B64_LEN : Z := base64_url_no_pad_encoded_len MAX_BLOB_LEN.

(** [decode_slice] into 32 bytes fails when the decoded text is longer. *)
Definition try_from_config_value (s : str) : result RpxyError str :=
  if existsb is_ascii_whitespace s then Err InvalidStickyCookieSecret
  else
    match b64_decode s with
    | None => Err InvalidStickyCookieSecret
    | Some secret =>
        if (32 <? length secret)%nat then Err InvalidStickyCookieSecret
        else if negb (length secret =? 32)%nat then Err InvalidStickyCookieSecret
        else Ok secret
    end.

Definition build_sticky_cookie_cipher (secret : str) : result RpxyError Cipher :=
  ok_or (new_cipher secret) InvalidStickyCookieSecret.

Definition validate_sticky_cookie_aad_component (value : str) : result RpxyError () :=
  if bool_decide (0 ∈ value) then Err InvalidStickyCookieAad else Ok ().

Definition build_sticky_cookie_aad (name domain path : str) : result RpxyError str :=
  _ ← validate_sticky_cookie_aad_component name;
  _ ← validate_sticky_cookie_aad_component domain;
  _ ← validate_sticky_cookie_aad_component path;
  Ok (B "rpxy-sticky-v1" ++ [0] ++ name ++ [0] ++ domain ++ [0] ++ path ++ [0]).

(** [nonce] is the generated nonce. *)
Definition seal_server_id (nonce : str) (cipher : Cipher) (aad server_id : str) (expires_unix : Z)
    : result RpxyError str :=
  let len := Z.of_nat (length server_id) in
  if bool_decide (server_id = []) || (MAX_SERVER_ID_LEN <? len) then Err FailedToSealStickyCookie
  else
    let plaintext := i64_to_be_bytes expires_unix ++ server_id in
    ct_with_tag ← ok_or (aead_encrypt cipher nonce aad plaintext) FailedToSealStickyCookie;
    Ok (b64_encode ([VERSION_V1] ++ nonce ++ ct_with_tag)).

Definition in_range (lo hi n : Z) : bool := (lo <=? n) && (n <=? hi).

(** [Nonce::try_from] of the 12 bytes always succeeds. *)
Definition open_server_id (cipher : Cipher) (aad blob_b64 : str) (now_unix : Z) : option str :=
  if negb (in_range MIN_BLOB_B64_LEN MAX_BLOB_B64_LEN (Z.of_nat (length blob_b64))) then None
  else
    blob ← b64_decode blob_b64;
    if negb (in_range MIN_BLOB_LEN MAX_BLOB_LEN (Z.of_nat (length blob))) then None
    else if negb (bool_decide (head blob = Some VERSION_V1)) then None
    else
      let nonce := take 12 (tail blob) in
      let ct_with_tag := drop 12 (tail blob) in
      plaintext ← aead_decrypt cipher nonce aad ct_with_tag;
      if negb (in_range MIN_PLAINTEXT_LEN MAX_PLAINTEXT_LEN (Z.of_nat (length plaintext)))
      then None
      else
        let expires_unix := i64_from_be_bytes (take 8 plaintext) in
        if expires_unix <=? now_unix then None
        else from_utf8 (drop 8 plaintext).

(** ** Configuration *)

Record StickyCookieConfig := {
  cc_name : str;
  cc_name_prefix : str;
  cc_domain : str;
  cc_path : str;
  cc_duration : Z;
  cc_aad : str
}.

Definition StickyCookieConfig_try_new (name server_name : str) (path_opt : option str) (duration : Z)
    : result RpxyError StickyCookieConfig :=
  if duration <=? 0 then Err InvalidStickyCookieConfig
  else
    let domain := to_ascii_lowercase server_name in
    let path := default (B "/") path_opt in
    aad ← build_sticky_cookie_aad name domain path;
    Ok {| cc_name := name; cc_name_prefix := name ++ B "="; cc_domain := domain;
          cc_path := path; cc_duration := duration; cc_aad := aad |}.

(** Building always succeeds: every field is set. *)
Definition build_sticky_cookie (self : StickyCookieConfig) (now : Z) (v : str) : StickyCookie :=
  {| sc_value := StickyCookieValue_build (cc_name self) v;
     sc_info := Some (StickyCookieInfo_build now (cc_domain self) (cc_path self) (cc_duration self)) |}.
End sticky.

(** ** Sealing and opening *)

Section seal_props.
Context `{CL : CryptoLaws}.

(** The encoded length grows with the raw length. *)
Lemma b64_len_mono a b :
  0 <= a <= b -> base64_url_no_pad_encoded_len a <= base64_url_no_pad_encoded_len b.
Proof.
  intros Hab. unfold base64_url_no_pad_encoded_len.
  assert (forall n, 0 <= n ->
    exists q r, n = 3 * q + r /\ 0 <= r < 3 /\
      ((n + 2) / 3) * 4 - (if n mod 3 =? 0 then 0 else if n mod 3 =? 1 then 2 else 1)
        = 4 * q + (if r =? 0 then 0 else r + 1)) as Hn.
  { intros n Hn. exists (n / 3), (n mod 3). pose proof (Z.mod_pos_bound n 3).
    pose proof (Z.div_mod n 3). split_and!; [lia..|].
    assert ((n + 2) / 3 = n / 3 + (if n mod 3 =? 0 then 0 else 1)) as ->.
    { symmetry. apply Z.div_unique with (r := if n mod 3 =? 0 then 2 else n mod 3 - 1);
        case_match; lia. }
    repeat case_match; lia. }
  destruct (Hn a) as (qa & ra & Ea & Hra & ->); [lia|].
  destruct (Hn b) as (qb & rb & Eb & Hrb & ->); [lia|].
  assert (qa <= qb) by lia. repeat case_match; lia.
Qed.

Lemma b64_encode_length s :
  Z.of_nat (length (b64_encode s)) = base64_url_no_pad_encoded_len (Z.of_nat (length s)).
Proof. apply b64_length. Qed.

Lemma in_range_true lo hi n : lo <= n <= hi -> in_range lo hi n = true.
Proof. unfold in_range. lia. Qed.

Lemma min_blob : MIN_BLOB_LEN = 38.
Proof. done. Qed.

Lemma max_blob : MAX_BLOB_LEN = 293.
Proof. done. Qed.

Lemma seal_inv nonce c aad id exp blob :
  seal_server_id nonce c aad id exp = Ok blob ->
  id <> [] /\ Z.of_nat (length id) <= MAX_SERVER_ID_LEN /\
  exists ct, aead_encrypt c nonce aad (i64_to_be_bytes exp ++ id) = Some ct /\
    blob = b64_encode ([VERSION_V1] ++ nonce ++ ct).
Proof.
  unfold seal_server_id. intros Hs. case_match eqn:E; [done|].
  apply orb_false_elim in E as [E1 E2]. breflect. apply Z.ltb_ge in E2.
  destruct (aead_encrypt _ _ _ _) as [ct|] eqn:Ee; cbn in Hs; [|done]. simplify_eq.
  split_and!; [done..|]. by exists ct.
Qed.

Lemma nonce_split nonce ct :
  length nonce = 12%nat ->
  take 12 (tail ([VERSION_V1] ++ nonce ++ ct)) = nonce /\
  drop 12 (tail ([VERSION_V1] ++ nonce ++ ct)) = ct.
Proof. intros H12. cbn [app tail]. split; [by rewrite take_app_length'|by rewrite drop_app_length']. Qed.

Lemma open_seal nonce c aad id exp blob now :
  length nonce = 12%nat -> is_bytes nonce = true ->
  - 2 ^ 63 <= exp < 2 ^ 63 -> is_utf8 id = true ->
  seal_server_id nonce c aad id exp = Ok blob ->
  open_server_id c aad blob now = if exp <=? now then None else Some id.
Proof.
  intros H12 Hbytes Hexp Hutf Hs. apply seal_inv in Hs as (Hne & Hlen & ct & Hct & ->).
  pose proof (aead_length _ _ _ _ _ Hct) as Hl. rewrite length_app in Hl.
  rewrite i64_be_length in Hl.
  assert (1 <= Z.of_nat (length id)) as H1 by (destruct id; cbn; [done|lia]).
  set (raw := [VERSION_V1] ++ nonce ++ ct).
  assert (Z.of_nat (length raw) = 37 + Z.of_nat (length id)) as Hraw.
  { unfold raw. rewrite !length_app, H12, Hl. cbn. lia. }
  unfold MAX_SERVER_ID_LEN in Hlen.
  assert (is_bytes raw = true) as Hrb.
  { unfold raw. rewrite !is_bytes_app, Hbytes, (aead_bytes _ _ _ _ _ Hct). done. }
  unfold open_server_id. rewrite b64_encode_length, b64_roundtrip by done. cbn [mbind option_bind].
  rewrite !in_range_true; cbn [negb].
  - unfold raw. rewrite bool_decide_true by done. cbn [negb].
    destruct (nonce_split nonce ct H12) as [-> ->].
    rewrite (aead_correct _ _ _ _ _ Hct). cbn [mbind option_bind].
    rewrite in_range_true; cbn [negb].
    + rewrite take_app_length', drop_app_length' by (by rewrite i64_be_length).
      rewrite i64_be_roundtrip by done. unfold from_utf8. by rewrite Hutf.
    + rewrite length_app, i64_be_length.
      unfold MIN_PLAINTEXT_LEN, MAX_PLAINTEXT_LEN, EXPIRES_LEN, MIN_SERVER_ID_LEN,
        MAX_SERVER_ID_LEN. lia.
  - rewrite Hraw, min_blob, max_blob. lia.
  - rewrite Hraw. split; apply b64_len_mono; rewrite ?min_blob, ?max_blob; lia.
Qed.

(** What a successful opening says about the blob. *)
Lemma open_inv c aad blob now id :
  open_server_id c aad blob now = Some id ->
  exists raw nonce ct plaintext,
    b64_decode blob = Some raw /\ raw = [VERSION_V1] ++ nonce ++ ct /\ length nonce = 12%nat /\
    aead_decrypt c nonce aad ct = Some plaintext /\
    plaintext = take 8 plaintext ++ id /\ length (take 8 plaintext) = 8%nat /\
    now < i64_from_be_bytes (take 8 plaintext) /\
    1 <= Z.of_nat (length id) <= MAX_SERVER_ID_LEN /\ is_utf8 id = true.
Proof.
  unfold open_server_id. intros Ho. case_match; [done|].
  destruct (b64_decode blob) as [raw|] eqn:Hd; [|done]. cbn [mbind option_bind] in Ho.
  destruct (in_range MIN_BLOB_LEN _ _) eqn:Hb; [|done]. cbn [negb] in Ho.
  case_bool_decide as Hv; [|done]. cbn [negb] in Ho.
  destruct (aead_decrypt _ _ _ _) as [p|] eqn:Hp; [|done]. cbn [mbind option_bind] in Ho.
  destruct (in_range MIN_PLAINTEXT_LEN _ _) eqn:Hr; [|done]. cbn [negb] in Ho.
  destruct (Z.leb_spec (i64_from_be_bytes (take 8 p)) now); [done|].
  unfold from_utf8 in Ho. destruct (is_utf8 (drop 8 p)) eqn:Hu; [|done]. simplify_eq.
  destruct raw as [|v raw]; [done|]. cbn in Hv. simplify_eq. cbn [tail] in Hp.
  unfold in_range in *. breflect. rewrite ?min_blob in *.
  repeat match goal with H : (_ <=? _) = true |- _ => apply Z.leb_le in H end.
  cbn [length] in *. unfold MIN_PLAINTEXT_LEN, MAX_PLAINTEXT_LEN, EXPIRES_LEN, MIN_SERVER_ID_LEN,
    MAX_SERVER_ID_LEN in *.
  exists (VERSION_V1 :: raw), (take 12 raw), (drop 12 raw), p.
  rewrite !length_take, length_drop.
  split_and!; try done; try lia; cbn [app]; try (by rewrite take_drop).
Qed.
End seal_props.

(** ** The associated data *)

Lemma validate_Ok v : validate_sticky_cookie_aad_component v = Ok () -> 0 ∉ v.
Proof. unfold validate_sticky_cookie_aad_component. by case_bool_decide. Qed.

Lemma aad_inv n d p a :
  build_sticky_cookie_aad n d p = Ok a ->
  0 ∉ n /\ 0 ∉ d /\ 0 ∉ p /\
  a = B "rpxy-sticky-v1" ++ [0] ++ n ++ [0] ++ d ++ [0] ++ p ++ [0].
Proof.
  unfold build_sticky_cookie_aad. intros Ha.
  destruct (validate_sticky_cookie_aad_component n) as [[]|] eqn:E1; [|done]. cbn in Ha.
  destruct (validate_sticky_cookie_aad_component d) as [[]|] eqn:E2; [|done]. cbn in Ha.
  destruct (validate_sticky_cookie_aad_component p) as [[]|] eqn:E3; [|done]. cbn in Ha.
  simplify_eq. by split_and!; try apply validate_Ok.
Qed.

Lemma aad_injective n d p n' d' p' a :
  build_sticky_cookie_aad n d p = Ok a -> build_sticky_cookie_aad n' d' p' = Ok a ->
  n = n' /\ d = d' /\ p = p'.
Proof.
  intros (Hn & Hd & Hp & ->)%aad_inv (Hn' & Hd' & Hp' & E)%aad_inv.
  apply app_inv_head in E. apply app_inv_head in E. cbn [app] in E.
  apply app_sep_inj in E as [-> E]; [|done..]. apply app_sep_inj in E as [-> E]; [|done..].
  apply (app_sep_inj 0 p p' [] []) in E as [-> _]; done.
Qed.
