(* ===== verification/CryptoInstance.v ===== *)
(** * An instance of the cryptography interface

    Unpadded base64url is implemented and its laws are proved; the cipher is a toy
    that appends a fixed tag (it has the functional laws of an AEAD, not its
    secrecy), and the digest reduces each byte modulo 256 (it is
    the identity on strings of bytes). The witnesses of the sticky-cookie
    theorems run on this instance. *)

From S2P Require Import Prelude RustStr RustNet HttpIface Globals StickyCookie.

Definition b64_char (v : Z) : byte :=
  if v <? 26 then v + 65 else if v <? 52 then v + 71 else if v <? 62 then v - 4
  else if v =? 62 then HYPHEN else UNDERSCORE.

Definition b64_value (c : byte) : option Z :=
  if is_ascii_uppercase c then Some (c - 65)
  else if is_ascii_lowercase c then Some (c - 71)
  else if is_ascii_digit c then Some (c + 4)
  else if c =? HYPHEN then Some 62 else if c =? UNDERSCORE then Some 63 else None.

Fixpoint b64url_encode (s : str) : str :=
  match s with
  | a :: b :: c :: r =>
      map b64_char [(a / 4) mod 64; (a mod 4) * 16 + (b / 16) mod 16; (b mod 16) * 4 + (c / 64) mod 4;
                    c mod 64] ++ b64url_encode r
  | [a; b] => map b64_char [(a / 4) mod 64; (a mod 4) * 16 + (b / 16) mod 16; (b mod 16) * 4]
  | [a] => map b64_char [(a / 4) mod 64; (a mod 4) * 16]
  | [] => []
  end.

Fixpoint b64url_decode (s : str) : option str :=
  match s with
  | [] => Some []
  | w :: x :: y :: z :: r =>
      w ← b64_value w; x ← b64_value x; y ← b64_value y; z ← b64_value z;
      t ← b64url_decode r;
      Some (w * 4 + x / 16 :: (x mod 16) * 16 + y / 4 :: (y mod 4) * 64 + z :: t)
  | [w; x; y] =>
      w ← b64_value w; x ← b64_value x; y ← b64_value y;
      Some [w * 4 + x / 16; (x mod 16) * 16 + y / 4]
  | [w; x] => w ← b64_value w; x ← b64_value x; Some [w * 4 + x / 16]
  | _ => None
  end.

Lemma b64_value_char v : 0 <= v < 64 -> b64_value (b64_char v) = Some v.
Proof.
  intros Hv. unfold b64_char, b64_value, is_ascii_uppercase, is_ascii_lowercase, is_ascii_digit.
  repeat case_match; breflect; f_equal; lia.
Qed.

Lemma b64_char_alphabet v :
  0 <= v < 64 ->
  is_ascii_alphanumeric (b64_char v) || (b64_char v =? HYPHEN) || (b64_char v =? UNDERSCORE) = true.
Proof.
  intros Hv. unfold b64_char, is_ascii_alphanumeric, is_ascii_uppercase, is_ascii_lowercase,
    is_ascii_digit. repeat case_match; lia.
Qed.

(** Quotient and remainder facts of one byte, as [lia] uses them. *)
Ltac byte_parts a :=
  pose proof (Z.div_mod a 4); pose proof (Z.mod_pos_bound a 4);
  pose proof (Z.div_mod a 16); pose proof (Z.mod_pos_bound a 16);
  pose proof (Z.div_mod a 64); pose proof (Z.mod_pos_bound a 64).

Lemma sextets a b c :
  0 <= (a / 4) mod 64 < 64 /\ 0 <= (a mod 4) * 16 + (b / 16) mod 16 < 64 /\
  0 <= (b mod 16) * 4 + (c / 64) mod 4 < 64 /\ 0 <= c mod 64 < 64 /\
  0 <= (a mod 4) * 16 < 64 /\ 0 <= (b mod 16) * 4 < 64.
Proof.
  pose proof (Z.mod_pos_bound (a / 4) 64). pose proof (Z.mod_pos_bound a 4).
  pose proof (Z.mod_pos_bound (b / 16) 16). pose proof (Z.mod_pos_bound b 16).
  pose proof (Z.mod_pos_bound (c / 64) 4). pose proof (Z.mod_pos_bound c 64). lia.
Qed.

(** Recombining the sextets of three bytes. *)
Lemma recombine a b c :
  0 <= a <= 255 -> 0 <= b <= 255 -> 0 <= c <= 255 ->
  (a / 4) mod 64 * 4 + ((a mod 4) * 16 + (b / 16) mod 16) / 16 = a /\
  (((a mod 4) * 16 + (b / 16) mod 16) mod 16) * 16 + ((b mod 16) * 4 + (c / 64) mod 4) / 4 = b /\
  (((b mod 16) * 4 + (c / 64) mod 4) mod 4) * 64 + c mod 64 = c /\
  (a / 4) mod 64 * 4 + ((a mod 4) * 16) / 16 = a /\
  (((a mod 4) * 16 + (b / 16) mod 16) mod 16) * 16 + ((b mod 16) * 4) / 4 = b.
Proof.
  intros Ha Hb Hc.
  assert (forall n d, 0 < d -> 0 <= n -> n < 256 -> 0 <= n / d /\ n / d * d <= n) as Hd.
  { intros n d H0 H1 H2. pose proof (Z.div_pos n d). pose proof (Z.mul_div_le n d). lia. }
  rewrite (Z.mod_small (a / 4) 64) by (split; [apply Z.div_pos; lia|apply Z.div_lt_upper_bound; lia]).
  rewrite (Z.mod_small (b / 16) 16) by (split; [apply Z.div_pos; lia|apply Z.div_lt_upper_bound; lia]).
  rewrite (Z.mod_small (c / 64) 4) by (split; [apply Z.div_pos; lia|apply Z.div_lt_upper_bound; lia]).
  assert (0 <= b / 16 < 16) as Hb16 by (split; [apply Z.div_pos; lia|apply Z.div_lt_upper_bound; lia]).
  assert (0 <= c / 64 < 4) as Hc64 by (split; [apply Z.div_pos; lia|apply Z.div_lt_upper_bound; lia]).
  rewrite !Z.div_add_l, !(Z.div_small (b / 16)), !(Z.div_small (c / 64)), !Z.div_mul by lia.
  rewrite !(Z.add_comm (_ * _) (b / 16)), !(Z.add_comm (_ * _) (c / 64)), !Z.mod_add by lia.
  rewrite !(Z.mod_small (b / 16)), !(Z.mod_small (c / 64)) by lia.
  byte_parts a. byte_parts b. byte_parts c. lia.
Qed.

(** Induction three bytes at a time. *)
Lemma list_ind3 {A} (P : list A -> Prop) :
  P [] -> (forall a, P [a]) -> (forall a b, P [a; b]) ->
  (forall a b c r, P r -> P (a :: b :: c :: r)) -> forall l, P l.
Proof.
  intros H0 H1 H2 H3. fix IH 1. intros [|a [|b [|c r]]]; [done|done|done|]. apply H3, IH.
Qed.

Lemma b64url_roundtrip s : is_bytes s = true -> b64url_decode (b64url_encode s) = Some s.
Proof.
  induction s as [|a|a b|a b c r IH] using list_ind3; intros H; cbn in H; breflect; [done|..].
  - cbn -[Z.div Z.modulo]. destruct (sextets a 0 0) as (?&_&_&_&?&_).
    rewrite !b64_value_char by done. cbn -[Z.div Z.modulo]. destruct (recombine a 0 0) as (_&_&_&E&_); [lia..|].
    by rewrite E.
  - cbn -[Z.div Z.modulo]. destruct (sextets a b 0) as (?&?&_&_&_&?).
    rewrite !b64_value_char by done. cbn -[Z.div Z.modulo].
    destruct (recombine a b 0) as (E1&_&_&_&E2); [lia..|]. by rewrite E1, E2.
  - cbn -[Z.div Z.modulo b64url_encode b64url_decode]. cbn [b64url_encode map app].
    destruct (sextets a b c) as (?&?&?&?&_&_). cbn [b64url_decode].
    rewrite !b64_value_char by done. cbn [mbind option_bind]. rewrite IH by done.
    cbn [mbind option_bind]. destruct (recombine a b c) as (E1&E2&E3&_); [lia..|].
    by rewrite E1, E2, E3.
Qed.

Lemma b64url_length s :
  Z.of_nat (length (b64url_encode s)) =
    ((Z.of_nat (length s) + 2) / 3) * 4
    - (if Z.of_nat (length s) mod 3 =? 0 then 0 else if Z.of_nat (length s) mod 3 =? 1 then 2 else 1).
Proof.
  induction s as [|a|a b|a b c r IH] using list_ind3; try done.
  cbn [b64url_encode map app length]. rewrite !Nat2Z.inj_succ, IH. clear IH.
  set (n := Z.of_nat (length r)).
  replace (Z.succ (Z.succ (Z.succ n)) + 2) with (n + 2 + 1 * 3) by lia.
  replace (Z.succ (Z.succ (Z.succ n))) with (n + 1 * 3) by lia.
  rewrite Z.div_add, Z.mod_add by lia. lia.
Qed.

Lemma b64url_alphabet s :
  forallb (fun b => is_ascii_alphanumeric b || (b =? HYPHEN) || (b =? UNDERSCORE)) (b64url_encode s)
    = true.
Proof.
  induction s as [|a|a b|a b c r IH] using list_ind3; [done|..];
    cbn [b64url_encode map app forallb].
  - destruct (sextets a 0 0) as (?&_&_&_&?&_). by rewrite !b64_char_alphabet.
  - destruct (sextets a b 0) as (?&?&_&_&_&?). by rewrite !b64_char_alphabet.
  - destruct (sextets a b c) as (?&?&?&?&_&_). by rewrite !b64_char_alphabet, IH.
Qed.

(** ** A toy cipher

    A key is either unrestricted or a table of the triples (nonce, associated data,
    message) it seals; the table makes it unforgeable. *)

Definition toy_key : Type := option (list (str * str * str)).

Definition toy_tag : str := replicate 16 0.

(** Messages of the length and alphabet a sealed cookie has, allowed by the key. *)
Definition toy_ok (k : toy_key) (n aad m : str) : bool :=
  is_bytes m && in_range 9 264 (Z.of_nat (length m))
  && match k with None => true | Some t => bool_decide ((n, aad, m) ∈ t) end.

Definition toy_encrypt (k : toy_key) (n aad m : str) : option str :=
  if toy_ok k n aad m then Some (m ++ toy_tag) else None.

Definition toy_decrypt (k : toy_key) (n aad ct : str) : option str :=
  m ← strip_suffix toy_tag ct; if toy_ok k n aad m then Some m else None.

#[export] Instance toy_crypto : CryptoApi := {|
  Cipher := toy_key;
  aead_encrypt := toy_encrypt;
  aead_decrypt := toy_decrypt;
  new_cipher := fun _ => Some None;
  b64_encode := b64url_encode;
  b64_decode := b64url_decode;
  sha256 := map (fun b => b mod 256)
|}.

#[export] Instance toy_crypto_laws : CryptoLaws toy_crypto.
Proof.
  split; cbn -[toy_tag toy_ok].
  - unfold toy_encrypt, toy_decrypt. intros c n aad m ct Hm. case_match eqn:E; simplify_eq.
    rewrite strip_suffix_app. cbn [mbind option_bind]. by rewrite E.
  - unfold toy_encrypt. intros c n aad m ct Hm. case_match; simplify_eq.
    by rewrite length_app.
  - unfold toy_encrypt, toy_ok. intros c n aad m ct Hm. case_match eqn:E; simplify_eq.
    apply andb_prop in E as [[E _]%andb_prop _]. by rewrite is_bytes_app, E.
  - apply b64url_roundtrip.
  - apply b64url_length.
  - apply b64url_alphabet.
  - intros s. induction s as [|b s IH]; [done|]. cbn. rewrite IH. pose proof (Z.mod_pos_bound b 256).
    rewrite andb_true_r. lia.
Qed.

#[export] Instance toy_clock : ClockApi := {| format_gmt := fun t => Some (show_i64 t) |}.
