(* ===== verification/StickySeal.v ===== *)
(** * What sealing a sticky cookie guarantees

    Theorems about [seal_server_id], [open_server_id] and
    [build_sticky_cookie_aad] of [StickyCookie], with their witnesses on
    [CryptoInstance]. *)

From S2P Require Import Prelude RustStr RustNet HttpIface Globals StickyCookie CryptoInstance.

(** ** Theorems *)

Section seal_theorems.
Context `{CL : CryptoLaws}.

(** Sealing and opening are inverse: a sealed server id opens, under the same key
    and associated data, to exactly that id until its expiry, and to nothing from the
    expiry on. *)
Theorem seal_open_roundtrip nonce c aad id exp blob now :
  length nonce = 12%nat -> is_bytes nonce = true ->
  - 2 ^ 63 <= exp < 2 ^ 63 -> is_utf8 id = true ->
  seal_server_id nonce c aad id exp = Ok blob ->
  open_server_id c aad blob now = if exp <=? now then None else Some id.
Proof. apply open_seal. Qed.

(** A cookie this proxy has issued: nonce, name, domain, path, server id, expiry. *)
Record issued_cookie := Issued {
  is_nonce : str; is_name : str; is_domain : str; is_path : str; is_id : str; is_expires : Z
}.

(** The key authenticates exactly the issued cookies: what decrypts was sealed. *)
Definition authenticates (c : Cipher) (issued : list issued_cookie) : Prop :=
  forall nonce aad ct p, aead_decrypt c nonce aad ct = Some p ->
    exists e, e ∈ issued /\ is_nonce e = nonce /\
      build_sticky_cookie_aad (is_name e) (is_domain e) (is_path e) = Ok aad /\
      p = i64_to_be_bytes (is_expires e) ++ is_id e /\ - 2 ^ 63 <= is_expires e < 2 ^ 63.

(** C6: with a cipher that authenticates, whatever the client sends, a cookie that
    opens for an application was issued for that application's cookie name, domain and
    path, with that server id, and has not expired: a cookie cannot be moved between
    applications, altered or extended. *)
Theorem opened_cookie_was_issued c issued n d p aad blob now id :
  authenticates c issued ->
  build_sticky_cookie_aad n d p = Ok aad ->
  open_server_id c aad blob now = Some id ->
  exists e, e ∈ issued /\ is_name e = n /\ is_domain e = d /\ is_path e = p /\
    is_id e = id /\ now < is_expires e.
Proof.
  intros Hauth Haad (raw & nonce & ct & pt & _ & _ & _ & Hd & Hp & H8 & Hexp & _)%open_inv.
  destruct (Hauth _ _ _ _ Hd) as (e & He & _ & Ha & -> & Hr).
  rewrite take_app_length' in Hp, Hexp by (by rewrite i64_be_length).
  apply app_inv_head in Hp. rewrite i64_be_roundtrip in Hexp by done.
  destruct (aad_injective _ _ _ _ _ _ _ Ha Haad) as (<- & <- & <-).
  by exists e.
Qed.

End seal_theorems.

(** The associated data determines the cookie's name, domain and path: the framing
    with NUL separators is injective on the components it accepts, and it accepts
    exactly those without a NUL. *)
Theorem aad_framing_injective n d p n' d' p' :
  (0 ∉ n ++ d ++ p <-> exists a, build_sticky_cookie_aad n d p = Ok a) /\
  (forall a, build_sticky_cookie_aad n d p = Ok a -> build_sticky_cookie_aad n' d' p' = Ok a ->
    n = n' /\ d = d' /\ p = p').
Proof.
  split; [|intros a; apply aad_injective]. split.
  - rewrite !not_elem_of_app. intros (Hn & Hd & Hp). unfold build_sticky_cookie_aad.
    unfold validate_sticky_cookie_aad_component. rewrite !bool_decide_false by done. by eexists.
  - intros [a (Hn & Hd & Hp & _)%aad_inv]. by rewrite !not_elem_of_app.
Qed.

(** ** Witnesses *)

Module SealExamples.

Definition nonce : str := replicate 12 7.
Definition any_key : @Cipher toy_crypto := (None : toy_key).
Definition aad : str := default [] (ok (build_sticky_cookie_aad (B "rpxy_srv_id") (B "example.com") (B "/"))).
Definition blob : str := default [] (ok (seal_server_id nonce any_key aad (B "server-a") 1000)).
Definition issued : list issued_cookie :=
  [Issued nonce (B "rpxy_srv_id") (B "example.com") (B "/") (B "server-a") 1000].
Definition key : @Cipher toy_crypto := Some [(nonce, aad, i64_to_be_bytes 1000 ++ B "server-a")].

Lemma seal_open_roundtrip_witness :
  open_server_id any_key aad blob 999 = Some (B "server-a") /\ open_server_id any_key aad blob 1000 = None.
Proof.
  split.
  - apply (seal_open_roundtrip nonce any_key aad (B "server-a") 1000 blob 999);
      [reflexivity|reflexivity|lia|reflexivity|vm_compute; reflexivity].
  - apply (seal_open_roundtrip nonce any_key aad (B "server-a") 1000 blob 1000);
      [reflexivity|reflexivity|lia|reflexivity|vm_compute; reflexivity].
Defined.

Lemma key_authenticates : authenticates key issued.
Proof.
  intros n a ct p. cbn -[toy_tag toy_ok]. unfold toy_decrypt.
  destruct (strip_suffix toy_tag ct) as [m|]; cbn [mbind option_bind]; [|done].
  unfold toy_ok, key. case_match eqn:E; [|done]. intros [= <-].
  apply andb_prop in E as [_ E%bool_decide_eq_true]. apply list_elem_of_singleton in E. simplify_eq.
  exists (Issued nonce (B "rpxy_srv_id") (B "example.com") (B "/") (B "server-a") 1000).
  split_and!; [by left|done|vm_compute; done|done|cbn; lia|cbn; lia].
Qed.

Lemma opened_cookie_was_issued_witness :
  exists e, e ∈ issued /\ is_name e = B "rpxy_srv_id" /\ is_domain e = B "example.com" /\
    is_path e = B "/" /\ is_id e = B "server-a" /\ 999 < is_expires e.
Proof.
  apply (opened_cookie_was_issued key issued (B "rpxy_srv_id") (B "example.com") (B "/") aad blob 999
    (B "server-a")); [apply key_authenticates|vm_compute; reflexivity|vm_compute; reflexivity].
Defined.

Lemma aad_framing_injective_witness :
  exists a, build_sticky_cookie_aad (B "n") (B "d") (B "/") = Ok a.
Proof.
  apply (aad_framing_injective (B "n") (B "d") (B "/") [] [] []). apply (bool_decide_unpack _).
  vm_compute. exact I.
Defined.

End SealExamples.
