(* ===== verification/NameExp.v ===== *)
(** * Server and path names ([rpxy-lib/src/name_exp.rs])

    Names as byte strings: a server name is kept in ASCII lower case, a path name made
    from a string keeps its case. *)

From S2P Require Import Prelude RustStr.

Record ServerName := { sn_inner : str }.
Record PathName := { pn_inner : str }.

#[export] Instance ServerName_eq_dec : EqDecision ServerName.
Proof. solve_decision. Defined.
#[export] Instance PathName_eq_dec : EqDecision PathName.
Proof. solve_decision. Defined.

Definition ServerName_from (s : str) : ServerName := {| sn_inner := to_ascii_lowercase s |}.
Definition ServerName_try_into (self : ServerName) : option str := from_utf8 (sn_inner self).

(** From a string: the bytes as they are. From bytes: in lower case. *)
Definition PathName_from_str (s : str) : PathName := {| pn_inner := s |}.
Definition PathName_from_bytes (b : str) : PathName := {| pn_inner := to_ascii_lowercase b |}.
Definition PathName_try_into (self : PathName) : option str := from_utf8 (pn_inner self).
Definition PathName_len (self : PathName) : nat := length (pn_inner self).
Definition PathName_is_empty (self : PathName) : bool := (length (pn_inner self) =? 0)%nat.
Definition PathName_starts_with (self needle : PathName) : bool :=
  starts_with (pn_inner needle) (pn_inner self).

Definition to_server_name (s : str) : ServerName := ServerName_from s.
Definition to_path_name (s : str) : PathName := PathName_from_str s.
