(* ===== verification/LoadBalance.v ===== *)
(** * Load balancing ([rpxy-lib/src/backend/load_balance/], [Upstream] of [upstream.rs])

    An [Upstream] carries a health flag that the health checker flips while a request
    is being routed, so a selection may read different flags in each of its passes
    over the group: the selections take [Reads], the group as the i-th pass sees it.
    The balancers with a counter pass it as state; the random number is an argument.
    [None] as the outcome of a selection stands for a panic. *)

From S2P Require Import Prelude RustStr RustNet HttpIface Globals HealthCheck StickyCookie.

(** ** Positions of a list *)

Fixpoint positions_from {A} (k : nat) (f : A -> bool) (l : list A) : list nat :=
  match l with
  | [] => []
  | x :: r => (if f x then [k] else []) ++ positions_from (S k) f r
  end.

(** The indices of the elements that satisfy [f], in order. *)
Definition positions {A} (f : A -> bool) (l : list A) : list nat := positions_from 0 f l.

Lemma positions_from_elem {A} (f : A -> bool) l k i :
  i ∈ positions_from k f l <-> exists x, (k <= i)%nat /\ l !! (i - k)%nat = Some x /\ f x = true.
Proof.
  revert k. induction l as [|y l IH]; intros k; cbn [positions_from].
  - split; [by intros ?%not_elem_of_nil|by intros (x & _ & ? & _)].
  - rewrite elem_of_app, IH. split.
    + intros [Hi|(x & Hk & Hl & Hf)].
      * destruct (f y) eqn:E; [|by apply not_elem_of_nil in Hi].
        apply list_elem_of_singleton in Hi as ->. exists y. by rewrite Nat.sub_diag.
      * exists x. replace (i - k)%nat with (S (i - S k)) by lia. split; [lia|done].
    + intros (x & Hk & Hl & Hf). destruct (decide (i = k)) as [->|Hne].
      * left. rewrite Nat.sub_diag in Hl. cbn in Hl. simplify_eq. rewrite Hf. by left.
      * right. exists x. replace (i - k)%nat with (S (i - S k)) in Hl by lia. split; [lia|done].
Qed.

Lemma positions_elem {A} (f : A -> bool) l i :
  i ∈ positions f l <-> exists x, l !! i = Some x /\ f x = true.
Proof.
  unfold positions. rewrite positions_from_elem. rewrite Nat.sub_0_r.
  split; intros (x & H); exists x; [tauto|]. split; [lia|done].
Qed.

Lemma positions_from_length {A} (f : A -> bool) l k :
  length (positions_from k f l) = length (List.filter f l).
Proof.
  revert k. induction l as [|x l IH]; intros k; [done|]. cbn. rewrite length_app, IH. by destruct (f x).
Qed.

Lemma positions_length {A} (f : A -> bool) l : length (positions f l) = length (List.filter f l).
Proof. apply positions_from_length. Qed.

Lemma positions_from_all {A} (f : A -> bool) l k :
  forallb f l = true -> positions_from k f l = seq k (length l).
Proof.
  revert k. induction l as [|x l IH]; intros k; [done|]. cbn. intros [-> H]%andb_prop.
  cbn. by rewrite IH.
Qed.

Lemma positions_from_NoDup {A} (f : A -> bool) l k : NoDup (positions_from k f l).
Proof.
  revert k. induction l as [|x l IH]; intros k; cbn; [constructor|].
  destruct (f x); cbn; [|apply IH]. constructor; [|apply IH].
  rewrite positions_from_elem. intros (y & ? & _). lia.
Qed.

Lemma positions_NoDup {A} (f : A -> bool) l : NoDup (positions f l).
Proof. apply positions_from_NoDup. Qed.

Lemma filter_all_length {A} (f : A -> bool) l :
  length (List.filter f l) = length l <-> forallb f l = true.
Proof.
  induction l as [|x l IH]; [done|]. cbn. destruct (f x); cbn; [rewrite <- IH; lia|].
  pose proof (List.filter_length_le f l). split; [lia|done].
Qed.

Lemma filter_none_length {A} (f : A -> bool) l : length (List.filter f l) = 0%nat <-> existsb f l = false.
Proof. induction l as [|x l IH]; [done|]. cbn. destruct (f x); cbn; [done|exact IH]. Qed.

(** The first index that satisfies [f] ([Iterator::position]). *)
Definition find_position {A} (f : A -> bool) (l : list A) : option nat := head (positions f l).

Lemma position_Some {A} (f : A -> bool) l i :
  find_position f l = Some i <->
  (exists x, l !! i = Some x /\ f x = true) /\
  (forall j x, (j < i)%nat -> l !! j = Some x -> f x = false).
Proof.
  unfold find_position, positions.
  assert (forall k, head (positions_from k f l) = Some i <->
    (exists x, (k <= i)%nat /\ l !! (i - k)%nat = Some x /\ f x = true) /\
    (forall j x, (k <= j < i)%nat -> l !! (j - k)%nat = Some x -> f x = false)) as Hk.
  { induction l as [|y l IH]; intros k; cbn [positions_from].
    - split; [done|]. by intros [(x & _ & ? & _) _].
    - destruct (f y) eqn:E; cbn [app head].
      + split.
        * intros [= ->]. split; [exists y; by rewrite Nat.sub_diag|lia].
        * intros [(x & Hk & _) Hj]. destruct (decide (k = i)) as [->|]; [done|].
          specialize (Hj k y). rewrite Nat.sub_diag in Hj. cbn in Hj. rewrite Hj in E; [done|lia|done].
      + rewrite IH. split.
        * intros [(x & Hk & Hl & Hf) Hj]. split.
          -- exists x. replace (i - k)%nat with (S (i - S k)) by lia. split; [lia|done].
          -- intros j z Hji. destruct (decide (k = j)) as [->|].
             ++ rewrite Nat.sub_diag. cbn. by intros [= <-].
             ++ replace (j - k)%nat with (S (j - S k)) by lia. apply Hj. lia.
        * intros [(x & Hk & Hl & Hf) Hj]. assert (k <> i) as Hne.
          { intros ->. rewrite Nat.sub_diag in Hl. cbn in Hl. congruence. }
          replace (i - k)%nat with (S (i - S k)) in Hl by lia. split.
          -- exists x. split; [lia|done].
          -- intros j z Hji Hz. apply (Hj j z); [lia|].
             by replace (j - k)%nat with (S (j - S k)) by lia. }
  rewrite Hk, Nat.sub_0_r. split.
  - intros [(x & _ & Hx) Hj]. split; [by exists x|]. intros j z Hji Hz. apply (Hj j z); [lia|].
    by rewrite Nat.sub_0_r.
  - intros [(x & Hx) Hj]. split; [exists x; split; [lia|done]|]. intros j z Hji Hz. rewrite Nat.sub_0_r in Hz.
    apply (Hj j z); [lia|done].
Qed.

(** ** Upstreams *)

Section load_balance.
Context `{HttpApi} `{CryptoApi}.

Record Upstream := {
  u_uri : Uri;
  u_host_header : option HeaderValue;
  u_health : option UpstreamHealth
}.

(** [Upstream::from] of a configured URI. *)
Definition Upstream_from (value : UpstreamUri) : Upstream :=
  {| u_uri := uu_inner value;
     u_host_header :=
       host ← uri_host (uu_inner value);
       match uri_port_u16 (uu_inner value) with
       | Some port => hv_from_str (host ++ B ":" ++ show_dec port)
       | None => hv_from_str host
       end;
     u_health := None |}.

Definition host_header (self : Upstream) : option HeaderValue := u_host_header self.

Definition is_healthy (self : Upstream) : bool :=
  match u_health self with None => true | Some h => UpstreamHealth_is_healthy h end.

Definition has_health_state (self : Upstream) : bool := bool_decide (is_Some (u_health self)).

Definition calculate_id_with_index (self : Upstream) (index : nat) : str :=
  b64_encode (sha256 (uri_to_string (u_uri self) ++ B "&index=" ++ show_dec (Z.of_nat index))).

(** ** Selection *)

(** The group as the i-th pass of a selection over its health flags sees it. *)
Definition Reads : Type := nat -> list Upstream.

Definition first_healthy_index (upstreams : list Upstream) : option nat :=
  find_position is_healthy upstreams.

Definition healthy_index_count (upstreams : list Upstream) : nat :=
  length (List.filter is_healthy upstreams).

(** [nth % len] for a machine word and a length. *)
Definition rem (nth : Z) (len : nat) : nat := Z.to_nat (nth mod Z.of_nat len).

(** The health state of an upstream is attached or not for its lifetime, so [any]
    reads nothing that changes; the count is the first pass and the scan the second. *)
Definition pick_nth_available_index (upstreams : Reads) (nth : Z) : nat :=
  let len := length (upstreams 0%nat) in
  if (len =? 0)%nat then 0%nat
  else if negb (existsb has_health_state (upstreams 0%nat)) then rem nth len
  else
    let healthy_count := healthy_index_count (upstreams 0%nat) in
    if (healthy_count =? len)%nat then rem nth len
    else if (healthy_count =? 0)%nat then rem nth len
    else
      let target := rem nth healthy_count in
      default (rem nth len) (positions is_healthy (upstreams 1%nat) !! target).

Definition first_available_index (upstreams : Reads) : nat :=
  if bool_decide (upstreams 0%nat = []) then 0%nat
  else if negb (existsb has_health_state (upstreams 0%nat)) then 0%nat
  else default 0%nat (first_healthy_index (upstreams 0%nat)).

(** ** Balancers *)

Record LoadBalanceContext := { sticky_cookie : StickyCookie }.

Record PointerToUpstream := { ptr : nat; context : option LoadBalanceContext }.

(** Round robin: [fetch_add] wraps at the width of [usize], and the counter is reset
    near the maximum. The counter after the call, and the value it returns. *)
Definition fetch_and_advance (counter : Z) : Z * Z :=
  let prev := counter in
  let counter := wrap_usize (counter + 1) in
  let counter := if usize_max - 1 <=? prev then 0 else counter in
  (counter, prev).

Record LoadBalanceRoundRobin := { rr_ptr : Z }.

Definition RoundRobin_get_ptr (self : LoadBalanceRoundRobin) (upstreams : Reads)
    : LoadBalanceRoundRobin * PointerToUpstream :=
  let '(counter, count) := fetch_and_advance (rr_ptr self) in
  ({| rr_ptr := counter |},
   {| ptr := pick_nth_available_index upstreams count; context := None |}).

(** [rng] gives the draw of [random_range(0..n)]. The selection inside
    [pick_nth_available_index] makes passes of its own. *)
Definition Random_get_ptr (rng : Z -> Z) (upstreams : Reads) : PointerToUpstream :=
  let len := length (upstreams 0%nat) in
  if (len =? 0)%nat then {| ptr := 0%nat; context := None |}
  else
    let p :=
      if negb (existsb has_health_state (upstreams 0%nat)) then Z.to_nat (rng (Z.of_nat len))
      else
        let healthy_count := healthy_index_count (upstreams 0%nat) in
        if (healthy_count =? len)%nat || (healthy_count =? 0)%nat then Z.to_nat (rng (Z.of_nat len))
        else pick_nth_available_index (fun i => upstreams (S i)) (rng (Z.of_nat healthy_count)) in
    {| ptr := p; context := None |}.

Definition PrimaryBackup_get_ptr (upstreams : Reads) : PointerToUpstream :=
  {| ptr := first_available_index upstreams; context := None |}.

(** ** Sticky round robin *)

Record UpstreamMap := {
  upstream_index_map : list str;
  upstream_id_map : gmap str nat
}.

Record LoadBalanceSticky := {
  st_ptr : Z;
  sticky_config : StickyCookieConfig;
  upstream_maps : UpstreamMap
}.

(** Inserting the ids in order of their index. *)
Fixpoint id_map_from (k : nat) (ids : list str) (m : gmap str nat) : gmap str nat :=
  match ids with [] => m | v :: r => id_map_from (S k) r (<[v := k]> m) end.

Definition build_upstream_maps (upstream_vec : list Upstream) : UpstreamMap :=
  let index_map := imap (fun i v => calculate_id_with_index v i) upstream_vec in
  {| upstream_index_map := index_map; upstream_id_map := id_map_from 0 index_map ∅ |}.

Definition rr_next_index (self : LoadBalanceSticky) (upstreams : Reads) : LoadBalanceSticky * nat :=
  let '(counter, count) := fetch_and_advance (st_ptr self) in
  ({| st_ptr := counter; sticky_config := sticky_config self; upstream_maps := upstream_maps self |},
   pick_nth_available_index upstreams count).

Definition get_server_id_from_index (self : LoadBalanceSticky) (index : nat) : option str :=
  upstream_index_map (upstream_maps self) !! index.

Definition get_server_index_from_id (self : LoadBalanceSticky) (id : str) : option nat :=
  upstream_id_map (upstream_maps self) !! id.

Definition build_ptr_with_new_cookie (now : Z) (self : LoadBalanceSticky) (p : nat)
    : option PointerToUpstream :=
  upstream_id ← get_server_id_from_index self p;
  Some {| ptr := p;
          context := Some {| sticky_cookie := build_sticky_cookie (sticky_config self) now upstream_id |} |}.

(** [rr_next_index] followed by [build_ptr_with_new_cookie], the three fallbacks. *)
Definition next_with_new_cookie (now : Z) (self : LoadBalanceSticky) (upstreams : Reads)
    : option (LoadBalanceSticky * PointerToUpstream) :=
  let '(self, p) := rr_next_index self upstreams in
  r ← build_ptr_with_new_cookie now self p;
  Some (self, r).

(** The health of the cookie's upstream is read in a pass of its own. *)
Definition Sticky_get_ptr (now : Z) (self : LoadBalanceSticky) (req_info : option LoadBalanceContext)
    (upstreams : Reads) : option (LoadBalanceSticky * PointerToUpstream) :=
  match req_info with
  | None => next_with_new_cookie now self upstreams
  | Some ctx =>
      let server_id := cv_value (sc_value (sticky_cookie ctx)) in
      match get_server_index_from_id self server_id with
      | Some index =>
          if match upstreams 0%nat !! index with Some u => is_healthy u | None => false end
          then Some (self, {| ptr := index; context := None |})
          else next_with_new_cookie now self (fun i => upstreams (S i))
      | None => next_with_new_cookie now self upstreams
      end
  end.

Inductive LoadBalance :=
| FixToFirst
| Random
| RoundRobin (lb : LoadBalanceRoundRobin)
| StickyRoundRobin (lb : LoadBalanceSticky)
| PrimaryBackup.

Definition LoadBalance_default : LoadBalance := FixToFirst.

Definition get_context (now : Z) (rng : Z -> Z) (self : LoadBalance)
    (context_to_lb : option LoadBalanceContext) (upstreams : Reads)
    : option (LoadBalance * PointerToUpstream) :=
  match self with
  | FixToFirst => Some (self, {| ptr := first_available_index upstreams; context := None |})
  | RoundRobin lb => let '(lb, p) := RoundRobin_get_ptr lb upstreams in Some (RoundRobin lb, p)
  | Random => Some (self, Random_get_ptr rng upstreams)
  | StickyRoundRobin lb =>
      '(lb, p) ← Sticky_get_ptr now lb context_to_lb upstreams; Some (StickyRoundRobin lb, p)
  | PrimaryBackup => Some (self, PrimaryBackup_get_ptr upstreams)
  end.
End load_balance.
