(* ===== verification/Backend.v ===== *)
(** * Applications, routes and upstream candidates ([rpxy-lib/src/backend/])

    [PathManager] and [UpstreamCandidates] of [upstream.rs], the options of
    [upstream_opts.rs], [BackendApp] and [BackendAppManager] of [backend_main.rs].
    The hash maps are association lists in iteration order ([map_put]); a hash set of
    options is a list without duplicates. *)

From S2P Require Import Prelude RustStr RustNet HttpIface Globals HealthCheck StickyCookie.
From S2P Require Import NameExp LoadBalance.

(** ** Upstream options *)

Inductive UpstreamOption :=
| KeepOriginalHost
| SetUpstreamHost
| UpgradeInsecureRequests
| ForceHttp11Upstream
| ForceHttp2Upstream
| ForwardedHeader.

#[export] Instance UpstreamOption_eq_dec : EqDecision UpstreamOption.
Proof. solve_decision. Defined.

Definition UpstreamOption_try_from (val : str) : result RpxyError UpstreamOption :=
  if decide (val = B "keep_original_host") then Ok KeepOriginalHost
  else if decide (val = B "set_upstream_host") then Ok SetUpstreamHost
  else if decide (val = B "upgrade_insecure_requests") then Ok UpgradeInsecureRequests
  else if decide (val = B "force_http11_upstream") then Ok ForceHttp11Upstream
  else if decide (val = B "force_http2_upstream") then Ok ForceHttp2Upstream
  else if decide (val = B "forwarded_header") then Ok ForwardedHeader
  else Err UnsupportedUpstreamOption.

(** Load balancing options. *)
Definition FIX_TO_FIRST : str := B "none".
Definition ROUND_ROBIN : str := B "round_robin".
Definition RANDOM : str := B "random".
Definition STICKY_ROUND_ROBIN : str := B "sticky".
Definition PRIMARY_BACKUP : str := B "primary_backup".

Section backend.
Context `{HttpApi} `{CryptoApi}.

(** ** Upstream candidates *)

Record UpstreamCandidates := {
  uc_inner : list Upstream;
  uc_path : PathName;
  uc_replace_path : option PathName;
  uc_load_balance : LoadBalance;
  uc_options : list UpstreamOption;
  uc_health_check_config : option HealthCheckConfig
}.

(** The builder: a field is [None] until its setter is called. *)
Record UpstreamCandidatesBuilder := {
  b_inner : option (list Upstream);
  b_path : option PathName;
  b_replace_path : option (option PathName);
  b_load_balance : option LoadBalance;
  b_options : option (list UpstreamOption);
  b_health_check_config : option (option HealthCheckConfig)
}.

Definition builder_default : UpstreamCandidatesBuilder :=
  {| b_inner := None; b_path := None; b_replace_path := None; b_load_balance := None;
     b_options := None; b_health_check_config := None |}.

Definition builder_upstream (b : UpstreamCandidatesBuilder) (upstream_vec : list Upstream) :=
  {| b_inner := Some upstream_vec; b_path := b_path b; b_replace_path := b_replace_path b;
     b_load_balance := b_load_balance b; b_options := b_options b;
     b_health_check_config := b_health_check_config b |}.

Definition builder_path (b : UpstreamCandidatesBuilder) (v : option str) :=
  let path := match v with Some p => to_path_name p | None => to_path_name (B "/") end in
  {| b_inner := b_inner b; b_path := Some path; b_replace_path := b_replace_path b;
     b_load_balance := b_load_balance b; b_options := b_options b;
     b_health_check_config := b_health_check_config b |}.

Definition builder_replace_path (b : UpstreamCandidatesBuilder) (v : option str) :=
  {| b_inner := b_inner b; b_path := b_path b; b_replace_path := Some (to_path_name <$> v);
     b_load_balance := b_load_balance b; b_options := b_options b;
     b_health_check_config := b_health_check_config b |}.

(** The balancer of a configuration value. *)
Definition load_balance_of (v : option str) (upstream_vec : list Upstream) (server_name : str)
    (path_opt : option str) : result RpxyError LoadBalance :=
  match v with
  | None => Ok LoadBalance_default
  | Some x =>
      if decide (x = FIX_TO_FIRST) then Ok FixToFirst
      else if decide (x = RANDOM) then Ok Random
      else if decide (x = ROUND_ROBIN) then Ok (RoundRobin {| rr_ptr := 0 |})
      else if decide (x = STICKY_ROUND_ROBIN) then
        sticky_config ← StickyCookieConfig_try_new STICKY_COOKIE_NAME server_name path_opt
                          STICKY_COOKIE_DURATION_SECS;
        Ok (StickyRoundRobin {| st_ptr := 0; sticky_config := sticky_config;
                                upstream_maps := build_upstream_maps upstream_vec |})
      else if decide (x = PRIMARY_BACKUP) then Ok PrimaryBackup
      else Ok LoadBalance_default
  end.

Definition builder_load_balance (b : UpstreamCandidatesBuilder) (v : option str)
    (upstream_vec : list Upstream) (server_name : str) (path_opt : option str)
    : result RpxyError UpstreamCandidatesBuilder :=
  lb ← load_balance_of v upstream_vec server_name path_opt;
  Ok {| b_inner := b_inner b; b_path := b_path b; b_replace_path := b_replace_path b;
        b_load_balance := Some lb; b_options := b_options b;
        b_health_check_config := b_health_check_config b |}.

Definition builder_health_check_config (b : UpstreamCandidatesBuilder) (v : option HealthCheckConfig) :=
  {| b_inner := b_inner b; b_path := b_path b; b_replace_path := b_replace_path b;
     b_load_balance := b_load_balance b; b_options := b_options b;
     b_health_check_config := Some v |}.

(** Unknown options are dropped. *)
Definition builder_options (b : UpstreamCandidatesBuilder) (v : option (list str)) :=
  let opts :=
    match v with
    | None => []
    | Some opts => remove_dups (omap (fun s => ok (UpstreamOption_try_from s)) opts)
    end in
  {| b_inner := b_inner b; b_path := b_path b; b_replace_path := b_replace_path b;
     b_load_balance := b_load_balance b; b_options := Some opts;
     b_health_check_config := b_health_check_config b |}.

(** Every field but the upstreams has a default. *)
Definition builder_build (b : UpstreamCandidatesBuilder) : option UpstreamCandidates :=
  inner ← b_inner b;
  Some {| uc_inner := inner;
          uc_path := default {| pn_inner := [] |} (b_path b);
          uc_replace_path := default None (b_replace_path b);
          uc_load_balance := default LoadBalance_default (b_load_balance b);
          uc_options := default [] (b_options b);
          uc_health_check_config := default None (b_health_check_config b) |}.

(** [UpstreamCandidates::get]: the balancer advances, and its pointer is looked up. *)
Definition UpstreamCandidates_get (now : Z) (rng : Z -> Z) (self : UpstreamCandidates)
    (context_to_lb : option LoadBalanceContext) (upstreams : Reads)
    : option (UpstreamCandidates * (option Upstream * option LoadBalanceContext)) :=
  '(lb, p) ← get_context now rng (uc_load_balance self) context_to_lb upstreams;
  Some ({| uc_inner := uc_inner self; uc_path := uc_path self; uc_replace_path := uc_replace_path self;
           uc_load_balance := lb; uc_options := uc_options self;
           uc_health_check_config := uc_health_check_config self |},
        (uc_inner self !! ptr p, context p)).

(** ** Routes *)

Record PathManager := { pm_inner : list (PathName * UpstreamCandidates) }.

(** The upstreams of a route, with a fresh health state when a check is configured. *)
Definition upstream_vec_of (rpc : ReverseProxyConfig) : list Upstream :=
  map (fun v => let u := Upstream_from v in
         {| u_uri := u_uri u; u_host_header := u_host_header u;
            u_health := (fun _ => UpstreamHealth_new) <$> rp_health_check rpc |}) (rp_upstream rpc).

(** One iteration of the loop over the reverse proxy settings. *)
Definition add_route (app_config : AppConfig) (inner : list (PathName * UpstreamCandidates))
    (rpc : ReverseProxyConfig) : result RpxyError (list (PathName * UpstreamCandidates)) :=
  let upstream_vec := upstream_vec_of rpc in
  let b := builder_upstream builder_default upstream_vec in
  let b := builder_path b (rp_path rpc) in
  let b := builder_replace_path b (rp_replace_path rpc) in
  b ← builder_load_balance b (rp_load_balance rpc) upstream_vec (ac_server_name app_config) (rp_path rpc);
  let b := builder_options b (rp_upstream_options rpc) in
  let b := builder_health_check_config b (rp_health_check rpc) in
  elem ← ok_or (builder_build b) InvalidReverseProxyConfig;
  Ok (map_put (uc_path elem) elem inner).

Definition options_exclusive (elem : UpstreamCandidates) : bool :=
  negb (bool_decide (ForceHttp11Upstream ∈ uc_options elem)
        && bool_decide (ForceHttp2Upstream ∈ uc_options elem)).

Definition PathManager_try_from (app_config : AppConfig) : result RpxyError PathManager :=
  inner ← result_foldM (add_route app_config) (ac_reverse_proxy app_config) [];
  if 2 <=? count_if (fun rpc => bool_decide (rp_path rpc = None)) (ac_reverse_proxy app_config)
  then Err InvalidReverseProxyConfig
  else if negb (forallb (fun e => options_exclusive e.2) inner) then Err InvalidUpstreamOptionSetting
  else Ok {| pm_inner := inner |}.

(** The filter of [PathManager::get]: a prefix that ends at a path boundary. *)
Definition route_matches (path_bytes : str) (route : PathName) : bool :=
  let route_bytes := pn_inner route in
  starts_with route_bytes path_bytes
  && ((length route_bytes =? 1)%nat
      || match path_bytes !! length route_bytes with None => true | Some p => p =? SLASH end).

Definition PathManager_get (self : PathManager) (path_str : str) : option UpstreamCandidates :=
  snd <$> max_by_key (fun e => PathName_len e.1)
            (List.filter (fun e => route_matches path_str e.1) (pm_inner self)).

Definition iter_candidates (self : PathManager) : list (PathName * UpstreamCandidates) := pm_inner self.

(** ** Applications *)

Record BackendApp := {
  ba_app_name : str;
  ba_server_name : ServerName;
  path_manager : PathManager;
  ba_https_redirection : option bool;
  ba_mutual_tls : option bool
}.

Record BackendAppManager := {
  apps : list (ServerName * BackendApp);
  default_server_name : option ServerName
}.

(** The builder sets every required field, so building cannot fail. *)
Definition BackendApp_try_from (app_config : AppConfig) : result RpxyError BackendApp :=
  pm ← PathManager_try_from app_config;
  Ok {| ba_app_name := ac_app_name app_config;
        ba_server_name := to_server_name (ac_server_name app_config);
        path_manager := pm;
        ba_https_redirection := https_redirection <$> ac_tls app_config;
        ba_mutual_tls := mutual_tls <$> ac_tls app_config |}.

Definition add_app (m : list (ServerName * BackendApp)) (app_config : AppConfig)
    : result RpxyError (list (ServerName * BackendApp)) :=
  backend ← BackendApp_try_from app_config;
  Ok (map_put (to_server_name (ac_server_name app_config)) backend m).

Definition BackendAppManager_try_from (config_list : AppConfigList) : result RpxyError BackendAppManager :=
  m ← result_foldM add_app (acl_inner config_list) [];
  match acl_default_app config_list with
  | None => Ok {| apps := m; default_server_name := None |}
  | Some default_app_name =>
      let names := map (fun e => ba_server_name e.2)
                     (List.filter (fun e => bool_decide (ba_app_name e.2 = default_app_name)) m) in
      Ok {| apps := m; default_server_name := head names |}
  end.
End backend.
