(* ===== verification/Config.v ===== *)
(** * The configuration file ([rpxy-bin/src/config/toml.rs])

    From the deserialized TOML to the configuration of the proxy and of the
    applications, with every check on the way. Deserialization is the [toml] and [serde]
    crates'. A hash set of addresses is iterated in an order that [HashOrder] leaves
    open. *)

From S2P Require Import Prelude RustStr RustNet HttpIface Globals TrustedProxies StickyCookie NameExp LoadBalance Backend.

(** ** Values of the file *)

Inductive OneOrMany :=
| One (s : str)
| Many (v : list str).

Definition into_vec (self : OneOrMany) : list str :=
  match self with One s => [s] | Many v => v end.

Inductive BodySizeValue :=
| Integer (n : Z)
| String_ (s : str).

(** The reasons for which a configuration is refused. *)
Inductive ConfigError :=
| BodySizeNegative
| BodySizeOverflow
| BodySizeEmpty
| BodySizeFormat
| RenamedHttpsRedirectionPort
| NoListenPort
| SameListenPort
| PublicPortWithoutTls
| EmptyListenAddress
| InvalidListenAddress (addr : str)
| WildcardAmongAddresses
| InvalidTrustedProxy (e : TrustedProxyError)
| EmptyPpTrustedProxies
| InvalidPpTrustedProxy (s : str)
| MissingApps
| NoApps
| PlaintextOnlyApp
| RedirectionWithoutBothPorts
| MissingServerName
| MissingReverseProxy
| InvalidServerName (s : str)
| NoUpstream
| InvalidUpstreamUri
| HealthCheckPathRequired
| HealthCheckPathNotAbsolute
| UnknownHealthCheckType (s : str)
| HealthCheckTimeoutTooLong
| HealthCheckThresholdZero
| PrimaryBackupNeedsHealthCheck
| TlsCertPaths
| StickyComponent (e : RpxyError)
| StickySecretRequired
| StickySecretInvalid (e : RpxyError)
| UnwrapFailed.

(** ** Body sizes *)

(** The multiplier of a suffix. *)
Definition suffix_multiplier (b : byte) : option Z :=
  if (b =? 107) || (b =? 75) then Some 1024
  else if (b =? 109) || (b =? 77) then Some (1024 * 1024)
  else if (b =? 103) || (b =? 71) then Some (1024 * 1024 * 1024)
  else None.

(** The last byte, when it is one of [kKmMgG], and what precedes it. *)
Definition strip_suffix_kmg (s : str) : option (str * Z) :=
  match last s with
  | Some b => match suffix_multiplier b with
              | Some m => Some (take (pred (length s)) s, m)
              | None => None
              end
  | None => None
  end.

Definition parse_body_size_string (s : str) : result ConfigError (option Z) :=
  let s := trim s in
  _ ← ensure (negb (length s =? 0)%nat) BodySizeEmpty;
  if eq_ignore_ascii_case s (B "unlimited") then Ok None
  else
    let '(digits, multiplier) :=
      match strip_suffix_kmg s with
      | Some (d, m) => (trim d, m)
      | None => (s, 1)
      end in
    _ ← ensure (negb (length digits =? 0)%nat && forallb is_ascii_digit digits) BodySizeFormat;
    n ← ok_or (parse_uint u64_max digits) BodySizeFormat;
    if n =? 0 then Ok None
    else
      bytes ← ok_or (if n * multiplier <=? u64_max then Some (n * multiplier) else None) BodySizeOverflow;
      Ok (Some bytes).

Definition parse_body_size (value : BodySizeValue) : result ConfigError (option Z) :=
  match value with
  | Integer n =>
      _ ← ensure (0 <=? n) BodySizeNegative;
      if n =? 0 then Ok None
      else if n <=? usize_max then Ok (Some n) else Err BodySizeOverflow
  | String_ s => parse_body_size_string s
  end.

(** ** Server names *)

Definition label_ok (label : str) : bool :=
  match head label, last label with
  | Some first, Some last =>
      (length label <=? 63)%nat
      && is_ascii_alphanumeric first && is_ascii_alphanumeric last
      && forallb (fun b => is_ascii_alphanumeric b || (b =? HYPHEN)) label
  | _, _ => false
  end.

Definition validate_server_name (server_name : str) : result ConfigError () :=
  if (length server_name =? 0)%nat || (253 <? length server_name)%nat then Err (InvalidServerName server_name)
  else if negb (is_ascii server_name) then Err (InvalidServerName server_name)
  else if forallb label_ok (split_char DOT server_name) then Ok () else Err (InvalidServerName server_name).

(** ** Listening sockets *)

(** The order in which a hash set yields its elements. *)
Class HashOrder := {
  iteration : list IpAddr -> list IpAddr;
  iteration_perm : forall l, iteration l ≡ₚ l
}.

Definition is_unspecified (ip : IpAddr) : bool :=
  match ip with
  | V4 a b c d => (a =? 0) && (b =? 0) && (c =? 0) && (d =? 0)
  | V6 s => forallb (fun g => g =? 0) s
  end.

Definition DEFAULT_LISTEN_ADDRESS_V4 : str := B "0.0.0.0".
Definition DEFAULT_LISTEN_ADDRESS_V6 : str := B "::".
Definition CACHE_DIR : str := B "./cache".

(** [addr.strip_prefix('[').and_then(|s| s.strip_suffix(']')).unwrap_or(addr)] *)
Definition strip_brackets (addr : str) : str :=
  default addr (strip_prefix [LBRACKET] addr ≫= strip_suffix [RBRACKET]).

(** One family: the set of parsed addresses, with no wildcard among several. *)
Definition listen_family `{HashOrder} (parse : str -> option IpAddr) (addrs : list str)
    : result ConfigError (list IpAddr) :=
  _ ← ensure (negb (length addrs =? 0)%nat) EmptyListenAddress;
  ips ← result_mapM (fun a => ok_or (parse a) (InvalidListenAddress a)) addrs;
  let ips := remove_dups ips in
  _ ← ensure (negb ((1 <? length ips)%nat && existsb is_unspecified ips)) WildcardAmongAddresses;
  Ok (iteration ips).

Definition build_listen_sockets `{HashOrder} (listen_addresses_v4 listen_addresses_v6 : option (list str))
    (listen_ipv6 : bool) (http_port https_port : option Z) : result ConfigError (list SocketAddr) :=
  v4 ← match listen_addresses_v4 with
       | Some addrs => listen_family parse_ipv4 addrs
       | None => ip ← ok_or (parse_ip DEFAULT_LISTEN_ADDRESS_V4) UnwrapFailed; Ok [ip]
       end;
  v6 ← match listen_addresses_v6 with
       | Some addrs => listen_family (fun a => parse_ipv6 (strip_brackets a)) addrs
       | None =>
           if listen_ipv6 then ip ← ok_or (parse_ip DEFAULT_LISTEN_ADDRESS_V6) UnwrapFailed; Ok [ip]
           else Ok []
       end;
  let sockets ip := map (Build_SocketAddr ip) (option_list http_port ++ option_list https_port) in
  Ok (concat (map sockets (v4 ++ v6))).

(** ** Sections of the file *)

Record Http3Option := {
  h3o_alt_svc_max_age : option Z;
  h3o_request_max_body_size : option Z;
  h3o_max_concurrent_connections : option Z;
  h3o_max_concurrent_bidistream : option Z;
  h3o_max_concurrent_unistream : option Z;
  h3o_max_idle_timeout : option Z
}.

Record CacheOption := {
  co_cache_dir : option str;
  co_max_cache_entry : option Z;
  co_max_cache_each_size : option Z;
  co_max_cache_each_size_on_memory : option Z
}.

Record AcmeOption := {
  ao_dir_url : option str;
  ao_email : str;
  ao_registry_path : option str
}.

Record TcpRecvProxyProtocolOption := {
  ppo_trusted_proxies : list str;
  ppo_timeout : option Z
}.

Record Experimental := {
  ex_h3 : option Http3Option;
  ex_cache : option CacheOption;
  ex_acme : option AcmeOption;
  ex_ignore_sni_consistency : option bool;
  ex_connection_handling_timeout : option Z;
  ex_tcp_recv_proxy_protocol : option TcpRecvProxyProtocolOption
}.

Record TlsOption := {
  to_tls_cert_path : option str;
  to_tls_cert_key_path : option str;
  to_https_redirection : option bool;
  to_client_ca_cert_path : option str;
  to_acme : option bool
}.

Record HealthCheckDetailOption := {
  hd_check_type : option str;
  hd_interval : option Z;
  hd_timeout : option Z;
  hd_unhealthy_threshold : option Z;
  hd_healthy_threshold : option Z;
  hd_path : option str;
  hd_expected_status : option Z
}.

Inductive HealthCheckOption :=
| Enabled (b : bool)
| ConfigTable (detail : HealthCheckDetailOption).

Record UpstreamParams := { up_location : str; up_tls : option bool }.

Record ReverseProxyOption := {
  ro_path : option str;
  ro_replace_path : option str;
  ro_upstream : list UpstreamParams;
  ro_upstream_options : option (list str);
  ro_load_balance : option str;
  ro_health_check : option HealthCheckOption
}.

Record Application := {
  ap_server_name : option str;
  ap_reverse_proxy : option (list ReverseProxyOption);
  ap_tls : option TlsOption
}.

(** The hash map of applications, in iteration order. *)
Definition Apps : Type := list (str * Application).

Record ConfigToml := {
  ct_listen_port : option Z;
  ct_listen_port_tls : option Z;
  ct_listen_address_v4 : option OneOrMany;
  ct_listen_address_v6 : option OneOrMany;
  ct_listen_ipv6 : option bool;
  ct_public_https_port : option Z;
  ct_https_redirection_port : option Z;
  ct_tcp_listen_backlog : option Z;
  ct_max_concurrent_streams : option Z;
  ct_max_clients : option Z;
  ct_max_clients_per_ip : option Z;
  ct_sticky_cookie_secret : option str;
  ct_trusted_forwarded_proxies : option OneOrMany;
  ct_redact_query_in_access_log : option bool;
  ct_request_max_body_size : option BodySizeValue;
  ct_apps : option Apps;
  ct_default_app : option str;
  ct_experimental : option Experimental
}.

(** ** The proxy *)

(** Seconds, zero for no limit. *)
Definition timeout_secs (x : Z) : option Duration := if x =? 0 then None else Some (from_secs x).

Section proxy.
Context `{IpNetApi} `{!EqDecision IpNet} `{HashOrder}.

Definition build_pp_config (pp : TcpRecvProxyProtocolOption) : result ConfigError TcpRecvProxyProtocolConfig :=
  _ ← ensure (negb (length (ppo_trusted_proxies pp) =? 0)%nat) EmptyPpTrustedProxies;
  nets ← result_mapM (fun s => ok_or (net_parse s) (InvalidPpTrustedProxy s)) (ppo_trusted_proxies pp);
  Ok {| pp_trusted_proxies := nets;
        pp_timeout :=
          match ppo_timeout pp with
          | None => from_millis PROXY_PROTOCOL_TIMEOUT_MSEC
          | Some ms => from_millis ms
          end |}.

(** [TryInto<ProxyConfig> for &ConfigToml]; the fields in the order of the record. *)
Definition ProxyConfig_try_from (self : ConfigToml) : result ConfigError ProxyConfig :=
  _ ← ensure (bool_decide (ct_https_redirection_port self = None)) RenamedHttpsRedirectionPort;
  let d := ProxyConfig_default in
  let http := ct_listen_port self in
  let https := ct_listen_port_tls self in
  let public := match ct_public_https_port self with Some p => Some p | None => https end in
  _ ← ensure (bool_decide (is_Some http) || bool_decide (is_Some https)) NoListenPort;
  _ ← ensure (negb (bool_decide (is_Some http) && bool_decide (http = https))) SameListenPort;
  _ ← ensure (bool_decide (ct_public_https_port self = None) || bool_decide (is_Some https)) PublicPortWithoutTls;
  sockets ← build_listen_sockets (into_vec <$> ct_listen_address_v4 self) (into_vec <$> ct_listen_address_v6 self)
              (default false (ct_listen_ipv6 self)) http https;
  trusted ← match ct_trusted_forwarded_proxies self with
            | Some entries => cidrs <$> map_err InvalidTrustedProxy (resolve_trusted_proxy_entries (into_vec entries))
            | None => Ok (trusted_forwarded_proxies d)
            end;
  body ← match ct_request_max_body_size self with
         | Some v => parse_body_size v
         | None => Ok (request_max_body_size d)
         end;
  let exp := ct_experimental self in
  let h3 := exp ≫= ex_h3 in
  let cache := exp ≫= ex_cache in
  pp ← match exp ≫= ex_tcp_recv_proxy_protocol with
       | Some pp => Some <$> build_pp_config pp
       | None => Ok (tcp_recv_proxy_protocol d)
       end;
  Ok {|
    listen_sockets := sockets;
    http_port := http;
    https_port := https;
    public_https_port := public;
    tcp_listen_backlog := default (tcp_listen_backlog d) (ct_tcp_listen_backlog self);
    proxy_idle_timeout := proxy_idle_timeout d;
    upstream_idle_timeout := upstream_idle_timeout d;
    max_clients := default (max_clients d) (ct_max_clients self);
    max_clients_per_ip := default (max_clients_per_ip d) (ct_max_clients_per_ip self);
    max_concurrent_streams := default (max_concurrent_streams d) (ct_max_concurrent_streams self);
    keepalive := keepalive d;
    redact_query_in_access_log := default (redact_query_in_access_log d) (ct_redact_query_in_access_log self);
    sni_consistency := from_option negb (sni_consistency d) (exp ≫= ex_ignore_sni_consistency);
    trusted_forwarded_proxies := trusted;
    tcp_recv_proxy_protocol := pp;
    connection_handling_timeout :=
      from_option timeout_secs (connection_handling_timeout d) (exp ≫= ex_connection_handling_timeout);
    request_max_body_size := body;
    cache_enabled := from_option (fun _ => true) (cache_enabled d) cache;
    cache_dir := from_option (fun c => Some (default CACHE_DIR (co_cache_dir c))) (cache_dir d) cache;
    cache_max_entry := default (cache_max_entry d) (cache ≫= co_max_cache_entry);
    cache_max_each_size := default (cache_max_each_size d) (cache ≫= co_max_cache_each_size);
    cache_max_each_size_on_memory :=
      default (cache_max_each_size_on_memory d) (cache ≫= co_max_cache_each_size_on_memory);
    http3 := from_option (fun _ => true) (http3 d) h3;
    h3_alt_svc_max_age := default (h3_alt_svc_max_age d) (h3 ≫= h3o_alt_svc_max_age);
    h3_request_max_body_size :=
      from_option Some (h3_request_max_body_size d) (h3 ≫= h3o_request_max_body_size);
    h3_max_concurrent_bidistream := default (h3_max_concurrent_bidistream d) (h3 ≫= h3o_max_concurrent_bidistream);
    h3_max_concurrent_unistream := default (h3_max_concurrent_unistream d) (h3 ≫= h3o_max_concurrent_unistream);
    h3_max_concurrent_connections :=
      default (h3_max_concurrent_connections d) (h3 ≫= h3o_max_concurrent_connections);
    h3_max_idle_timeout := from_option timeout_secs (h3_max_idle_timeout d) (h3 ≫= h3o_max_idle_timeout)
  |}.
End proxy.

(** ** Applications *)

(** [build_health_check_config] *)
Definition build_health_check_config (opt : HealthCheckOption) : result ConfigError (option HealthCheckConfig) :=
  match opt with
  | Enabled false => Ok None
  | Enabled true =>
      Ok (Some {| check_type := Tcp;
                  hc_interval := from_secs DEFAULT_INTERVAL_SEC;
                  hc_timeout := from_secs DEFAULT_TIMEOUT_SEC;
                  unhealthy_threshold := DEFAULT_UNHEALTHY_THRESHOLD;
                  healthy_threshold := DEFAULT_HEALTHY_THRESHOLD |})
  | ConfigTable detail =>
      let check_type_str := default (B "tcp") (hd_check_type detail) in
      check_type ←
        (if bool_decide (check_type_str = B "tcp") then Ok Tcp
         else if bool_decide (check_type_str = B "http") then
           path ← ok_or (hd_path detail) HealthCheckPathRequired;
           _ ← ensure (starts_with [SLASH] path) HealthCheckPathNotAbsolute;
           Ok (Http path (default DEFAULT_EXPECTED_STATUS (hd_expected_status detail)))
         else Err (UnknownHealthCheckType check_type_str));
      let interval := from_secs (default DEFAULT_INTERVAL_SEC (hd_interval detail)) in
      let timeout := from_secs (default DEFAULT_TIMEOUT_SEC (hd_timeout detail)) in
      _ ← ensure (timeout <? interval) HealthCheckTimeoutTooLong;
      let unhealthy := default DEFAULT_UNHEALTHY_THRESHOLD (hd_unhealthy_threshold detail) in
      let healthy := default DEFAULT_HEALTHY_THRESHOLD (hd_healthy_threshold detail) in
      _ ← ensure (1 <=? unhealthy) HealthCheckThresholdZero;
      _ ← ensure (1 <=? healthy) HealthCheckThresholdZero;
      Ok (Some {| check_type := check_type;
                  hc_interval := interval;
                  hc_timeout := timeout;
                  unhealthy_threshold := unhealthy;
                  healthy_threshold := healthy |})
  end.

Section apps.
Context `{HttpApi}.

Definition UpstreamUri_try_from (self : UpstreamParams) : result ConfigError UpstreamUri :=
  let scheme := match up_tls self with Some true => B "https" | _ => B "http" end in
  let location := scheme ++ B "://" ++ up_location self in
  uri ← ok_or (uri_parse location) InvalidUpstreamUri;
  Ok {| uu_inner := uri |}.

Definition validate_lb_health_check (load_balance : option str) (health_check : option HealthCheckConfig)
    : result ConfigError () :=
  if bool_decide (load_balance = Some PRIMARY_BACKUP) && bool_decide (health_check = None)
  then Err PrimaryBackupNeedsHealthCheck else Ok ().

(** The body of the loop over [reverse_proxy]. *)
Definition reverse_proxy_of (rpo : ReverseProxyOption) : result ConfigError ReverseProxyConfig :=
  if (length (ro_upstream rpo) =? 0)%nat then Err NoUpstream
  else
    let upstream_res := map (fun v => ok (UpstreamUri_try_from v)) (ro_upstream rpo) in
    if negb (forallb (fun v => bool_decide (is_Some v)) upstream_res) then Err InvalidUpstreamUri
    else
      let upstream := omap id upstream_res in
      health_check ← match ro_health_check rpo with
                     | Some hc => build_health_check_config hc
                     | None => Ok None
                     end;
      Ok {| rp_path := ro_path rpo;
            rp_replace_path := ro_replace_path rpo;
            rp_upstream := upstream;
            rp_upstream_options := ro_upstream_options rpo;
            rp_load_balance := ro_load_balance rpo;
            rp_health_check := health_check |}.

(** [TryInto<Vec<ReverseProxyConfig>> for &Application] *)
Definition reverse_proxies_of (self : Application) : result ConfigError (list ReverseProxyConfig) :=
  _ ← ok_or (ap_server_name self) MissingServerName;
  rp_settings ← ok_or (ap_reverse_proxy self) MissingReverseProxy;
  result_mapM reverse_proxy_of rp_settings.

Definition tls_config_of (tls : TlsOption) : result ConfigError TlsConfig :=
  let acme := default false (to_acme tls) in
  _ ← (if acme
       then ensure (bool_decide (to_tls_cert_key_path tls = None) && bool_decide (to_tls_cert_path tls = None)) TlsCertPaths
       else ensure (bool_decide (is_Some (to_tls_cert_key_path tls)) && bool_decide (is_Some (to_tls_cert_path tls))) TlsCertPaths);
  Ok {| mutual_tls := bool_decide (is_Some (to_client_ca_cert_path tls));
        https_redirection := default true (to_https_redirection tls);
        acme := acme |}.

Definition build_app_config (self : Application) (app_name : str) : result ConfigError AppConfig :=
  server_name ← ok_or (ap_server_name self) MissingServerName;
  _ ← validate_server_name server_name;
  reverse_proxy ← reverse_proxies_of self;
  _ ← result_mapM (fun rpc => validate_lb_health_check (rp_load_balance rpc) (rp_health_check rpc)) reverse_proxy;
  tls ← match ap_tls self with
        | Some tls => Some <$> tls_config_of tls
        | None => Ok None
        end;
  Ok {| ac_app_name := app_name;
        ac_server_name := server_name;
        ac_reverse_proxy := reverse_proxy;
        ac_tls := tls |}.
End apps.

Section settings.
Context `{HttpApi} `{IpNetApi} `{!EqDecision IpNet} `{HashOrder}.

Definition build_app (app : str * Application) : result ConfigError AppConfig :=
  let '(app_name, app) := app in
  _ ← ok_or (ap_server_name app) MissingServerName;
  build_app_config app (to_ascii_lowercase app_name).

Definition validate_and_build_settings (self : ConfigToml) : result ConfigError (ProxyConfig * AppConfigList) :=
  proxy_config ← ProxyConfig_try_from self;
  apps ← ok_or (ct_apps self) MissingApps;
  _ ← ensure (negb (length apps =? 0)%nat) NoApps;
  let all_apps_have_tls := forallb (fun a : str * Application => bool_decide (is_Some (ap_tls (snd a)))) apps in
  let all_apps_no_https_redirection :=
    forallb (fun a : str * Application =>
      match ap_tls (snd a) with Some tls => bool_decide (to_https_redirection tls = None) | None => true end) apps in
  _ ← (if bool_decide (http_port proxy_config = None) then ensure all_apps_have_tls PlaintextOnlyApp else Ok ());
  _ ← (if bool_decide (is_Some (public_https_port proxy_config))
       then ensure (bool_decide (is_Some (https_port proxy_config))) PublicPortWithoutTls else Ok ());
  _ ← (if negb (bool_decide (is_Some (https_port proxy_config)) && bool_decide (is_Some (http_port proxy_config)))
       then ensure all_apps_no_https_redirection RedirectionWithoutBothPorts else Ok ());
  inner ← result_mapM build_app apps;
  Ok (proxy_config,
      {| acl_inner := inner; acl_default_app := to_ascii_lowercase <$> ct_default_app self |}).
End settings.

(** ** The sticky-cookie secret *)

Section secret.
Context `{CryptoApi}.

(** One [reverse_proxy] entry of an application. *)
Definition check_sticky_route (server_name : str) (uses_sticky : bool) (rpo : ReverseProxyOption)
    : result ConfigError bool :=
  if bool_decide (ro_load_balance rpo = Some STICKY_ROUND_ROBIN) then
    _ ← map_err StickyComponent (validate_sticky_cookie_aad_component server_name);
    _ ← map_err StickyComponent (validate_sticky_cookie_aad_component (default [SLASH] (ro_path rpo)));
    Ok true
  else Ok uses_sticky.

Definition check_sticky_app (uses_sticky : bool) (app : str * Application) : result ConfigError bool :=
  server_name ← ok_or (ap_server_name (snd app)) MissingServerName;
  reverse_proxy ← ok_or (ap_reverse_proxy (snd app)) MissingReverseProxy;
  result_foldM (check_sticky_route server_name) reverse_proxy uses_sticky.

Definition validate_and_build_sticky_cookie_secret (self : ConfigToml) : result ConfigError (option str) :=
  apps ← ok_or (ct_apps self) MissingApps;
  uses_sticky ← result_foldM check_sticky_app apps false;
  if negb uses_sticky then Ok None
  else
    secret ← ok_or (ct_sticky_cookie_secret self) StickySecretRequired;
    Some <$> map_err StickySecretInvalid (try_from_config_value secret).
End secret.
