(* ===== verification/ConfigProps.v ===== *)
(** * Properties of the configuration

    Body sizes, server names, trusted proxies and listening sockets, and what a
    configuration that is accepted guarantees to the rest of the program. *)

From S2P Require Import Prelude RustStr RustNet HttpIface Globals TrustedProxies StickyCookie NameExp LoadBalance Backend.
From S2P Require Import ForwardedSyntax Forwarding CryptoInstance Config.

(** ** Body sizes *)

(** The suffixes, with the unit each stands for. *)
Definition size_suffixes : list (str * Z) :=
  [([], 1); (B "k", 2 ^ 10); (B "K", 2 ^ 10); (B "m", 2 ^ 20); (B "M", 2 ^ 20); (B "g", 2 ^ 30); (B "G", 2 ^ 30)].

Lemma strip_suffix_kmg_Some s d m :
  strip_suffix_kmg s = Some (d, m) -> exists suf, (suf, m) ∈ size_suffixes /\ s = d ++ suf.
Proof.
  unfold strip_suffix_kmg. destruct (last s) as [b|] eqn:El; [|done].
  apply last_Some in El as [l ->]. destruct (suffix_multiplier b) as [u|] eqn:Em; [|done].
  rewrite length_app, Nat.add_comm. cbn [length Nat.add pred]. rewrite take_app_length.
  intros [= <- <-]. exists [b]. split; [|done].
  unfold suffix_multiplier in Em.
  destruct ((b =? 107) || (b =? 75)) eqn:E; [|clear E; destruct ((b =? 109) || (b =? 77)) eqn:E;
    [|clear E; destruct ((b =? 103) || (b =? 71)) eqn:E; [|done]]];
    injection Em as <-; apply orb_prop in E as [ ->%Z.eqb_eq | ->%Z.eqb_eq]; by apply (bool_decide_unpack _).
Qed.

Lemma strip_suffix_kmg_app s suf m :
  (suf, m) ∈ size_suffixes -> suf <> [] -> strip_suffix_kmg (s ++ suf) = Some (s, m).
Proof.
  intros Hin Hne. unfold strip_suffix_kmg.
  repeat (apply elem_of_cons in Hin as [[= -> ->]|Hin]); try done;
    try (by apply elem_of_nil in Hin);
    (cbn [B]; rewrite last_snoc, length_app, Nat.add_comm; cbn [length Nat.add pred];
     rewrite take_app_length; reflexivity).
Qed.

Lemma size_suffix_nil m : ([], m) ∈ size_suffixes -> m = 1.
Proof.
  intros [[= ->]|Hin]%elem_of_cons; [done|].
  repeat (apply elem_of_cons in Hin as [[= ?]|Hin]); by apply elem_of_nil in Hin.
Qed.

(** The value a number with a unit stands for, or why it is refused. *)
Definition size_value (n m : Z) : result ConfigError (option Z) :=
  if u64_max <? n then Err BodySizeFormat
  else if n =? 0 then Ok None
  else if u64_max <? n * m then Err BodySizeOverflow
  else Ok (Some (n * m)).

Lemma parse_uint_digits max s :
  s <> [] -> forallb is_ascii_digit s = true ->
  parse_uint max s = if digits_value 10 s <=? max then Some (digits_value 10 s) else None.
Proof.
  intros Hne Hd. unfold parse_uint.
  assert (match s with b :: r => if b =? PLUS then r else s | [] => s end = s) as ->.
  { destruct s as [|b r]; [done|]. cbn in Hd. apply andb_prop in Hd as [Hb _].
    unfold is_ascii_digit in Hb. destruct (Z.eqb_spec b PLUS); [lia|done]. }
  rewrite bool_decide_false by done. cbn [negb andb].
  replace (forallb (is_digit 10) s) with true; [by destruct (_ <=? _)|].
  symmetry. eapply forallb_weaken; [|exact Hd]. intros b. by rewrite is_digit_ascii.
Qed.

Lemma digits_not_unlimited s t :
  s <> [] -> forallb is_ascii_digit s = true -> eq_ignore_ascii_case (s ++ t) (B "unlimited") = false.
Proof.
  intros Hne Hd. destruct s as [|b s]; [done|]. cbn in Hd. apply andb_prop in Hd as [Hb _].
  apply bool_decide_eq_false. intros E%(f_equal head). change (Some (lower_byte b) = Some 117) in E.
  injection E as E. unfold lower_byte, is_ascii_uppercase, is_ascii_digit in *.
  destruct ((65 <=? b) && (b <=? 90)) eqn:?; lia.
Qed.

(** A trimmed value with its unit. *)
Lemma parse_body_size_parts s ds gap suf m :
  trim s = ds ++ gap ++ suf -> ds <> [] -> forallb is_ascii_digit ds = true -> forallb ws1 gap = true ->
  (suf, m) ∈ size_suffixes -> (suf = [] -> gap = []) ->
  parse_body_size_string s = size_value (digits_value 10 ds) m.
Proof.
  intros Et Hne Hd Hg Hsuf Hgap. unfold parse_body_size_string. rewrite Et.
  assert (exists b r, ds ++ gap ++ suf = b :: r) as (b & r & Eb) by (destruct ds; [done|by eexists _, _]).
  rewrite Eb at 1. cbn [length Nat.eqb negb ensure mbind result_bind].
  rewrite digits_not_unlimited by done.
  assert (forallb graphic ds = true) as Hgr.
  { eapply forallb_weaken; [|exact Hd]. unfold is_ascii_digit, graphic. intros. lia. }
  assert (match strip_suffix_kmg (ds ++ gap ++ suf) with Some (d, m) => (trim d, m) | None => (ds ++ gap ++ suf, 1) end
    = (ds, m)) as ->.
  { destruct (decide (suf = [])) as [->|Hs].
    - rewrite (Hgap eq_refl), !app_nil_r, (size_suffix_nil m Hsuf).
      destruct (strip_suffix_kmg ds) as [[d m']|] eqn:Es; [|done]. exfalso.
      unfold strip_suffix_kmg in Es. destruct (last ds) as [c|] eqn:El; [|done].
      apply last_Some in El as [l ->]. apply all_app_inv in Hd as [_ Hc]. cbn in Hc.
      unfold is_ascii_digit, suffix_multiplier in *.
      repeat (destruct (_ || _) eqn:? in Es; [lia|]). done.
    - rewrite app_assoc, (strip_suffix_kmg_app _ _ m) by done. f_equal. by apply (trim_word []). }
  replace (length ds =? 0)%nat with false by (by destruct ds). rewrite Hd. cbn [negb andb ensure mbind result_bind].
  rewrite parse_uint_digits by done. unfold size_value. pose proof (digits_value_nonneg 10 ds).
  rewrite (Z.ltb_antisym _ u64_max), (Z.ltb_antisym (digits_value 10 ds * m)).
  destruct (_ <=? u64_max); [|done]. cbn. destruct (digits_value 10 ds =? 0); [done|]. by destruct (_ * m <=? u64_max).
Qed.

Lemma digits_graphic s : forallb is_ascii_digit s = true -> forallb graphic s = true.
Proof. apply forallb_weaken. unfold is_ascii_digit, graphic. intros. lia. Qed.

Lemma parse_body_size_Some s k :
  parse_body_size_string s = Ok (Some k) ->
  exists d suf m, trim s = d ++ suf /\ (suf, m) ∈ size_suffixes /\
    trim d <> [] /\ forallb is_ascii_digit (trim d) = true /\
    size_value (digits_value 10 (trim d)) m = Ok (Some k).
Proof.
  unfold parse_body_size_string. intros Hp.
  apply result_bind_Ok in Hp as (_ & _ & Hp).
  destruct (eq_ignore_ascii_case _ _); [done|].
  assert (exists d suf m ds, trim s = d ++ suf /\ (suf, m) ∈ size_suffixes /\
    match strip_suffix_kmg (trim s) with Some (d, m) => (trim d, m) | None => (trim s, 1) end = (ds, m) /\
    (forallb graphic ds = true -> ds = trim d)) as (d & suf & m & ds & Es & Hsuf & Em & Hds).
  { destruct (strip_suffix_kmg (trim s)) as [[d m]|] eqn:Ek.
    - apply strip_suffix_kmg_Some in Ek as (suf & Hsuf & E). by exists d, suf, m, (trim d).
    - exists (trim s), [], 1, (trim s). rewrite app_nil_r. split_and!; [done|by left|done|].
      intros Hg. by rewrite (trim_all_graphic (trim s)). }
  rewrite Em in Hp. apply result_bind_Ok in Hp as ([] & [He Hd]%ensure_Ok%andb_prop & Hp).
  pose proof (Hds (digits_graphic _ Hd)) as ->. exists d, suf, m.
  assert (trim d <> []) as Hne by (by destruct (trim d)).
  rewrite parse_uint_digits in Hp by done. split_and!; try done. unfold size_value.
  rewrite (Z.ltb_antisym _ u64_max), (Z.ltb_antisym (digits_value 10 (trim d) * m)).
  destruct (digits_value 10 (trim d) <=? u64_max); [|done]. cbn in Hp |- *.
  destruct (_ =? 0); [done|]. by destruct (_ * m <=? u64_max).
Qed.

Lemma size_value_Some n m k : 0 <= n -> size_value n m = Ok (Some k) -> 0 < m -> 0 < k <= u64_max /\ k = n * m.
Proof.
  unfold size_value. intros Hn Hs Hm. destruct (Z.ltb_spec u64_max n); [done|].
  destruct (Z.eqb_spec n 0); [done|]. destruct (Z.ltb_spec u64_max (n * m)); [done|].
  injection Hs as <-. nia.
Qed.

Lemma size_suffix_pos suf m : (suf, m) ∈ size_suffixes -> 0 < m /\ forallb graphic suf = true.
Proof.
  assert (Forall (fun p => 0 < snd p /\ forallb graphic (fst p) = true) size_suffixes) as Hall
    by (repeat constructor).
  rewrite Forall_forall in Hall. intros Hin. apply (Hall (suf, m) Hin).
Qed.

(** The text of a size with white space around its parts. *)
Lemma trim_size w1 ds w2 suf m w3 :
  forallb ws1 w1 = true -> forallb ws1 w3 = true -> ds <> [] -> forallb graphic ds = true ->
  (suf, m) ∈ size_suffixes -> suf <> [] -> trim (w1 ++ ds ++ w2 ++ suf ++ w3) = ds ++ w2 ++ suf.
Proof.
  intros H1 H3 Hne Hd Hsuf Hs. unfold trim. rewrite trim_start_spaces by done.
  destruct ds as [|a ds]; [done|]. cbn [forallb] in Hd. apply andb_prop in Hd as [Ha _].
  cbn [app]. rewrite trim_start_graphic by done.
  replace (a :: ds ++ w2 ++ suf ++ w3) with ((a :: ds ++ w2 ++ suf) ++ w3)
    by (cbn; by rewrite <- !app_assoc).
  rewrite trim_end_spaces by done.
  destruct (exists_last Hs) as (suf' & b & ->).
  replace (a :: ds ++ w2 ++ suf' ++ [b]) with ((a :: ds ++ w2 ++ suf') ++ [b])
    by (cbn; by rewrite <- !app_assoc).
  apply trim_end_graphic. apply size_suffix_pos in Hsuf as [_ [_ Hb]%all_app_inv].
  cbn in Hb. by rewrite andb_true_r in Hb.
Qed.

(** Body sizes are read by their grammar: a decimal number, with an optional unit
    after it and white space around both, means that many units, zero means no limit,
    and a value beyond 64 bits is an error and never wraps around; conversely a limit
    that is accepted is positive, fits in 64 bits, and is what the text says. *)
Theorem body_size_grammar :
  (forall w1 n w2 suf m w3,
     forallb ws1 w1 = true -> forallb ws1 w2 = true -> forallb ws1 w3 = true ->
     0 <= n -> (suf, m) ∈ size_suffixes ->
     parse_body_size_string (w1 ++ show_dec n ++ w2 ++ suf ++ w3) = size_value n m) /\
  (forall s k, parse_body_size_string s = Ok (Some k) ->
     0 < k <= usize_max /\
     exists d suf m, trim s = d ++ suf /\ (suf, m) ∈ size_suffixes /\
       trim d <> [] /\ forallb is_ascii_digit (trim d) = true /\ k = digits_value 10 (trim d) * m).
Proof.
  split.
  - intros w1 n w2 suf m w3 H1 H2 H3 Hn Hsuf.
    assert (forallb is_ascii_digit (show_dec n) = true) as Hd
      by (apply forallb_forall; intros b Hb%list_elem_of_In; by apply (show_dec_digit n)).
    assert (show_dec n <> []) as Hne.
    { destruct (show_radix_head 10 ltac:(lia) n Hn) as (b & r & E & _). unfold show_dec. by rewrite E. }
    assert (digits_value 10 (show_dec n) = n) as Hv by (by apply show_radix_value).
    rewrite <- Hv at 2. destruct (decide (suf = [])) as [->|Hs].
    + eapply (parse_body_size_parts _ _ []); try done. cbn [app]. rewrite app_nil_r.
      apply trim_word; [done| |done|by apply digits_graphic]. by apply all_app.
    + apply (parse_body_size_parts _ (show_dec n) w2 suf); try done. eapply trim_size; eauto using digits_graphic.
  - intros s k (d & suf & m & Es & Hsuf & Hne & Hd & Hv)%parse_body_size_Some.
    destruct (size_suffix_pos _ _ Hsuf) as [Hm _].
    apply size_value_Some in Hv as [Hk Ek]; [|by apply digits_value_nonneg|done].
    split; [done|]. by exists d, suf, m.
Qed.

(** ** Server names *)

(** A label: letters and digits, with hyphens inside. *)
Definition hostname_label (l : str) : Prop :=
  (1 <= length l <= 63)%nat /\
  (forall b, b ∈ l -> is_ascii_alphanumeric b = true \/ b = HYPHEN) /\
  head l <> Some HYPHEN /\ last l <> Some HYPHEN.

Definition hostname (s : str) : Prop :=
  (length s <= 253)%nat /\ exists labels, labels <> [] /\ s = join [DOT] labels /\ Forall hostname_label labels.

Lemma alnum_byte b : is_ascii_alphanumeric b = true -> 48 <= b <= 122 /\ b <> DOT /\ b <> SLASH /\ b <> HYPHEN.
Proof.
  unfold is_ascii_alphanumeric, is_ascii_digit, is_ascii_uppercase, is_ascii_lowercase. lia.
Qed.

Lemma label_ok_spec l : label_ok l = true <-> hostname_label l.
Proof.
  unfold label_ok, hostname_label. destruct l as [|a l]; [by split; [|intros [? _]; cbn in *; lia]|].
  destruct (last (a :: l)) as [z|] eqn:El; [|by apply last_None in El]. cbn [head].
  assert (z ∈ a :: l) as Hz by (apply last_Some in El as [l' ->]; set_solver).
  rewrite !andb_true_iff, forallb_forall, Nat.leb_le. split.
  - intros [[[Hlen Ha] Hlast] Hall]. split_and!; [cbn in *; lia|done| | |].
    + intros b Hb%list_elem_of_In. apply Hall in Hb. rewrite orb_true_iff, Z.eqb_eq in Hb. done.
    + intros [= ->]. apply alnum_byte in Ha. lia.
    + intros [= ->]. apply alnum_byte in Hlast. lia.
  - intros ([_ Hlen] & Hall & Ha & Hl). split_and!; [done| | |].
    + destruct (Hall a) as [? | ->]; [by left|done|done].
    + destruct (Hall z) as [? | ->]; done.
    + intros b Hb%list_elem_of_In. rewrite orb_true_iff, Z.eqb_eq. by apply Hall.
Qed.

Lemma split_join_labels labels :
  labels <> [] -> Forall hostname_label labels -> split_char DOT (join [DOT] labels) = labels.
Proof.
  intros Hne Hl. apply split_char_join_pieces; [done|]. eapply Forall_impl; [exact Hl|]. intros l (_ & Hall & _) Hd.
  by destruct (Hall DOT Hd).
Qed.

Lemma hostname_byte s b : hostname s -> b ∈ s -> is_ascii_alphanumeric b = true \/ b = HYPHEN \/ b = DOT.
Proof.
  intros (_ & labels & _ & -> & Hl) Hb. induction Hl as [|l labels (_ & Hall & _) Hl IH]; [set_solver|].
  destruct labels as [|l' labels]; [cbn in Hb; naive_solver|].
  rewrite join_cons in Hb by done. apply elem_of_app in Hb as [Hb|Hb]; [naive_solver|].
  cbn [app] in Hb. apply elem_of_cons in Hb as [ -> |Hb]; [by right; right|by apply IH].
Qed.

Lemma validate_server_name_spec s : validate_server_name s = Ok () <-> hostname s.
Proof.
  unfold validate_server_name. split.
  - destruct (_ || _) eqn:E1; [done|]. apply orb_false_elim in E1 as [_ E1%Nat.ltb_ge].
    destruct (negb _); [done|]. destruct (forallb _ _) eqn:E2; [|done]. intros _.
    split; [done|]. exists (split_char DOT s). split_and!; [apply split_on_nonempty|by rewrite join_split_char|].
    rewrite forallb_forall in E2. apply Forall_forall. intros l Hl. apply label_ok_spec, E2. by apply list_elem_of_In.
  - intros Hh. pose proof (hostname_byte s) as Hbytes. destruct Hh as (Hlen & labels & Hne & -> & Hl).
    destruct (length (join [DOT] labels) =? 0)%nat eqn:E0.
    { apply Nat.eqb_eq in E0. destruct labels as [|l labels]; [done|].
      apply Forall_cons in Hl as [([? _] & _) _]. exfalso. destruct labels; cbn in E0; [lia|].
      rewrite !length_app in E0. cbn in E0. lia. }
    replace (253 <? _)%nat with false by (symmetry; apply Nat.ltb_ge; done). cbn [orb].
    replace (is_ascii _) with true; [cbn [negb]|].
    + rewrite split_join_labels by done.
      replace (forallb label_ok labels) with true; [done|]. symmetry. apply forallb_forall.
      intros l Hin%list_elem_of_In. apply label_ok_spec. rewrite Forall_forall in Hl. by apply Hl.
    + symmetry. apply forallb_forall. intros b Hb%list_elem_of_In.
      destruct (Hbytes b) as [Ha|[ -> | ->]]; [split; [done|by exists labels]|done| |done|done].
      apply alnum_byte in Ha. lia.
Qed.

(** ** Listening sockets *)

Section sockets.
Context `{HashOrder}.

(** The addresses one family listens on: those configured, without repetition, and the
    wildcard only alone. *)
Lemma listen_family_spec parse addrs ips :
  listen_family parse addrs = Ok ips ->
  ips <> [] /\ NoDup ips /\
  (forall ip, ip ∈ ips <-> exists a, a ∈ addrs /\ parse a = Some ip) /\
  (forall ip, ip ∈ ips -> is_unspecified ip = true -> ips = [ip]).
Proof.
  unfold listen_family. intros Hl.
  apply result_bind_Ok in Hl as ([] & Hne%ensure_Ok & Hl).
  apply result_bind_Ok in Hl as (l & Hm%result_mapM_Ok & Hl).
  apply result_bind_Ok in Hl as ([] & Hw%ensure_Ok & [= <-]).
  pose proof (iteration_perm (remove_dups l)) as Hp.
  assert (forall ip, ip ∈ l <-> exists a, a ∈ addrs /\ parse a = Some ip) as Hin.
  { intros ip. rewrite list_elem_of_lookup. split.
    - intros [i Hi]. destruct (Forall2_lookup_r _ _ _ _ _ Hm Hi) as (a & Ha & Hf%ok_or_Ok).
      exists a. split; [by eapply list_elem_of_lookup_2|done].
    - intros (a & [i Hi]%list_elem_of_lookup & Hf).
      destruct (Forall2_lookup_l _ _ _ _ _ Hm Hi) as (ip' & Hl & Hf'%ok_or_Ok). exists i. congruence. }
  split_and!.
  - destruct addrs as [|a addrs]; [done|]. inversion Hm as [|? ip ? l' Hf]; subst. intros E.
    rewrite E in Hp. symmetry in Hp. apply Permutation_nil_r in Hp.
    assert (ip ∈ remove_dups (ip :: l')) as Hi by (apply elem_of_remove_dups; by left).
    rewrite Hp in Hi. by apply elem_of_nil in Hi.
  - rewrite Hp. apply NoDup_remove_dups.
  - intros ip. by rewrite Hp, elem_of_remove_dups.
  - intros ip Hi Hu. rewrite Hp in Hi. apply negb_true_iff, andb_false_iff in Hw as [Hw|Hw].
    + apply Nat.ltb_ge in Hw. destruct (remove_dups l) as [|x [|y r]] eqn:Er; [by apply elem_of_nil in Hi| |cbn in Hw; lia].
      apply list_elem_of_singleton in Hi as ->. by apply Permutation_singleton_r in Hp.
    + exfalso. apply Bool.not_true_iff_false in Hw. apply Hw. apply existsb_exists.
      exists ip. split; [by apply list_elem_of_In|done].
Qed.

(** Both listeners open on every address. *)
Lemma build_listen_sockets_spec v4 v6 listen_ipv6 http https l :
  build_listen_sockets v4 v6 listen_ipv6 http https = Ok l ->
  exists ips, ips <> [] /\
    (forall s, s ∈ l <-> sa_ip s ∈ ips /\ (http = Some (sa_port s) \/ https = Some (sa_port s))) /\
    (forall ip, ip ∈ ips <->
       match v4 with
       | Some addrs => exists a, a ∈ addrs /\ parse_ipv4 a = Some ip
       | None => ip = V4 0 0 0 0
       end \/
       match v6 with
       | Some addrs => exists a, a ∈ addrs /\ parse_ipv6 (strip_brackets a) = Some ip
       | None => listen_ipv6 = true /\ ip = V6 [0; 0; 0; 0; 0; 0; 0; 0]
       end).
Proof.
  unfold build_listen_sockets. intros Hb.
  apply result_bind_Ok in Hb as (l4 & H4 & Hb). apply result_bind_Ok in Hb as (l6 & H6 & [= <-]).
  exists (l4 ++ l6). split_and!.
  - intros [-> ->]%app_eq_nil. destruct v4; [by apply listen_family_spec in H4 as [? _]|].
    inv_ok. done.
  - intros [ip p]. rewrite elem_of_concat_map. cbn [sa_ip sa_port].
    assert (forall ip', Build_SocketAddr ip p ∈ map (Build_SocketAddr ip') (option_list http ++ option_list https)
      <-> ip' = ip /\ (http = Some p \/ https = Some p)) as Hs.
    { intros ip'. rewrite list_elem_of_fmap. setoid_rewrite elem_of_app.
      destruct http, https; cbn; set_solver. }
    setoid_rewrite Hs. naive_solver.
  - intros ip. rewrite elem_of_app. f_equiv.
    + destruct v4 as [addrs|]; [apply listen_family_spec in H4; apply H4|].
      assert (l4 = [V4 0 0 0 0]) as -> by (by injection H4 as <-). by rewrite list_elem_of_singleton.
    + destruct v6 as [addrs|]; [apply listen_family_spec in H6; apply H6|].
      destruct listen_ipv6.
      * assert (l6 = [V6 [0; 0; 0; 0; 0; 0; 0; 0]]) as -> by (by injection H6 as <-).
        rewrite list_elem_of_singleton. naive_solver.
      * injection H6 as <-. split; [by intros ?%elem_of_nil|naive_solver].
Qed.
End sockets.

(** ** What an accepted configuration guarantees *)

(** A health check that can mark an upstream down and up again. *)
Definition health_check_ok (hc : HealthCheckConfig) : Prop :=
  hc_timeout hc < hc_interval hc /\ 1 <= unhealthy_threshold hc /\ 1 <= healthy_threshold hc /\
  match check_type hc with Http path _ => starts_with [SLASH] path = true | Tcp => True end.

Lemma build_health_check_ok opt hc : build_health_check_config opt = Ok (Some hc) -> health_check_ok hc.
Proof.
  destruct opt as [[]|detail]; cbn [build_health_check_config]; intros Hb; [by injection Hb as <-|done|].
  apply result_bind_Ok in Hb as (ty & Hty & Hb). inv_ok. subst hc. unfold health_check_ok; cbn.
  split_and!; [lia|lia|lia|].
  destruct (bool_decide _); [by injection Hty as <-|].
  destruct (bool_decide _); [|done]. inv_ok. by subst ty.
Qed.

Section accepted.
Context `{HttpApi}.

Lemma reverse_proxy_ok rpo rpc :
  reverse_proxy_of rpo = Ok rpc ->
  rp_upstream rpc <> [] /\ (forall hc, rp_health_check rpc = Some hc -> health_check_ok hc) /\
  rp_load_balance rpc = ro_load_balance rpo /\ rp_path rpc = ro_path rpo.
Proof.
  unfold reverse_proxy_of. destruct (Nat.eqb_spec (length (ro_upstream rpo)) 0) as [|Hlen]; [done|].
  destruct (forallb _ _) eqn:Hall; cbn [negb]; [|done]. intros Hb.
  apply result_bind_Ok in Hb as (hc & Hhc & [= <-]). cbn. split_and!; [| |done|done].
  - destruct (ro_upstream rpo) as [|u r]; [done|]. cbn [map forallb] in Hall. apply andb_prop in Hall as [Hu _].
    apply bool_decide_eq_true in Hu as [v Hv]. cbn [map omap list_omap id]. rewrite Hv. done.
  - intros hc' ->. destruct (ro_health_check rpo) as [o|]; [|done]. by eapply build_health_check_ok.
Qed.

(** An application as it leaves validation. *)
Definition app_config_ok (cfg : AppConfig) : Prop :=
  hostname (ac_server_name cfg) /\
  forall rpc, rpc ∈ ac_reverse_proxy cfg ->
    rp_upstream rpc <> [] /\
    (forall hc, rp_health_check rpc = Some hc -> health_check_ok hc) /\
    (rp_load_balance rpc = Some PRIMARY_BACKUP -> is_Some (rp_health_check rpc)).

Lemma build_app_ok name app cfg :
  build_app (name, app) = Ok cfg ->
  app_config_ok cfg /\ ac_app_name cfg = to_ascii_lowercase name /\
  ap_server_name app = Some (ac_server_name cfg) /\ (is_Some (ac_tls cfg) <-> is_Some (ap_tls app)).
Proof.
  unfold build_app, build_app_config. intros Hb.
  apply result_bind_Ok in Hb as (_ & _ & Hb).
  apply result_bind_Ok in Hb as (sn & Hsn%ok_or_Ok & Hb).
  apply result_bind_Ok in Hb as ([] & Hv%validate_server_name_spec & Hb).
  apply result_bind_Ok in Hb as (rps & Hr & Hb).
  apply result_bind_Ok in Hb as (us & Hlb%result_mapM_Ok & Hb).
  apply result_bind_Ok in Hb as (tls & Htls & [= <-]). cbn.
  unfold app_config_ok; cbn. split_and!; [done| |done|done|].
  - intros rpc Hin. unfold reverse_proxies_of in Hr.
    apply result_bind_Ok in Hr as (_ & _ & Hr). apply result_bind_Ok in Hr as (l & _ & Hr).
    destruct (result_mapM_elem _ _ _ _ Hr Hin) as (rpo & _ & (Hne & Hhc & _)%reverse_proxy_ok).
    split_and!; [done|done|]. intros El. apply list_elem_of_lookup in Hin as [i Hi].
    destruct (Forall2_lookup_l _ _ _ _ _ Hlb Hi) as ([] & _ & Hc). unfold validate_lb_health_check in Hc.
    rewrite bool_decide_true in Hc by done. cbn in Hc.
    destruct (rp_health_check rpc); [by eexists|]. by rewrite bool_decide_true in Hc.
  - destruct (ap_tls app); [apply result_fmap_Ok in Htls as (tc & _ & ->)|injection Htls as <-];
      split; intros [? ?]; eauto; done.
Qed.
End accepted.

Section proxy_ok.
Context `{IpNetApi} `{!EqDecision IpNet} `{HashOrder}.

(** The listeners, and where their settings come from. *)
Lemma ProxyConfig_try_from_ok c pc :
  ProxyConfig_try_from c = Ok pc ->
  http_port pc <> https_port pc /\
  (is_Some (public_https_port pc) <-> is_Some (https_port pc)) /\
  build_listen_sockets (into_vec <$> ct_listen_address_v4 c) (into_vec <$> ct_listen_address_v6 c)
    (default false (ct_listen_ipv6 c)) (http_port pc) (https_port pc) = Ok (listen_sockets pc) /\
  match ct_trusted_forwarded_proxies c with
  | Some entries =>
      exists report, resolve_trusted_proxy_entries (into_vec entries) = Ok report /\
        trusted_forwarded_proxies pc = cidrs report
  | None => trusted_forwarded_proxies pc = []
  end /\
  match ct_request_max_body_size c with
  | Some v => parse_body_size v = Ok (request_max_body_size pc)
  | None => request_max_body_size pc = Some REQUEST_MAX_BODY_SIZE
  end /\
  (forall pp, tcp_recv_proxy_protocol pc = Some pp -> pp_trusted_proxies pp <> []).
Proof.
  unfold ProxyConfig_try_from. intros Hb.
  apply result_bind_Ok in Hb as ([] & _ & Hb).
  apply result_bind_Ok in Hb as ([] & Hsome%ensure_Ok & Hb).
  apply result_bind_Ok in Hb as ([] & Hdiff%ensure_Ok & Hb).
  apply result_bind_Ok in Hb as ([] & Hpub%ensure_Ok & Hb).
  apply result_bind_Ok in Hb as (socks & Hsocks & Hb).
  apply result_bind_Ok in Hb as (trusted & Htr & Hb).
  apply result_bind_Ok in Hb as (body & Hbody & Hb).
  apply result_bind_Ok in Hb as (pp & Hpp & [= <-]).
  cbn [http_port https_port public_https_port listen_sockets trusted_forwarded_proxies request_max_body_size
       tcp_recv_proxy_protocol].
  split_and!.
  - intros E. rewrite E in Hdiff, Hsome. rewrite orb_diag in Hsome.
    rewrite Hsome, bool_decide_true in Hdiff by done. done.
  - destruct (ct_public_https_port c), (ct_listen_port_tls c); cbn in Hpub; split; intros [? ?]; eauto; done.
  - done.
  - destruct (ct_trusted_forwarded_proxies c); [|by injection Htr as <-].
    apply result_fmap_Ok in Htr as (rep & Hr%map_err_Ok & ->). by exists rep.
  - destruct (ct_request_max_body_size c); [done|]. by injection Hbody as <-.
  - intros p ->. destruct (ct_experimental c ≫= _) as [o|]; [|done].
    apply result_fmap_Ok in Hpp as (p' & Hp & [= ->]). unfold build_pp_config in Hp. inv_ok. subst p'. cbn.
    match goal with Hm : result_mapM _ _ = Ok _ |- _ => apply result_mapM_Ok in Hm; destruct Hm; done end.
Qed.
End proxy_ok.

Section settings_theorems.
Context `{HttpApi} `{IpNetApi} `{!EqDecision IpNet} `{HashOrder}.

Lemma settings_proxy c pc cl : validate_and_build_settings c = Ok (pc, cl) -> ProxyConfig_try_from c = Ok pc.
Proof.
  unfold validate_and_build_settings. intros Hb. apply result_bind_Ok in Hb as (pc' & Hp & Hb).
  do 5 (apply result_bind_Ok in Hb as (? & _ & Hb)).
  by apply result_bind_Ok in Hb as (? & _ & [= -> _]).
Qed.

Lemma settings_ports c pc cl :
  validate_and_build_settings c = Ok (pc, cl) ->
  http_port pc <> https_port pc /\
  forall s, s ∈ listen_sockets pc -> http_port pc = Some (sa_port s) \/ https_port pc = Some (sa_port s).
Proof.
  unfold validate_and_build_settings. intros Hb.
  apply result_bind_Ok in Hb as (pc' & (Hdiff & _ & Hs & _)%ProxyConfig_try_from_ok & Hb).
  do 6 apply result_bind_Ok in Hb as (? & _ & Hb). injection Hb as -> _.
  apply build_listen_sockets_spec in Hs as (ips & _ & Hsock & _). split; [done|]. intros s Hin%Hsock. apply Hin.
Qed.

Lemma settings_apps c pc cl cfg :
  validate_and_build_settings c = Ok (pc, cl) -> cfg ∈ acl_inner cl ->
  app_config_ok cfg /\ (http_port pc = None -> is_Some (ac_tls cfg)).
Proof.
  unfold validate_and_build_settings. intros Hb Hcfg.
  apply result_bind_Ok in Hb as (pc' & _ & Hb).
  apply result_bind_Ok in Hb as (apps & _ & Hb).
  apply result_bind_Ok in Hb as ([] & _ & Hb).
  apply result_bind_Ok in Hb as ([] & Htls & Hb).
  do 2 apply result_bind_Ok in Hb as (? & _ & Hb).
  apply result_bind_Ok in Hb as (inner & Hm & [= -> <-]). cbn [acl_inner] in Hcfg.
  destruct (result_mapM_elem _ _ _ _ Hm Hcfg) as ([name app] & Happ & Hb).
  apply build_app_ok in Hb as (Hok & _ & _ & Ht). split; [done|]. intros E. apply Ht.
  rewrite bool_decide_true in Htls by done. apply ensure_Ok in Htls.
  rewrite forallb_forall in Htls. apply list_elem_of_In, Htls in Happ. by apply bool_decide_eq_true in Happ.
Qed.

(** C28: what an accepted configuration guarantees to the rest of the program: two
    different listening ports, of which at least one is set, and a public HTTPS port
    exactly when TLS is served; a socket for each of them on every address; at least one
    application; and for each application a valid host name, TLS when only TLS is
    served, and routes that have upstreams, usable health checks, and a health check
    when they fail over. *)
Theorem accepted_settings_consistent c pc cl :
  validate_and_build_settings c = Ok (pc, cl) ->
  http_port pc <> https_port pc /\
  (is_Some (public_https_port pc) <-> is_Some (https_port pc)) /\
  listen_sockets pc <> [] /\
  (forall s p, s ∈ listen_sockets pc -> (http_port pc = Some p \/ https_port pc = Some p) ->
     {| sa_ip := sa_ip s; sa_port := p |} ∈ listen_sockets pc) /\
  (forall s, s ∈ listen_sockets pc -> http_port pc = Some (sa_port s) \/ https_port pc = Some (sa_port s)) /\
  acl_inner cl <> [] /\
  forall cfg, cfg ∈ acl_inner cl -> app_config_ok cfg /\ (http_port pc = None -> is_Some (ac_tls cfg)).
Proof.
  intros Hv. pose proof (settings_ports _ _ _ Hv) as [Hdiff Hports]. pose proof (fun cfg => settings_apps c pc cl cfg Hv) as Happs.
  revert Hv. unfold validate_and_build_settings. intros Hb.
  apply result_bind_Ok in Hb as (pc' & (_ & Hpub & Hs & _)%ProxyConfig_try_from_ok & Hb).
  apply result_bind_Ok in Hb as (apps & _ & Hb).
  apply result_bind_Ok in Hb as ([] & Hne%ensure_Ok & Hb).
  do 3 apply result_bind_Ok in Hb as (? & _ & Hb).
  apply result_bind_Ok in Hb as (inner & Hm & [= -> <-]). cbn [acl_inner].
  apply build_listen_sockets_spec in Hs as (ips & Hips & Hsock & _).
  split_and!; [done|done| | |done| |exact Happs].
  - intros E. destruct ips as [|ip ips]; [done|]. rewrite E in Hsock.
    assert (exists p, http_port pc = Some p \/ https_port pc = Some p) as [p Hp].
    { destruct (http_port pc); [eauto|]. destruct (https_port pc); [eauto|done]. }
    destruct (Hsock {| sa_ip := ip; sa_port := p |}) as [_ Hn]. specialize (Hn (conj (list_elem_of_here _ _) Hp)).
    by apply elem_of_nil in Hn.
  - intros s p [Hin _]%Hsock Hp. by apply Hsock.
  - intros ->. apply result_mapM_Ok in Hm. by inversion Hm; subst.
Qed.

(** A network among the entries of the setting: written out, or of a provider's list. *)
Definition configured_network (c : ConfigToml) (net : IpNet) : Prop :=
  exists entries raw nets, ct_trusted_forwarded_proxies c = Some entries /\ raw ∈ into_vec entries /\
    entry_nets raw = Ok nets /\ net ∈ nets.

(** Whom a configuration trusts: an address counts as a trusted proxy exactly when
    one of the configured entries, a network or a provider's built-in list, covers it;
    and without the setting no address is trusted. *)
Theorem configured_trust c pc cl ip :
  validate_and_build_settings c = Ok (pc, cl) ->
  is_trusted_proxy ip (trusted_forwarded_proxies pc) = true <->
  exists net, configured_network c net /\ net_contains net (canonicalize_ip ip) = true.
Proof.
  intros (_ & _ & _ & Htr & _)%settings_proxy%ProxyConfig_try_from_ok. unfold is_trusted_proxy, configured_network. rewrite existsb_exists. setoid_rewrite <- list_elem_of_In.
  destruct (ct_trusted_forwarded_proxies c) as [entries|]; [|rewrite Htr; set_solver].
  destruct Htr as (report & Hr & ->). pose proof (resolve_spec (into_vec entries)) as Hspec.
  rewrite Hr in Hspec. destruct Hspec as (_ & _ & Hc & _). setoid_rewrite Hc. naive_solver.
Qed.
End settings_theorems.

(** ** The sticky-cookie secret *)

Section secret_theorems.
Context `{CryptoApi}.

(** The route of an application that keeps sessions. *)
Definition sticky_route_of (c : ConfigToml) (server_name path : str) : Prop :=
  exists apps name app routes rpo, ct_apps c = Some apps /\ (name, app) ∈ apps /\
    ap_server_name app = Some server_name /\ ap_reverse_proxy app = Some routes /\ rpo ∈ routes /\
    ro_load_balance rpo = Some STICKY_ROUND_ROBIN /\ path = default [SLASH] (ro_path rpo).

Lemma check_sticky_route_spec sn routes u u' :
  result_foldM (check_sticky_route sn) routes u = Ok u' ->
  (u' = true <-> u = true \/ exists rpo, rpo ∈ routes /\ ro_load_balance rpo = Some STICKY_ROUND_ROBIN) /\
  (forall rpo, rpo ∈ routes -> ro_load_balance rpo = Some STICKY_ROUND_ROBIN ->
     0 ∉ sn /\ 0 ∉ default [SLASH] (ro_path rpo)).
Proof.
  assert (forall v, validate_sticky_cookie_aad_component v = Ok () -> 0 ∉ v) as Hval.
  { intros v. unfold validate_sticky_cookie_aad_component. by case_bool_decide. }
  revert u. induction routes as [|rpo r IH]; intros u; cbn [result_foldM].
  { intros [= <-]. split; [set_solver|set_solver]. }
  intros (u1 & H1 & [Hu Hr]%IH)%result_bind_Ok. unfold check_sticky_route in H1.
  case_bool_decide as El.
  - apply result_bind_Ok in H1 as ([] & Hd%map_err_Ok%Hval & H1).
    apply result_bind_Ok in H1 as ([] & Hp%map_err_Ok%Hval & [= <-]).
    split; [set_solver|]. intros rpo' [->|Hin]%elem_of_cons Hl; [done|by apply Hr].
  - injection H1 as <-. split; [set_solver|]. intros rpo' [->|Hin]%elem_of_cons Hl; [done|by apply Hr].
Qed.

Lemma check_sticky_apps_spec apps u u' :
  result_foldM check_sticky_app apps u = Ok u' ->
  (u' = true <-> u = true \/ exists name app sn routes rpo, (name, app) ∈ apps /\ ap_server_name app = Some sn /\
     ap_reverse_proxy app = Some routes /\ rpo ∈ routes /\ ro_load_balance rpo = Some STICKY_ROUND_ROBIN) /\
  (forall name app sn routes rpo, (name, app) ∈ apps -> ap_server_name app = Some sn ->
     ap_reverse_proxy app = Some routes -> rpo ∈ routes -> ro_load_balance rpo = Some STICKY_ROUND_ROBIN ->
     0 ∉ sn /\ 0 ∉ default [SLASH] (ro_path rpo)).
Proof.
  revert u. induction apps as [|[name app] r IH]; intros u; cbn [result_foldM].
  { intros [= <-]. split; [set_solver|set_solver]. }
  intros (u1 & H1 & [Hu Hr]%IH)%result_bind_Ok. unfold check_sticky_app in H1. cbn [snd] in H1.
  apply result_bind_Ok in H1 as (sn & Hsn%ok_or_Ok & H1).
  apply result_bind_Ok in H1 as (routes & Hrt%ok_or_Ok & [Hu1 Hr1]%check_sticky_route_spec).
  split.
  - rewrite Hu, Hu1. split.
    + intros [[Hx|(rpo & Hin & Hl)]|(n & a & s & rs & rpo & Hin & Hx)]; [by left|right..].
      * exists name, app, sn, routes, rpo. split_and!; [by left|done..].
      * exists n, a, s, rs, rpo. split; [by right|done].
    + intros [Hx|(n & a & s & rs & rpo & [[= -> ->]|Hin]%elem_of_cons & Hs & Ht & Hx)]; [by left; left|left|right].
      * simplify_eq. right. by exists rpo.
      * by exists n, a, s, rs, rpo.
  - setoid_rewrite elem_of_cons. intros name' app' sn' routes' rpo [[= -> ->]|Hin] Hs Ht Hrpo Hl.
    + simplify_eq. by apply Hr1.
    + by eapply Hr.
Qed.

(** A configuration whose routes keep sessions is only accepted with a secret of 32
    bytes, and then the associated data of every such route can be built; a secret is
    asked for only if some route keeps sessions. *)
Theorem sticky_secret_when_needed c secret :
  validate_and_build_sticky_cookie_secret c = Ok secret ->
  (is_Some secret <-> exists sn path, sticky_route_of c sn path) /\
  (forall key, secret = Some key -> length key = 32%nat) /\
  (forall sn path, sticky_route_of c sn path -> is_ok (build_sticky_cookie_aad STICKY_COOKIE_NAME sn path) = true).
Proof.
  unfold validate_and_build_sticky_cookie_secret. intros Hb.
  apply result_bind_Ok in Hb as (apps & Ha%ok_or_Ok & Hb).
  apply result_bind_Ok in Hb as (u & [Hu Hval]%check_sticky_apps_spec & Hb).
  assert (u = true <-> exists sn path, sticky_route_of c sn path) as Hiff.
  { rewrite Hu. unfold sticky_route_of. rewrite Ha. split; [naive_solver|].
    intros (sn & path & apps' & name & app & routes & rpo & [= <-] & Hx). right. naive_solver. }
  split_and!.
  - rewrite <- Hiff. destruct u; cbn [negb] in Hb; [|by injection Hb as <-; split; [intros []|]].
    apply result_bind_Ok in Hb as (s & _ & Hb). apply result_fmap_Ok in Hb as (k & _ & ->). split; eauto.
  - intros key ->. destruct u; cbn [negb] in Hb; [|done].
    apply result_bind_Ok in Hb as (s & _ & Hb). apply result_fmap_Ok in Hb as (k & Hk%map_err_Ok & [= ->]).
    unfold try_from_config_value in Hk. destruct (existsb _ _); [done|]. destruct (b64_decode s) as [d|]; [|done].
    destruct (32 <? length d)%nat; [done|]. destruct (Nat.eqb_spec (length d) 32); [|done]. by injection Hk as <-.
  - intros sn path (apps' & name & app & routes & rpo & Ea & Hin & Hsn & Hr & Hrpo & Hl & ->).
    assert (apps' = apps) as -> by congruence.
    destruct (Hval _ _ _ _ _ Hin Hsn Hr Hrpo Hl) as [H1 H2].
    unfold build_sticky_cookie_aad, validate_sticky_cookie_aad_component.
    rewrite (bool_decide_false (0 ∈ STICKY_COOKIE_NAME)) by (by apply (bool_decide_unpack _)).
    by rewrite !bool_decide_false.
Qed.
End secret_theorems.

(** ** Witnesses *)

Module ConfigExamples.

#[local] Existing Instance Alist.api.
#[local] Existing Instance Alist.net_api.
#[local] Existing Instance toy_crypto.
#[local] Instance net_eq_dec : EqDecision (@IpNet Alist.net_api).
Proof. change (EqDecision (IpAddr * nat)). apply _. Defined.
#[local] Instance in_order : HashOrder := {| iteration := fun l => l; iteration_perm := fun l => Permutation_refl l |}.

Definition app : Application := {|
  ap_server_name := Some (B "app.example.com");
  ap_reverse_proxy := Some [
    {| ro_path := None; ro_replace_path := None;
       ro_upstream := [{| up_location := B "10.0.0.1:8080"; up_tls := None |};
                       {| up_location := B "backend.internal"; up_tls := Some true |}];
       ro_upstream_options := None; ro_load_balance := Some (B "sticky");
       ro_health_check := Some (ConfigTable {|
         hd_check_type := Some (B "http"); hd_interval := Some 20; hd_timeout := None;
         hd_unhealthy_threshold := None; hd_healthy_threshold := Some 1;
         hd_path := Some (B "/healthz"); hd_expected_status := None |}) |}];
  ap_tls := Some {| to_tls_cert_path := None; to_tls_cert_key_path := None; to_https_redirection := None;
                    to_client_ca_cert_path := None; to_acme := Some true |}
|}.

Definition toml : ConfigToml := {|
  ct_listen_port := Some 80; ct_listen_port_tls := Some 443;
  ct_listen_address_v4 := Some (Many [B "192.0.2.1"; B "192.0.2.2"; B "192.0.2.1"]);
  ct_listen_address_v6 := Some (One (B "[::1]"));
  ct_listen_ipv6 := None; ct_public_https_port := None; ct_https_redirection_port := None;
  ct_tcp_listen_backlog := None; ct_max_concurrent_streams := None; ct_max_clients := Some 100;
  ct_max_clients_per_ip := None;
  ct_sticky_cookie_secret := Some (B "AAAAAAAAAAAAAAAAAAAAAAAAAAAAAAAAAAAAAAAAAAA");
  ct_trusted_forwarded_proxies := Some (Many [B "10.0.0.0/8"; B " Fastly "]);
  ct_redact_query_in_access_log := None;
  ct_request_max_body_size := Some (String_ (B " 10 m "));
  ct_apps := Some [(B "App1", app)]; ct_default_app := Some (B "App1");
  ct_experimental := None
|}.

Definition settings : ProxyConfig * AppConfigList :=
  default (ProxyConfig_default, {| acl_inner := []; acl_default_app := None |}) (ok (validate_and_build_settings toml)).

Lemma toml_accepted : validate_and_build_settings toml = Ok (fst settings, snd settings).
Proof.
  assert (is_ok (validate_and_build_settings toml) = true) as Hok by (vm_compute; reflexivity).
  unfold settings. destruct (validate_and_build_settings toml) as [[? ?]|]; [done|discriminate Hok].
Qed.

Lemma accepted_settings_consistent_witness :
  length (listen_sockets (fst settings)) = 6%nat /\ http_port (fst settings) <> https_port (fst settings).
Proof.
  split; [vm_compute; reflexivity|].
  apply (accepted_settings_consistent toml (fst settings) (snd settings) toml_accepted).
Defined.

Lemma configured_trust_witness :
  is_trusted_proxy (V4 10 1 2 3) (trusted_forwarded_proxies (fst settings)) = true.
Proof.
  apply (configured_trust toml (fst settings) (snd settings) (V4 10 1 2 3) toml_accepted).
  exists (V4 10 0 0 0, 8%nat). split; [|vm_compute; reflexivity].
  exists (Many [B "10.0.0.0/8"; B " Fastly "]), (B "10.0.0.0/8"), [(V4 10 0 0 0, 8%nat)].
  split_and!; [reflexivity|by left|vm_compute; reflexivity|by left].
Defined.

Lemma body_size_grammar_witness :
  parse_body_size_string (B " " ++ show_dec 10 ++ B " " ++ B "m" ++ B " ") = Ok (Some 10485760).
Proof. apply (proj1 body_size_grammar (B " ") 10 (B " ") (B "m") (2 ^ 20) (B " ")); by apply (bool_decide_unpack _). Defined.

Lemma sticky_secret_when_needed_witness :
  is_ok (build_sticky_cookie_aad STICKY_COOKIE_NAME (B "app.example.com") (B "/")) = true.
Proof.
  assert (exists s, validate_and_build_sticky_cookie_secret toml = Ok s) as [s Hs].
  { assert (is_ok (validate_and_build_sticky_cookie_secret toml) = true) as Hok by (vm_compute; reflexivity).
    destruct (validate_and_build_sticky_cookie_secret toml) as [s|]; [by exists s|discriminate Hok]. }
  apply (sticky_secret_when_needed toml s Hs).
  eexists _, (B "App1"), app, _, _. split_and!; [reflexivity|by left|reflexivity|reflexivity|by left|reflexivity|reflexivity].
Defined.
End ConfigExamples.
