(* ===== verification/Tls.v ===== *)
(** * Server certificates ([rpxy-certs])

    Certificates and keys are read from files ([crypto_source.rs]), kept by the reloader
    ([reloader_service.rs]) and made into TLS configurations ([certs.rs],
    [server_crypto.rs]). The decoders of PEM and X.509, and rustls, are an interface; a
    [ServerConfig] of rustls is the record of the settings that were made on it. *)

From S2P Require Import Prelude RustStr NameExp.

(** ** rustls, webpki and x509-parser *)

Inductive PrivateKey :=
| Pkcs1 (der : str)
| Sec1 (der : str)
| Pkcs8 (der : str).

Class TlsApi := {
  SigningKey : Type;
  TrustAnchor : Type;
  Ticketer : Type;
  (** the certificates, and the keys of each kind, in a PEM file *)
  pem_certs : str -> option (list str);
  pem_pkcs8 : str -> option (list str);
  pem_pkcs1 : str -> option (list str);
  any_supported_type : PrivateKey -> option SigningKey;
  anchor_from_trusted_cert : str -> option TrustAnchor;
  (** the first subject key identifier of a certificate that parses *)
  subject_key_id : str -> option str;
  (** whether a resolver takes a certificate for a name *)
  resolver_accepts : str -> list str -> bool;
  (** whether a verifier of client certificates can be built from roots *)
  verifier_builds : list TrustAnchor -> bool;
  (** the keys the n-th call makes, fresh each time *)
  ticketer_new : nat -> option Ticketer;
  (** [CryptoProvider::get_default], [with_safe_default_protocol_versions] *)
  default_provider : bool;
  safe_default_versions : bool
}.

Section tls.
Context `{TlsApi}.

Record CertifiedKey := { ck_cert : list str; ck_key : SigningKey }.

(** [ResolvesServerCertUsingSni]: certificates by name, in lower case. *)
Definition Resolver : Type := list (str * CertifiedKey).

Definition resolver_add (name : str) (key : CertifiedKey) (self : Resolver) : option Resolver :=
  if resolver_accepts name (ck_cert key) then Some (map_put (to_ascii_lowercase name) key self) else None.

(** What becomes of a session: the cache rustls starts with, or nothing. *)
Inductive SessionStorage := ServerSessionMemoryCache | NoServerSessionStorage.

Record ServerConfig := {
  sc_client_roots : option (list TrustAnchor);    (* a verifier of client certificates *)
  sc_resolver : Resolver;
  sc_alpn_protocols : list str;
  sc_ticketer : option Ticketer;
  sc_session_storage : SessionStorage
}.

(** ** [certs.rs] *)

Inductive RpxyCertError :=
| IoError
| InvalidCertificateAndKey
| NoClientCert
| CertificateReloadError
| ServerNameBytesToString
| RustlsError
| NoDefaultCryptoProvider.

Record SingleServerCertsKeys := {
  sk_certs : list str;
  sk_cert_keys : list PrivateKey;
  sk_client_ca_certs : option (list str)
}.

Definition is_mutual_tls (self : SingleServerCertsKeys) : bool := bool_decide (is_Some (sk_client_ca_certs self)).

Fixpoint find_map {A C} (f : A -> option C) (l : list A) : option C :=
  match l with
  | [] => None
  | x :: r => match f x with Some y => Some y | None => find_map f r end
  end.

Definition rustls_certified_key (self : SingleServerCertsKeys) : result RpxyCertError CertifiedKey :=
  signing_key ← ok_or (find_map any_supported_type (sk_cert_keys self)) InvalidCertificateAndKey;
  Ok {| ck_cert := sk_certs self; ck_key := signing_key |}.

(** A certificate that is not a trust anchor or has no key identifier is left out. *)
Definition trust_anchor_of (v : str) : option (str * TrustAnchor) :=
  trust_anchor ← anchor_from_trusted_cert v;
  skid ← subject_key_id v;
  Some (skid, trust_anchor).

Definition rustls_client_certs_trust_anchors (self : SingleServerCertsKeys)
    : result RpxyCertError (list (str * TrustAnchor)) :=
  certs ← ok_or (sk_client_ca_certs self) NoClientCert;
  Ok (fold_left (fun m e => map_put e.1 e.2 m) (omap (M := list) trust_anchor_of certs) []).

(** ** [crypto_source.rs] *)

Record CryptoFileSource := {
  cs_tls_cert_path : str;
  cs_tls_cert_key_path : str;
  cs_client_ca_cert_path : option str
}.

Definition source_is_mutual_tls (self : CryptoFileSource) : bool := bool_decide (is_Some (cs_client_ca_cert_path self)).

(** The warning about the mode of a private key file; [None] for a file without metadata. *)
Inductive KeyWarning := WorldReadable (mode : Z) | LoosePermissions (mode : Z).

Definition warn_if_key_perm_loose (file_mode : option Z) : option KeyWarning :=
  m ← file_mode;
  let mode := Z.land m 511 in
  if Z.land mode 63 =? 0 then None
  else if negb (Z.land mode 4 =? 0) then Some (WorldReadable mode)
  else Some (LoosePermissions mode).

(** There is none exactly if neither the group nor others have any access. *)
Lemma no_key_warning m :
  warn_if_key_perm_loose (Some m) = None <-> forall i, 0 <= i < 6 -> Z.testbit m i = false.
Proof.
  cbn. assert (Z.land (Z.land m 511) 63 = m mod 2 ^ 6) as ->.
  { rewrite <- Z.land_assoc. change (Z.land 511 63) with (Z.ones 6). by apply Z.land_ones. }
  destruct (Z.eqb_spec (m mod 2 ^ 6) 0) as [E|E].
  - split; [intros _ i Hi|done]. rewrite <- (Z.mod_pow2_bits_low m 6 i) by lia. by rewrite E, Z.bits_0.
  - split; [by case_match|]. intros Hb. destruct E. apply Z.bits_inj'. intros i Hi. rewrite Z.bits_0.
    destruct (Z.ltb_spec i 6); [rewrite Z.mod_pow2_bits_low by lia; apply Hb; lia|by apply Z.mod_pow2_bits_high].
Qed.

(** [files] gives the contents of the files that can be read. *)
Definition read_certs_and_keys (files : str -> option str) (cert_path cert_key_path : str)
    (client_ca_cert_path : option str) : result RpxyCertError SingleServerCertsKeys :=
  certs_file ← ok_or (files cert_path) IoError;
  raw_certs ← ok_or (pem_certs certs_file) IoError;
  encoded_keys ← ok_or (files cert_key_path) IoError;
  pkcs8_keys ← ok_or (pem_pkcs8 encoded_keys) IoError;
  rsa_keys ← ok_or (pem_pkcs1 encoded_keys) IoError;
  let raw_cert_keys := map Pkcs8 pkcs8_keys ++ map Pkcs1 rsa_keys in
  _ ← ensure (negb (length raw_cert_keys =? 0)%nat) IoError;
  client_ca_certs ← match client_ca_cert_path with
                    | None => Ok None
                    | Some path =>
                        inner ← ok_or (files path) IoError;
                        certs ← ok_or (pem_certs inner) IoError;
                        Ok (Some certs)
                    end;
  Ok {| sk_certs := raw_certs; sk_cert_keys := raw_cert_keys; sk_client_ca_certs := client_ca_certs |}.

Definition CryptoFileSource_read (files : str -> option str) (self : CryptoFileSource)
    : result RpxyCertError SingleServerCertsKeys :=
  read_certs_and_keys files (cs_tls_cert_path self) (cs_tls_cert_key_path self) (cs_client_ca_cert_path self).

(** ** [server_crypto.rs] *)

(** The ticketer of the process, the calls that were made for one, and what other
    threads will have put in its place in the meantime. *)
Record Tickets := {
  SHARED_TICKETER : option Ticketer;
  tk_calls : nat;
  tk_races : list (option Ticketer)
}.

Definition shared_ticketer : StM Tickets RpxyCertError Ticketer := fun st =>
  match SHARED_TICKETER st with
  | Some ticketer => (Ok ticketer, st)
  | None =>
      let calls := S (tk_calls st) in
      match ticketer_new (tk_calls st) with
      | None => (Err RustlsError, {| SHARED_TICKETER := None; tk_calls := calls; tk_races := tk_races st |})
      | Some ticketer =>
          let winner := default ticketer (mjoin (head (tk_races st))) in
          (Ok winner, {| SHARED_TICKETER := Some winner; tk_calls := calls; tk_races := tail (tk_races st) |})
      end
  end.

Record ServerCryptoForSni := { sni_server_config : ServerConfig; sni_is_mutual_tls : bool }.

Definition ServerCryptoBase : Type := list (str * SingleServerCertsKeys).

Record ServerCrypto := {
  aggregated_config_no_client_auth : ServerConfig;
  individual_config_map : list (str * ServerCryptoForSni)
}.

Definition server_name_bytes_to_string (server_name_bytes : str) : result RpxyCertError str :=
  ok_or (from_utf8 (to_ascii_lowercase server_name_bytes)) ServerNameBytesToString.

Definition ALPN_H3 : list str := [B "h3"; B "h2"; B "http/1.1"].
Definition ALPN : list str := [B "h2"; B "http/1.1"].

(** A configuration without client authentication, and one with it, before the settings
    the code makes: rustls keeps sessions in memory and issues no tickets. *)
Definition config_builder (roots : option (list TrustAnchor)) (resolver : Resolver)
    : result RpxyCertError ServerConfig :=
  _ ← ensure safe_default_versions RustlsError;
  Ok {| sc_client_roots := roots; sc_resolver := resolver; sc_alpn_protocols := [];
        sc_ticketer := None; sc_session_storage := ServerSessionMemoryCache |}.

Definition with_settings (c : ServerConfig) (alpn : list str) (ticketer : option Ticketer) : ServerConfig :=
  {| sc_client_roots := sc_client_roots c; sc_resolver := sc_resolver c; sc_alpn_protocols := alpn;
     sc_ticketer := ticketer; sc_session_storage := NoServerSessionStorage |}.

(** One name of the map; names whose certificates are of no use are left out. *)
Definition individual_entry (m : list (str * ServerCryptoForSni)) (e : str * SingleServerCertsKeys)
    : StM Tickets RpxyCertError (list (str * ServerCryptoForSni)) :=
  let '(server_name_bytes, certs_keys) := e in
  server_name ← st_lift (server_name_bytes_to_string server_name_bytes);
  match rustls_certified_key certs_keys with
  | Err _ => mret m
  | Ok certified_key =>
      let resolver_local := default [] (resolver_add server_name certified_key []) in
      if negb (is_mutual_tls certs_keys) then
        server_crypto_local ← st_lift (config_builder None resolver_local);
        ticketer ← shared_ticketer;
        mret (map_put server_name_bytes
                {| sni_server_config := with_settings server_crypto_local ALPN_H3 (Some ticketer);
                   sni_is_mutual_tls := false |} m)
      else
        match rustls_client_certs_trust_anchors certs_keys with
        | Err _ => mret m
        | Ok trust_anchors =>
            let client_ca_roots_local := map snd trust_anchors in
            if negb (verifier_builds client_ca_roots_local) then mret m
            else
              server_crypto_local ← st_lift (config_builder (Some client_ca_roots_local) resolver_local);
              mret (map_put server_name_bytes
                      {| sni_server_config := with_settings server_crypto_local ALPN None;
                         sni_is_mutual_tls := true |} m)
        end
  end.

Definition build_individual_server_crypto_map (self : ServerCryptoBase)
    : StM Tickets RpxyCertError (list (str * ServerCryptoForSni)) :=
  _ ← st_lift (ensure default_provider NoDefaultCryptoProvider);
  st_foldM individual_entry self [].

Definition aggregated_entry (resolver_global : Resolver) (e : str * SingleServerCertsKeys)
    : result RpxyCertError Resolver :=
  let '(server_name_bytes, certs_keys) := e in
  server_name ← server_name_bytes_to_string server_name_bytes;
  Ok (match rustls_certified_key certs_keys with
      | Err _ => resolver_global
      | Ok certified_key =>
          if negb (is_mutual_tls certs_keys)
          then default resolver_global (resolver_add server_name certified_key resolver_global)
          else resolver_global
      end).

Definition build_aggregated_server_crypto (self : ServerCryptoBase) : StM Tickets RpxyCertError ServerConfig :=
  _ ← st_lift (ensure default_provider NoDefaultCryptoProvider);
  resolver_global ← st_lift (result_foldM aggregated_entry self []);
  server_crypto_global ← st_lift (config_builder None resolver_global);
  ticketer ← shared_ticketer;
  mret (with_settings server_crypto_global ALPN_H3 (Some ticketer)).

Definition ServerCrypto_try_into (self : ServerCryptoBase) : StM Tickets RpxyCertError ServerCrypto :=
  aggregated ← build_aggregated_server_crypto self;
  individual ← build_individual_server_crypto_map self;
  mret {| aggregated_config_no_client_auth := aggregated; individual_config_map := individual |}.

(** ** [reloader_service.rs] *)

Record CryptoReloader := {
  cr_inner : list (str * CryptoFileSource);
  cr_last_good : list (str * SingleServerCertsKeys)
}.

Definition CryptoReloader_new (source : list (str * CryptoFileSource)) : CryptoReloader :=
  {| cr_inner := fold_left (fun m e => map_put e.1 e.2 m) source []; cr_last_good := [] |}.

(** The files as they are while the source of a name is read. *)
Definition View : Type := str -> str -> option str.

(** One source: the new entry of the result, and the cache. *)
Definition reload_one (files : View) (acc : ServerCryptoBase * list (str * SingleServerCertsKeys))
    (e : str * CryptoFileSource) : ServerCryptoBase * list (str * SingleServerCertsKeys) :=
  let '(base, last_good) := acc in
  let '(server_name_bytes, crypto_source) := e in
  match CryptoFileSource_read (files server_name_bytes) crypto_source with
  | Ok certs_keys => (map_put server_name_bytes certs_keys base, map_put server_name_bytes certs_keys last_good)
  | Err _ =>
      match map_find server_name_bytes last_good with
      | Some retained => (map_put server_name_bytes retained base, last_good)
      | None => (base, last_good)
      end
  end.

Definition reload (files : View) (self : CryptoReloader) : ServerCryptoBase * CryptoReloader :=
  let '(base, last_good) := fold_left (reload_one files) (cr_inner self) ([], cr_last_good self) in
  (base, {| cr_inner := cr_inner self; cr_last_good := last_good |}).

(** [build_cert_reloader] of [lib.rs]: sources by name, in lower case. *)
Definition build_cert_reloader (crypto_source_map : list (str * CryptoFileSource)) : CryptoReloader :=
  CryptoReloader_new
    (fold_left (fun m e => map_put (to_ascii_lowercase e.1) e.2 m) crypto_source_map []).
End tls.
