(* ===== verification/TlsProps.v ===== *)
(** * Theorems about server certificates

    The reloader keeps the last certificates that could be read, and the configurations
    made of them enforce client authentication where it is configured. *)

From S2P Require Import Prelude RustStr NameExp Tls.

Section tls_props.
Context `{TlsApi}.

(** ** Reloads *)

(** What a source gave last, over the views of the files at successive reloads. *)
Definition latest (views : list View) (name : str) (src : CryptoFileSource) : option SingleServerCertsKeys :=
  last (omap (M := list) (fun v : View => ok (CryptoFileSource_read (v name) src)) views).

Definition reloads (views : list View) (r : CryptoReloader) : CryptoReloader :=
  fold_left (fun r v => (reload v r).2) views r.

Lemma latest_snoc views v name src :
  latest (views ++ [v]) name src =
  match ok (CryptoFileSource_read (v name) src) with Some c => Some c | None => latest views name src end.
Proof.
  unfold latest. rewrite omap_app. cbn. destruct (ok _); [apply last_snoc|by rewrite app_nil_r].
Qed.

Lemma latest_read views name src c :
  latest views name src = Some c -> exists v, v ∈ views /\ CryptoFileSource_read (v name) src = Ok c.
Proof.
  unfold latest. intros [l E]%last_Some.
  assert (c ∈ omap (M := list) (fun v : View => ok (CryptoFileSource_read (v name) src)) views) as Hc
    by (rewrite E; set_solver).
  apply list_elem_of_omap in Hc as (v & Hv & Hr%ok_Some). eauto.
Qed.

(** What one reload gives for a name, and what it keeps. *)
Definition fresh (files : View) (lg : list (str * SingleServerCertsKeys)) (k : str) (src : CryptoFileSource) :=
  match ok (CryptoFileSource_read (files k) src) with Some c => Some c | None => map_find k lg end.

Lemma map_find_fresh_key {V} (k : str) (m : list (str * V)) : k ∉ fst <$> m -> map_find k m = None.
Proof.
  intros Hk. destruct (map_find k m) as [v|] eqn:E; [|done]. destruct Hk. apply map_find_in in E.
  apply list_elem_of_fmap. by exists (k, v).
Qed.

Lemma reload_one_find files base lg name src base' lg' :
  reload_one files (base, lg) (name, src) = (base', lg') ->
  map_find name lg' = fresh files lg name src /\
  map_find name base' = match fresh files lg name src with Some c => Some c | None => map_find name base end /\
  (forall k, k <> name -> map_find k base' = map_find k base /\ map_find k lg' = map_find k lg).
Proof.
  unfold reload_one, fresh. destruct (CryptoFileSource_read (files name) src) as [c|]; cbn [ok].
  - intros [= <- <-]. rewrite !map_find_put. split_and!; [done|done|]. intros k Hk.
    by rewrite !map_find_put_ne by congruence.
  - destruct (map_find name lg) as [c|] eqn:E; intros [= <- <-]; [|by rewrite E].
    rewrite map_find_put. split_and!; [done|done|]. intros k Hk. by rewrite map_find_put_ne by congruence.
Qed.

Lemma reload_fold files l base lg base' lg' k :
  NoDup (fst <$> l) -> fold_left (reload_one files) l (base, lg) = (base', lg') ->
  match map_find k l with
  | None => map_find k base' = map_find k base /\ map_find k lg' = map_find k lg
  | Some src =>
      map_find k lg' = fresh files lg k src /\
      map_find k base' = match fresh files lg k src with Some c => Some c | None => map_find k base end
  end.
Proof.
  revert base lg. induction l as [|[name src] l IH]; intros base lg; [by intros _ [= <- <-]|].
  cbn [fmap list_fmap fst fold_left]. intros [Hn Hnd]%NoDup_cons Hf.
  destruct (reload_one files (base, lg) (name, src)) as [base1 lg1] eqn:E1.
  apply reload_one_find in E1 as (Hl1 & Hb1 & Hother). specialize (IH _ _ Hnd Hf). cbn [map_find].
  destruct (decide (k = name)) as [-> |Hne].
  - rewrite (map_find_fresh_key name l Hn) in IH. destruct IH as [-> ->]. done.
  - destruct (Hother k Hne) as [Eb El]. unfold fresh in *. by rewrite Eb, El in IH.
Qed.

Lemma reload_inner files r : cr_inner (reload files r).2 = cr_inner r.
Proof. unfold reload. by destruct (fold_left _ _ _). Qed.

Lemma reloads_inner views r : cr_inner (reloads views r) = cr_inner r.
Proof.
  unfold reloads. revert r. induction views as [|v views IH]; intros r; [done|]. cbn [fold_left].
  rewrite IH. apply reload_inner.
Qed.

Lemma reloads_snoc views v r : reloads (views ++ [v]) r = (reload v (reloads views r)).2.
Proof. unfold reloads. by rewrite fold_left_app. Qed.

Lemma reload_find files r k :
  NoDup (fst <$> cr_inner r) ->
  map_find k (cr_last_good (reload files r).2) =
    match map_find k (cr_inner r) with
    | Some src => fresh files (cr_last_good r) k src
    | None => map_find k (cr_last_good r)
    end /\
  map_find k (reload files r).1 = map_find k (cr_inner r) ≫= fresh files (cr_last_good r) k.
Proof.
  intros Hnd. unfold reload. destruct (fold_left _ _ _) as [base lg] eqn:E. cbn [fst snd cr_last_good].
  pose proof (reload_fold _ _ _ _ _ _ k Hnd E) as Hk. destruct (map_find k (cr_inner r)) as [src|]; cbn.
  - destruct Hk as [-> ->]. split; [done|]. by destruct (fresh _ _ _ _).
  - by destruct Hk as [-> ->].
Qed.

Lemma last_good_latest views r k src :
  NoDup (fst <$> cr_inner r) -> cr_last_good r = [] -> map_find k (cr_inner r) = Some src ->
  map_find k (cr_last_good (reloads views r)) = latest views k src.
Proof.
  intros Hnd H0 Hs. induction views as [|v views IH] using rev_ind; [cbn; by rewrite H0|].
  rewrite reloads_snoc, latest_snoc. destruct (reload_find v (reloads views r) k) as [-> _]; rewrite reloads_inner; [done|].
  rewrite Hs. unfold fresh. by rewrite IH.
Qed.

Lemma cert_reloader_keys sources : NoDup (fst <$> cr_inner (build_cert_reloader sources)).
Proof. unfold build_cert_reloader, CryptoReloader_new. cbn [cr_inner]. apply fold_put_keys, NoDup_nil_2. Qed.

Lemma published_latest sources views v k :
  map_find k (reload v (reloads views (build_cert_reloader sources))).1 =
  map_find k (cr_inner (build_cert_reloader sources)) ≫= latest (views ++ [v]) k.
Proof.
  pose proof (cert_reloader_keys sources) as Hnd.
  destruct (reload_find v (reloads views (build_cert_reloader sources)) k) as [_ ->]; rewrite reloads_inner; [done|].
  destruct (map_find k (cr_inner _)) as [src|] eqn:Es; [|done]. cbn [mbind option_bind].
  rewrite latest_snoc. unfold fresh. by rewrite (last_good_latest views _ k src Hnd).
Qed.

Lemma cert_reloader_source sources name src :
  NoDup (map (fun e => to_ascii_lowercase e.1) sources) -> (name, src) ∈ sources ->
  map_find (to_ascii_lowercase name) (cr_inner (build_cert_reloader sources)) = Some src.
Proof.
  intros Hnd Hin. unfold build_cert_reloader, CryptoReloader_new. cbn [cr_inner].
  set (m := fold_left _ sources []).
  assert (NoDup (fst <$> m)) as Hm by apply fold_put_keys, NoDup_nil_2.
  assert (map_find (to_ascii_lowercase name) m = Some src) as Hf.
  { exact (fold_put_find (fun e => to_ascii_lowercase e.1) snd sources [] (name, src) Hnd Hin). }
  apply map_find_in in Hf.
  apply (fold_put_find fst snd m [] (to_ascii_lowercase name, src)); [exact Hm|exact Hf].
Qed.

(** C29: The reloader refines the history of reads: after every reload, each configured
    server name has the certificates of the latest reload at which its files could be
    read, and none only if they never could. So a file that is missing or broken for a
    while does not take its name out of service. *)
Theorem certificates_retained sources views v name src :
  NoDup (map (fun e => to_ascii_lowercase e.1) sources) -> (name, src) ∈ sources ->
  map_find (to_ascii_lowercase name) (reload v (reloads views (build_cert_reloader sources))).1 =
  latest (views ++ [v]) (to_ascii_lowercase name) src.
Proof. intros Hnd Hin. by rewrite published_latest, (cert_reloader_source sources name src). Qed.

(** ** Configurations *)

(** The ticketer of the process is made once. *)
Definition ticketer_kept (st st' : Tickets) : Prop :=
  forall t, SHARED_TICKETER st = Some t -> SHARED_TICKETER st' = Some t.

Lemma shared_ticketer_Ok st t st' :
  shared_ticketer st = (Ok t, st') -> SHARED_TICKETER st' = Some t /\ ticketer_kept st st'.
Proof.
  unfold shared_ticketer, ticketer_kept. destruct (SHARED_TICKETER st) as [t0|] eqn:E.
  { intros [= <- <-]. split; [done|]. by intros t' [= <-]. }
  destruct (ticketer_new _); by intros [= <- <-].
Qed.

#[export] Instance ticketer_kept_preorder : PreOrder ticketer_kept.
Proof. split; unfold ticketer_kept; [by intros ?|intros ? ? ?; eauto]. Qed.

Lemma shared_ticketer_keeps : st_keeps ticketer_kept shared_ticketer.
Proof.
  intros st t. unfold shared_ticketer. destruct (SHARED_TICKETER st) as [t0|] eqn:E; [|done]. intros [= <-]. done.
Qed.

Lemma individual_entry_keeps m e : st_keeps ticketer_kept (individual_entry m e).
Proof.
  destruct e as [name cks]. unfold individual_entry. apply keeps_bind; [apply _|apply keeps_lift, _|]. intros s.
  repeat case_match; try (apply keeps_ret, _).
  all: apply keeps_bind; [apply _|apply keeps_lift, _|]; intros c.
  - apply keeps_bind; [apply _|apply shared_ticketer_keeps|]. intros t. apply keeps_ret, _.
  - apply keeps_ret, _.
Qed.

Lemma try_into_keeps base : st_keeps ticketer_kept (ServerCrypto_try_into base).
Proof.
  apply keeps_bind; [apply _| |intros agg; apply keeps_bind; [apply _| |intros ind; apply keeps_ret, _]].
  - apply keeps_bind; [apply _|apply keeps_lift, _|]. intros _.
    apply keeps_bind; [apply _|apply keeps_lift, _|]. intros r.
    apply keeps_bind; [apply _|apply keeps_lift, _|]. intros c.
    apply keeps_bind; [apply _|apply shared_ticketer_keeps|]. intros t. apply keeps_ret, _.
  - apply keeps_bind; [apply _|apply keeps_lift, _|]. intros _. apply keeps_foldM; [apply _|].
    intros m e _. apply individual_entry_keeps.
Qed.

(** The anchor comes from one of the certificates. *)
Definition anchored (cas : list str) (a : TrustAnchor) : Prop :=
  exists cert, cert ∈ cas /\ anchor_from_trusted_cert cert = Some a.

Lemma anchors_anchored self anchors cas a :
  rustls_client_certs_trust_anchors self = Ok anchors -> sk_client_ca_certs self = Some cas ->
  a ∈ map snd anchors -> anchored cas a.
Proof.
  unfold rustls_client_certs_trust_anchors. intros Ha Ec. rewrite Ec in Ha. injection Ha as <-.
  intros ([k a'] & <- & Hin%list_elem_of_In)%list_elem_of_In%in_map_iff.
  apply (fold_put_elem fst snd) in Hin as [Hin|([k' a''] & Hin & -> & ->)]; [by apply elem_of_nil in Hin|].
  apply list_elem_of_omap in Hin as (cert & Hc & Ht). exists cert. split; [done|].
  unfold trust_anchor_of in Ht. destruct (anchor_from_trusted_cert cert); [|done]. cbn in Ht.
  destruct (subject_key_id cert); [|done]. by injection Ht as <- <-.
Qed.

(** A configuration without client authentication, that resumes sessions by the tickets
    of the process only. *)
Definition issues_tickets (st : Tickets) (c : ServerConfig) : Prop :=
  sc_client_roots c = None /\ sc_session_storage c = NoServerSessionStorage /\
  is_Some (SHARED_TICKETER st) /\ sc_ticketer c = SHARED_TICKETER st.

Lemma issues_tickets_kept st st' c : ticketer_kept st st' -> issues_tickets st c -> issues_tickets st' c.
Proof. intros Hk (? & ? & [t Ht] & Et). unfold issues_tickets. rewrite (Hk _ Ht). split_and!; [done|done|by eexists|congruence]. Qed.

(** What the configuration of a name has to do with its certificates. *)
Record sni_good (base : ServerCryptoBase) (st : Tickets) (name : str) (c : ServerCryptoForSni)
    (cks : SingleServerCertsKeys) : Prop := {
  good_base : (name, cks) ∈ base;
  good_flag : sni_is_mutual_tls c = is_mutual_tls cks;
  good_storage : sc_session_storage (sni_server_config c) = NoServerSessionStorage;
  good_resolver k key :
    (k, key) ∈ sc_resolver (sni_server_config c) -> k = to_ascii_lowercase name /\ ck_cert key = sk_certs cks;
  good_client :
    match sk_client_ca_certs cks with
    | Some cas =>
        (exists roots, sc_client_roots (sni_server_config c) = Some roots /\ forall a, a ∈ roots -> anchored cas a) /\
        sc_ticketer (sni_server_config c) = None /\ sc_alpn_protocols (sni_server_config c) = ALPN
    | None =>
        issues_tickets st (sni_server_config c) /\ sc_alpn_protocols (sni_server_config c) = ALPN_H3
    end
}.

Lemma sni_good_kept base st st' name c cks : ticketer_kept st st' -> sni_good base st name c cks -> sni_good base st' name c cks.
Proof.
  intros Hk [? ? ? ? Hc]. split; [done..|]. destruct (sk_client_ca_certs cks); [done|].
  destruct Hc. split; [by eapply issues_tickets_kept|done].
Qed.

Lemma name_string name s : server_name_bytes_to_string name = Ok s -> s = to_ascii_lowercase name.
Proof. unfold server_name_bytes_to_string, from_utf8. destruct (is_utf8 _); by intros [= <-]. Qed.

Lemma resolver_local name s key (k : str) key' :
  server_name_bytes_to_string name = Ok s -> (k, key') ∈ default [] (resolver_add s key []) ->
  k = to_ascii_lowercase name /\ key' = key.
Proof.
  intros ->%name_string. unfold resolver_add. destruct (resolver_accepts _ _); cbn; [|by intros ?%elem_of_nil].
  rewrite to_ascii_lowercase_idem. by intros [= -> ->]%list_elem_of_singleton.
Qed.

Lemma certified_key_cert self key : rustls_certified_key self = Ok key -> ck_cert key = sk_certs self.
Proof. intros (sk & _ & [= <-])%result_bind_Ok. done. Qed.

Lemma builder_Ok roots resolver c :
  config_builder roots resolver = Ok c -> sc_client_roots c = roots /\ sc_resolver c = resolver.
Proof. unfold config_builder. intros (u & _ & [= <-])%result_bind_Ok. done. Qed.

Lemma individual_entry_good base e m st m' st' :
  e ∈ base -> individual_entry m e st = (Ok m', st') ->
  ticketer_kept st st' /\
  (forall name c, (name, c) ∈ m' -> (name, c) ∈ m \/ exists cks, sni_good base st' name c cks).
Proof.
  destruct e as [name cks]. intros Hin Hs. unfold individual_entry in Hs.
  apply st_bind_Ok in Hs as (s & st1 & [Hname ->]%st_lift_Ok & Hs).
  destruct (rustls_certified_key cks) as [key|] eqn:Ek; [|injection Hs as <- <-; split; [by intros ?|by left]].
  pose proof (resolver_local name s key) as Hres. pose proof (certified_key_cert _ _ Ek) as Hck.
  unfold is_mutual_tls in Hs at 1. destruct (sk_client_ca_certs cks) as [cas|] eqn:Eca.
  - rewrite bool_decide_eq_true_2 in Hs by by eexists. cbn [negb] in Hs.
    destruct (rustls_client_certs_trust_anchors cks) as [anchors|] eqn:Ea; [|injection Hs as <- <-; split; [by intros ?|by left]].
    destruct (negb _); [injection Hs as <- <-; split; [by intros ?|by left]|].
    apply st_bind_Ok in Hs as (c & st1 & [[Hr Hv]%builder_Ok ->]%st_lift_Ok & [= <- <-]).
    split; [by intros ?|]. intros n c' [[-> ->]|Hm]%map_put_elem; [|by left]. right. exists cks.
    split; cbn; [done|unfold is_mutual_tls; by rewrite Eca|done| |].
    + intros k key'. rewrite Hv. intros [-> ->]%Hres; done.
    + rewrite Eca. split_and!; [|done|done]. exists (map snd anchors). split; [done|]. intros a. by eapply anchors_anchored.
  - rewrite bool_decide_eq_false_2 in Hs by by intros []. cbn [negb] in Hs.
    apply st_bind_Ok in Hs as (c & st1 & [[Hr Hv]%builder_Ok ->]%st_lift_Ok & Hs).
    apply st_bind_Ok in Hs as (t & st2 & [Ht Hkept]%shared_ticketer_Ok & [= <- <-]). split; [done|].
    intros n c' [[-> ->]|Hm]%map_put_elem; [|by left]. right. exists cks.
    split; cbn; [done|unfold is_mutual_tls; by rewrite Eca|done| |].
    + intros k key'. rewrite Hv. intros [-> ->]%Hres; done.
    + rewrite Eca. unfold issues_tickets. cbn. rewrite Ht. split_and!; [done|done|by eexists|done|done].
Qed.

Lemma individual_good base st m st' :
  build_individual_server_crypto_map base st = (Ok m, st') ->
  ticketer_kept st st' /\ forall name c, (name, c) ∈ m -> exists cks, sni_good base st' name c cks.
Proof.
  intros (u & st1 & [_ ->]%st_lift_Ok & Hf)%st_bind_Ok.
  refine (st_foldM_ind individual_entry
    (fun m st2 => ticketer_kept st st2 /\ forall name c, (name, c) ∈ m -> exists cks, sni_good base st2 name c cks)
    base [] st m st' _ _ Hf).
  - split; [by intros ?|]. by intros ? ? ?%elem_of_nil.
  - intros e m1 s1 m2 s2 He [Hk1 Hm1] Hs. apply (individual_entry_good base) in Hs as [Hk2 Hm2]; [|done]. split.
    + intros t Ht. by apply Hk2, Hk1.
    + intros name c [Hold|Hnew]%Hm2; [|done]. destruct (Hm1 _ _ Hold) as [cks Hg]. exists cks. by eapply sni_good_kept.
Qed.

(** The resolver of QUIC: certificates of names without client authentication. *)
Lemma aggregated_good base r k key :
  result_foldM aggregated_entry base [] = Ok r -> (k, key) ∈ r ->
  exists name cks, (name, cks) ∈ base /\ k = to_ascii_lowercase name /\ sk_client_ca_certs cks = None /\
    ck_cert key = sk_certs cks.
Proof.
  intros Hf Hin. revert k key Hin.
  refine (result_foldM_ind aggregated_entry (fun dn r => forall k key, (k, key) ∈ r ->
    exists name cks, (name, cks) ∈ dn /\ k = to_ascii_lowercase name /\ sk_client_ca_certs cks = None /\
      ck_cert key = sk_certs cks) base [] r _ _ Hf).
  - by intros ? ? ?%elem_of_nil.
  - intros dn [name cks] r1 r2 IH (s & ->%name_string & [= <-])%result_bind_Ok k key Hin.
    assert ((k, key) ∈ r1 \/ k = to_ascii_lowercase name /\ sk_client_ca_certs cks = None /\ ck_cert key = sk_certs cks)
      as [Hold|(-> & Hc & Hk)].
    { destruct (rustls_certified_key cks) as [key0|] eqn:Ek; [|by left]. unfold is_mutual_tls in Hin.
      case_bool_decide as Hm; [by left|]. cbn [negb] in Hin. unfold resolver_add in Hin.
      destruct (resolver_accepts _ _); cbn in Hin; [|by left]. rewrite to_ascii_lowercase_idem in Hin.
      apply map_put_elem in Hin as [[-> ->]|Hin]; [|by left]. right.
      split_and!; [done|by apply eq_None_not_Some|by apply certified_key_cert]. }
    + destruct (IH _ _ Hold) as (n & c & Hn & Hr). exists n, c. split; [set_solver|done].
    + exists name, cks. split; [set_solver|done].
Qed.

Lemma try_into_good base st crypto st' :
  ServerCrypto_try_into base st = (Ok crypto, st') ->
  ticketer_kept st st' /\
  (forall name c, (name, c) ∈ individual_config_map crypto -> exists cks, sni_good base st' name c cks) /\
  (forall k key, (k, key) ∈ sc_resolver (aggregated_config_no_client_auth crypto) ->
     exists name cks, (name, cks) ∈ base /\ k = to_ascii_lowercase name /\ sk_client_ca_certs cks = None /\
       ck_cert key = sk_certs cks) /\
  issues_tickets st' (aggregated_config_no_client_auth crypto).
Proof.
  intros (agg & st1 & Ha & Hs)%st_bind_Ok. apply st_bind_Ok in Hs as (ind & st2 & Hi & [= <- <-]).
  apply st_bind_Ok in Ha as (u & st0 & [_ ->]%st_lift_Ok & Ha).
  apply st_bind_Ok in Ha as (r & st3 & [Hr ->]%st_lift_Ok & Ha).
  apply st_bind_Ok in Ha as (c & st4 & [[Hroots Hv]%builder_Ok ->]%st_lift_Ok & Ha).
  apply st_bind_Ok in Ha as (t & st5 & [Ht Hk]%shared_ticketer_Ok & [= <- <-]).
  apply individual_good in Hi as [Hk2 Hi]. pose proof (Hk2 _ Ht) as Ht2. unfold issues_tickets. cbn. rewrite Ht2.
  split_and!; [|done| |done|done|by eexists|done].
  - intros t' Ht'. by apply Hk2, Hk.
  - intros k key. rewrite Hv. by apply aggregated_good.
Qed.

Lemma read_client_ca files src c :
  CryptoFileSource_read files src = Ok c ->
  match cs_client_ca_cert_path src with
  | Some path => exists content cas, files path = Some content /\ pem_certs content = Some cas /\ sk_client_ca_certs c = Some cas
  | None => sk_client_ca_certs c = None
  end.
Proof.
  unfold CryptoFileSource_read, read_certs_and_keys. intros Hr.
  do 6 apply result_bind_Ok in Hr as (? & _ & Hr).
  apply result_bind_Ok in Hr as (ca & Hca & [= <-]). cbn [sk_client_ca_certs].
  destruct (cs_client_ca_cert_path src) as [path|]; [|by injection Hca].
  apply result_bind_Ok in Hca as (content & Hc%ok_or_Ok & Hca).
  apply result_bind_Ok in Hca as (cas & Hp%ok_or_Ok & [= <-]). eauto.
Qed.
End tls_props.

(** ** Examples *)

(** A file holds one certificate and one key; every certificate is a trust anchor. *)
Definition toy_tls : TlsApi := {|
  SigningKey := str;
  TrustAnchor := str;
  Ticketer := nat;
  pem_certs s := Some [s];
  pem_pkcs8 s := Some [s];
  pem_pkcs1 _ := Some [];
  any_supported_type k := match k with Pkcs1 d | Sec1 d | Pkcs8 d => Some d end;
  anchor_from_trusted_cert v := Some v;
  subject_key_id v := Some v;
  resolver_accepts _ _ := true;
  verifier_builds roots := negb (length roots =? 0)%nat;
  ticketer_new n := Some n;
  default_provider := true;
  safe_default_versions := true
|}.

Module TlsExamples.
#[local] Existing Instance toy_tls.

Definition source : CryptoFileSource :=
  {| cs_tls_cert_path := B "/cert.pem"; cs_tls_cert_key_path := B "/key.pem"; cs_client_ca_cert_path := None |}.

Definition sources : list (str * CryptoFileSource) := [(B "App.Example.com", source)].

(** The files of the first reload, and a disk on which nothing can be read. *)
Definition readable : View := fun _ path => Some (path ++ B "-1").
Definition broken : View := fun _ _ => None.

Lemma certificates_retained_witness :
  option_map sk_certs
    (map_find (B "app.example.com") (reload broken (reloads [readable] (build_cert_reloader sources))).1) =
  Some [B "/cert.pem-1"].
Proof.
  pose proof (certificates_retained sources [readable] broken (B "App.Example.com") source) as Hr.
  change (to_ascii_lowercase (B "App.Example.com")) with (B "app.example.com") in Hr. rewrite Hr.
  - vm_compute. reflexivity.
  - apply NoDup_singleton.
  - by left.
Defined.
End TlsExamples.
