(* ===== verification/Acme.v ===== *)
(** * The ACME certificate store ([rpxy-acme], [rpxy-bin/src/config/parse.rs])

    Certificates obtained over ACME are written by one part of the program
    ([DirCache], driven by the rustls-acme crate) and read by another, which computes
    the path on its own ([build_tls_for_app_acme]). The file system keeps a mode and the
    contents of every file; the outcomes of the coming system calls are part of its
    state. Parsing of URLs is a parameter. *)

From S2P Require Import Prelude RustStr RustNet HttpIface ForwardedSyntax HeaderCommon TrustedProxies Globals.
From S2P Require Import HealthCheck StickyCookie NameExp LoadBalance Backend Config Tls.

(** ** Paths *)

(** The file a path names: whether it starts at the root, and its components. Repeated
    slashes and [.] name the same directory. *)
Definition Loc : Type := bool * list str.

Definition component (c : str) : bool := negb (bool_decide (c = [])) && negb (bool_decide (c = [DOT])).

Definition is_absolute (path : str) : bool := bool_decide (head path = Some SLASH).

Definition locate (path : str) : Loc := (is_absolute path, List.filter component (split_char SLASH path)).

(** [Path::join]: an absolute path replaces what it is joined to. *)
Definition PathBuf_join (dir path : str) : str := if is_absolute path then path else path_join dir path.

Definition parent (l : Loc) : Loc := (l.1, removelast l.2).

(** ** The file system *)

Inductive ErrorKind := NotFound | OtherError.

(** What becomes of a system call: a failing write may have written a part. *)
Inductive call := Works | Fails (kind : ErrorKind) (written : nat).

Record Fs := {
  fs_dirs : gmap Loc Z;            (* the mode *)
  fs_files : gmap Loc (Z * str);   (* mode and contents *)
  fs_calls : list call
}.

Notation FsM := (StM Fs) (only parsing).

(** The state after a system call was made, and whether it works. *)
Definition next_call (fs : Fs) : call * Fs :=
  match fs_calls fs with
  | [] => (Works, fs)
  | c :: r => (c, {| fs_dirs := fs_dirs fs; fs_files := fs_files fs; fs_calls := r |})
  end.

Definition set_dir (l : Loc) (mode : Z) (fs : Fs) : Fs :=
  {| fs_dirs := <[l := mode]> (fs_dirs fs); fs_files := fs_files fs; fs_calls := fs_calls fs |}.

Definition set_files (f : gmap Loc (Z * str) -> gmap Loc (Z * str)) (fs : Fs) : Fs :=
  {| fs_dirs := fs_dirs fs; fs_files := f (fs_files fs); fs_calls := fs_calls fs |}.

Definition is_dir (fs : Fs) (l : Loc) : bool :=
  bool_decide (l.2 = []) || bool_decide (is_Some (fs_dirs fs !! l)).

Definition is_file (fs : Fs) (l : Loc) : bool := bool_decide (is_Some (fs_files fs !! l)).

(** The directories above a location, outermost first. *)
Definition above (l : Loc) : list Loc := map (fun n => (l.1, take n l.2)) (seq 1 (length l.2 - 1)).

(** Why a location that is not there cannot be reached. *)
Definition missing (fs : Fs) (l : Loc) : ErrorKind :=
  if existsb (is_file fs) (above l) then OtherError else NotFound.

Section acme.
Context `{CryptoApi}.

(** The umask of the process, its id, and [Url::parse] with [as_str]. *)
Context (umask : Z) (pid : Z) (url_parse : str -> option str).

Definition created_mode (mode : Z) : Z := Z.land mode (Z.lnot umask).

(** [mkdir], for a directory that may exist. *)
Definition mkdir (mode : Z) (l : Loc) : FsM ErrorKind () := fun fs =>
  if is_dir fs l then (Ok (), fs)
  else if is_file fs l then (Err OtherError, fs)
  else
    match next_call fs with
    | (Works, fs) => (Ok (), set_dir l (created_mode mode) fs)
    | (Fails k _, fs) => (Err k, fs)
    end.

(** [DirBuilder::recursive(true)]: what is missing is created from the top. *)
Definition mkdir_all (mode : Z) (l : Loc) : FsM ErrorKind () := st_for (mkdir mode) (above l ++ [l]).

(** [open] with [O_CREAT | O_TRUNC]: the mode of an existing file stays. *)
Definition open_truncate (mode : Z) (l : Loc) : FsM ErrorKind () := fun fs =>
  match next_call fs with
  | (Fails k _, fs) => (Err k, fs)
  | (Works, fs) =>
      if is_dir fs l then (Err OtherError, fs)
      else if negb (is_dir fs (parent l)) then (Err (missing fs l), fs)
      else
        let mode := match fs_files fs !! l with Some (m, _) => m | None => created_mode mode end in
        (Ok (), set_files (fun files => <[l := (mode, [])]> files) fs)
  end.

Definition write_contents (l : Loc) (contents : str) : FsM ErrorKind () := fun fs =>
  let '(c, fs) := next_call fs in
  let written := match c with Works => contents | Fails _ n => take n contents end in
  (match c with Works => Ok () | Fails k _ => Err k end,
   set_files (alter (fun f => (f.1, written)) l) fs).

Definition unlink (l : Loc) : FsM ErrorKind () := fun fs =>
  match next_call fs with
  | (Fails k _, fs) => (Err k, fs)
  | (Works, fs) => if is_file fs l then (Ok (), set_files (delete l) fs) else (Err (missing fs l), fs)
  end.

Definition read_file (l : Loc) : FsM ErrorKind str := fun fs =>
  match next_call fs with
  | (Fails k _, fs) => (Err k, fs)
  | (Works, fs) =>
      match fs_files fs !! l with
      | Some (_, contents) => (Ok contents, fs)
      | None => (Err (if is_dir fs l then OtherError else missing fs l), fs)
      end
  end.

(** ** [dir_cache.rs] *)

Definition DIR_MODE : Z := 448.    (* 0o700 *)
Definition FILE_MODE : Z := 384.   (* 0o600 *)

Definition ACME_DIR_URL : str := B "https://acme-v02.api.letsencrypt.org/directory".
Definition ACME_REGISTRY_PATH : str := B "./acme_registry".
Definition ACME_ACCOUNT_SUBDIR : str := B "accounts".

Definition create_dir_secure (dir : str) : FsM ErrorKind () := mkdir_all DIR_MODE (locate dir).

Definition write_file_secure (path contents : str) : FsM ErrorKind () :=
  _ ← open_truncate FILE_MODE (locate path);
  write_contents (locate path) contents.

Inductive FileType := Account | Cert.

Record DirCache := { account_dir : str; cert_dir : str }.

Definition DirCache_new (dir server_name : str) : DirCache :=
  {| account_dir := PathBuf_join dir ACME_ACCOUNT_SUBDIR; cert_dir := PathBuf_join dir server_name |}.

Definition subdir_of (self : DirCache) (file_type : FileType) : str :=
  match file_type with Account => account_dir self | Cert => cert_dir self end.

Definition read_if_exist (self : DirCache) (file : str) (file_type : FileType) : FsM ErrorKind (option str) := fun fs =>
  match read_file (locate (PathBuf_join (subdir_of self file_type) file)) fs with
  | (Ok content, fs) => (Ok (Some content), fs)
  | (Err NotFound, fs) => (Ok None, fs)
  | (Err e, fs) => (Err e, fs)
  end.

Definition DirCache_write (self : DirCache) (file contents : str) (file_type : FileType) : FsM ErrorKind () :=
  let subdir := subdir_of self file_type in
  _ ← create_dir_secure subdir;
  write_file_secure (PathBuf_join subdir file) contents.

(** What is hashed: the names, each followed by a zero byte, and the URL. *)
Definition hash_input (names : list str) (directory_url : str) : str :=
  concat (map (fun el => el ++ [0]) names) ++ directory_url.

Definition cached_account_file_name (contact : list str) (directory_url : str) : str :=
  B "cached_account_" ++ b64_encode (sha256 (hash_input contact directory_url)).

Definition cached_cert_file_name (domains : list str) (directory_url : str) : str :=
  B "cached_cert_" ++ b64_encode (sha256 (hash_input domains directory_url)).

(** The name of the probe; the time is 0 when the clock is before the epoch. *)
Definition probe_name (nanos : Z) : str :=
  B ".write_test_" ++ show_dec pid ++ [UNDERSCORE] ++ show_dec nanos.

Definition verify_dir_writable (nanos : Z) (dir : str) : FsM ErrorKind () :=
  _ ← create_dir_secure dir;
  let test_file := PathBuf_join dir (probe_name nanos) in
  _ ← write_file_secure test_file (B "test");
  unlink (locate test_file).

(** The clock is read once for each directory. *)
Definition verify_write_permissions (self : DirCache) (nanos : Z * Z) : FsM ErrorKind () :=
  _ ← verify_dir_writable nanos.1 (account_dir self);
  verify_dir_writable nanos.2 (cert_dir self).

Definition load_cert (self : DirCache) (domains : list str) (directory_url : str) : FsM ErrorKind (option str) :=
  read_if_exist self (cached_cert_file_name domains directory_url) Cert.

Definition store_cert (self : DirCache) (domains : list str) (directory_url cert : str) : FsM ErrorKind () :=
  DirCache_write self (cached_cert_file_name domains directory_url) cert Cert.

Definition load_account (self : DirCache) (contact : list str) (directory_url : str) : FsM ErrorKind (option str) :=
  read_if_exist self (cached_account_file_name contact directory_url) Account.

Definition store_account (self : DirCache) (contact : list str) (directory_url account : str) : FsM ErrorKind () :=
  DirCache_write self (cached_account_file_name contact directory_url) account Account.

(** ** [manager.rs] *)

Inductive RpxyAcmeError :=
| InvalidAcmeRegistryPath
| InvalidUrl
| Io (e : ErrorKind)
| TlsClientConfig
| WritePermissionDenied (domain path : str) (source : ErrorKind).

Record AcmeManager := {
  am_acme_dir_url : str;
  am_contacts : list str;
  am_inner : list (str * DirCache)
}.

Definition registry_dir (acme_registry_dir : option str) : str :=
  match acme_registry_dir with
  | Some v => to_ascii_lowercase v
  | None => ACME_REGISTRY_PATH
  end.

Definition dir_caches (acme_registry_dir : str) (domains : list str) : list (str * DirCache) :=
  fold_left (fun m domain =>
    let domain := to_ascii_lowercase domain in
    map_put domain (DirCache_new acme_registry_dir domain) m) domains [].

(** The probes of the domains run one after the other; [nanos] is what the clock says
    in those of a domain. *)
Definition AcmeManager_try_new (nanos : str -> Z * Z) (acme_dir_url acme_registry_dir : option str)
    (contacts domains : list str) : FsM RpxyAcmeError AcmeManager := fun fs =>
  let acme_registry_dir := registry_dir acme_registry_dir in
  if is_file fs (locate acme_registry_dir) && negb (is_dir fs (locate acme_registry_dir))
  then (Err InvalidAcmeRegistryPath, fs)
  else
    (acme_dir_url ← st_lift (ok_or (match acme_dir_url with
                                    | Some v => url_parse (to_ascii_lowercase v)
                                    | None => url_parse ACME_DIR_URL
                                    end) InvalidUrl);
     let contacts := map (fun email => B "mailto:" ++ email) contacts in
     let inner := dir_caches acme_registry_dir domains in
     _ ← st_for (fun e =>
           st_map_err (WritePermissionDenied e.1 acme_registry_dir) (verify_write_permissions e.2 (nanos e.1))) inner;
     mret {| am_acme_dir_url := acme_dir_url; am_contacts := contacts; am_inner := inner |}) fs.

(** What a task of rustls-acme is given: it keeps the certificate of [cf_domains] and
    the account of [cf_contact] in [cf_cache], under [cf_directory]. *)
Record AcmeConfig := {
  cf_domains : list str;
  cf_contact : list str;
  cf_cache : DirCache;
  cf_directory : str
}.

Definition acme_config (self : AcmeManager) (domain : str) (dir_cache : DirCache) : AcmeConfig :=
  {| cf_domains := [domain]; cf_contact := am_contacts self; cf_cache := dir_cache;
     cf_directory := am_acme_dir_url self |}.

(** The tasks, and the configuration that answers the challenges of each name. *)
Definition spawn_manager_tasks (self : AcmeManager) : list AcmeConfig * list (str * AcmeConfig) :=
  (map (fun e => acme_config self e.1 e.2) (am_inner self),
   fold_left (fun m e => map_put (to_ascii_lowercase e.1) (acme_config self e.1 e.2) m) (am_inner self) []).

(** ** [config/parse.rs] *)

Inductive BuildError :=
| ConfigErr (e : ConfigError)
| AcmeErr (e : RpxyAcmeError).

Definition is_acme (tls : TlsOption) : bool := bool_decide (to_acme tls = Some true).

Definition build_tls_for_app_acme (tls : TlsOption) (acme_option : option AcmeOption)
    (server_name acme_registry_path acme_dir_url : str) : result ConfigError TlsOption :=
  if is_acme tls then
    _ ← ensure (bool_decide (is_Some acme_option) && bool_decide (to_tls_cert_key_path tls = None)
                && bool_decide (to_tls_cert_path tls = None)) TlsCertPaths;
    _ ← validate_server_name server_name;
    let subdir := acme_registry_path ++ [SLASH] ++ to_ascii_lowercase server_name in
    let file_name := cached_cert_file_name [to_ascii_lowercase server_name] (to_ascii_lowercase acme_dir_url) in
    let cert_path := subdir ++ [SLASH] ++ file_name in
    Ok {| to_tls_cert_path := Some cert_path; to_tls_cert_key_path := Some cert_path;
          to_https_redirection := to_https_redirection tls; to_client_ca_cert_path := to_client_ca_cert_path tls;
          to_acme := to_acme tls |}
  else Ok tls.

Definition acme_option_of (config : ConfigToml) : option AcmeOption := ct_experimental config ≫= ex_acme.

(** The source of one application, under its server name. *)
Definition app_source (config : ConfigToml) (app : Application) : result ConfigError (option (str * CryptoFileSource)) :=
  let acme_option := acme_option_of config in
  let acme_dir_url := default ACME_DIR_URL (acme_option ≫= ao_dir_url) in
  let acme_registry_path := default ACME_REGISTRY_PATH (acme_option ≫= ao_registry_path) in
  match ap_tls app with
  | None => Ok None
  | Some tls =>
      server_name ← ok_or (ap_server_name app) MissingServerName;
      tls ← build_tls_for_app_acme tls acme_option server_name acme_registry_path acme_dir_url;
      cert ← ok_or (to_tls_cert_path tls) UnwrapFailed;
      key ← ok_or (to_tls_cert_key_path tls) UnwrapFailed;
      Ok (Some (server_name, {| cs_tls_cert_path := cert; cs_tls_cert_key_path := key;
                                cs_client_ca_cert_path := to_client_ca_cert_path tls |}))
  end.

Definition add_source (config : ConfigToml) (m : list (str * CryptoFileSource)) (app : str * Application)
    : result ConfigError (list (str * CryptoFileSource)) :=
  source ← app_source config app.2;
  Ok (match source with Some (name, src) => map_put name src m | None => m end).

(** The sources [build_cert_manager] hands to the certificate reloader. *)
Definition crypto_source_map (config : ConfigToml) : result ConfigError (option (list (str * CryptoFileSource))) :=
  apps ← ok_or (ct_apps config) MissingApps;
  match ct_listen_port_tls config with
  | None => Ok None
  | Some _ => m ← result_foldM (add_source config) apps []; Ok (Some m)
  end.

Definition build_cert_manager (config : ConfigToml) : result ConfigError (option CryptoReloader) :=
  m ← crypto_source_map config;
  Ok (option_map build_cert_reloader m).

(** The names of the applications that use ACME; [unwrap] panics without a name. *)
Definition acme_domain (app : str * Application) : result ConfigError (option str) :=
  match ap_tls app.2 with
  | Some tls => if is_acme tls then name ← ok_or (ap_server_name app.2) UnwrapFailed; Ok (Some name) else Ok None
  | None => Ok None
  end.

Definition acme_domains (apps : Apps) : result ConfigError (list str) :=
  domains ← result_mapM acme_domain apps;
  Ok (omap (M := list) id domains).

Definition build_acme_manager (nanos : str -> Z * Z) (config : ConfigToml) : FsM BuildError (option AcmeManager) :=
  match acme_option_of config with
  | None => mret None
  | Some acme_option =>
      apps ← st_lift (ok_or (ct_apps config) (ConfigErr UnwrapFailed));
      domains ← st_lift (map_err ConfigErr (acme_domains apps));
      if (length domains =? 0)%nat then mret None
      else
        _ ← st_lift (map_err ConfigErr (result_mapM validate_server_name domains));
        manager ← st_map_err AcmeErr
          (AcmeManager_try_new nanos (ao_dir_url acme_option) (ao_registry_path acme_option)
             [ao_email acme_option] domains);
        mret (Some manager)
  end.
End acme.
