(* ===== verification/AcmeProps.v ===== *)
(** * Theorems about the ACME certificate store

    Paths, the discipline all operations of the store follow ([stays]), the agreement of
    the path that is written with the path that is read, and the confinement of the
    store to the registry directory. *)

From S2P Require Import Prelude RustStr RustNet HttpIface ForwardedSyntax HeaderCommon TrustedProxies Globals.
From S2P Require Import HealthCheck StickyCookie CryptoInstance NameExp LoadBalance Backend Config ConfigProps Tls Acme.

(** ** Paths *)

(** A name that is one component of a path. *)
Definition plain (name : str) : Prop := SLASH ∉ name /\ name <> [] /\ name <> [DOT].

Definition child (l : Loc) (name : str) : Loc := (l.1, l.2 ++ [name]).

Lemma split_char_app c a b : split_char c (a ++ c :: b) = split_char c a ++ split_char c b.
Proof.
  unfold split_char. induction a as [|x a IH]; cbn; [by rewrite Z.eqb_refl|].
  rewrite IH. destruct (x =? c); [done|]. destruct (split_on _ a) eqn:E; [|done].
  by apply split_on_nonempty in E.
Qed.

Lemma plain_components name : plain name -> List.filter component (split_char SLASH name) = [name].
Proof.
  intros (Hs & Hne & Hd). replace (split_char SLASH name) with [name].
  - cbn. unfold component. by rewrite !bool_decide_eq_false_2 by done.
  - symmetry. apply (split_char_join_pieces SLASH [name]); [done|]. by repeat constructor.
Qed.

Lemma plain_relative name : plain name -> is_absolute name = false.
Proof.
  intros (Hs & _). unfold is_absolute. apply bool_decide_eq_false. destruct name; [done|]. intros [= ->]. by destruct Hs; left.
Qed.

Lemma locate_slash dir name : dir <> [] -> plain name -> locate (dir ++ SLASH :: name) = child (locate dir) name.
Proof.
  intros Hne Hp. unfold locate, child. rewrite split_char_app, List.filter_app, (plain_components name) by done.
  f_equal. destruct dir; done.
Qed.

Lemma locate_slashes dir sub name :
  dir <> [] -> plain sub -> plain name ->
  locate (dir ++ [SLASH] ++ sub ++ [SLASH] ++ name) = child (child (locate dir) sub) name.
Proof.
  intros Hne Hs Hn. cbn [app]. rewrite app_comm_cons, app_assoc, locate_slash, locate_slash by (done || by destruct dir).
  done.
Qed.

Lemma locate_join dir name : plain name -> locate (PathBuf_join dir name) = child (locate dir) name.
Proof.
  intros Hp. unfold PathBuf_join, path_join. rewrite plain_relative by done.
  destruct (last dir) as [b|] eqn:El.
  - destruct (b =? SLASH) eqn:Eb; [|apply locate_slash; [by destruct dir|done]].
    apply Z.eqb_eq in Eb as ->. apply last_Some in El as [d ->]. rewrite <- app_assoc. cbn [app].
    destruct d as [|x d].
    + cbn. unfold locate, child. cbn [is_absolute]. change (SLASH :: name) with ([] ++ SLASH :: name).
      rewrite split_char_app, List.filter_app, (plain_components name) by done. done.
    + rewrite locate_slash by done. unfold locate, child. rewrite split_char_app, List.filter_app. cbn.
      by rewrite app_nil_r.
  - apply last_None in El as ->. cbn. unfold locate. rewrite plain_components, plain_relative by done. done.
Qed.

Lemma to_lower_elem b s : b ∈ to_ascii_lowercase s -> exists a, a ∈ s /\ b = lower_byte a.
Proof. intros (a & <- & ?%list_elem_of_In)%list_elem_of_In%in_map_iff. by exists a. Qed.

Lemma hostname_plain name : hostname name -> plain (to_ascii_lowercase name).
Proof.
  intros Hh. split_and!.
  - intros (a & Ha & E)%to_lower_elem. apply (hostname_byte _ _ Hh) in Ha.
    unfold lower_byte, is_ascii_alphanumeric, is_ascii_digit, is_ascii_uppercase, is_ascii_lowercase in *.
    destruct (_ && _) eqn:? in E; lia.
  - intros E%map_eq_nil. subst. destruct Hh as (_ & labels & Hne & E & Hl). destruct labels as [|l labels]; [done|].
    apply Forall_cons in Hl as [([? _] & _) _]. destruct labels; cbn in E; [subst; cbn in *; lia|]. destruct l; cbn in *; [lia|done].
  - intros E. destruct name as [|a [|]]; [done| |done]. injection E as E. destruct Hh as (_ & labels & Hne & Ej & Hl).
    assert (a = DOT) as -> by (unfold lower_byte, is_ascii_uppercase in E; destruct (_ && _) eqn:? in E; lia).
    assert (labels = split_char DOT [DOT]) as -> by (rewrite Ej; symmetry; by apply split_join_labels).
    cbn in Hl. apply Forall_cons in Hl as [([? _] & _) _]. cbn in *. lia.
Qed.

Lemma not_elem_decide (c : byte) (x : str) : existsb (Z.eqb c) x = false -> c ∉ x.
Proof.
  intros Hx Hin. apply not_true_iff_false in Hx. apply Hx, existsb_exists. exists c.
  split; [by apply list_elem_of_In|apply Z.eqb_refl].
Qed.

(** ** What the store may touch *)

(** No access for the group and for others. *)
Definition private (mode : Z) : Prop := Z.land mode 63 = 0.

Lemma created_private umask mode : Z.land mode 63 = 0 -> private (created_mode umask mode).
Proof.
  intros Hm. unfold private, created_mode. rewrite <- Z.land_assoc, (Z.land_comm _ 63), Z.land_assoc, Hm.
  apply Z.land_0_l.
Qed.

Section discipline.
Context (umask pid : Z).

(** The directories files may be put into. *)
Context (R : Loc -> Prop).

Definition probe_file (l : Loc) : Prop := exists nanos, last l.2 = Some (probe_name pid nanos).

Record grows (fs fs' : Fs) : Prop := {
  dirs_kept l m : fs_dirs fs !! l = Some m -> fs_dirs fs' !! l = Some m;
  dirs_new l m :
    fs_dirs fs' !! l = Some m -> fs_dirs fs !! l = None ->
    private m /\ exists r, R r /\ l ∈ above r ++ [r];
  files_elsewhere l : (forall r name, R r -> l <> child r name) -> fs_files fs' !! l = fs_files fs !! l;
  files_mode l m c :
    fs_files fs' !! l = Some (m, c) -> (exists c0, fs_files fs !! l = Some (m, c0)) \/ private m;
  files_kept l : is_Some (fs_files fs !! l) -> ~ probe_file l -> is_Some (fs_files fs' !! l)
}.

Lemma grows_refl fs fs' : fs_dirs fs = fs_dirs fs' -> fs_files fs = fs_files fs' -> grows fs fs'.
Proof. intros Ed Ef. split; rewrite ?Ed, ?Ef; try done; [congruence|eauto]. Qed.

Lemma grows_trans fs1 fs2 fs3 : grows fs1 fs2 -> grows fs2 fs3 -> grows fs1 fs3.
Proof.
  intros [K1 N1 E1 M1 F1] [K2 N2 E2 M2 F2]. split.
  - eauto.
  - intros l m H3 H0. destruct (fs_dirs fs2 !! l) as [m2|] eqn:H2; [|by eapply N2].
    pose proof (K2 _ _ H2) as Em. rewrite H3 in Em. injection Em as ->. by eapply N1.
  - intros l Hl. by rewrite E2, E1.
  - intros l m c [[c2 [Hc|Hp]%M1]|Hp]%M2; eauto.
  - eauto.
Qed.

#[local] Instance grows_preorder : PreOrder grows.
Proof. split; [by intros fs; apply grows_refl|intros ? ? ?; apply grows_trans]. Qed.

(** An operation that keeps to this, whatever its outcome. *)
Definition stays {E A} (m : FsM E A) : Prop := st_keeps grows m.

Lemma stays_ret {E A} (a : A) : stays (mret a : FsM E A).
Proof. apply keeps_ret, _. Qed.

Lemma stays_lift {E A} (r : result E A) : stays (st_lift r).
Proof. apply keeps_lift, _. Qed.

Lemma stays_bind {E A C} (m : FsM E A) (f : A -> FsM E C) : stays m -> (forall a, stays (f a)) -> stays (m ≫= f).
Proof. apply keeps_bind, _. Qed.

Lemma stays_map_err {E F A} (f : E -> F) (m : FsM E A) : stays m -> stays (st_map_err f m).
Proof. apply keeps_map_err. Qed.

Lemma stays_for {E A} (f : A -> FsM E ()) l : (forall x, x ∈ l -> stays (f x)) -> stays (st_for f l).
Proof. apply keeps_for, _. Qed.

(** ** System calls *)

Lemma next_call_same fs c fs' : next_call fs = (c, fs') -> fs_dirs fs = fs_dirs fs' /\ fs_files fs = fs_files fs'.
Proof. unfold next_call. destruct (fs_calls fs); by intros [= <- <-]. Qed.

Lemma grows_call fs c fs0 fs' : next_call fs = (c, fs0) -> grows fs0 fs' -> grows fs fs'.
Proof. intros [? ?]%next_call_same Hg. eapply grows_trans; [by apply grows_refl|exact Hg]. Qed.

Lemma grows_set_dir r l mode fs :
  R r -> l ∈ above r ++ [r] -> private mode -> fs_dirs fs !! l = None -> grows fs (set_dir l mode fs).
Proof.
  intros Hr Hl Hp Hnew. split; cbn; try done; [| |eauto].
  - intros l' m Hm. rewrite lookup_insert_ne; [done|congruence].
  - intros l' m Hm H0. destruct (decide (l' = l)) as [-> |Hne].
    + rewrite lookup_insert_eq in Hm. injection Hm as <-. eauto.
    + rewrite lookup_insert_ne in Hm by done. congruence.
Qed.

Lemma grows_set_file r name l (file : option (Z * str)) fs :
  R r -> l = child r name -> (file = None -> probe_file l) ->
  (forall m c, file = Some (m, c) -> (exists c0, fs_files fs !! l = Some (m, c0)) \/ private m) ->
  grows fs (set_files (partial_alter (fun _ => file) l) fs).
Proof.
  intros Hr -> Hdel Hfile. split; cbn; try done; [congruence| | |].
  - intros l Hl. rewrite lookup_partial_alter_ne; [done|]. intros <-. by eapply Hl.
  - intros l m c. destruct (decide (l = child r name)) as [-> |Hne].
    + rewrite lookup_partial_alter_eq. apply Hfile.
    + rewrite lookup_partial_alter_ne by done. eauto.
  - intros l Hl Hp. destruct (decide (l = child r name)) as [-> |Hne].
    + rewrite lookup_partial_alter_eq. destruct file; [done|]. by destruct Hp; apply Hdel.
    + by rewrite lookup_partial_alter_ne.
Qed.

Lemma stays_mkdir r mode l : R r -> l ∈ above r ++ [r] -> Z.land mode 63 = 0 -> stays (mkdir umask mode l).
Proof.
  intros Hr Hl Hm fs. unfold mkdir. destruct (is_dir fs l) eqn:Ed; [by apply grows_refl|].
  destruct (is_file fs l); [by apply grows_refl|]. destruct (next_call fs) as [[|k n] fs0] eqn:Ec; cbn [snd].
  - eapply grows_call; [exact Ec|]. apply (grows_set_dir r); [done|done|by apply created_private|].
    apply orb_false_elim in Ed as [_ Ed%bool_decide_eq_false]. apply next_call_same in Ec as [<- _].
    by apply eq_None_not_Some.
  - eapply grows_call; [exact Ec|]. by apply grows_refl.
Qed.

Lemma stays_mkdir_all l mode : R l -> Z.land mode 63 = 0 -> stays (mkdir_all umask mode l).
Proof. intros Hr Hm. apply stays_for. intros x Hx. by apply (stays_mkdir l). Qed.

Lemma stays_open r name mode : R r -> Z.land mode 63 = 0 -> stays (open_truncate umask mode (child r name)).
Proof.
  intros Hr Hm fs. unfold open_truncate. destruct (next_call fs) as [[|k n] fs0] eqn:Ec.
  all: eapply grows_call; [exact Ec|]; repeat case_match; try by apply grows_refl.
  all: cbn [snd]; apply (grows_set_file r name); [done|done|done|]; intros m c [= <- <-]; eauto using created_private.
Qed.

Lemma stays_write r name contents : R r -> stays (write_contents (child r name) contents).
Proof.
  intros Hr fs. unfold write_contents. destruct (next_call fs) as [k fs0] eqn:Ec. cbn [snd].
  eapply grows_call; [exact Ec|]. set (w := match k with Works => _ | _ => _ end).
  replace (set_files _ fs0) with
    (set_files (partial_alter (fun _ => (fun f => (f.1, w)) <$> (fs_files fs0 !! child r name)) (child r name)) fs0).
  - destruct (fs_files fs0 !! child r name) as [[m c]|] eqn:Ef.
    + apply (grows_set_file r name); [done|done|done|]. intros m' c' [= <- <-]. rewrite Ef. eauto.
    + apply grows_refl; [done|]. cbn. apply map_eq. intros l. destruct (decide (l = child r name)) as [-> |Hne].
      * by rewrite lookup_partial_alter_eq.
      * by rewrite lookup_partial_alter_ne.
  - unfold set_files. f_equal. apply map_eq. intros l. unfold alter, map_alter.
    destruct (decide (l = child r name)) as [-> |Hne]; [by rewrite !lookup_partial_alter_eq|by rewrite !lookup_partial_alter_ne].
Qed.

Lemma stays_unlink r name : R r -> probe_file (child r name) -> stays (unlink (child r name)).
Proof.
  intros Hr Hp fs. unfold unlink. destruct (next_call fs) as [[|k n] fs0] eqn:Ec.
  all: eapply grows_call; [exact Ec|]; repeat case_match; try by apply grows_refl.
  by apply (grows_set_file r name).
Qed.

Lemma stays_read l : stays (read_file l).
Proof.
  intros fs. unfold read_file. destruct (next_call fs) as [[|k n] fs0] eqn:Ec.
  all: eapply grows_call; [exact Ec|]; repeat case_match; by apply grows_refl.
Qed.
End discipline.

Section store.
Context `{CryptoApi} `{!CryptoLaws H}.
Context (umask pid : Z) (url_parse : str -> option str).

Lemma b64_plain prefix s :
  SLASH ∉ prefix -> (2 <= length prefix)%nat -> plain (prefix ++ b64_encode s).
Proof.
  intros Hp Hlen. split_and!.
  - intros [Hin|Hin]%elem_of_app; [done|]. pose proof (b64_alphabet s) as Ha.
    rewrite forallb_forall in Ha. apply list_elem_of_In, Ha in Hin. done.
  - intros E. apply (f_equal length) in E. rewrite length_app in E. cbn in E. lia.
  - intros E. apply (f_equal length) in E. rewrite length_app in E. cbn in E. lia.
Qed.

Lemma cert_name_plain domains url : plain (cached_cert_file_name domains url).
Proof. apply b64_plain; [by apply not_elem_decide|cbn; lia]. Qed.

Lemma account_name_plain contact url : plain (cached_account_file_name contact url).
Proof. apply b64_plain; [by apply not_elem_decide|cbn; lia]. Qed.

Lemma accounts_plain : plain ACME_ACCOUNT_SUBDIR.
Proof. split_and!; [by apply not_elem_decide|done|done]. Qed.

(** ** Operations of the store *)

Section confined.
Context (R : Loc -> Prop).

Lemma stays_create_dir dir : R (locate dir) -> stays pid R (create_dir_secure umask dir).
Proof. intros Hr. by apply stays_mkdir_all. Qed.

Lemma stays_write_file dir name contents :
  R (locate dir) -> plain name -> stays pid R (write_file_secure umask (PathBuf_join dir name) contents).
Proof.
  intros Hr Hp. unfold write_file_secure. rewrite locate_join by done.
  apply stays_bind; [by apply stays_open|]. intros _. by apply stays_write.
Qed.

Lemma stays_read_if_exist self file file_type : stays pid R (read_if_exist self file file_type).
Proof.
  intros fs. unfold read_if_exist.
  pose proof (stays_read pid R (locate (PathBuf_join (subdir_of self file_type) file)) fs) as Hr.
  destruct (read_file _ fs) as [[c|[|]] fs']; exact Hr.
Qed.

Lemma stays_DirCache_write self file contents file_type :
  R (locate (subdir_of self file_type)) -> plain file -> stays pid R (DirCache_write umask self file contents file_type).
Proof.
  intros Hr Hp. apply stays_bind; [by apply stays_create_dir|]. intros _. by apply stays_write_file.
Qed.

Lemma probe_name_plain nanos : 0 <= pid -> 0 <= nanos -> plain (probe_name pid nanos).
Proof.
  intros Hpid Hn. split_and!; [|done..]. unfold probe_name. rewrite !elem_of_app.
  intros [Hin|[Hin|[Hin|Hin]]].
  - revert Hin. by apply not_elem_decide.
  - by apply show_dec_digit in Hin.
  - by apply list_elem_of_singleton in Hin.
  - by apply show_dec_digit in Hin.
Qed.

Lemma stays_verify_dir nanos dir :
  0 <= pid -> 0 <= nanos -> R (locate dir) -> stays pid R (verify_dir_writable umask pid nanos dir).
Proof.
  intros Hpid Hn Hr. pose proof (probe_name_plain nanos Hpid Hn) as Hp. unfold verify_dir_writable.
  apply stays_bind; [by apply stays_create_dir|]. intros _.
  apply stays_bind; [by apply stays_write_file|]. intros _. rewrite locate_join by done.
  apply stays_unlink; [done|]. exists nanos. apply last_snoc.
Qed.

Lemma stays_verify self nanos :
  0 <= pid -> 0 <= nanos.1 /\ 0 <= nanos.2 -> R (locate (account_dir self)) -> R (locate (cert_dir self)) ->
  stays pid R (verify_write_permissions umask pid self nanos).
Proof. intros Hpid [H1 H2] Ra Rc. apply stays_bind; [|intros _]; by apply stays_verify_dir. Qed.
End confined.

(** ** What a successful store leaves *)

Lemma write_file_stored path contents fs fs' :
  write_file_secure umask path contents fs = (Ok (), fs') ->
  exists mode, fs_files fs' !! locate path = Some (mode, contents) /\
    (fs_files fs !! locate path = None -> private mode).
Proof.
  unfold write_file_secure, mbind, StM_bind. destruct (open_truncate _ _ _ fs) as [[[]|] fs1] eqn:Eo; [|done].
  unfold write_contents. destruct (next_call fs1) as [[|] fs2] eqn:Ec; [|done]. intros [= <-]. cbn.
  apply next_call_same in Ec as [_ <-]. unfold open_truncate in Eo.
  destruct (next_call fs) as [[|] fs0] eqn:Ec0; [|done]. apply next_call_same in Ec0 as [_ E0].
  destruct (is_dir _ _); [done|]. destruct (negb _); [done|]. injection Eo as <-. cbn.
  unfold alter, map_alter. rewrite lookup_partial_alter_eq, lookup_insert_eq. cbn. eexists. split; [done|].
  intros En. rewrite <- E0, En. by apply created_private.
Qed.

Lemma mkdir_all_files mode l fs r fs' : mkdir_all umask mode l fs = (r, fs') -> fs_files fs' = fs_files fs.
Proof.
  unfold mkdir_all. generalize (above l ++ [l]) as ls. intros ls. revert fs.
  induction ls as [|x ls IH]; intros fs; cbn [st_for]; [by intros [= <- <-]|].
  unfold mbind, StM_bind. destruct (mkdir umask mode x fs) as [q fs1] eqn:Em.
  assert (fs_files fs1 = fs_files fs) as E1.
  { unfold mkdir in Em. destruct (is_dir fs x); [by injection Em as <- <-|].
    destruct (is_file fs x); [by injection Em as <- <-|].
    destruct (next_call fs) as [[|] fs0] eqn:Ec; apply next_call_same in Ec as [_ Ec]; by injection Em as <- <-. }
  destruct q as [[]|]; [|by intros [= <- <-]]. intros E%IH. congruence.
Qed.

Lemma store_stored self file contents file_type fs fs' :
  DirCache_write umask self file contents file_type fs = (Ok (), fs') ->
  exists mode, fs_files fs' !! locate (PathBuf_join (subdir_of self file_type) file) = Some (mode, contents) /\
    (fs_files fs !! locate (PathBuf_join (subdir_of self file_type) file) = None -> private mode).
Proof.
  unfold DirCache_write, create_dir_secure. unfold mbind at 1, StM_bind at 1.
  destruct (mkdir_all _ _ _ fs) as [[[]|] fs1] eqn:Em; [|done]. apply mkdir_all_files in Em.
  intros (mode & Hf & Hp)%write_file_stored. exists mode. by rewrite Em in Hp.
Qed.
End store.

(** ** The manager *)

Lemma dir_caches_snoc reg domains d :
  dir_caches reg (domains ++ [d]) =
  map_put (to_ascii_lowercase d) (DirCache_new reg (to_ascii_lowercase d)) (dir_caches reg domains).
Proof. unfold dir_caches. by rewrite fold_left_app. Qed.

Lemma dir_caches_elem reg domains d c :
  (d, c) ∈ dir_caches reg domains ->
  c = DirCache_new reg d /\ exists domain, domain ∈ domains /\ d = to_ascii_lowercase domain.
Proof.
  induction domains as [|x domains IH] using rev_ind; [by rewrite elem_of_nil|].
  rewrite dir_caches_snoc. intros [[-> ->]|Hin]%map_put_elem.
  - split; [done|]. exists x. set_solver.
  - destruct (IH Hin) as (-> & domain & Hd & ->). split; [done|]. exists domain. set_solver.
Qed.

Lemma dir_caches_find reg domains d :
  d ∈ domains ->
  map_find (to_ascii_lowercase d) (dir_caches reg domains) = Some (DirCache_new reg (to_ascii_lowercase d)).
Proof.
  induction domains as [|x domains IH] using rev_ind; [by rewrite elem_of_nil|]. rewrite dir_caches_snoc.
  intros Hd. destruct (decide (to_ascii_lowercase x = to_ascii_lowercase d)) as [-> |Hne]; [apply map_find_put|].
  rewrite map_find_put_ne by done. apply IH. apply elem_of_app in Hd as [Hd|Hd]; [done|].
  apply list_elem_of_singleton in Hd. by subst.
Qed.

Lemma validated_hostnames domains us :
  result_mapM validate_server_name domains = Ok us -> Forall hostname domains.
Proof.
  intros Hm%result_mapM_Ok. induction Hm as [|d u ds us Hd]; constructor; [|done].
  destruct u. by apply validate_server_name_spec.
Qed.

Lemma acme_domains_elem apps domains app tls name :
  acme_domains apps = Ok domains -> app ∈ apps -> ap_tls app.2 = Some tls -> is_acme tls = true ->
  ap_server_name app.2 = Some name -> name ∈ domains.
Proof.
  intros (ds & Hm%result_mapM_Ok & [= <-])%result_bind_Ok Hin Ht Ha Hn.
  apply list_elem_of_omap. exists (Some name). split; [|done].
  induction Hm as [|a d l k Hd Hm IH]; [by apply elem_of_nil in Hin|].
  apply elem_of_cons in Hin as [<- |Hin]; [|right; by apply IH].
  unfold acme_domain in Hd. rewrite Ht, Ha, Hn in Hd. injection Hd as <-. by left.
Qed.

Section manager.
Context `{CryptoApi} `{!CryptoLaws H}.
Context (umask pid : Z) (url_parse : str -> option str) (nanos : str -> Z * Z) (config : ConfigToml).

(** The URL the manager talks to. *)
Definition manager_url (acme_dir_url : option str) : option str :=
  match acme_dir_url with
  | Some v => url_parse (to_ascii_lowercase v)
  | None => url_parse ACME_DIR_URL
  end.

Lemma build_manager_inv fs manager fs' :
  build_acme_manager umask pid url_parse nanos config fs = (Ok (Some manager), fs') ->
  exists opt apps domains,
    acme_option_of config = Some opt /\ ct_apps config = Some apps /\ acme_domains apps = Ok domains /\
    Forall hostname domains /\ am_inner manager = dir_caches (registry_dir (ao_registry_path opt)) domains /\
    manager_url (ao_dir_url opt) = Some (am_acme_dir_url manager).
Proof.
  unfold build_acme_manager, mbind, StM_bind, st_lift.
  destruct (acme_option_of config) as [opt|]; [|done]. destruct (ct_apps config) as [apps|]; [|done]. cbn [ok_or].
  destruct (acme_domains apps) as [domains|] eqn:Ed; [|done]. cbn [map_err].
  destruct (_ =? 0)%nat; [done|]. destruct (result_mapM _ domains) as [us|] eqn:Ev; [|done]. cbn [map_err].
  apply validated_hostnames in Ev. unfold st_map_err at 1.
  destruct (AcmeManager_try_new _ _ _ _ _ _ _ _ fs) as [[m|] fs1] eqn:Em; [|done]. cbn [map_err].
  intros [= <- <-]. exists opt, apps, domains. split_and!; [done..|done| |].
  all: unfold AcmeManager_try_new in Em; destruct (_ && _); [done|]; unfold mbind, StM_bind, st_lift in Em.
  all: fold (manager_url (ao_dir_url opt)) in Em; destruct (manager_url (ao_dir_url opt)); [|done]; cbn [ok_or] in Em.
  all: destruct (st_for _ _ fs) as [[[]|] fs2]; [|done]; by injection Em as <- <-.
Qed.

(** The directories the manager stores in: that of the accounts, and one for each name. *)
Definition store_roots (l : Loc) : Prop :=
  exists opt apps domains sub,
    acme_option_of config = Some opt /\ ct_apps config = Some apps /\ acme_domains apps = Ok domains /\
    (sub = ACME_ACCOUNT_SUBDIR \/ exists d, d ∈ domains /\ hostname d /\ sub = to_ascii_lowercase d) /\
    l = child (locate (registry_dir (ao_registry_path opt))) sub.

Lemma cache_roots opt apps domains d cache ft :
  acme_option_of config = Some opt -> ct_apps config = Some apps -> acme_domains apps = Ok domains ->
  Forall hostname domains -> (d, cache) ∈ dir_caches (registry_dir (ao_registry_path opt)) domains ->
  store_roots (locate (subdir_of cache ft)).
Proof.
  intros Eo Ea Ed Hh (-> & domain & Hd & ->)%dir_caches_elem.
  rewrite Forall_forall in Hh. specialize (Hh _ Hd).
  exists opt, apps, domains, (match ft with Account => ACME_ACCOUNT_SUBDIR | Cert => to_ascii_lowercase domain end).
  destruct ft; cbn [subdir_of DirCache_new account_dir cert_dir].
  - rewrite locate_join by apply accounts_plain. split_and!; [done..|by left|done].
  - rewrite locate_join by by apply hostname_plain. split_and!; [done..|right; eauto|done].
Qed.

Lemma stays_build :
  0 <= pid -> (forall d, 0 <= (nanos d).1 /\ 0 <= (nanos d).2) ->
  stays pid store_roots (build_acme_manager umask pid url_parse nanos config).
Proof.
  intros Hpid Hn. unfold build_acme_manager. destruct (acme_option_of config) as [opt|] eqn:Eo; [|apply stays_ret].
  destruct (ct_apps config) as [apps|] eqn:Ea; [|by intros fs; apply grows_refl]. cbn [ok_or].
  intros fs. unfold mbind, StM_bind, st_lift. destruct (acme_domains apps) as [domains|] eqn:Ed; [|by apply grows_refl].
  cbn [map_err]. destruct (_ =? 0)%nat; [by apply grows_refl|].
  destruct (result_mapM _ domains) as [us|] eqn:Ev; [|by apply grows_refl]. cbn [map_err].
  apply validated_hostnames in Ev. revert fs.
  change (stays pid store_roots (st_map_err AcmeErr (AcmeManager_try_new umask pid url_parse nanos (ao_dir_url opt)
    (ao_registry_path opt) [ao_email opt] domains) ≫= fun m => mret (Some m))).
  apply stays_bind; [apply stays_map_err|intros; apply stays_ret].
  intros fs. unfold AcmeManager_try_new. destruct (_ && _); [by apply grows_refl|]. revert fs.
  apply (stays_bind pid store_roots); [apply stays_lift|]. intros url.
  apply (stays_bind pid store_roots); [|intros; apply stays_ret].
  apply stays_for. intros [d cache] Hin. apply stays_map_err.
  apply stays_verify; [done|apply Hn| |].
  - by apply (cache_roots opt apps domains d cache Account).
  - by apply (cache_roots opt apps domains d cache Cert).
Qed.

(** The registry as the configuration names it, and the directories that belong to the
    store: that of the accounts, and one for each name. *)
Definition configured_registry (opt : AcmeOption) : str := default ACME_REGISTRY_PATH (ao_registry_path opt).

Definition acme_roots (l : Loc) : Prop :=
  exists opt apps domains sub,
    acme_option_of config = Some opt /\ ct_apps config = Some apps /\ acme_domains apps = Ok domains /\
    (sub = ACME_ACCOUNT_SUBDIR \/ exists d, d ∈ domains /\ hostname d /\ sub = to_ascii_lowercase d) /\
    l = child (locate (configured_registry opt)) sub.

(** Without capitals in the path, the manager stores there. *)
Lemma roots_configured l :
  (forall opt, acme_option_of config = Some opt -> to_ascii_lowercase (configured_registry opt) = configured_registry opt) ->
  store_roots l <-> acme_roots l.
Proof.
  intros Hlow. assert (forall opt, acme_option_of config = Some opt ->
    registry_dir (ao_registry_path opt) = configured_registry opt) as E.
  { intros opt Eo. specialize (Hlow opt Eo). unfold configured_registry in *. by destruct (ao_registry_path opt). }
  split; intros (opt & apps & domains & sub & Eo & Ea & Ed & Hs & ->); exists opt, apps, domains, sub;
    (split_and!; [done..|by rewrite (E opt Eo)]).
Qed.
End manager.

(** ** Paths and letter case *)

Lemma split_lower p : split_char SLASH (to_ascii_lowercase p) = map to_ascii_lowercase (split_char SLASH p).
Proof.
  unfold split_char. induction p as [|b p IH]; [done|]. cbn [to_ascii_lowercase map split_on].
  change (map lower_byte p) with (to_ascii_lowercase p). rewrite IH.
  replace (lower_byte b =? SLASH) with (b =? SLASH) by (unfold lower_byte, is_ascii_uppercase; case_match; lia).
  destruct (b =? SLASH); [done|]. by destruct (split_on _ p).
Qed.

Lemma component_lower c : component (to_ascii_lowercase c) = component c.
Proof.
  assert (to_ascii_lowercase c = [] <-> c = []) as E0 by (by destruct c).
  assert (to_ascii_lowercase c = [DOT] <-> c = [DOT]) as E1.
  { destruct c as [|b [|? ?]]; [done| |done]. cbn. unfold lower_byte, is_ascii_uppercase.
    case_match; split; intros [= ?]; f_equal; lia. }
  unfold component. f_equal; f_equal; by apply bool_decide_ext.
Qed.

Lemma locate_lower p : locate (to_ascii_lowercase p) = (is_absolute p, map to_ascii_lowercase (locate p).2).
Proof.
  unfold locate. cbn [snd]. f_equal.
  - destruct p as [|b p]; [done|]. unfold is_absolute. cbn. apply bool_decide_ext.
    unfold lower_byte, is_ascii_uppercase. case_match; split; intros [= ?]; f_equal; lia.
  - rewrite split_lower. induction (split_char SLASH p) as [|c l IH]; [done|]. cbn [map List.filter].
    rewrite component_lower, IH. by destruct (component c).
Qed.

Lemma pieces_lower p : Forall (fun c => to_ascii_lowercase c = c) (split_char SLASH p) -> to_ascii_lowercase p = p.
Proof.
  unfold split_char. induction p as [|b p IH]; [done|]. cbn [to_ascii_lowercase map split_on]. change (map lower_byte p) with (to_ascii_lowercase p).
  destruct (Z.eqb_spec b SLASH) as [->|Hb].
  - rewrite Forall_cons. intros [_ Hp]. by rewrite (IH Hp).
  - destruct (split_on _ p) as [|x xs] eqn:Es; [by apply split_on_nonempty in Es|]. rewrite Forall_cons. intros [[= E1 E2] Hp].
    rewrite IH, E1; [done|]. by constructor.
Qed.

Lemma located_lower p : map to_ascii_lowercase (locate p).2 = (locate p).2 -> to_ascii_lowercase p = p.
Proof.
  intros E. apply pieces_lower. cbn [locate snd] in E. induction (split_char SLASH p) as [|c l IH]; [done|].
  cbn [List.filter] in E. destruct (component c) eqn:Ec; cbn [map] in E.
  - injection E as Ec' El. constructor; [done|by apply IH].
  - constructor; [|by apply IH]. unfold component in Ec. apply andb_false_iff in Ec as [Ec|Ec];
      apply negb_false_iff, bool_decide_eq_true in Ec as ->; done.
Qed.

(** A location below a directory. *)
Definition below (root l : Loc) : Prop := exists names, l = (root.1, root.2 ++ names).

(** The lowercase path names no directory below the path as it was written. *)
Lemma lowered_elsewhere p names : to_ascii_lowercase p <> p ->
  ~ below (locate p) ((locate (to_ascii_lowercase p)).1, (locate (to_ascii_lowercase p)).2 ++ names).
Proof.
  rewrite locate_lower. intros Hp (names' & E). apply Hp, located_lower. apply (f_equal snd) in E. cbn [snd] in E.
  apply app_inj_1 in E as [E _]; [done|]. by rewrite length_map.
Qed.

(** ** The store under a running manager *)

(** What rustls-acme asks of the cache it was given. *)
Inductive CacheOp :=
| LoadCert
| StoreCert (cert : str)
| LoadAccount
| StoreAccount (account : str).

Section running.
Context `{CryptoApi} `{!CryptoLaws H}.
Context (umask pid : Z) (url_parse : str -> option str) (nanos : str -> Z * Z).

Definition run_op (cf : AcmeConfig) (op : CacheOp) (fs : Fs) : Fs :=
  match op with
  | LoadCert => (load_cert (cf_cache cf) (cf_domains cf) (cf_directory cf) fs).2
  | StoreCert cert => (store_cert umask (cf_cache cf) (cf_domains cf) (cf_directory cf) cert fs).2
  | LoadAccount => (load_account (cf_cache cf) (cf_contact cf) (cf_directory cf) fs).2
  | StoreAccount account => (store_account umask (cf_cache cf) (cf_contact cf) (cf_directory cf) account fs).2
  end.

Definition run_ops (ops : list (AcmeConfig * CacheOp)) (fs : Fs) : Fs :=
  fold_left (fun fs o => run_op o.1 o.2 fs) ops fs.

Lemma run_op_grows R cf op fs :
  (forall ft, R (locate (subdir_of (cf_cache cf) ft))) -> grows pid R fs (run_op cf op fs).
Proof.
  intros HR. destruct op; cbn [run_op].
  - apply stays_read_if_exist.
  - apply stays_DirCache_write; [apply HR|apply cert_name_plain].
  - apply stays_read_if_exist.
  - apply stays_DirCache_write; [apply HR|apply account_name_plain].
Qed.

(** C30: The certificate store keeps to its directories. From reading the configuration
    on, whatever the store is asked to do and whichever system calls fail: files are
    only written in the [accounts] directory and in one directory per ACME server name,
    directly below the registry that the configuration names; directories are only
    created there and above; files and directories that are created are inaccessible to
    the group and to others; modes of what existed are kept; and nothing but the probes
    of the permission check is removed. The path of the registry has no capitals:
    [acme_capitals_leave_registry] is about those that have. *)
Theorem acme_store_confined config fs r fs1 ops :
  0 <= pid -> (forall d, 0 <= (nanos d).1 /\ 0 <= (nanos d).2) ->
  (forall opt, acme_option_of config = Some opt -> to_ascii_lowercase (configured_registry opt) = configured_registry opt) ->
  build_acme_manager umask pid url_parse nanos config fs = (r, fs1) ->
  (forall cf op, (cf, op) ∈ ops ->
     exists manager, r = Ok (Some manager) /\ cf ∈ (spawn_manager_tasks manager).1) ->
  let fs2 := run_ops ops fs1 in
  (forall l m, fs_dirs fs !! l = Some m -> fs_dirs fs2 !! l = Some m) /\
  (forall l m, fs_dirs fs2 !! l = Some m -> fs_dirs fs !! l = None ->
     Z.land m 63 = 0 /\ exists root, acme_roots config root /\ l ∈ above root ++ [root]) /\
  (forall l, (forall root name, acme_roots config root -> l <> child root name) ->
     fs_files fs2 !! l = fs_files fs !! l) /\
  (forall l m c, fs_files fs2 !! l = Some (m, c) ->
     (exists c0, fs_files fs !! l = Some (m, c0)) \/ Z.land m 63 = 0) /\
  (forall l, is_Some (fs_files fs !! l) -> ~ probe_file pid l -> is_Some (fs_files fs2 !! l)).
Proof.
  intros Hpid Hn Hlow Hb Hops fs2.
  assert (grows pid (store_roots config) fs fs2) as [? Hd Hf ? ?].
  2:{ split_and!; eauto.
      - intros l m Hl Hnew. destruct (Hd l m Hl Hnew) as (? & root & Hroot & ?). split; [done|]. exists root. by rewrite <- roots_configured.
      - intros l Hl. apply Hf. intros root name Hroot. apply Hl. by apply roots_configured. }
  subst fs2. apply (grows_trans pid _ _ fs1).
  { pose proof (stays_build umask pid url_parse nanos config Hpid Hn fs) as Hg. by rewrite Hb in Hg. }
  clear Hn Hlow. assert (Forall (fun o => forall ft, store_roots config (locate (subdir_of (cf_cache o.1) ft))) ops) as HR.
  { apply Forall_forall. intros [cf op] Ho ft. destruct (Hops _ _ Ho) as (manager & -> & Hcf).
    apply build_manager_inv in Hb as (opt & apps & domains & Eo & Ea & Ed & Hh & Hi & _).
    apply list_elem_of_In, in_map_iff in Hcf as ([d cache] & <- & Hin%list_elem_of_In).
    rewrite Hi in Hin. by apply (cache_roots config opt apps domains d). }
  clear Hb Hops. revert fs1. induction HR as [|[cf op] ops HR _ IH]; intros fs1; [by apply grows_refl|].
  eapply grows_trans; [by apply run_op_grows|apply IH].
Qed.

(** With capitals in [registry_path] the store is elsewhere: every certificate that a task
    of the manager stores ends up in a file that is not below the configured registry, but
    below the directory with the lowercase name. *)
Theorem acme_capitals_leave_registry config opt path fs manager fs1 cf fs2 fs3 cert :
  acme_option_of config = Some opt -> ao_registry_path opt = Some path -> to_ascii_lowercase path <> path ->
  build_acme_manager umask pid url_parse nanos config fs = (Ok (Some manager), fs1) ->
  cf ∈ (spawn_manager_tasks manager).1 ->
  store_cert umask (cf_cache cf) (cf_domains cf) (cf_directory cf) cert fs2 = (Ok (), fs3) ->
  exists l mode, fs_files fs3 !! l = Some (mode, cert) /\ ~ below (locate path) l /\
    below (locate (to_ascii_lowercase path)) l.
Proof.
  intros Eo Ep Hcap Hb Hcf Hst. apply build_manager_inv in Hb as (opt' & apps & domains & Eo' & Ea & Ed & Hh & Hi & _).
  rewrite Eo in Eo'. injection Eo' as <-. apply list_elem_of_In, in_map_iff in Hcf as ([d cache] & <- & Hin%list_elem_of_In).
  rewrite Hi in Hin. cbn [acme_config cf_cache cf_domains cf_directory fst snd] in Hst.
  destruct (cache_roots config opt apps domains d cache Cert Eo Ea Ed Hh Hin) as (opt' & _ & _ & sub & Eo' & _ & _ & _ & El).
  rewrite Eo in Eo'. injection Eo' as <-. rewrite Ep in El. cbn [registry_dir] in El.
  apply store_stored in Hst as (mode & Hf & _). rewrite locate_join, El in Hf by apply cert_name_plain.
  unfold child in Hf. cbn [fst snd] in Hf. rewrite <- app_assoc in Hf.
  eexists _, mode. split; [exact Hf|]. split; [by apply lowered_elsewhere|by eexists].
Qed.

(** ** The path the certificate is read from *)

Lemma app_source_acme config app tls name src :
  ap_tls app = Some tls -> is_acme tls = true -> ap_server_name app = Some name ->
  app_source config app = Ok src ->
  let opt := acme_option_of config in
  let path := default ACME_REGISTRY_PATH (opt ≫= ao_registry_path) ++ [SLASH] ++ to_ascii_lowercase name ++ [SLASH] ++
    cached_cert_file_name [to_ascii_lowercase name]
      (to_ascii_lowercase (default ACME_DIR_URL (opt ≫= ao_dir_url))) in
  hostname name /\
  src = Some (name, {| cs_tls_cert_path := path; cs_tls_cert_key_path := path;
                       cs_client_ca_cert_path := to_client_ca_cert_path tls |}).
Proof.
  unfold app_source, build_tls_for_app_acme. intros -> Ha -> Hs. rewrite Ha in Hs. cbn [ok_or mbind result_bind] in Hs.
  apply result_bind_Ok in Hs as (tls' & Ht & Hs).
  apply result_bind_Ok in Ht as (u & _ & Ht). apply result_bind_Ok in Ht as ([] & Hv & [= <-]).
  cbn [to_tls_cert_path to_tls_cert_key_path to_client_ca_cert_path ok_or mbind result_bind] in Hs.
  rewrite <- !app_assoc in Hs. injection Hs as <-. split; [by apply validate_server_name_spec|done].
Qed.

Lemma sources_find config apps sources app tls name :
  app ∈ apps -> ap_tls app.2 = Some tls -> is_acme tls = true -> ap_server_name app.2 = Some name ->
  (forall a, a ∈ apps -> ap_server_name a.2 = Some name -> a = app) ->
  result_foldM (add_source config) apps [] = Ok sources ->
  exists src, app_source config app.2 = Ok (Some (name, src)) /\ map_find name sources = Some src.
Proof.
  intros Hin Ht Ha Hn Huniq Hf. revert Huniq Hin.
  refine (result_foldM_ind (add_source config)
    (fun dn m => (forall a, a ∈ dn -> ap_server_name a.2 = Some name -> a = app) -> app ∈ dn ->
       exists src, app_source config app.2 = Ok (Some (name, src)) /\ map_find name m = Some src) _ _ _ _ _ Hf);
    [intros _ []%elem_of_nil|].
  intros dn x s1 s2 IH (src & Es & [= <-])%result_bind_Ok Huniq Hin.
  destruct (decide (ap_server_name x.2 = Some name)) as [Ex|Ex].
  - apply Huniq in Ex as ->; [|set_solver].
    destruct (app_source_acme _ _ _ _ _ Ht Ha Hn Es) as [_ ->]. eexists. split; [exact Es|apply map_find_put].
  - destruct IH as (src' & Hs' & Hm).
    + intros a Hia. apply Huniq. set_solver.
    + apply elem_of_app in Hin as [?|Hx]; [done|]. apply list_elem_of_singleton in Hx as ->. done.
    + exists src'. split; [done|]. destruct src as [[n' src]|]; [|done]. rewrite map_find_put_ne; [done|].
      intros ->. apply Ex. unfold app_source in Es. destruct (ap_tls x.2) as [tx|]; [|done].
      apply result_bind_Ok in Es as (nm & Enm%ok_or_Ok & Es). rewrite Enm.
      apply result_bind_Ok in Es as (t & _ & Es). apply result_bind_Ok in Es as (? & _ & Es).
      apply result_bind_Ok in Es as (? & _ & Es). by injection Es as -> _.
Qed.

(** Certificates that are obtained are found. For an application that uses ACME, the
    manager runs a task for its server name, and the certificate reloader reads
    certificate and key from the very file into which that task stores them: right below
    the registry, in the directory of the server name. A certificate that was stored is
    what that file holds, and a file that is new is private. This needs a registry path
    without capitals, and a directory URL that is printed as it was written. *)
Theorem acme_certificate_found config apps app tls name fs manager fs1 sources :
  ct_apps config = Some apps -> app ∈ apps -> ap_tls app.2 = Some tls -> to_acme tls = Some true ->
  ap_server_name app.2 = Some name -> (forall a, a ∈ apps -> ap_server_name a.2 = Some name -> a = app) ->
  build_acme_manager umask pid url_parse nanos config fs = (Ok (Some manager), fs1) ->
  crypto_source_map config = Ok (Some sources) ->
  let registry := default ACME_REGISTRY_PATH (acme_option_of config ≫= ao_registry_path) in
  let url := to_ascii_lowercase (default ACME_DIR_URL (acme_option_of config ≫= ao_dir_url)) in
  let domain := to_ascii_lowercase name in
  registry <> [] -> to_ascii_lowercase registry = registry -> url_parse url = Some url ->
  exists cf src,
    cf ∈ (spawn_manager_tasks manager).1 /\ cf_domains cf = [domain] /\
    map_find name sources = Some src /\ cs_tls_cert_key_path src = cs_tls_cert_path src /\
    locate (cs_tls_cert_path src) = child (child (locate registry) domain) (cached_cert_file_name [domain] url) /\
    forall fs2 fs3 cert,
      store_cert umask (cf_cache cf) (cf_domains cf) (cf_directory cf) cert fs2 = (Ok (), fs3) ->
      exists mode, fs_files fs3 !! locate (cs_tls_cert_path src) = Some (mode, cert) /\
        (fs_files fs2 !! locate (cs_tls_cert_path src) = None -> Z.land mode 63 = 0).
Proof.
  intros Ea Hin Ht Hacme Hn Huniq Hb Hs registry url domain Hne Hlow Hurl.
  assert (is_acme tls = true) as Ha by (unfold is_acme; by apply bool_decide_eq_true).
  apply build_manager_inv in Hb as (opt & apps' & domains & Eo & Ea' & Ed & Hh & Hi & Hu).
  assert (apps' = apps) as -> by congruence.
  unfold crypto_source_map in Hs. rewrite Ea in Hs. cbn [ok_or mbind result_bind] in Hs.
  destruct (ct_listen_port_tls config); [|done]. apply result_bind_Ok in Hs as (m & Hm & [= ->]).
  destruct (sources_find _ _ _ _ _ _ Hin Ht Ha Hn Huniq Hm) as (src & Hsrc & Hfind).
  destruct (app_source_acme _ _ _ _ _ Ht Ha Hn Hsrc) as [Hhost [= ->]]. fold registry url domain in Hfind |- *.
  assert (registry_dir (ao_registry_path opt) = registry) as Ereg.
  { revert Hlow. subst registry. rewrite Eo. cbn. by destruct (ao_registry_path opt). }
  assert (am_acme_dir_url manager = url) as Eurl.
  { revert Hu Hurl. subst url. rewrite Eo. change (Some opt ≫= ao_dir_url) with (ao_dir_url opt). unfold manager_url.
    destruct (ao_dir_url opt) as [u|]; [change (default ACME_DIR_URL (Some u)) with u; congruence|].
    change (to_ascii_lowercase (default ACME_DIR_URL None)) with ACME_DIR_URL. congruence. }
  assert (plain domain) as Hdom by by apply hostname_plain.
  pose proof (cert_name_plain [domain] url) as Hfile.
  eexists (acme_config manager domain (DirCache_new registry domain)), _. split_and!; [|done|exact Hfind|done| |].
  - apply list_elem_of_In, in_map_iff. exists (domain, DirCache_new registry domain). split; [done|].
    apply list_elem_of_In, map_find_in. rewrite Hi, Ereg. apply dir_caches_find. by eapply acme_domains_elem.
  - by apply locate_slashes.
  - intros fs2 fs3 cert Hst. cbn [acme_config cf_cache cf_domains cf_directory] in Hst. rewrite Eurl in Hst.
    apply store_stored in Hst. cbn [subdir_of DirCache_new cert_dir] in Hst.
    rewrite !locate_join in Hst by done.
    pose proof (locate_slashes registry domain _ Hne Hdom Hfile) as El. cbv zeta in *. rewrite <- El in Hst. exact Hst.
Qed.
End running.

(** ** Examples *)

Module AcmeExamples.
#[local] Existing Instance toy_crypto.

Definition app (name : string) : Application := {|
  ap_server_name := Some (B name); ap_reverse_proxy := None;
  ap_tls := Some {| to_tls_cert_path := None; to_tls_cert_key_path := None; to_https_redirection := None;
                    to_client_ca_cert_path := None; to_acme := Some true |}
|}.

Definition apps : Apps := [(B "one", app "App.Example.com"); (B "two", app "example.org")].

Definition config (registry : option str) : ConfigToml := {|
  ct_listen_port := None; ct_listen_port_tls := Some 443; ct_listen_address_v4 := None; ct_listen_address_v6 := None;
  ct_listen_ipv6 := None; ct_public_https_port := None; ct_https_redirection_port := None;
  ct_tcp_listen_backlog := None; ct_max_concurrent_streams := None; ct_max_clients := None;
  ct_max_clients_per_ip := None; ct_sticky_cookie_secret := None; ct_trusted_forwarded_proxies := None;
  ct_redact_query_in_access_log := None; ct_request_max_body_size := None; ct_apps := Some apps;
  ct_default_app := None;
  ct_experimental := Some {|
    ex_h3 := None; ex_cache := None;
    ex_acme := Some {| ao_dir_url := None; ao_email := B "admin@example.com"; ao_registry_path := registry |};
    ex_ignore_sni_consistency := None; ex_connection_handling_timeout := None; ex_tcp_recv_proxy_protocol := None |}
|}.

Definition blank : Fs := {| fs_dirs := ∅; fs_files := ∅; fs_calls := [] |}.

Definition started (registry : option str) : result BuildError (option AcmeManager) * Fs :=
  build_acme_manager 18 42 Some (fun _ => (5, 6)) (config registry) blank.

Definition manager (registry : option str) : AcmeManager :=
  match (started registry).1 with
  | Ok (Some m) => m
  | _ => {| am_acme_dir_url := []; am_contacts := []; am_inner := [] |}
  end.

Definition is_started (registry : option str) : bool :=
  match (started registry).1 with Ok (Some _) => true | _ => false end.

Lemma started_manager registry : is_started registry = true ->
  started registry = (Ok (Some (manager registry)), (started registry).2).
Proof. unfold is_started, manager. by destruct (started registry) as [[[m|]|] fs]. Qed.

Definition sources (registry : option str) : list (str * CryptoFileSource) :=
  match crypto_source_map (config registry) with Ok (Some m) => m | _ => [] end.

Lemma sources_built : crypto_source_map (config None) = Ok (Some (sources None)).
Proof. vm_compute. reflexivity. Qed.

(** With the registry of the default configuration. *)
Lemma acme_certificate_found_witness :
  exists src, map_find (B "App.Example.com") (sources None) = Some src /\
    cs_tls_cert_key_path src = cs_tls_cert_path src.
Proof.
  destruct (acme_certificate_found 18 42 Some (fun _ => (5, 6)) (config None) apps (B "one", app "App.Example.com")
              {| to_tls_cert_path := None; to_tls_cert_key_path := None; to_https_redirection := None;
                 to_client_ca_cert_path := None; to_acme := Some true |} (B "App.Example.com")
              blank (manager None) (started None).2 (sources None))
    as (cf & src & _ & _ & Hs & Hk & _).
  - reflexivity.
  - by left.
  - reflexivity.
  - reflexivity.
  - reflexivity.
  - intros a [-> |[-> |[]%elem_of_nil]%elem_of_cons]%elem_of_cons; [done|]. intros E. discriminate E.
  - exact (started_manager None eq_refl).
  - exact sources_built.
  - discriminate.
  - reflexivity.
  - reflexivity.
  - exists src. split; [exact Hs|exact Hk].
Defined.

Definition task : AcmeConfig :=
  default {| cf_domains := []; cf_contact := []; cf_cache := DirCache_new [] []; cf_directory := [] |}
    (head (spawn_manager_tasks (manager None)).1).

Lemma task_runs : task ∈ (spawn_manager_tasks (manager None)).1.
Proof.
  assert (is_Some (head (spawn_manager_tasks (manager None)).1)) as Hs.
  { apply (bool_decide_unpack _). vm_compute. exact I. }
  unfold task. destruct (spawn_manager_tasks (manager None)).1 as [|t l]; [by destruct Hs|by left].
Qed.

Lemma acme_store_confined_witness :
  fs_files (run_ops 18 [(task, StoreCert (B "pem"))] (started None).2) !! (true, [B "etc"; B "passwd"]) = None.
Proof.
  destruct (acme_store_confined 18 42 Some (fun _ => (5, 6)) (config None) blank (Ok (Some (manager None)))
              (started None).2 [(task, StoreCert (B "pem"))]) as (_ & _ & Hout & _).
  - lia.
  - intros d. cbn. lia.
  - intros opt [= <-]. reflexivity.
  - exact (started_manager None eq_refl).
  - intros cf op Hin%list_elem_of_singleton. apply (f_equal fst) in Hin. cbn [fst] in Hin. rewrite Hin.
    exists (manager None). split; [reflexivity|exact task_runs].
  - rewrite Hout; [reflexivity|]. intros root name (opt & apps' & domains & sub & [= <-] & _ & _ & _ & ->). discriminate.
Defined.

(** With capitals in the registry path the certificate is stored in one file and looked
    for in another. *)
Definition capital_task : AcmeConfig :=
  default task (head (spawn_manager_tasks (manager (Some (B "/Data/acme")))).1).

Definition capital_stored : result ErrorKind () * Fs :=
  store_cert 18 (cf_cache capital_task) (cf_domains capital_task) (cf_directory capital_task) (B "pem")
    (started (Some (B "/Data/acme"))).2.

Lemma capital_task_runs : capital_task ∈ (spawn_manager_tasks (manager (Some (B "/Data/acme")))).1.
Proof.
  assert (is_Some (head (spawn_manager_tasks (manager (Some (B "/Data/acme")))).1)) as Hs.
  { apply (bool_decide_unpack _). vm_compute. exact I. }
  unfold capital_task. destruct (spawn_manager_tasks _).1 as [|t l]; [by destruct Hs|by left].
Qed.

Lemma capital_store_works : is_ok capital_stored.1 = true.
Proof. vm_compute. reflexivity. Qed.

Lemma acme_capitals_leave_registry_witness :
  exists l mode, fs_files capital_stored.2 !! l = Some (mode, B "pem") /\ ~ below (locate (B "/Data/acme")) l.
Proof.
  pose proof capital_store_works as Hok. destruct capital_stored as [[[]|] fs3] eqn:E; [|discriminate Hok].
  destruct (acme_capitals_leave_registry 18 42 Some (fun _ => (5, 6)) (config (Some (B "/Data/acme"))) _ (B "/Data/acme")
    blank (manager (Some (B "/Data/acme"))) (started (Some (B "/Data/acme"))).2 capital_task
    (started (Some (B "/Data/acme"))).2 fs3 (B "pem") eq_refl eq_refl) as (l & mode & H1 & H2 & _).
  - discriminate.
  - exact (started_manager (Some (B "/Data/acme")) eq_refl).
  - exact capital_task_runs.
  - exact E.
  - exists l, mode. split; [exact H1|exact H2].
Defined.

Example capital_registry_not_found :
  capital_stored.1 = Ok () /\
  (fun src => fs_files capital_stored.2 !! locate (cs_tls_cert_path src))
    <$> map_find (B "App.Example.com") (sources (Some (B "/Data/acme"))) = Some None.
Proof. split; vm_compute; reflexivity. Qed.
End AcmeExamples.
