(* ===== verification/HeaderOps.v ===== *)
(** * Per-upstream header operations ([message_handler/header_ops/])

    The host rewrites and upstream options of [upstream.rs], and the sticky-cookie
    exchange with the client of [sticky_cookie.rs]. *)

From S2P Require Import Prelude RustStr RustNet HttpIface ForwardedSyntax HeaderCommon.
From S2P Require Import Forwarding Globals HealthCheck StickyCookie NameExp LoadBalance Backend.

Section header_ops.
Context `{HttpApi} `{IpNetApi} `{CryptoApi} `{ClockApi}.

(** ** [upstream.rs] *)

Definition override_host_header (headers : HeaderMap) (host_header : option HeaderValue)
    : result anyhow HeaderMap :=
  value ← ok_or host_header NoHostnameGiven;
  Ok (hm_insert headers HOST value).

Definition apply_default_app_host_rewrite (headers : HeaderMap) (authoritative_host : ServerName)
    : result anyhow HeaderMap :=
  v ← ok_or (hv_from_bytes (sn_inner authoritative_host)) HeaderValueError;
  Ok (hm_insert headers HOST v).

(** [headers.entry(..).or_insert(..)] *)
Definition or_insert_static (headers : HeaderMap) (key value : str) : HeaderMap :=
  if hm_contains_key headers key then headers else insert_static headers key value.

Definition apply_upstream_options_to_header (headers : HeaderMap) (authoritative_host : option str)
    (upstream_chosen : Upstream) (upstream_candidates : UpstreamCandidates) (trusted : list IpNet)
    : result anyhow HeaderMap :=
  let options := uc_options upstream_candidates in
  headers ←
    (if bool_decide (SetUpstreamHost ∈ options) && negb (bool_decide (KeepOriginalHost ∈ options))
     then override_host_header headers (host_header upstream_chosen) else Ok headers);
  let headers :=
    if bool_decide (UpgradeInsecureRequests ∈ options)
    then or_insert_static headers UPGRADE_INSECURE_REQUESTS (B "1") else headers in
  if bool_decide (ForwardedHeader ∈ options) && negb (hm_contains_key headers FORWARDED) then
    chain ← map_err ForwardedParse (extract_forwarding_chain_from_headers headers authoritative_host);
    match chain with
    | None => Ok headers
    | Some forwarding_chain =>
        match generate_forwarded_header (reduce_trusted_proxy_chain forwarding_chain trusted) with
        | Ok forwarded_value => add_header_entry_overwrite_if_exist headers FORWARDED forwarded_value
        | Err _ => Ok headers
        end
    end
  else Ok headers.

(** ** [sticky_cookie.rs] *)

(** The cookies of all the [Cookie] lines. *)
Definition cookie_pairs (headers : HeaderMap) : list str :=
  concat (map (fun v => map trim (split_char SEMICOLON (default [] (hv_to_str v))))
            (hm_get_all headers COOKIE)).

Definition takeout_sticky_cookie_lb_context (now : Z) (headers : HeaderMap)
    (sticky_config : StickyCookieConfig) (cipher : Cipher)
    : result anyhow (HeaderMap * option LoadBalanceContext) :=
  let expected_cookie_name := cc_name sticky_config in
  if negb (hm_contains_key headers COOKIE) then Ok (headers, None)
  else
    let is_sticky := starts_with (cc_name_prefix sticky_config) in
    let sticky := List.filter is_sticky (cookie_pairs headers) in
    let without_sticky := List.filter (fun c => negb (is_sticky c)) (cookie_pairs headers) in
    match sticky with
    | [] => Ok (headers, None)
    | first_sticky_cookie :: rest =>
        let multiple_sticky := negb (bool_decide (rest = [])) in
        let cookies_passed_to_upstream := join (B "; ") without_sticky in
        let headers := hm_remove headers COOKIE in
        headers ←
          (if bool_decide (cookies_passed_to_upstream = []) then Ok headers
           else v ← ok_or (hv_from_str cookies_passed_to_upstream) HeaderValueError;
                Ok (hm_insert headers COOKIE v));
        if multiple_sticky then Ok (headers, None)
        else
          match StickyCookieValue_try_from first_sticky_cookie expected_cookie_name with
          | Err _ => Ok (headers, None)
          | Ok raw_sticky_cookie =>
              match open_server_id cipher (cc_aad sticky_config) (cv_value raw_sticky_cookie) now with
              | None => Ok (headers, None)
              | Some server_id =>
                  Ok (headers, Some {| sticky_cookie :=
                    {| sc_value := {| cv_name := expected_cookie_name; cv_value := server_id |};
                       sc_info := None |} |})
              end
          end
    end.

(** The value of a [Set-Cookie] line of the sticky cookie is replaced in place; when
    there is none, a line is appended. *)
Definition set_sticky_cookie_lb_context (now : Z) (nonce : str) (headers : HeaderMap)
    (context_from_lb : LoadBalanceContext) (sticky_config : StickyCookieConfig) (secure : bool)
    (cipher : Cipher) : result anyhow HeaderMap :=
  let cookie := sticky_cookie context_from_lb in
  cookie_info ← ok_or (sc_info cookie) NoCookieMetadata;
  sealed_value ← map_err (fun _ => SealError)
    (seal_server_id nonce cipher (cc_aad sticky_config) (cv_value (sc_value cookie)) (expires cookie_info));
  sticky_cookie_string ← map_err (fun _ => SetCookieError)
    (to_set_cookie_value_with_value cookie secure sealed_value now);
  new_header_val ← ok_or (hv_from_str sticky_cookie_string) HeaderValueError;
  if negb (hm_contains_key headers SET_COOKIE) then Ok (hm_insert headers SET_COOKIE new_header_val)
  else
    let is_ours e := starts_with (cc_name_prefix sticky_config) (default [] (hv_to_str e)) in
    if existsb is_ours (hm_get_all headers SET_COOKIE)
    then Ok (hm_map_values headers SET_COOKIE (fun e => if is_ours e then new_header_val else e))
    else Ok (hm_append headers SET_COOKIE new_header_val).
End header_ops.
