(* ===== verification/RequestOps.v ===== *)
(** * Requests ([message_handler/request_ops.rs], [http_result.rs], [synthetic_response.rs])

    Requests and responses without their bodies, host inspection, the request line sent
    upstream, and the synthetic responses of the error paths. *)

From S2P Require Import Prelude RustStr RustNet HttpIface ForwardedSyntax HeaderCommon Globals.
From S2P Require Import HealthCheck StickyCookie NameExp LoadBalance Backend.

(** ** Messages *)

Inductive Version := HTTP_09 | HTTP_10 | HTTP_11 | HTTP_2 | HTTP_3.

#[export] Instance Version_eq_dec : EqDecision Version.
Proof. solve_decision. Defined.

(** ** Errors of the handler and their status codes ([http_result.rs]) *)

Inductive HttpError :=
| InvalidHostInRequestHeader
| SniHostInconsistency
| NoMatchingBackendApp
| FailedToRedirect
| NoUpstreamCandidates
| FailedToGenerateUpstreamRequest (e : anyhow)
| FailedToGetResponseFromBackend
| FailedToAddSetCookeInResponse
| FailedToGenerateDownstreamResponse (e : anyhow)
| FailedToUpgrade
| PayloadTooLarge
| Other.

Definition status_from (e : HttpError) : Z :=
  match e with
  | InvalidHostInRequestHeader => 400
  | SniHostInconsistency => 421
  | NoMatchingBackendApp => 503
  | FailedToRedirect => 500
  | NoUpstreamCandidates => 404
  | FailedToGenerateUpstreamRequest _ => 500
  | FailedToAddSetCookeInResponse => 500
  | FailedToGenerateDownstreamResponse _ => 500
  | FailedToUpgrade => 500
  | FailedToGetResponseFromBackend => 502
  | PayloadTooLarge => 413
  | Other => 500
  end.

Section request_ops.
Context `{HttpApi}.

(** A request: [effective_uri] is the [ClientFacingEffectiveUri] extension. *)
Record Request := {
  rq_method : str;
  rq_uri : Uri;
  rq_version : Version;
  rq_headers : HeaderMap;
  effective_uri : option Uri
}.

Record Response := { rs_status : Z; rs_headers : HeaderMap }.

Definition with_headers (req : Request) (h : HeaderMap) : Request :=
  {| rq_method := rq_method req; rq_uri := rq_uri req; rq_version := rq_version req;
     rq_headers := h; effective_uri := effective_uri req |}.

Definition with_version (req : Request) (v : Version) : Request :=
  {| rq_method := rq_method req; rq_uri := rq_uri req; rq_version := v;
     rq_headers := rq_headers req; effective_uri := effective_uri req |}.

Definition with_uri (req : Request) (u : Uri) : Request :=
  {| rq_method := rq_method req; rq_uri := u; rq_version := rq_version req;
     rq_headers := rq_headers req; effective_uri := effective_uri req |}.

Definition with_effective_uri (req : Request) (u : Uri) : Request :=
  {| rq_method := rq_method req; rq_uri := rq_uri req; rq_version := rq_version req;
     rq_headers := rq_headers req; effective_uri := Some u |}.

(** ** Host inspection *)

(** The bytes in front of the first [c], or all of them. *)
Definition before (c : byte) (v : str) : str := take (default (length v) (position c v)) v.

Definition drop_port (v : str) : str :=
  match strip_prefix (B "[") v with
  | Some rest => before RBRACKET rest
  | None =>
      if (2 <=? count_byte COLON v)%nat then v
      else to_ascii_lowercase (before COLON v)
  end.

Definition inspect_parse_host (req : Request) : result anyhow str :=
  let headers_host := (fun v => drop_port (hv_as_bytes v)) <$> hm_get (rq_headers req) HOST in
  let uri_host := drop_port <$> uri_host (rq_uri req) in
  match headers_host, uri_host with
  | Some hh, Some hu => _ ← ensure (bool_decide (hh = hu)) HostMismatch; Ok hh
  | Some hh, None => Ok hh
  | None, Some hu => Ok hu
  | None, None => Err NoValidHost
  end.

(** ** The request line *)

Definition apply_version_option (req : Request) (opt : UpstreamOption) : Request :=
  match opt with
  | ForceHttp11Upstream => with_version req HTTP_11
  | ForceHttp2Upstream => with_version req HTTP_2
  | _ => req
  end.

Definition update_request_line (req : Request) (upstream_chosen : Upstream)
    (upstream_candidates : UpstreamCandidates) : Request :=
  if bool_decide (((fun v => starts_with (B "application/grpc") (hv_as_bytes v))
                     <$> hm_get (rq_headers req) CONTENT_TYPE) = Some true)
  then with_version req HTTP_2
  else
    let req :=
      if bool_decide (uri_scheme_str (u_uri upstream_chosen) = Some (B "http")) then with_version req HTTP_11
      else if bool_decide (rq_version req = HTTP_3) then with_version req HTTP_2
      else req in
    fold_left apply_version_option (uc_options upstream_candidates) req.

(** ** Synthetic responses *)

Definition synthetic_error_response (status_code : Z) : Response :=
  {| rs_status := status_code; rs_headers := hm_empty |}.

Definition synthetic_error_response_with_close (status_code : Z)
    (request_version : Version) : Response :=
  {| rs_status := status_code;
     rs_headers :=
       match request_version with
       | HTTP_10 | HTTP_11 => insert_static hm_empty CONNECTION (B "close")
       | _ => hm_empty
       end |}.

Definition secure_redirection_response (server_name : ServerName) (tls_port : option Z) (req : Request) : result HttpError Response :=
  let server_name := from_utf8_lossy (sn_inner server_name) in
  let pq := default [] (uri_path_and_query (rq_uri req)) in
  let authority :=
    match tls_port with
    | None => server_name
    | Some p => if p =? 443 then server_name else server_name ++ [COLON] ++ show_dec p
    end in
  dest_uri ← ok_or (uri_build (Some (B "https")) (Some authority) (Some pq)) FailedToRedirect;
  location ← ok_or (hv_from_str (uri_to_string dest_uri)) FailedToRedirect;
  Ok {| rs_status := 301; rs_headers := hm_insert hm_empty (B "location") location |}.
End request_ops.
