(* ===== verification/Handler.v ===== *)
(** * The HTTP message handler ([message_handler/handler_manipulate_messages.rs],
      [handler_main.rs])

    What happens to one request: host inspection, checks, choice of application, route
    and upstream, rewriting of the request, the exchange with the upstream, and the
    response. The forwarder (the exchange with the upstream, with or without the cache)
    is the argument [forwarder]. Clocks, random draws, nonces and the health flags a
    selection reads are the fields of [Env]. Access logging is left out; [None] stands
    for a panic. *)

From S2P Require Import Prelude RustStr RustNet HttpIface ForwardedSyntax HeaderCommon.
From S2P Require Import Forwarding Globals HealthCheck StickyCookie NameExp LoadBalance Backend.
From S2P Require Import HeaderOps RequestOps.

Section handler.
Context `{HttpApi} `{IpNetApi} `{CryptoApi} `{ClockApi}.

(** What the request reads from its surroundings. *)
Record Env := {
  now_open : Z;          (* when the request's cookie is opened *)
  now_issue : Z;         (* when the balancer issues a cookie *)
  now_set : Z;           (* when the response's cookie is rendered *)
  random_range : Z -> Z;
  fresh_nonce : str;
  health_reads : UpstreamCandidates -> Reads
}.

(** The part of [Globals] the handler uses. *)
Record Globals := {
  proxy_config : ProxyConfig;
  sticky_cookie_cipher : option Cipher
}.

Record HandlerContext := {
  context_lb : option LoadBalanceContext;
  sticky_cookie_secure : bool;
  sticky_cookie_config : option StickyCookieConfig
}.

(** ** Helpers of the request rewriting *)

Definition te_contains_trailers (te : HeaderValue) : bool :=
  existsb (fun x => eq_ignore_ascii_case x (B "trailers"))
    (split_on (fun b => (b =? COMMA) || (b =? SPACE) || (b =? 9)) (hv_as_bytes te)).

Definition h3_alt_svc_port (cfg : ProxyConfig) (backend_mutual_tls : option bool)
    (is_secure_transport : bool) : option Z :=
  if http3 cfg && is_secure_transport && bool_decide (backend_mutual_tls = Some false)
  then public_https_port cfg else None.

Definition rebuild_path_and_query (req_uri : Uri) (replace_path : option PathName)
    (matched_path : PathName) : result anyhow str :=
  match replace_path with
  | None => Ok (default (B "/") (uri_path_and_query req_uri))
  | Some new_path =>
      let org_pq := default (B "/") (uri_path_and_query req_uri) in
      let matched := pn_inner matched_path in
      _ ← ensure (not_empty matched && (length matched <=? length org_pq)%nat) BrokenPathAndQuery;
      ok_or (pq_try_from (pn_inner new_path ++ drop (length matched) org_pq)) UriError
  end.

Definition insert_client_facing_effective_uri (req : Request) (scheme : str) (authority : option str)
    (original_uri : Uri) : Request :=
  match build_client_facing_effective_uri scheme authority original_uri with
  | Some u => with_effective_uri req u
  | None => req
  end.

(** ** The response sent downstream *)

Definition generate_response_forwarded (g : Globals) (response : Response) (backend_app : BackendApp)
    (is_secure_transport : bool) : result anyhow Response :=
  let headers := remove_hop_header (remove_connection_header (rs_headers response)) in
  headers ← add_header_entry_overwrite_if_exist headers SERVER RESPONSE_HEADER_SERVER;
  headers ←
    match h3_alt_svc_port (proxy_config g) (ba_mutual_tls backend_app) is_secure_transport with
    | Some port =>
        add_header_entry_overwrite_if_exist headers ALT_SVC
          (B "h3=" ++ [DQUOTE] ++ B ":" ++ show_dec port ++ [DQUOTE] ++ B "; ma="
             ++ show_dec (h3_alt_svc_max_age (proxy_config g)))
    | None => Ok (hm_remove headers ALT_SVC)
    end;
  Ok {| rs_status := rs_status response; rs_headers := headers |}.

(** ** The request sent upstream *)

(** What the first half of [generate_request_forwarded] computes: the request with its
    forwarding headers and host, the client-visible scheme, and what the balancer gets. *)
Record Prepared := {
  pr_req : Request;
  pr_scheme : str;
  pr_secure : bool;
  pr_authority : option str;
  pr_context : option LoadBalanceContext;
  pr_config : option StickyCookieConfig
}.

Definition client_authority (req : Request) : option str :=
  ok (host_from_uri_or_host_header (rq_uri req) (hm_get (rq_headers req) HOST)).

Definition prepare_request (env : Env) (g : Globals) (client_addr listen_addr : SocketAddr)
    (req : Request) (upstream_candidates : UpstreamCandidates) (tls_enabled : bool)
    : result anyhow Prepared :=
  let trusted := trusted_forwarded_proxies (proxy_config g) in
  let contains_te_trailers :=
    match hm_get (rq_headers req) TE with Some te => te_contains_trailers te | None => false end in
  let original_uri := rq_uri req in
  let original_host_header := hm_get (rq_headers req) HOST in
  let authoritative_host := client_authority req in
  let headers := remove_hop_header (remove_connection_header (rq_headers req)) in
  let client_scheme := client_visible_scheme tls_enabled client_addr headers trusted in
  let secure := client_visible_secure tls_enabled client_addr headers trusted in
  headers ← add_forwarding_header headers client_addr listen_addr tls_enabled original_uri
              authoritative_host trusted;
  let headers := if contains_te_trailers then insert_static headers TE (B "trailers") else headers in
  headers ←
    match original_host_header with
    | Some _ => Ok headers
    | None =>
        org_host ← ok_or (uri_host original_uri) InvalidRequest;
        v ← ok_or (hv_from_str org_host) HeaderValueError;
        Ok (hm_insert headers HOST v)
    end;
  match uc_load_balance upstream_candidates with
  | StickyRoundRobin lb =>
      cipher ← ok_or (sticky_cookie_cipher g) NoCipher;
      '(headers, ctx) ← takeout_sticky_cookie_lb_context (now_open env) headers (sticky_config lb) cipher;
      Ok {| pr_req := with_headers req headers; pr_scheme := client_scheme; pr_secure := secure;
            pr_authority := authoritative_host; pr_context := ctx; pr_config := Some (sticky_config lb) |}
  | _ =>
      Ok {| pr_req := with_headers req headers; pr_scheme := client_scheme; pr_secure := secure;
            pr_authority := authoritative_host; pr_context := None; pr_config := None |}
  end.

(** The second half, once the upstream is chosen. *)
Definition finish_request (g : Globals) (p : Prepared) (upgrade : option str)
    (upstream_candidates : UpstreamCandidates) (fallback_host : option ServerName)
    (upstream_chosen : Upstream) : result anyhow Request :=
  let req := pr_req p in
  let original_uri := rq_uri req in
  headers ← apply_upstream_options_to_header (rq_headers req) (pr_authority p) upstream_chosen
              upstream_candidates (trusted_forwarded_proxies (proxy_config g));
  headers ←
    match fallback_host with
    | Some default_app_host => apply_default_app_host_rewrite headers default_app_host
    | None => Ok headers
    end;
  scheme ← ok_or (uri_scheme_str (u_uri upstream_chosen)) BrokenUpstreamUri;
  authority ← ok_or (uri_authority (u_uri upstream_chosen)) BrokenUpstreamUri;
  new_pq ← rebuild_path_and_query original_uri (uc_replace_path upstream_candidates)
             (uc_path upstream_candidates);
  new_uri ← ok_or (uri_build (Some scheme) (Some authority) (Some new_pq)) UriError;
  let req := with_uri (with_headers req headers) new_uri in
  req ←
    match upgrade with
    | Some v =>
        u ← ok_or (hv_from_str v) HeaderValueError;
        Ok (with_headers req (insert_static (hm_insert (rq_headers req) UPGRADE u) CONNECTION (B "upgrade")))
    | None => Ok (update_request_line req upstream_chosen upstream_candidates)
    end;
  Ok (insert_client_facing_effective_uri req (pr_scheme p) (pr_authority p) original_uri).

(** The balancer advances also when the rest fails. *)
Definition generate_request_forwarded (env : Env) (g : Globals) (client_addr listen_addr : SocketAddr)
    (req : Request) (upgrade : option str) (upstream_candidates : UpstreamCandidates)
    (tls_enabled : bool) (fallback_host : option ServerName)
    : option (UpstreamCandidates * result anyhow (Request * HandlerContext)) :=
  match prepare_request env g client_addr listen_addr req upstream_candidates tls_enabled with
  | Err e => Some (upstream_candidates, Err e)
  | Ok p =>
      '(next, (chosen, context_from_lb)) ←
        UpstreamCandidates_get (now_issue env) (random_range env) upstream_candidates (pr_context p)
          (health_reads env upstream_candidates);
      Some (next,
        upstream_chosen ← ok_or chosen NoUpstream;
        req ← finish_request g p upgrade upstream_candidates fallback_host upstream_chosen;
        Ok (req, {| context_lb := context_from_lb; sticky_cookie_secure := pr_secure p;
                    sticky_cookie_config := pr_config p |}))
  end.

(** ** [handle_request_inner] *)

Definition check_content_length_limit (req : Request) (limit : option Z) : result HttpError () :=
  match limit with
  | None => Ok ()
  | Some limit =>
      match hm_get (rq_headers req) CONTENT_LENGTH with
      | None => Ok ()
      | Some value =>
          match hv_to_str value ≫= parse_uint u64_max with
          | None => Ok ()
          | Some n => if limit <? n then Err PayloadTooLarge else Ok ()
          end
      end
  end.

(** The checks in front of the choice of an application. *)
Definition inspect_request (g : Globals) (req : Request) (tls_enabled : bool) (tls_server_name : option ServerName)
    : result HttpError ServerName :=
  host ← map_err (fun _ => InvalidHostInRequestHeader) (inspect_parse_host req);
  let server_name := ServerName_from host in
  _ ← (if tls_enabled && sni_consistency (proxy_config g)
       then ensure (bool_decide (server_name = default {| sn_inner := [] |} tls_server_name))
              SniHostInconsistency
       else Ok ());
  _ ← check_content_length_limit req (request_max_body_size (proxy_config g));
  Ok server_name.

(** The application, and whether it is the default one; [None] is the panic of the
    [unwrap] on the default application. *)
Definition select_app (m : BackendAppManager) (server_name : ServerName) (tls_enabled : bool)
    : option (result HttpError (ServerName * BackendApp * bool)) :=
  match map_find server_name (apps m) with
  | Some app => Some (Ok (server_name, app, false))
  | None =>
      if tls_enabled then Some (Err NoMatchingBackendApp)
      else
        match default_server_name m with
        | None => Some (Err NoMatchingBackendApp)
        | Some d => app ← map_find d (apps m); Some (Ok (d, app, true))
        end
  end.

(** The counters of the balancers live in the shared manager. *)
Definition put_candidates (m : BackendAppManager) (key : ServerName) (app : BackendApp)
    (c : UpstreamCandidates) : BackendAppManager :=
  {| apps := map_put key
       {| ba_app_name := ba_app_name app; ba_server_name := ba_server_name app;
          path_manager := {| pm_inner := map_put (uc_path c) c (pm_inner (path_manager app)) |};
          ba_https_redirection := ba_https_redirection app; ba_mutual_tls := ba_mutual_tls app |} (apps m);
     default_server_name := default_server_name m |}.

(** What follows the answer of the upstream: the response, and whether the two
    connections are joined as a tunnel. *)
Definition finish_response (env : Env) (g : Globals) (app : BackendApp) (tls_enabled : bool)
    (upgrade_in_request : option str) (ctx : HandlerContext) (res_backend : Response)
    : result HttpError (Response * bool) :=
  headers ←
    match context_lb ctx with
    | None => Ok (rs_headers res_backend)
    | Some context_from_lb =>
        cfg ← ok_or (sticky_cookie_config ctx) FailedToAddSetCookeInResponse;
        cipher ← ok_or (sticky_cookie_cipher g) FailedToAddSetCookeInResponse;
        map_err (fun _ => FailedToAddSetCookeInResponse)
          (set_sticky_cookie_lb_context (now_set env) (fresh_nonce env) (rs_headers res_backend)
             context_from_lb cfg (sticky_cookie_secure ctx) cipher)
    end;
  let res_backend := {| rs_status := rs_status res_backend; rs_headers := headers |} in
  if negb (rs_status res_backend =? 101) then
    res ← map_err FailedToGenerateDownstreamResponse
            (generate_response_forwarded g res_backend app tls_enabled);
    Ok (res, false)
  else
    match upgrade_in_request, extract_upgrade (rs_headers res_backend) with
    | Some u_req, Some u_res =>
        if eq_ignore_ascii_case u_req u_res then Ok (res_backend, true) else Err FailedToUpgrade
    | _, _ => Err FailedToUpgrade
    end.

(** Up to the upstream contact: an answer of the proxy itself, or the request to send. *)
Inductive Decision :=
| Answer (r : result HttpError (Response * bool))
| Forward (app : BackendApp) (upgrade_in_request : option str) (ctx : HandlerContext) (req' : Request).

Definition route_request (env : Env) (g : Globals) (m : BackendAppManager) (req : Request)
    (client_addr listen_addr : SocketAddr) (tls_enabled : bool) (tls_server_name : option ServerName)
    : option (BackendAppManager * Decision) :=
  match inspect_request g req tls_enabled tls_server_name with
  | Err e => Some (m, Answer (Err e))
  | Ok server_name =>
      match select_app m server_name tls_enabled with
      | None => None
      | Some (Err e) => Some (m, Answer (Err e))
      | Some (Ok (key, app, fallback_to_default_app)) =>
          if negb tls_enabled && default false (ba_https_redirection app) then
            Some (m, Answer (res ← secure_redirection_response (ba_server_name app)
                                     (public_https_port (proxy_config g)) req;
                             Ok (res, false)))
          else
            match PathManager_get (path_manager app) (uri_path (rq_uri req)) with
            | None => Some (m, Answer (Err NoUpstreamCandidates))
            | Some c =>
                let upgrade := extract_upgrade (rq_headers req) in
                if bool_decide (is_Some upgrade) && negb (bool_decide (rq_version req = HTTP_11))
                then Some (m, Answer (Err FailedToUpgrade))
                else
                  '(c', r) ← generate_request_forwarded env g client_addr listen_addr req upgrade c tls_enabled
                               (if fallback_to_default_app then Some (ba_server_name app) else None);
                  Some (put_candidates m key app c',
                        match r with
                        | Err e => Answer (Err (FailedToGenerateUpstreamRequest e))
                        | Ok (req', ctx) => Forward app upgrade ctx req'
                        end)
            end
      end
  end.

Definition handle_request_inner (env : Env) (g : Globals) (forwarder : Request -> option Response)
    (m : BackendAppManager) (req : Request) (client_addr listen_addr : SocketAddr)
    (tls_enabled : bool) (tls_server_name : option ServerName)
    : option (BackendAppManager * result HttpError (Response * bool)) :=
  '(m', d) ← route_request env g m req client_addr listen_addr tls_enabled tls_server_name;
  Some (m',
    match d with
    | Answer r => r
    | Forward app upgrade ctx req' =>
        res ← ok_or (forwarder req') FailedToGetResponseFromBackend;
        finish_response env g app tls_enabled upgrade ctx res
    end).

(** [handle_request]: an error becomes a synthetic response. *)
Definition handle_request (env : Env) (g : Globals) (forwarder : Request -> option Response)
    (m : BackendAppManager) (req : Request) (client_addr listen_addr : SocketAddr)
    (tls_enabled : bool) (tls_server_name : option ServerName)
    : option (BackendAppManager * Response) :=
  let request_version := rq_version req in
  '(m', r) ← handle_request_inner env g forwarder m req client_addr listen_addr tls_enabled tls_server_name;
  Some (m',
    match r with
    | Ok (v, _) => v
    | Err PayloadTooLarge => synthetic_error_response_with_close (status_from PayloadTooLarge) request_version
    | Err e => synthetic_error_response (status_from e)
    end).
End handler.
