(* ===== verification/AccessLog.v ===== *)
(** * The access log ([message_handler/http_log.rs])

    One line per request. With redaction enabled the values of query parameters are
    masked when the record is made, for the request and for the upstream it was sent to.
    The text of HTTP versions and status codes is the [http] crate's. *)

From S2P Require Import Prelude RustStr RustNet HttpIface ForwardedSyntax HeaderCommon RequestOps.

Definition USER_AGENT : str := B "user-agent".
Definition REDACTED : str := B "<redacted>".

(** ** Query strings *)

(** One segment between [&]. *)
Definition redact_segment (segment : str) : str :=
  if (length segment =? 0)%nat then []
  else match split_once EQUALS segment with
       | Some (key, _) => key ++ [EQUALS] ++ REDACTED
       | None => REDACTED
       end.

Definition redact_query_values (path_and_query : str) : str :=
  match split_once QMARK path_and_query with
  | None => path_and_query
  | Some (path, query) =>
      let prefix := path ++ [QMARK] in
      if (length query =? 0)%nat then path_and_query
      else prefix ++ join [AMP] (map redact_segment (split_char AMP query))
  end.

(** ** Records *)

(** [SocketAddr]'s [Display]. *)
Definition show_socket (a : SocketAddr) : str :=
  match sa_ip a with
  | V4 _ _ _ _ => show_ip (sa_ip a) ++ [COLON] ++ show_dec (sa_port a)
  | V6 _ => [LBRACKET] ++ show_ip (sa_ip a) ++ [RBRACKET; COLON] ++ show_dec (sa_port a)
  end.

Section log.
Context `{HttpApi}.

(** [{:?}] of a version and [Display] of a status code. *)
Context (debug_version : Version -> str) (show_status : Z -> str).

Inductive LoggedUri :=
| UriVerbatim (uri : Uri)
| UriRedacted (host p_and_q target : str).

Inductive LoggedUpstream :=
| UpstreamVerbatim (uri : Uri)
| UpstreamRedacted (text : str).

Definition redact_upstream (upstream : Uri) : str :=
  match uri_scheme_str upstream, uri_authority upstream with
  | Some scheme, Some authority =>
      scheme ++ B "://" ++ authority ++
        match uri_path_and_query upstream with Some p_and_q => redact_query_values p_and_q | None => [] end
  | _, _ => redact_query_values (uri_to_string upstream)
  end.

Record HttpMessageLog := {
  lg_client_addr : option SocketAddr;
  lg_method : str;
  lg_version : Version;
  lg_host_header : option HeaderValue;
  lg_ua : option HeaderValue;
  lg_xff : option HeaderValue;
  lg_forwarded : option HeaderValue;
  lg_status : option Z;
  lg_uri : LoggedUri;
  lg_upstream : option LoggedUpstream;
  lg_redact_query : bool
}.

(** Host, path and query, and target, from a URI and the [Host] header. *)
Definition uri_target (uri : Uri) (host : str) : str :=
  let scheme := default [] (uri_scheme_str uri) in
  let path := uri_path uri in
  if not_empty scheme && not_empty host then scheme ++ B "://" ++ host ++ path else path.

Definition HttpMessageLog_new (req : Request) (redact_query : bool) : HttpMessageLog :=
  let uri := rq_uri req in
  {| lg_client_addr := None;
     lg_method := rq_method req;
     lg_version := rq_version req;
     lg_host_header := hm_get (rq_headers req) HOST;
     lg_ua := hm_get (rq_headers req) USER_AGENT;
     lg_xff := hm_get (rq_headers req) X_FORWARDED_FOR;
     lg_forwarded := hm_get (rq_headers req) FORWARDED;
     lg_status := None;
     lg_uri :=
       if redact_query then
         let host := default [] (ok (host_from_uri_or_host_header uri (hm_get (rq_headers req) HOST))) in
         UriRedacted host (redact_query_values (default [] (uri_path_and_query uri))) (uri_target uri host)
       else UriVerbatim uri;
     lg_upstream := None;
     lg_redact_query := redact_query |}.

Definition render_request_uri (self : HttpMessageLog) : str * str * str :=
  match lg_uri self with
  | UriVerbatim uri =>
      let host := default [] (ok (host_from_uri_or_host_header uri (lg_host_header self))) in
      (host, default [] (uri_path_and_query uri), uri_target uri host)
  | UriRedacted host p_and_q target => (host, p_and_q, target)
  end.

Definition header_text (v : option HeaderValue) : str := default [] (v ≫= hv_to_str).

(** The line: host [<-] client [--] method, path and query, version [--] status [--] target,
    user agent, X-Forwarded-For, Forwarded if there is one, upstream. *)
Definition HttpMessageLog_fmt (self : HttpMessageLog) : str :=
  let '(host, p_and_q, target) := render_request_uri self in
  let forwarded := header_text (lg_forwarded self) in
  let quoted s := [DQUOTE] ++ s ++ [DQUOTE] in
  let forwarded_part := if not_empty forwarded then [SPACE] ++ quoted forwarded else [] in
  let upstream :=
    match lg_upstream self with
    | None => []
    | Some (UpstreamVerbatim u) => uri_to_string u
    | Some (UpstreamRedacted s) => s
    end in
  host ++ B " <- " ++ from_option show_socket [] (lg_client_addr self) ++ B " -- " ++ lg_method self ++
    [SPACE] ++ p_and_q ++ [SPACE] ++ debug_version (lg_version self) ++ B " -- " ++
    from_option show_status [] (lg_status self) ++ B " -- " ++ target ++ [SPACE] ++
    quoted (header_text (lg_ua self)) ++ B ", " ++ quoted (header_text (lg_xff self)) ++
    forwarded_part ++ [SPACE] ++ quoted upstream.

(** ** Setters *)

Definition log_client_addr (self : HttpMessageLog) (client_addr : SocketAddr) : HttpMessageLog :=
  {| lg_client_addr := Some (to_canonical client_addr); lg_method := lg_method self; lg_version := lg_version self;
     lg_host_header := lg_host_header self; lg_ua := lg_ua self; lg_xff := lg_xff self;
     lg_forwarded := lg_forwarded self; lg_status := lg_status self; lg_uri := lg_uri self;
     lg_upstream := lg_upstream self; lg_redact_query := lg_redact_query self |}.

Definition log_status_code (self : HttpMessageLog) (status_code : Z) : HttpMessageLog :=
  {| lg_client_addr := lg_client_addr self; lg_method := lg_method self; lg_version := lg_version self;
     lg_host_header := lg_host_header self; lg_ua := lg_ua self; lg_xff := lg_xff self;
     lg_forwarded := lg_forwarded self; lg_status := Some status_code; lg_uri := lg_uri self;
     lg_upstream := lg_upstream self; lg_redact_query := lg_redact_query self |}.

Definition log_xff (self : HttpMessageLog) (xff : option HeaderValue) : HttpMessageLog :=
  {| lg_client_addr := lg_client_addr self; lg_method := lg_method self; lg_version := lg_version self;
     lg_host_header := lg_host_header self; lg_ua := lg_ua self; lg_xff := xff;
     lg_forwarded := lg_forwarded self; lg_status := lg_status self; lg_uri := lg_uri self;
     lg_upstream := lg_upstream self; lg_redact_query := lg_redact_query self |}.

Definition log_upstream (self : HttpMessageLog) (upstream : Uri) : HttpMessageLog :=
  {| lg_client_addr := lg_client_addr self; lg_method := lg_method self; lg_version := lg_version self;
     lg_host_header := lg_host_header self; lg_ua := lg_ua self; lg_xff := lg_xff self;
     lg_forwarded := lg_forwarded self; lg_status := lg_status self; lg_uri := lg_uri self;
     lg_upstream := Some (if lg_redact_query self then UpstreamRedacted (redact_upstream upstream)
                          else UpstreamVerbatim upstream);
     lg_redact_query := lg_redact_query self |}.

(** What [handle_request] logs: the request, the client, the request that was sent
    upstream if it came to that, and the status. *)
Definition request_log (redact : bool) (req : Request) (client : SocketAddr) (sent : option Request) (status : Z)
    : HttpMessageLog :=
  let l := log_client_addr (HttpMessageLog_new req redact) client in
  let l :=
    match sent with
    | Some up => log_upstream (log_xff l (hm_get (rq_headers up) X_FORWARDED_FOR)) (rq_uri up)
    | None => l
    end in
  log_status_code l status.
End log.

(** ** What a query gives away

    A query without its values: the parameter names, and where there was something that
    is not a parameter. *)

Inductive Segment := Blank | Bare | Named (key : str).

Definition segment_shape (segment : str) : Segment :=
  if (length segment =? 0)%nat then Blank
  else match split_once EQUALS segment with Some (key, _) => Named key | None => Bare end.

Definition query_shape (s : str) : str * option (list Segment) :=
  match split_once QMARK s with
  | None => (s, None)
  | Some (path, query) => (path, Some (map segment_shape (split_char AMP query)))
  end.

Definition render_segment (g : Segment) : str :=
  match g with Blank => [] | Bare => REDACTED | Named key => key ++ [EQUALS] ++ REDACTED end.

Definition render_shape (h : str * option (list Segment)) : str :=
  match snd h with
  | None => fst h
  | Some segments => fst h ++ [QMARK] ++ join [AMP] (map render_segment segments)
  end.

Lemma redact_segment_shape segment : redact_segment segment = render_segment (segment_shape segment).
Proof. unfold redact_segment, segment_shape. case_match; [done|]. by destruct (split_once EQUALS segment) as [[]|]. Qed.

(** The redacted text is a function of the shape. *)
Lemma redact_shape s : redact_query_values s = render_shape (query_shape s).
Proof.
  unfold redact_query_values, query_shape. destruct (split_once QMARK s) as [[path query]|] eqn:E; [|done].
  unfold render_shape. cbn [fst snd]. rewrite map_map, (map_ext _ _ redact_segment_shape), <- app_assoc.
  destruct (Nat.eqb_spec (length query) 0) as [Hq%nil_length_inv|]; [|done]. subst query.
  apply split_once_Some in E as [-> _]. done.
Qed.

Lemma shape_no_amp query g key :
  g ∈ map segment_shape (split_char AMP query) -> g = Named key -> AMP ∉ key /\ EQUALS ∉ key.
Proof.
  intros (seg & -> & Hs)%list_elem_of_fmap. unfold segment_shape. destruct (length seg =? 0)%nat; [done|].
  destruct (split_once EQUALS seg) as [[k v]|] eqn:E; [|done]. intros [= <-].
  apply split_once_Some in E as [-> Hk]. split; [|done]. intros Hin.
  pose proof (split_on_pieces _ _ _ AMP Hs ltac:(apply elem_of_app; by left)) as Hf. done.
Qed.

Lemma segment_shape_render g :
  (forall key, g = Named key -> EQUALS ∉ key) -> segment_shape (render_segment g) = g.
Proof.
  intros Hk. destruct g as [| |key]; [done|done|]. unfold segment_shape, render_segment. cbn [app].
  rewrite (proj2 (split_once_Some EQUALS _ key REDACTED)) by (split; [done|by apply Hk]).
  destruct (Nat.eqb_spec (length (key ++ EQUALS :: REDACTED)) 0) as [El|]; [|done].
  rewrite length_app in El. cbn in El. lia.
Qed.

Lemma segments_split_back query :
  let segments := map segment_shape (split_char AMP query) in
  map segment_shape (split_char AMP (join [AMP] (map render_segment segments))) = segments.
Proof.
  cbn zeta. rewrite split_char_join_pieces.
  - rewrite map_map. rewrite <- (map_id (map segment_shape (split_char AMP query))) at 2.
    apply map_ext_in. intros g Hg%list_elem_of_In. apply segment_shape_render.
    intros key Ek. by eapply shape_no_amp.
  - unfold split_char. destruct (split_on _ query) eqn:Es; [by apply split_on_nonempty in Es|done].
  - apply Forall_forall. intros x (g & -> & Hg)%list_elem_of_fmap Hin.
    assert (AMP ∉ EQUALS :: REDACTED) as Hr by (apply (bool_decide_unpack _); vm_compute; exact I).
    destruct g as [| |key]; cbn [render_segment] in Hin; [by apply elem_of_nil in Hin| |].
    + apply Hr. by right.
    + apply elem_of_app in Hin as [Hin|Hin]; [by destruct (shape_no_amp query _ key Hg eq_refl)|done].
Qed.

(** Redaction keeps the path and the parameter names. *)
Lemma redact_keeps_shape s : query_shape (redact_query_values s) = query_shape s.
Proof.
  rewrite redact_shape. unfold query_shape at 2 3. destruct (split_once QMARK s) as [[path query]|] eqn:E.
  - apply split_once_Some in E as [_ Hpath]. unfold query_shape, render_shape. cbn [fst snd app].
    rewrite (proj2 (split_once_Some QMARK _ path _)) by (split; [done|exact Hpath]). do 2 f_equal. apply segments_split_back.
  - unfold query_shape, render_shape. cbn [fst snd]. by rewrite E.
Qed.

(** ** Requests that differ only in the values of their queries *)

Section alike.
Context `{HttpApi}.
Context (debug_version : Version -> str) (show_status : Z -> str).

Record uri_alike (u v : Uri) : Prop := {
  al_scheme : uri_scheme_str u = uri_scheme_str v;
  al_authority : uri_authority u = uri_authority v;
  al_host : uri_host u = uri_host v;
  al_port : uri_port_u16 u = uri_port_u16 v;
  al_path : uri_path u = uri_path v;
  al_query : query_shape <$> uri_path_and_query u = query_shape <$> uri_path_and_query v;
  al_text : query_shape (uri_to_string u) = query_shape (uri_to_string v)
}.

Record request_alike (r1 r2 : Request) : Prop := {
  al_method : rq_method r1 = rq_method r2;
  al_version : rq_version r1 = rq_version r2;
  al_uri : uri_alike (rq_uri r1) (rq_uri r2);
  al_headers : forall k, k ∈ [HOST; USER_AGENT; X_FORWARDED_FOR; FORWARDED] ->
    hm_get (rq_headers r1) k = hm_get (rq_headers r2) k
}.

Lemma redact_alike_pq u v :
  query_shape <$> u = query_shape <$> v ->
  from_option redact_query_values [] u = from_option redact_query_values [] v.
Proof. destruct u, v; try done. cbn. intros [= E]. by rewrite !redact_shape, E. Qed.

Lemma redact_upstream_alike u v : uri_alike u v -> redact_upstream u = redact_upstream v.
Proof.
  intros [Es Ea _ _ _ Eq Et]. unfold redact_upstream. rewrite Es, Ea.
  assert (redact_query_values (uri_to_string u) = redact_query_values (uri_to_string v)) as -> by (by rewrite !redact_shape, Et).
  destruct (uri_scheme_str v), (uri_authority v); try done.
  pose proof (redact_alike_pq _ _ Eq) as E. by destruct (uri_path_and_query u), (uri_path_and_query v); cbn in E |- *; rewrite ?E.
Qed.

Lemma log_new_alike r1 r2 :
  request_alike r1 r2 -> HttpMessageLog_new r1 true = HttpMessageLog_new r2 true.
Proof.
  intros [Em Ev [Es Ea Eh Ep Epa Eq Et] Ehd]. unfold HttpMessageLog_new.
  rewrite Em, Ev, !(Ehd _) by (apply (bool_decide_unpack _); vm_compute; exact I).
  assert (forall h, host_from_uri_or_host_header (rq_uri r1) h = host_from_uri_or_host_header (rq_uri r2) h) as Ehost
    by (intros h; unfold host_from_uri_or_host_header; by rewrite Eh, Ep).
  assert (forall h, uri_target (rq_uri r1) h = uri_target (rq_uri r2) h) as Etarget
    by (intros h; unfold uri_target; by rewrite Es, Epa).
  assert (redact_query_values (default [] (uri_path_and_query (rq_uri r1)))
        = redact_query_values (default [] (uri_path_and_query (rq_uri r2)))) as Epq.
  { destruct (uri_path_and_query (rq_uri r1)), (uri_path_and_query (rq_uri r2)); cbn in *; try done.
    injection Eq as Eq. by rewrite !redact_shape, Eq. }
  by rewrite Ehost, Etarget, Epq.
Qed.

(** C23: With redaction, the line of a request is the same for all requests that differ
    only in the values of their query parameters, wherever they were sent, so the log gives
    no value away; the path and the names of the parameters stay readable. *)
Theorem access_log_hides_query_values r1 r2 client sent1 sent2 status :
  request_alike r1 r2 -> option_Forall2 request_alike sent1 sent2 ->
  HttpMessageLog_fmt debug_version show_status (request_log true r1 client sent1 status)
    = HttpMessageLog_fmt debug_version show_status (request_log true r2 client sent2 status) /\
  query_shape (snd (fst (render_request_uri (request_log true r1 client sent1 status))))
    = query_shape (default [] (uri_path_and_query (rq_uri r1))).
Proof.
  intros Hr Hs. split.
  - unfold request_log. rewrite (log_new_alike _ _ Hr). f_equal.
    destruct Hs as [up1 up2 [_ _ Hu Hh]|]; [|done].
    rewrite (Hh X_FORWARDED_FOR) by (apply (bool_decide_unpack _); vm_compute; exact I).
    unfold log_upstream. cbn. by rewrite (redact_upstream_alike _ _ Hu).
  - destruct sent1; cbn; apply redact_keeps_shape.
Qed.
End alike.

Module LogExamples.
#[local] Existing Instance Alist.api.

Definition login (token : str) : Request :=
  {| rq_method := B "GET";
     rq_uri := {| Alist.u_scheme := Some (B "https"); Alist.u_authority := Some (B "example.com");
                  Alist.u_path := B "/login"; Alist.u_query := Some (B "user=ann&token=" ++ token) |};
     rq_version := HTTP_11; rq_headers := [(HOST, B "example.com")]; effective_uri := None |}.

Definition client : SocketAddr := {| sa_ip := V4 192 0 2 1; sa_port := 4711 |}.

Lemma login_alike : request_alike (login (B "s3cret")) (login (B "other")).
Proof. split; [done|done|split; vm_compute; reflexivity|intros k Hk; vm_compute; reflexivity]. Qed.

Lemma access_log_hides_query_values_witness :
  HttpMessageLog_fmt (fun _ => B "HTTP/1.1") (fun _ => B "200 OK")
      (request_log true (login (B "s3cret")) client (Some (login (B "s3cret"))) 200)
    = B "example.com <- 192.0.2.1:4711 -- GET /login?user=<redacted>&token=<redacted> HTTP/1.1 -- 200 OK -- https://example.com/login "
        ++ [DQUOTE; DQUOTE] ++ B ", " ++ [DQUOTE; DQUOTE; SPACE; DQUOTE]
        ++ B "https://example.com/login?user=<redacted>&token=<redacted>" ++ [DQUOTE].
Proof.
  destruct (access_log_hides_query_values (fun _ => B "HTTP/1.1") (fun _ => B "200 OK") (login (B "s3cret")) (login (B "other"))
    client (Some (login (B "s3cret"))) (Some (login (B "other"))) 200 login_alike (Some_Forall2 _ _ _ login_alike)) as [E _].
  rewrite E. vm_compute. reflexivity.
Defined.
End LogExamples.
