(* ===== verification/Log.v ===== *)
(** * Logging ([rpxy-bin/src/log.rs])

    The levels and filters of the installed layers, as the files and streams an event is
    written to; the predicate that tells the library whether access lines are wanted; and
    the formatter of the access log file. Events are their metadata and fields; the parser
    of level names and the clock are arguments. *)

From S2P Require Import Prelude RustStr RustNet HttpIface ForwardedSyntax HeaderCommon RequestOps AccessLog.

(** ** Levels and events *)

Inductive Level := ERROR | WARN | INFO | DEBUG | TRACE.

#[export] Instance Level_eq_dec : EqDecision Level.
Proof. solve_decision. Defined.

(** The more verbose a level, the greater. *)
Definition verbosity (l : Level) : Z :=
  match l with ERROR => 0 | WARN => 1 | INFO => 2 | DEBUG => 3 | TRACE => 4 end.

Definition level_le (a b : Level) : bool := verbosity a <=? verbosity b.

Definition level_min (a b : Level) : Level := if level_le a b then a else b.

Record Metadata := { md_name : str; md_target : str; md_level : Level }.

Definition ACCESS_LOG : str := B "rpxy::access".

(** [env!("CARGO_PKG_NAME")] with its hyphens replaced. *)
Definition PKG_NAME : str := B "rpxy".

Definition is_cargo_pkg (m : Metadata) : bool :=
  starts_with (map (fun b => if b =? HYPHEN then 95 else b) PKG_NAME) (md_target m).

(** [str::contains] *)
Fixpoint contains (p s : str) : bool :=
  starts_with p s || match s with [] => false | _ :: r => contains p r end.

(** ** Settings from the environment *)

Definition parse_unsafe_debug_headers (value : option str) : bool :=
  match value with
  | Some v =>
      let v := to_ascii_lowercase (trim v) in
      bool_decide (v = B "1") || bool_decide (v = B "true") || bool_decide (v = B "yes")
  | None => false
  end.

Section level.
(** [Level::from_str] *)
Context (level_from_str : str -> option Level).

Definition parse_log_level (value : option str) : Level := default INFO (value ≫= level_from_str).

Definition access_log_enabled_for_level (log_dir_path : option str) (level : Level) : bool :=
  match log_dir_path with
  | Some _ => true
  | None => level_le INFO level
  end.

(** [rust_log] is the variable [RUST_LOG]. *)
Definition access_log_enabled (rust_log log_dir_path : option str) : bool :=
  access_log_enabled_for_level log_dir_path (parse_log_level rust_log).

(** ** Filters *)

Definition AccessLogFilter_enabled (m : Metadata) : bool :=
  is_cargo_pkg m && contains ACCESS_LOG (md_name m) && level_le (md_level m) INFO.

Definition system_layer (level : Level) (m : Metadata) : bool :=
  (is_cargo_pkg m && negb (bool_decide (md_name m = ACCESS_LOG)) && level_le (md_level m) level)
    || level_le (md_level m) (level_min WARN level).

Definition stdio_layer (level : Level) (m : Metadata) : bool :=
  let debug := negb (level_le level INFO) in
  if debug
  then (is_cargo_pkg m && level_le (md_level m) level) || level_le (md_level m) (level_min INFO level)
  else (is_cargo_pkg m && level_le (md_level m) level) || level_le (md_level m) (level_min WARN level).

(** Where a line can go: [access.log], the system log, the standard output. *)
Inductive Sink := AccessFile | SystemFile | Stdout.

#[export] Instance Sink_eq_dec : EqDecision Sink.
Proof. solve_decision. Defined.

Definition init_file_logger (level : Level) : list (Sink * (Metadata -> bool)) :=
  [(AccessFile, AccessLogFilter_enabled); (SystemFile, system_layer level)].

Definition init_stdio_logger (level : Level) : list (Sink * (Metadata -> bool)) := [(Stdout, stdio_layer level)].

Definition init_logger (rust_log log_dir_path : option str) : list (Sink * (Metadata -> bool)) :=
  let level := parse_log_level rust_log in
  match log_dir_path with
  | None => init_stdio_logger level
  | Some _ => init_file_logger level
  end.

(** An event is written by every layer whose filter admits it. *)
Definition written (layers : list (Sink * (Metadata -> bool))) (m : Metadata) : list Sink :=
  map fst (filter (fun l => snd l m = true) layers).
End level.

(** The event of [HttpMessageLog::output]. *)
Definition access_event : Metadata :=
  {| md_name := ACCESS_LOG; md_target := B "rpxy_lib::message_handler::http_log"; md_level := INFO |}.

(** ** The access log file *)

(** [MessageVisitor]: only the field [message] is written. *)
Definition record_debug (field value : str) : str := if bool_decide (field = B "message") then value else [].

Definition format_event (time : option str) (fields : list (str * str)) : str :=
  default (B "<unknown time>") time ++ [SPACE] ++ concat (map (fun p => record_debug (fst p) (snd p)) fields) ++ [10].

(** ** Lemmas *)

Lemma filter_written layers m s :
  s ∈ written layers m <-> exists f, (s, f) ∈ layers /\ f m = true.
Proof.
  unfold written. rewrite list_elem_of_fmap. split.
  - intros ([s' f] & -> & [Hf Hin]%list_elem_of_filter). by exists f.
  - intros (f & Hin & Hf). exists (s, f). split; [done|]. by apply list_elem_of_filter.
Qed.

(** No byte of a text ends its line. *)
Definition one_line (s : str) : Prop := 10 ∉ s.

#[export] Instance one_line_dec s : Decision (one_line s).
Proof. unfold one_line. apply _. Defined.

Lemma one_line_app s t : one_line (s ++ t) <-> one_line s /\ one_line t.
Proof. unfold one_line. set_solver. Qed.

Lemma one_line_cons c s : one_line (c :: s) <-> c <> 10 /\ one_line s.
Proof. unfold one_line. set_solver. Qed.

Lemma one_line_nil : one_line [].
Proof. apply not_elem_of_nil. Qed.

Lemma one_line_forallb (f : Z -> bool) s : f 10 = false -> forallb f s = true -> one_line s.
Proof. intros Hf Hs H. rewrite forallb_forall in Hs. apply list_elem_of_In, Hs in H. congruence. Qed.

Lemma one_line_dec_text n : 0 <= n -> one_line (show_dec n).
Proof. intros Hn H. by apply show_dec_digit in H. Qed.

Lemma one_line_ip ip : ip_wf ip = true -> one_line (show_ip ip).
Proof. intros H. by apply (one_line_forallb ip_char), show_ip_chars. Qed.

Lemma one_line_incl s t : (forall b, b ∈ s -> b ∈ t) -> one_line t -> one_line s.
Proof. unfold one_line. auto. Qed.

Lemma one_line_join sep (l : list str) :
  one_line sep -> Forall one_line l -> one_line (join sep l).
Proof.
  intros Hs. induction 1 as [|x l Hx Hl IH]; [apply one_line_nil|].
  destruct l as [|y l]; [exact Hx|]. cbn [join] in *. by rewrite !one_line_app.
Qed.

Lemma one_line_pieces c s : one_line s -> Forall one_line (split_char c s).
Proof.
  rewrite <- (join_split_char c s) at 1. induction (split_char c s) as [|x l IH]; [by constructor|].
  destruct l as [|y l]; [intros Hx; by repeat constructor|]. cbn [join] in *. rewrite !one_line_app.
  intros (Hx & _ & Hr). constructor; auto.
Qed.

Create HintDb one_line.
#[export] Hint Resolve one_line_nil one_line_dec_text one_line_ip : one_line.

(** Concatenations, known parts and literals. *)
Ltac one_line :=
  lazymatch goal with
  | |- one_line (_ ++ _) => apply one_line_app; split; one_line
  | |- one_line (_ :: _) => apply one_line_cons; split; [done|one_line]
  | |- one_line [] => apply one_line_nil
  | |- one_line (B _) => apply (bool_decide_unpack _); vm_compute; exact I
  | |- one_line REDACTED => apply (bool_decide_unpack _); vm_compute; exact I
  | |- _ => try solve [auto with one_line]
  end.

Lemma one_line_redact_segment s : one_line s -> one_line (redact_segment s).
Proof.
  intros Hs. unfold redact_segment. case_match; [one_line|].
  destruct (split_once EQUALS s) as [[k v]|] eqn:E; [|one_line].
  apply split_once_Some in E as [-> _]. rewrite one_line_app in Hs. one_line. tauto.
Qed.

Lemma one_line_redact s : one_line s -> one_line (redact_query_values s).
Proof.
  intros Hs. unfold redact_query_values. destruct (split_once QMARK s) as [[p q]|] eqn:E; [|done].
  case_match; [done|]. apply split_once_Some in E as [-> _]. change (QMARK :: q) with ([QMARK] ++ q) in Hs.
  rewrite !one_line_app in Hs. destruct Hs as (Hp & _ & Hq). one_line. apply one_line_join; [one_line|].
  apply Forall_map. eapply Forall_impl; [by apply one_line_pieces|]. apply one_line_redact_segment.
Qed.

#[export] Hint Resolve one_line_redact : one_line.

Section lines.
Context `{HL : HttpLaws}.

(** The texts of a URI are free of control characters. *)
Record plain_uri (u : Uri) : Prop := {
  plain_scheme : one_line (default [] (uri_scheme_str u));
  plain_authority : one_line (default [] (uri_authority u));
  plain_host : one_line (default [] (uri_host u));
  plain_port p : uri_port_u16 u = Some p -> 0 <= p;
  plain_path : one_line (uri_path u);
  plain_pq : one_line (default [] (uri_path_and_query u));
  plain_text : one_line (uri_to_string u)
}.

Lemma one_line_header v : one_line (header_text v).
Proof.
  destruct v as [v|]; cbn; [|apply one_line_nil]. rewrite hv_to_str_visible.
  destruct (forallb is_visible_ascii (hv_as_bytes v)) eqn:E; [|apply one_line_nil].
  by apply (one_line_forallb is_visible_ascii).
Qed.

Lemma one_line_host u h : plain_uri u -> one_line (default [] (ok (host_from_uri_or_host_header u h))).
Proof.
  intros Hu. pose proof (plain_host u Hu) as Hh. pose proof (plain_port u Hu) as Hp.
  unfold host_from_uri_or_host_header. destruct (uri_host u) as [host|]; cbn in *.
  - destruct (uri_port_u16 u) as [p|]; [|done]. pose proof (Hp p eq_refl). one_line.
  - pose proof (one_line_header h) as Ht. destruct h as [h|]; cbn in *; [|apply one_line_nil].
    by destruct (hv_to_str h).
Qed.

Lemma one_line_target u host : plain_uri u -> one_line host -> one_line (uri_target u host).
Proof.
  intros Hu Hh. pose proof (plain_path u Hu). pose proof (plain_scheme u Hu). unfold uri_target.
  case_match; [one_line|done].
Qed.

Lemma one_line_redact_upstream u : plain_uri u -> one_line (redact_upstream u).
Proof.
  intros Hu. pose proof (plain_scheme u Hu). pose proof (plain_authority u Hu). pose proof (plain_pq u Hu).
  pose proof (plain_text u Hu). unfold redact_upstream.
  destruct (uri_scheme_str u), (uri_authority u); [|auto with one_line..].
  destruct (uri_path_and_query u); cbn in *; one_line.
Qed.

Lemma one_line_socket a : ip_wf (sa_ip a) = true -> 0 <= sa_port a -> one_line (show_socket a).
Proof. intros Hip Hp. unfold show_socket. destruct (sa_ip a); one_line. Qed.

Lemma one_line_canonical a : ip_wf (sa_ip a) = true -> 0 <= sa_port a -> one_line (show_socket (to_canonical a)).
Proof.
  intros Hip Hp. apply one_line_socket; [rewrite to_canonical_ip; by apply canonicalize_ip_wf|].
  unfold to_canonical. by repeat case_match.
Qed.

#[local] Hint Resolve one_line_header one_line_host one_line_target one_line_redact_upstream
  plain_path plain_pq plain_text one_line_canonical : one_line.

Context (debug_version : Version -> str) (show_status : Z -> str).
Context (Hversion : forall v, one_line (debug_version v)) (Hstatus : forall c, one_line (show_status c)).

Lemma one_line_fmt req redact client status (sent : option Request) :
  one_line (rq_method req) -> plain_uri (rq_uri req) -> from_option (fun up => plain_uri (rq_uri up)) True sent ->
  ip_wf (sa_ip client) = true -> 0 <= sa_port client ->
  one_line (HttpMessageLog_fmt debug_version show_status (request_log redact req client sent status)).
Proof.
  intros Hm Hu Hs Hip Hp. unfold HttpMessageLog_fmt.
  assert (forall l, lg_uri l = lg_uri (HttpMessageLog_new req redact) ->
    let '(host, p_and_q, target) := render_request_uri l in one_line host /\ one_line p_and_q /\ one_line target) as Hr.
  { intros l Hl. unfold render_request_uri. rewrite Hl. cbn. destruct redact; cbn; split_and!; auto with one_line. }
  specialize (Hr (request_log redact req client sent status)).
  destruct (render_request_uri _) as [[host pq] target]. destruct Hr as (H1 & H2 & H3); [by destruct sent|].
  assert (lg_method (request_log redact req client sent status) = rq_method req) as -> by (by destruct sent).
  assert (lg_client_addr (request_log redact req client sent status) = Some (to_canonical client)) as ->
    by (by destruct sent).
  one_line.
  - cbn. auto with one_line.
  - destruct (lg_status _); cbn; auto with one_line.
  - case_match; one_line.
  - destruct sent as [up|]; cbn in *; [|apply one_line_nil]. destruct redact; auto with one_line.
Qed.
End lines.

(** ** Theorems *)

(** The predicate that switches access logging on agrees with the installed layers for
    every setting: an access line is wanted exactly when it will be written, and it is
    then written once, to the access log file or the standard output and never to the
    system log; the access log file holds nothing but access events of this program; and
    errors of any crate are written somewhere else than there. *)
Theorem access_log_predicate_exact level_from_str rust_log log_dir :
  let layers := init_logger level_from_str rust_log log_dir in
  written layers access_event =
    (if access_log_enabled level_from_str rust_log log_dir
     then [match log_dir with Some _ => AccessFile | None => Stdout end] else []) /\
  (forall m, AccessFile ∈ written layers m -> is_cargo_pkg m = true /\ contains ACCESS_LOG (md_name m) = true) /\
  (forall m, md_level m = ERROR -> exists s, s ∈ written layers m /\ s <> AccessFile).
Proof.
  cbv zeta. unfold init_logger, access_log_enabled. generalize (parse_log_level level_from_str rust_log).
  intros level. split_and!.
  - destruct log_dir; by destruct level; vm_compute.
  - intros m (f & Hf & Hm)%filter_written. destruct log_dir; cbn in Hf.
    + apply elem_of_cons in Hf as [[= ->]|[= ?]%list_elem_of_singleton].
      unfold AccessLogFilter_enabled in Hm. by apply andb_prop in Hm as [[? ?]%andb_prop _].
    + by apply list_elem_of_singleton in Hf.
  - intros m Hm. destruct log_dir.
    + exists SystemFile. split; [|done]. apply filter_written. eexists. split; [by right; left|].
      unfold system_layer. rewrite Hm. destruct level; cbn; by rewrite ?orb_true_r.
    + exists Stdout. split; [|done]. apply filter_written. eexists. split; [by left|].
      unfold stdio_layer. rewrite Hm. destruct level; cbn; by rewrite ?orb_true_r.
Qed.

(** C24: a request cannot forge lines of the access log file: whatever its headers, the
    record of a request is the time, a space and the message, and the only line break of
    it is the one that ends it. The method and the parts of the URIs are those the [http]
    crate's grammar allows, without control characters, and so are the texts it prints for
    versions and status codes. *)
Theorem access_log_one_line_per_request `{HttpLaws} debug_version show_status time redact req client sent status :
  (forall v, one_line (debug_version v)) -> (forall c, one_line (show_status c)) ->
  one_line (rq_method req) -> plain_uri (rq_uri req) -> from_option (fun up => plain_uri (rq_uri up)) True sent ->
  ip_wf (sa_ip client) = true -> 0 <= sa_port client -> one_line (default [] time) ->
  let message := HttpMessageLog_fmt debug_version show_status (request_log redact req client sent status) in
  exists line, format_event time [(B "message", message)] = line ++ [10] /\ one_line line /\
    line = default (B "<unknown time>") time ++ [SPACE] ++ message.
Proof.
  intros Hv Hst Hm Hu Hs Hip Hp Ht message. eexists. split_and!; [| |done].
  - unfold format_event. cbn [map concat fst snd]. unfold record_debug. rewrite bool_decide_true by done.
    by rewrite app_nil_r, <- !app_assoc.
  - rewrite !one_line_app. split_and!.
    + destruct time; [done|]. apply (bool_decide_unpack _). by vm_compute.
    + one_line.
    + by apply one_line_fmt.
Qed.

(** ** Witnesses *)

Module LogFileExamples.
#[local] Existing Instance Alist.api.
#[local] Existing Instance Alist.laws.

(** A header with a line break has no text and is left out of the line. *)
Definition forger : Request :=
  {| rq_method := B "GET"; rq_uri := rq_uri (LogExamples.login (B "x")); rq_version := HTTP_11;
     rq_headers := [(HOST, B "example.com"); (USER_AGENT, B "curl" ++ [10] ++ B "forged")]; effective_uri := None |}.

Lemma forger_plain : plain_uri (rq_uri forger).
Proof.
  split; try (apply (bool_decide_unpack _); by vm_compute). by intros p [= <-].
Qed.

Lemma access_log_one_line_per_request_witness :
  exists line, format_event None
      [(B "message", HttpMessageLog_fmt (fun _ => B "HTTP/1.1") (fun _ => B "200 OK")
          (request_log true forger LogExamples.client None 200))] = line ++ [10] /\ one_line line.
Proof.
  destruct (access_log_one_line_per_request (fun _ => B "HTTP/1.1") (fun _ => B "200 OK") None true forger
    LogExamples.client None 200) as (line & Hl & Ho & _); [..|by exists line].
  - intros _. one_line.
  - intros _. one_line.
  - apply (bool_decide_unpack _). by vm_compute.
  - exact forger_plain.
  - exact I.
  - reflexivity.
  - vm_compute. discriminate.
  - apply one_line_nil.
Defined.

(** The opt-out of redaction needs an exact word. *)
Lemma unsafe_debug_headers_strict :
  map (fun v => parse_unsafe_debug_headers (Some v)) [B " Yes "; B "TRUE"; B "1"; B "on"; B "true!"; B ""]
    = [true; true; true; false; false; false].
Proof. vm_compute. reflexivity. Qed.

(** Warnings of other crates reach the standard output at the default level. *)
Lemma foreign_warnings_printed :
  written (init_logger (fun _ => None) None None)
    {| md_name := B "event"; md_target := B "hyper::client"; md_level := WARN |} = [Stdout].
Proof. vm_compute. reflexivity. Qed.

End LogFileExamples.
