(* ===== verification/BalanceProps.v ===== *)
(** * What load balancing guarantees

    Selections stay inside the group and pick healthy upstreams, round robin is fair,
    the primary is preferred, and a sticky session stays on its upstream. *)

From S2P Require Import Prelude RustStr RustNet HttpIface Globals HealthCheck StickyCookie.
From S2P Require Import LoadBalance CryptoInstance.

(** ** Rotations *)

Lemma rem_lt n m : (m <> 0)%nat -> (rem n m < m)%nat.
Proof. intros Hm. unfold rem. pose proof (Z.mod_pos_bound n (Z.of_nat m)). lia. Qed.

(** Indexing modulo the length from any start runs through a rotation of the list. *)
Lemma rotation (l : list nat) (c : Z) :
  l <> [] ->
  map (fun i => default 0%nat (l !! rem (c + Z.of_nat i) (length l))) (seq 0 (length l))
    = drop (rem c (length l)) l ++ take (rem c (length l)) l.
Proof.
  intros Hl. assert (length l <> 0)%nat as Hm by (by destruct l). set (m := length l) in *.
  pose proof (rem_lt c m Hm) as Hr. apply list_eq. intros i.
  change (map ?f (seq 0 m)) with (f <$> seq 0 m). rewrite list_lookup_fmap.
  destruct (decide (i < m)%nat) as [Hi|Hi].
  - rewrite lookup_seq_lt by done. cbn [fmap option_fmap option_map Nat.add].
    assert (rem (c + Z.of_nat i) m =
      if decide (i < m - rem c m)%nat then (rem c m + i)%nat else (i - (m - rem c m))%nat) as ->.
    { unfold rem in *. rewrite Z.add_mod by lia.
      pose proof (Z.mod_pos_bound c (Z.of_nat m)). rewrite (Z.mod_small (Z.of_nat i)) by lia.
      case_decide as Hd.
      - rewrite Z.mod_small by lia. lia.
      - replace (c mod Z.of_nat m + Z.of_nat i)
          with (c mod Z.of_nat m + Z.of_nat i - Z.of_nat m + 1 * Z.of_nat m) by lia.
        rewrite Z.mod_add by lia. rewrite Z.mod_small by lia. lia. }
    case_decide as Hd.
    + rewrite lookup_app_l by (rewrite length_drop; fold m; lia). rewrite lookup_drop.
      destruct (lookup_lt_is_Some_2 l (rem c m + i)) as [x ->]; [fold m; lia|done].
    + rewrite lookup_app_r by (rewrite length_drop; fold m; lia). rewrite length_drop. fold m.
      rewrite lookup_take_lt by lia.
      destruct (lookup_lt_is_Some_2 l (i - (m - rem c m))) as [x ->]; [fold m; lia|done].
  - rewrite lookup_seq_ge by lia. cbn. symmetry. apply lookup_ge_None_2.
    rewrite length_app, length_drop, length_take. fold m. lia.
Qed.

Lemma rotation_perm (l : list nat) (c : Z) :
  l <> [] ->
  map (fun i => default 0%nat (l !! rem (c + Z.of_nat i) (length l))) (seq 0 (length l)) ≡ₚ l.
Proof. intros Hl. rewrite rotation by done. by rewrite Permutation_app_comm, take_drop. Qed.

(** ** The upstreams a selection chooses from *)

Section balance_lemmas.
Context `{HttpApi} `{CL : CryptoLaws}.

(** The healthy upstreams, or all of them when none is healthy. *)
Definition available (us : list Upstream) : list nat :=
  if existsb is_healthy us then positions is_healthy us else seq 0 (length us).

(** The flags do not change during the selection. *)
Definition steady (us : list Upstream) : Reads := fun _ => us.

(** The reads see the same upstreams; only the flags may differ. *)
Definition same_upstream (u v : Upstream) : Prop :=
  u_uri u = u_uri v /\ u_host_header u = u_host_header v /\ has_health_state u = has_health_state v.

Definition observes (us : list Upstream) (r : Reads) : Prop := forall i, Forall2 same_upstream us (r i).

Lemma observes_length us r i : observes us r -> length (r i) = length us.
Proof. intros Ho. symmetry. by eapply Forall2_length. Qed.

Lemma observes_steady us : observes us (steady us).
Proof. intros i. apply Forall_Forall2_diag. apply Forall_forall. done. Qed.

Lemma observes_shift us r : observes us r -> observes us (fun i => r (S i)).
Proof. intros Ho i. apply Ho. Qed.

Lemma untracked_healthy us : existsb has_health_state us = false -> forallb is_healthy us = true.
Proof.
  induction us as [|u us IH]; [done|]. cbn. unfold has_health_state, is_healthy at 1.
  destruct (u_health u); [done|]. cbn. apply IH.
Qed.

Lemma all_healthy_exists us : us <> [] -> forallb is_healthy us = true -> existsb is_healthy us = true.
Proof. destruct us; [done|]. cbn. by intros _ [-> _]%andb_prop. Qed.

Lemma available_all us : us <> [] -> forallb is_healthy us = true -> available us = seq 0 (length us).
Proof.
  intros Hne Hall. unfold available. rewrite all_healthy_exists by done. by apply positions_from_all.
Qed.

Lemma available_in_range us i : i ∈ available us -> (i < length us)%nat.
Proof.
  unfold available. case_match.
  - intros (x & Hx & _)%positions_elem. by eapply lookup_lt_Some.
  - intros Hi%elem_of_seq. lia.
Qed.

Lemma available_nonempty us : us <> [] -> available us <> [].
Proof.
  intros Hne. unfold available. case_match eqn:E; [|by destruct us].
  apply existsb_exists in E as (x & Hx%list_elem_of_In & Hh).
  apply list_elem_of_lookup in Hx as [i Hi]. intros Hn.
  assert (i ∈ positions is_healthy us) as Hp by (apply positions_elem; by exists x).
  rewrite Hn in Hp. by apply not_elem_of_nil in Hp.
Qed.

Lemma available_healthy us i :
  existsb is_healthy us = true -> i ∈ available us -> exists u, us !! i = Some u /\ is_healthy u = true.
Proof. intros Hh. unfold available. rewrite Hh. apply positions_elem. Qed.

Lemma seq_lookup_rem n len : (len <> 0)%nat -> seq 0 len !! rem n len = Some (rem n len).
Proof. intros Hl. apply lookup_seq_lt. by apply rem_lt. Qed.

(** With steady flags the selection indexes the available upstreams. *)
Lemma pick_steady us n :
  us <> [] ->
  available us !! rem n (length (available us)) = Some (pick_nth_available_index (steady us) n).
Proof.
  intros Hne. assert (length us <> 0)%nat as Hl by (by destruct us).
  unfold pick_nth_available_index, steady. destruct (Nat.eqb_spec (length us) 0) as [|_]; [done|].
  assert (forallb is_healthy us = true ->
    available us !! rem n (length (available us)) = Some (rem n (length us))) as Hall.
  { intros Ha. rewrite available_all by done. rewrite length_seq. by apply seq_lookup_rem. }
  destruct (existsb has_health_state us) eqn:Et; cbn [negb]; [|by apply Hall, untracked_healthy].
  destruct (Nat.eqb_spec (healthy_index_count us) (length us)) as [Ec|Ec].
  { apply Hall. by apply filter_all_length. }
  destruct (Nat.eqb_spec (healthy_index_count us) 0) as [Ez|Ez].
  - apply filter_none_length in Ez. unfold available. rewrite Ez, length_seq. by apply seq_lookup_rem.
  - assert (existsb is_healthy us = true) as Eh.
    { destruct (existsb is_healthy us) eqn:E; [done|]. by apply filter_none_length in E. }
    unfold available. rewrite Eh. rewrite positions_length.
    fold (healthy_index_count us).
    destruct (lookup_lt_is_Some_2 (positions is_healthy us) (rem n (healthy_index_count us))) as [x ->];
      [|done].
    rewrite positions_length. by apply rem_lt.
Qed.

Lemma pick_elem us n : us <> [] -> pick_nth_available_index (steady us) n ∈ available us.
Proof. intros Hne. eapply list_elem_of_lookup_2. by apply (pick_steady us n). Qed.

(** Whatever the passes read, the selection stays inside the group. *)
Lemma pick_in_range us r n :
  us <> [] -> observes us r -> (pick_nth_available_index r n < length us)%nat.
Proof.
  intros Hne Ho. assert (length us <> 0)%nat as Hl by (by destruct us).
  pose proof (rem_lt n _ Hl) as Hr.
  unfold pick_nth_available_index. rewrite (observes_length us r 0) by done.
  repeat case_match; try lia.
  destruct (positions _ _ !! _) as [i|] eqn:E; cbn; [|done].
  apply list_elem_of_lookup_2, positions_elem in E as (x & Hx & _).
  rewrite <- (observes_length us r 1) by done. by eapply lookup_lt_Some.
Qed.

Lemma first_available_steady us :
  match find_position is_healthy us with
  | Some i => first_available_index (steady us) = i
  | None => first_available_index (steady us) = 0%nat
  end.
Proof.
  unfold first_available_index, steady. case_bool_decide as E; [by subst|].
  destruct (existsb has_health_state us) eqn:Et; cbn [negb].
  - unfold first_healthy_index. by destruct (find_position is_healthy us).
  - apply untracked_healthy in Et. unfold find_position, positions.
    rewrite positions_from_all by done. by destruct us.
Qed.

Lemma first_in_range us r :
  us <> [] -> observes us r -> (first_available_index r < length us)%nat.
Proof.
  intros Hne Ho. assert (length us <> 0)%nat as Hl by (by destruct us).
  unfold first_available_index, first_healthy_index. repeat case_match; [lia..|].
  destruct (find_position _ _) as [i|] eqn:E; cbn; [|lia].
  apply position_Some in E as [(x & Hx & _) _]. rewrite <- (observes_length us r 0) by done.
  by eapply lookup_lt_Some.
Qed.

Lemma random_in_range us r rng :
  us <> [] -> observes us r -> (forall n, 0 < n -> 0 <= rng n < n) ->
  (ptr (Random_get_ptr rng r) < length us)%nat.
Proof.
  intros Hne Ho Hrng. assert (length us <> 0)%nat as Hl by (by destruct us).
  unfold Random_get_ptr. rewrite (observes_length us r 0) by done.
  pose proof (Hrng (Z.of_nat (length us))).
  repeat case_match; cbn [ptr]; try lia.
  by apply pick_in_range, observes_shift.
Qed.
End balance_lemmas.

(** ** Server ids *)

Section server_ids.
Context `{HttpApi} `{CL : CryptoLaws}.

(** The texts whose digests are the server ids of a group. *)
Definition id_texts (us : list Upstream) : list str :=
  imap (fun i u => uri_to_string (u_uri u) ++ B "&index=" ++ show_dec (Z.of_nat i)) us.

(** SHA-256 does not collide on the group's texts. *)
Definition collision_free (us : list Upstream) : Prop :=
  forall x y, x ∈ id_texts us -> y ∈ id_texts us -> sha256 x = sha256 y -> x = y.

Definition server_ids (us : list Upstream) : list str := imap (fun i u => calculate_id_with_index u i) us.

Lemma server_ids_length us : length (server_ids us) = length us.
Proof. apply length_imap. Qed.

Lemma index_text_inj a b i j :
  a ++ B "&index=" ++ show_dec (Z.of_nat i) = b ++ B "&index=" ++ show_dec (Z.of_nat j) -> i = j.
Proof.
  intros E. change (B "&index=" ++ ?d) with (B "&index" ++ EQUALS :: d) in E.
  rewrite !app_assoc in E.
  assert (forall k, EQUALS ∉ show_dec (Z.of_nat k)) as Hd.
  { intros k Hk. by apply show_dec_digit in Hk; [|lia]. }
  apply app_sep_inj_r in E as [_ E]; [|apply Hd..]. apply show_dec_inj in E; lia.
Qed.

Lemma b64_encode_inj s t : is_bytes s = true -> is_bytes t = true -> b64_encode s = b64_encode t -> s = t.
Proof. intros Hs Ht E. apply (f_equal b64_decode) in E. rewrite !b64_roundtrip in E by done. congruence. Qed.

Lemma server_ids_inj us i j :
  collision_free us -> (i < length us)%nat -> (j < length us)%nat ->
  server_ids us !! i = server_ids us !! j -> i = j.
Proof.
  intros Hc [u Hu]%lookup_lt_is_Some_2 [v Hv]%lookup_lt_is_Some_2.
  unfold server_ids. rewrite !list_lookup_imap, Hu, Hv. cbn. intros [= E].
  apply b64_encode_inj in E; [|apply sha256_bytes..]. apply Hc in E.
  - by eapply index_text_inj.
  - eapply list_elem_of_lookup_2 with (i := i). unfold id_texts. by rewrite list_lookup_imap, Hu.
  - eapply list_elem_of_lookup_2 with (i := j). unfold id_texts. by rewrite list_lookup_imap, Hv.
Qed.

Lemma id_map_from_other k ids m v : v ∉ ids -> id_map_from k ids m !! v = m !! v.
Proof.
  revert k m; induction ids as [|w ids IH]; intros k m Hv; [done|]. cbn.
  apply not_elem_of_cons in Hv as [Hw Hv]. rewrite IH by done. by apply lookup_insert_ne.
Qed.

Lemma id_map_from_lookup k ids m i v :
  (forall a b, (a < length ids)%nat -> (b < length ids)%nat -> ids !! a = ids !! b -> a = b) ->
  ids !! i = Some v -> id_map_from k ids m !! v = Some (k + i)%nat.
Proof.
  revert k m i; induction ids as [|w ids IH]; intros k m i Hinj Hi; [done|]. cbn.
  destruct i as [|i]; cbn in Hi.
  - simplify_eq. rewrite id_map_from_other.
    + rewrite lookup_insert_eq. f_equal. lia.
    + intros [j Hj]%list_elem_of_lookup_1. pose proof (lookup_lt_Some _ _ _ Hj).
      enough (0 = S j)%nat by lia. apply Hinj; cbn; [lia..|done].
  - rewrite (IH (S k) _ i); [f_equal; lia| |done]. intros a b Ha Hb E.
    enough (S a = S b) by lia. apply Hinj; cbn; [lia..|done].
Qed.

(** The two maps of the balancer are inverse. *)
Lemma id_map_server_id us i u :
  collision_free us -> us !! i = Some u ->
  upstream_id_map (build_upstream_maps us) !! calculate_id_with_index u i = Some i.
Proof.
  intros Hc Hu. cbn. apply (id_map_from_lookup 0 _ _ i).
  - intros a b. rewrite length_imap. intros Ha Hb E. by eapply server_ids_inj.
  - by rewrite list_lookup_imap, Hu.
Qed.
End server_ids.

(** ** Theorems *)

Section balance_theorems.
Context `{HttpApi} `{CL : CryptoLaws}.

(** The balancer was built for the group and its counter is a machine word. *)
Definition lb_wf (us : list Upstream) (lb : LoadBalance) : Prop :=
  match lb with
  | RoundRobin r => 0 <= rr_ptr r <= usize_max
  | StickyRoundRobin s => upstream_maps s = build_upstream_maps us /\ 0 <= st_ptr s <= usize_max
  | _ => True
  end.

Lemma advance_range c : 0 <= c <= usize_max -> 0 <= (fetch_and_advance c).1 <= usize_max.
Proof.
  intros Hc. cbn. case_match; [unfold usize_max; lia|].
  rewrite wrap_usize_small; lia.
Qed.

(** The fallbacks of the sticky balancer: the counter moves, the maps stay, and the
    new cookie carries the id of the chosen upstream. *)
Lemma next_with_new_cookie_spec now s us r :
  us <> [] -> observes us r -> lb_wf us (StickyRoundRobin s) ->
  exists s' i u, next_with_new_cookie now s r =
      Some (s', {| ptr := i; context := Some {| sticky_cookie :=
        build_sticky_cookie (sticky_config s) now (calculate_id_with_index u i) |} |}) /\
    us !! i = Some u /\ lb_wf us (StickyRoundRobin s') /\
    i = pick_nth_available_index r (st_ptr s).
Proof.
  intros Hne Ho [Hm Hp]. unfold next_with_new_cookie, rr_next_index.
  pose proof (advance_range _ Hp) as Ha. destruct (fetch_and_advance (st_ptr s)) as [c n] eqn:Ef.
  injection Ef as <- <-. set (i := pick_nth_available_index r (st_ptr s)).
  destruct (lookup_lt_is_Some_2 us i) as [u Hu]; [by apply pick_in_range|].
  unfold build_ptr_with_new_cookie, get_server_id_from_index.
  cbn [upstream_maps sticky_config]. rewrite Hm. cbn [build_upstream_maps upstream_index_map].
  rewrite list_lookup_imap, Hu. cbn [fmap option_fmap option_map mbind option_bind].
  eexists _, i, u. split; [reflexivity|]. split; [done|]. split; [by split|done].
Qed.

Lemma sticky_resolved us s id i :
  collision_free us -> lb_wf us (StickyRoundRobin s) -> get_server_index_from_id s id = Some i ->
  exists u, us !! i = Some u /\ id = calculate_id_with_index u i.
Proof.
  intros Hc [Hm _]. unfold get_server_index_from_id. rewrite Hm. cbn [build_upstream_maps upstream_id_map].
  fold (server_ids us). intros Hl. destruct (decide (id ∈ server_ids us)) as [Hin|Hout].
  - apply list_elem_of_lookup in Hin as [j Hj]. pose proof Hj as Hj'.
    unfold server_ids in Hj'. rewrite list_lookup_imap in Hj'.
    destruct (us !! j) as [u|] eqn:Hu; [|done]. cbn in Hj'. injection Hj' as <-.
    pose proof (id_map_server_id us j u Hc Hu) as E. cbn in E. fold (server_ids us) in E.
    rewrite Hl in E. injection E as ->. by exists u.
  - rewrite id_map_from_other in Hl by done. by rewrite lookup_empty in Hl.
Qed.

(** The two outcomes of the sticky balancer. *)
Lemma sticky_cases now s ctx r :
  (exists c i v, ctx = Some c /\
     get_server_index_from_id s (cv_value (sc_value (sticky_cookie c))) = Some i /\
     r 0%nat !! i = Some v /\ is_healthy v = true /\
     Sticky_get_ptr now s ctx r = Some (s, {| ptr := i; context := None |})) \/
  (exists r', (r' = r \/ r' = fun i => r (S i)) /\
     Sticky_get_ptr now s ctx r = next_with_new_cookie now s r' /\
     forall c i v, ctx = Some c ->
       get_server_index_from_id s (cv_value (sc_value (sticky_cookie c))) = Some i ->
       r 0%nat !! i = Some v -> is_healthy v = false).
Proof.
  unfold Sticky_get_ptr. destruct ctx as [c|]; [|right; exists r; split; [by left|done]].
  destruct (get_server_index_from_id s _) as [i|] eqn:Ei.
  - destruct (r 0%nat !! i) as [v|] eqn:Ev; [destruct (is_healthy v) eqn:Eh|].
    + left. by exists c, i, v.
    + right. eexists. split; [by right|]. split; [done|]. intros; simplify_eq; congruence.
    + right. eexists. split; [by right|]. split; [done|]. intros; simplify_eq; congruence.
  - right. exists r. split; [by left|]. split; [done|]. intros; simplify_eq; congruence.
Qed.

Lemma observes_either us r r' :
  observes us r -> r' = r \/ r' = (fun i => r (S i)) -> observes us r'.
Proof. intros Ho [-> | ->]; [done|by apply observes_shift]. Qed.

Lemma sticky_total now s us r ctx :
  us <> [] -> observes us r -> lb_wf us (StickyRoundRobin s) ->
  exists s' p u, Sticky_get_ptr now s ctx r = Some (s', p) /\ us !! ptr p = Some u /\
    lb_wf us (StickyRoundRobin s').
Proof.
  intros Hne Ho Hwf. destruct (sticky_cases now s ctx r) as [(c & i & v & _ & _ & Hv & _ & ->)|(r' & Hr & -> & _)].
  - apply lookup_lt_Some in Hv. rewrite (observes_length us r 0) in Hv by done.
    apply lookup_lt_is_Some_2 in Hv as [u Hu]. by exists s, {| ptr := i; context := None |}, u.
  - destruct (next_with_new_cookie_spec now s us r') as (s' & i & u & -> & Hu & Hw & _);
      [done|by eapply observes_either|done|]. by eexists s', _, u.
Qed.

(** A new cookie names the upstream that serves the request. *)
Lemma sticky_issued now s us r ctx s' p c :
  us <> [] -> observes us r -> lb_wf us (StickyRoundRobin s) ->
  Sticky_get_ptr now s ctx r = Some (s', p) -> context p = Some c ->
  exists u, us !! ptr p = Some u /\
    c = {| sticky_cookie := build_sticky_cookie (sticky_config s) now (calculate_id_with_index u (ptr p)) |}.
Proof.
  intros Hne Ho Hwf. destruct (sticky_cases now s ctx r) as [(c0 & i & v & _ & _ & _ & _ & ->)|(r' & Hr & -> & _)].
  - by intros [= <- <-].
  - destruct (next_with_new_cookie_spec now s us r') as (s1 & i & u & -> & Hu & _);
      [done|by eapply observes_either|done|]. intros [= <- <-] [= <-]. by exists u.
Qed.

(** The cookie of a healthy upstream selects it. *)
Lemma sticky_selects now s us r u i v c :
  lb_wf us (StickyRoundRobin s) -> collision_free us -> us !! i = Some u ->
  cv_value (sc_value (sticky_cookie c)) = calculate_id_with_index u i ->
  r 0%nat !! i = Some v -> is_healthy v = true ->
  Sticky_get_ptr now s (Some c) r = Some (s, {| ptr := i; context := None |}).
Proof.
  intros [Hm _] Hc Hu Hid Hv Hh. unfold Sticky_get_ptr, get_server_index_from_id. rewrite Hid, Hm.
  rewrite (id_map_server_id us i u) by done. by rewrite Hv, Hh.
Qed.

Lemma sticky_healthy now s us ctx :
  us <> [] -> existsb is_healthy us = true -> lb_wf us (StickyRoundRobin s) ->
  exists s' p u, Sticky_get_ptr now s ctx (steady us) = Some (s', p) /\ us !! ptr p = Some u /\
    is_healthy u = true.
Proof.
  intros Hne Hh Hwf.
  destruct (sticky_cases now s ctx (steady us)) as [(c & i & v & _ & _ & Hv & Hi & ->)|(r' & Hr & -> & _)].
  - by exists s, {| ptr := i; context := None |}, v.
  - assert (r' = steady us) as -> by (by destruct Hr as [-> | ->]).
    destruct (next_with_new_cookie_spec now s us (steady us)) as (s' & i & u & -> & Hu & Hw & ->);
      [done|apply observes_steady|done|].
    destruct (available_healthy us _ Hh (pick_elem us (st_ptr s) Hne)) as (w & Hw' & Hhw).
    by eexists s', _, w.
Qed.

Lemma random_healthy us rng :
  us <> [] -> existsb is_healthy us = true -> (forall n, 0 < n -> 0 <= rng n < n) ->
  exists u, us !! ptr (Random_get_ptr rng (steady us)) = Some u /\ is_healthy u = true.
Proof.
  intros Hne Hh Hrng. assert (length us <> 0)%nat as Hl by (by destruct us).
  assert (forallb is_healthy us = true ->
    exists u, us !! Z.to_nat (rng (Z.of_nat (length us))) = Some u /\ is_healthy u = true) as Hall.
  { intros Ha. destruct (lookup_lt_is_Some_2 us (Z.to_nat (rng (Z.of_nat (length us))))) as [u Hu].
    - pose proof (Hrng (Z.of_nat (length us))). lia.
    - exists u. split; [done|]. apply list_elem_of_lookup_2, list_elem_of_In in Hu.
      by eapply forallb_forall in Ha. }
  unfold Random_get_ptr. change (fun i : nat => steady us (S i)) with (steady us). change (steady us 0%nat) with us.
  destruct (Nat.eqb_spec (length us) 0); [done|].
  destruct (existsb has_health_state us) eqn:Et; cbn [negb ptr]; [|by apply Hall, untracked_healthy].
  destruct (Nat.eqb_spec (healthy_index_count us) (length us)) as [Ec|Ec]; cbn [orb].
  { apply Hall. by apply filter_all_length. }
  destruct (Nat.eqb_spec (healthy_index_count us) 0) as [Ez|Ez].
  - apply filter_none_length in Ez. congruence.
  - apply available_healthy; [done|]. by apply (pick_elem us).
Qed.

(** Consecutive requests index the available upstreams consecutively. *)
Lemma available_length us : (length (available us) <= length us)%nat.
Proof.
  unfold available. case_match; [|by rewrite length_seq].
  rewrite positions_length. apply List.filter_length_le.
Qed.

(** Whatever the policy, the cookie, the draw and the health changes made while it
    runs, a selection stays in the group and keeps the balancer well formed. *)
Lemma selection_total us r lb ctx now rng :
  us <> [] -> observes us r -> lb_wf us lb -> (forall n, 0 < n -> 0 <= rng n < n) ->
  exists lb' p, get_context now rng lb ctx r = Some (lb', p) /\
    (ptr p < length us)%nat /\ lb_wf us lb'.
Proof.
  intros Hne Ho Hwf Hrng. destruct lb as [| |rr|s|]; cbn [get_context].
  - eexists _, _. split; [done|]. split; [by apply first_in_range|done].
  - eexists _, _. split; [done|]. split; [by apply random_in_range|done].
  - eexists _, _. split; [done|]. split; [by apply pick_in_range|by apply advance_range].
  - destruct (sticky_total now s us r ctx Hne Ho Hwf) as (s' & p & u & -> & Hu & Hw).
    eexists _, p. split; [done|]. split; [by eapply lookup_lt_Some|done].
  - eexists _, _. split; [done|]. split; [by apply first_in_range|done].
Qed.

(** C34: traffic goes to healthy upstreams: while the flags are steady and some upstream
    is healthy, every policy selects a healthy upstream, also when the client's cookie
    names an unhealthy one. *)
Theorem selection_healthy us lb ctx now rng :
  existsb is_healthy us = true -> lb_wf us lb -> (forall n, 0 < n -> 0 <= rng n < n) ->
  exists lb' p u, get_context now rng lb ctx (steady us) = Some (lb', p) /\
    us !! ptr p = Some u /\ is_healthy u = true.
Proof.
  intros Hh Hwf Hrng. assert (us <> []) as Hne by (by intros ->).
  assert (forall n, exists u, us !! pick_nth_available_index (steady us) n = Some u /\
    is_healthy u = true) as Hpick by (intros n; by apply available_healthy, pick_elem).
  assert (exists u, us !! first_available_index (steady us) = Some u /\ is_healthy u = true) as Hfirst.
  { pose proof (first_available_steady us) as Hf. destruct (find_position is_healthy us) as [i|] eqn:Ep.
    - rewrite Hf. by apply position_Some in Ep as [? _].
    - apply head_None in Ep. destruct (available_nonempty us Hne). unfold available.
      by rewrite Hh. }
  destruct lb as [| |rr|s|]; cbn [get_context].
  - destruct Hfirst as (u & ?). by eexists _, _, u.
  - destruct (random_healthy us rng Hne Hh Hrng) as (u & ?). by eexists _, _, u.
  - destruct (Hpick (rr_ptr rr)) as (u & ?). by eexists _, _, u.
  - destruct (sticky_healthy now s us ctx Hne Hh Hwf) as (s' & p & u & -> & ?). by eexists _, p, u.
  - destruct Hfirst as (u & ?). by eexists _, _, u.
Qed.

(** The upstreams a round robin serves in [k] consecutive requests. *)
Fixpoint rr_run (k : nat) (lb : LoadBalanceRoundRobin) (us : list Upstream) : list nat :=
  match k with
  | O => []
  | S k => let '(lb, p) := RoundRobin_get_ptr lb (steady us) in ptr p :: rr_run k lb us
  end.

Lemma rr_run_map us c k :
  us <> [] -> 0 <= c -> c + Z.of_nat k <= usize_max - 1 ->
  rr_run k {| rr_ptr := c |} us =
    map (fun i => default 0%nat (available us !! rem (c + Z.of_nat i) (length (available us)))) (seq 0 k).
Proof.
  intros Hne. revert c. induction k as [|k IH]; intros c Hc0 Hc1; [done|].
  cbn [rr_run RoundRobin_get_ptr fetch_and_advance rr_ptr ptr seq map].
  rewrite Z.add_0_r, pick_steady by done. cbn [default from_option]. f_equal.
  destruct (Z.leb_spec (usize_max - 1) c); [lia|]. rewrite wrap_usize_small by lia.
  rewrite IH by lia. rewrite <- seq_shift, map_map. apply map_ext. intros i.
  by replace (c + 1 + Z.of_nat i) with (c + Z.of_nat (S i)) by lia.
Qed.

(** C35: round robin is fair: while the flags are steady and the counter does not reach
    its reset, each of the available upstreams (the healthy ones, or all when none is)
    serves exactly one of as many consecutive requests. *)
Theorem round_robin_fair us lb :
  us <> [] -> 0 <= rr_ptr lb -> rr_ptr lb + Z.of_nat (length us) <= usize_max - 1 ->
  rr_run (length (available us)) lb us ≡ₚ available us.
Proof.
  intros Hne Hc0 Hc1. destruct lb as [c]. cbn in Hc0, Hc1. pose proof (available_length us).
  rewrite rr_run_map by (done || lia). by apply rotation_perm, available_nonempty.
Qed.

(** The fixed and the primary/backup policies always use the first healthy upstream
    of the configuration, and the first of all when none is healthy. *)
Theorem primary_preferred us lb ctx now rng :
  lb = FixToFirst \/ lb = PrimaryBackup ->
  exists i, get_context now rng lb ctx (steady us) = Some (lb, {| ptr := i; context := None |}) /\
    ((exists u, us !! i = Some u /\ is_healthy u = true) \/ existsb is_healthy us = false /\ i = 0%nat) /\
    (forall j u, (j < i)%nat -> us !! j = Some u -> is_healthy u = false).
Proof.
  intros Hlb. exists (first_available_index (steady us)).
  split; [by destruct Hlb as [-> | ->]|].
  pose proof (first_available_steady us) as Hf. destruct (find_position is_healthy us) as [i|] eqn:Ep.
  - rewrite Hf. apply position_Some in Ep as [Hi Hj]. by split; [left|].
  - rewrite Hf. split; [right; split; [|done]|lia]. apply filter_none_length.
    apply head_None in Ep. by rewrite <- positions_length, Ep.
Qed.

(** A session sticks to its upstream. If the request's cookie names a healthy
    upstream, that upstream serves it and no cookie is issued. Otherwise a new cookie is
    issued for the upstream that serves the request, and presenting this cookie later
    selects the same upstream again, without a new cookie, as long as it is healthy. *)
Theorem sticky_session us r s ctx now :
  us <> [] -> observes us r -> lb_wf us (StickyRoundRobin s) -> collision_free us ->
  exists s' p, Sticky_get_ptr now s ctx r = Some (s', p) /\
    (context p = None <-> exists c u v, ctx = Some c /\ us !! ptr p = Some u /\
       cv_value (sc_value (sticky_cookie c)) = calculate_id_with_index u (ptr p) /\
       r 0%nat !! ptr p = Some v /\ is_healthy v = true /\ s' = s) /\
    (forall c r' now' v, context p = Some c -> r' 0%nat !! ptr p = Some v -> is_healthy v = true ->
       Sticky_get_ptr now' s' (Some c) r' = Some (s', {| ptr := ptr p; context := None |})).
Proof.
  intros Hne Ho Hwf Hc.
  destruct (sticky_cases now s ctx r) as [(c & i & v & -> & Hi & Hv & Hh & ->)|(r' & Hr & -> & Hno)].
  - exists s, {| ptr := i; context := None |}. cbn [context ptr]. split; [done|]. split; [|done].
    split; [|done]. intros _. destruct (sticky_resolved us s _ i Hc Hwf Hi) as (u & Hu & Hid).
    by exists c, u, v.
  - destruct (next_with_new_cookie_spec now s us r') as (s' & i & u & -> & Hu & Hw & _);
      [done|by eapply observes_either|done|].
    eexists s', _. split; [reflexivity|]. cbn [context ptr]. split.
    + split; [done|]. intros (c & u' & v & -> & Hu' & Hid & Hv & Hh & _). simplify_eq.
      rewrite (Hno c i v) in Hh; [done|done| |done]. rewrite Hid. destruct Hwf as [Hm _].
      unfold get_server_index_from_id. rewrite Hm. by apply id_map_server_id.
    + intros c r1 now' v [= <-] Hv Hh. by eapply sticky_selects.
Qed.
End balance_theorems.

(** ** Witnesses *)

Module BalanceExamples.

Definition up (host : string) (h : option bool) : @Upstream Alist.api :=
  @Build_Upstream Alist.api
    {| Alist.u_scheme := Some (B "http"); Alist.u_authority := Some (B host);
       Alist.u_path := B "/"; Alist.u_query := None |}
    None ((fun b => {| healthy := b |}) <$> h).

Definition group : list (@Upstream Alist.api) :=
  [up "a.internal" (Some false); up "b.internal" (Some true); up "c.internal" (Some true)].

Definition config : StickyCookieConfig :=
  {| cc_name := STICKY_COOKIE_NAME; cc_name_prefix := STICKY_COOKIE_NAME ++ B "=";
     cc_domain := B "example.com"; cc_path := B "/"; cc_duration := 300; cc_aad := [] |}.

Definition sticky : LoadBalanceSticky :=
  {| st_ptr := 7; sticky_config := config; upstream_maps := build_upstream_maps group |}.

Definition rng (n : Z) : Z := n - 1.

Lemma rng_ok n : 0 < n -> 0 <= rng n < n.
Proof. unfold rng. lia. Qed.

(** Between the two passes every upstream goes down. *)
Definition flapping : Reads := fun i =>
  match i with O => group | _ => [up "a.internal" (Some false); up "b.internal" (Some false); up "c.internal" (Some false)] end.

Lemma flapping_observes : observes group flapping.
Proof. intros [|i]; repeat constructor. Qed.

Lemma sticky_wf : lb_wf group (StickyRoundRobin sticky).
Proof. split; [done|]. cbn. unfold usize_max. lia. Qed.

Lemma group_collision_free : collision_free group.
Proof.
  intros x y Hx Hy E.
  assert (forall z, z ∈ id_texts group -> map (fun b => b mod 256) z = z) as Hz.
  { apply Forall_forall. apply (bool_decide_unpack _). vm_compute. exact I. }
  cbn in E. by rewrite !Hz in E.
Qed.

Lemma selection_healthy_witness :
  exists lb' p u, get_context 0 rng (StickyRoundRobin sticky) None (steady group) = Some (lb', p) /\
    group !! ptr p = Some u /\ is_healthy u = true.
Proof.
  apply (selection_healthy group (StickyRoundRobin sticky) None 0 rng);
    [reflexivity|apply sticky_wf|apply rng_ok].
Defined.

Lemma round_robin_fair_witness : rr_run 2 {| rr_ptr := 41 |} group ≡ₚ [1; 2]%nat.
Proof. apply (round_robin_fair group {| rr_ptr := 41 |}); [done|cbn; lia|cbn; unfold usize_max; lia]. Defined.

Lemma primary_preferred_witness :
  exists i, get_context 0 rng PrimaryBackup None (steady group) = Some (PrimaryBackup, {| ptr := i; context := None |}) /\
    ((exists u, group !! i = Some u /\ is_healthy u = true) \/ existsb is_healthy group = false /\ i = 0%nat) /\
    (forall j u, (j < i)%nat -> group !! j = Some u -> is_healthy u = false).
Proof. apply (primary_preferred group PrimaryBackup None 0 rng). by right. Defined.

Lemma sticky_session_witness :
  exists s' p, Sticky_get_ptr 0 sticky None flapping = Some (s', p) /\
    (context p = None <-> exists c u v, None = Some c /\ group !! ptr p = Some u /\
       cv_value (sc_value (sticky_cookie c)) = calculate_id_with_index u (ptr p) /\
       flapping 0%nat !! ptr p = Some v /\ is_healthy v = true /\ s' = sticky) /\
    (forall c (r' : @Reads Alist.api) now' v, context p = Some c -> r' 0%nat !! ptr p = Some v -> is_healthy v = true ->
       Sticky_get_ptr now' s' (Some c) r' = Some (s', {| ptr := ptr p; context := None |})).
Proof.
  apply (sticky_session group flapping sticky None 0);
    [done|apply flapping_observes|apply sticky_wf|apply group_collision_free].
Defined.

End BalanceExamples.
