(* ===== verification/HeaderProps.v ===== *)
(** * What the sticky-cookie exchange guarantees

    The cookie is taken out of the request without touching the other cookies, and a
    cookie set in a response leads the client's later requests back to the upstream it
    names. *)

From S2P Require Import Prelude RustStr RustNet HttpIface ForwardedSyntax HeaderCommon.
From S2P Require Import Forwarding Globals HealthCheck StickyCookie NameExp LoadBalance Backend.
From S2P Require Import HeaderOps CryptoInstance BalanceProps.

(** ** Splitting and joining cookies *)

Lemma split_join_cookies l :
  l <> [] -> Forall (fun x => SEMICOLON ∉ x /\ trim x = x) l ->
  map trim (split_char SEMICOLON (join (B "; ") l)) = l.
Proof.
  intros Hne Hl. unfold split_char. induction Hl as [|x l [Hx Ht] Hl IH]; [done|].
  assert (forallb (fun b => negb (b =? SEMICOLON)) x = true) as Hs.
  { apply forallb_forall. intros b Hb%list_elem_of_In. apply negb_true_iff, Z.eqb_neq.
    intros ->. done. }
  destruct l as [|y l].
  - cbn [join]. rewrite split_on_nosep by done. cbn. by rewrite Ht.
  - rewrite join_cons by done. change (x ++ B "; " ++ ?t) with (x ++ SEMICOLON :: SPACE :: t).
    rewrite split_on_app by done. cbn [map]. rewrite Ht. f_equal.
    specialize (IH ltac:(done)). cbn [split_on]. change (SPACE =? SEMICOLON) with false. cbn [negb].
    destruct (split_on _ (join (B "; ") (y :: l))) as [|z zs] eqn:E; [by apply split_on_nonempty in E|].
    cbn [map] in *. by rewrite trim_space.
Qed.

Section sticky_header.
Context `{HL : HttpLaws} `{CL : CryptoLaws} `{ClockApi}.

Lemma cookie_pairs_clean h x :
  x ∈ cookie_pairs h -> SEMICOLON ∉ x /\ trim x = x /\ forallb is_visible_ascii x = true.
Proof.
  unfold cookie_pairs. rewrite list_elem_of_In, in_concat. intros (l & Hl & Hx).
  apply in_map_iff in Hl as (v & <- & Hv). apply in_map_iff in Hx as (y & <- & Hy%list_elem_of_In).
  assert (forallb is_visible_ascii (default [] (hv_to_str v)) = true) as Hvis.
  { rewrite hv_to_str_visible. by destruct (forallb is_visible_ascii (hv_as_bytes v)) eqn:E. }
  pose proof (all_split_on _ (fun b => b =? SEMICOLON) _ Hvis) as Hall.
  rewrite Forall_forall in Hall. specialize (Hall y Hy).
  split_and!; [|by apply trim_idem|by apply all_trim]. intros Hs.
  assert (forallb (fun b => negb (b =? SEMICOLON)) y = true) as Hy'.
  { apply forallb_forall. intros b Hb%list_elem_of_In. by rewrite (split_on_pieces _ _ _ _ Hy Hb). }
  apply all_trim in Hy'. rewrite forallb_forall in Hy'. apply list_elem_of_In, Hy' in Hs. done.
Qed.

Lemma cookie_pairs_removed h : cookie_pairs (hm_remove h COOKIE) = [].
Proof. unfold cookie_pairs. by rewrite hm_get_all_remove_eq. Qed.

Lemma cookie_pairs_inserted h v l :
  l <> [] -> Forall (fun x => SEMICOLON ∉ x /\ trim x = x) l ->
  forallb is_visible_ascii (join (B "; ") l) = true ->
  hv_from_str (join (B "; ") l) = Some v -> cookie_pairs (hm_insert h COOKIE v) = l.
Proof.
  intros Hne Hl Hvis Hv. unfold cookie_pairs. rewrite hm_get_all_insert_eq. cbn [map concat].
  rewrite (hv_to_str_from_str _ _ Hv Hvis). cbn [default from_option id].
  rewrite app_nil_r. by apply split_join_cookies.
Qed.

Definition is_sticky (cfg : StickyCookieConfig) (c : str) : bool := starts_with (cc_name_prefix cfg) c.

(** The [Cookie] field without the sticky cookies. *)
Lemma rewritten_cookies cfg h :
  List.filter (is_sticky cfg) (cookie_pairs h) <> [] ->
  let rest := List.filter (fun c => negb (is_sticky cfg c)) (cookie_pairs h) in
  exists h', (if bool_decide (join (B "; ") rest = []) then Ok (hm_remove h COOKIE)
              else v ← ok_or (hv_from_str (join (B "; ") rest)) HeaderValueError;
                   Ok (hm_insert (hm_remove h COOKIE) COOKIE v)) = Ok h' /\
    List.filter not_empty (cookie_pairs h') = List.filter not_empty rest /\
    Forall (fun c => is_sticky cfg c = false \/ c = []) (cookie_pairs h') /\
    (forall k, COOKIE <> k -> field h' k = field h k) /\
    Forall (fun line => forallb is_visible_ascii line = true) (field h' COOKIE).
Proof.
  intros Hs rest.
  assert (Forall (fun x => SEMICOLON ∉ x /\ trim x = x /\ forallb is_visible_ascii x = true) rest) as Hrest.
  { apply Forall_forall. intros x Hx. apply cookie_pairs_clean with (h := h).
    unfold rest in Hx. rewrite list_elem_of_In, filter_In in Hx. apply list_elem_of_In. tauto. }
  assert (Forall (fun c => is_sticky cfg c = false \/ c = []) rest) as Hno.
  { apply Forall_forall. intros x Hx. unfold rest in Hx. rewrite list_elem_of_In, filter_In in Hx.
    left. apply negb_true_iff. tauto. }
  case_bool_decide as Ej.
  - eexists. split; [reflexivity|]. rewrite cookie_pairs_removed, field_remove_eq. split_and!; [|constructor| |constructor].
    + destruct rest as [|x [|y r]]; [done|cbn in Ej; by subst|]. rewrite join_cons in Ej by done.
      by destruct x.
    + intros k Hk. by apply field_remove_ne.
  - assert (forallb is_visible_ascii (join (B "; ") rest) = true) as Hvis.
    { apply all_join; [done|]. eapply Forall_impl; [exact Hrest|]. by intros x (_ & _ & ?). }
    destruct (hv_from_str_visible _ Hvis) as [v Hv]. rewrite Hv. cbn [ok_or mbind result_bind].
    eexists. split; [reflexivity|]. rewrite (cookie_pairs_inserted _ v rest);
      [|by intros ->|eapply Forall_impl; [exact Hrest|by intros x (? & ? & _)]|done|done].
    split_and!; [done|done| |rewrite field_insert_eq, (hv_from_str_as_bytes _ _ Hv); by constructor].
    intros k Hk. rewrite field_insert_ne by done. by apply field_remove_ne.
Qed.

Lemma takeout_spec now h cfg cipher :
  cc_name_prefix cfg <> [] ->
  exists h' ctx, takeout_sticky_cookie_lb_context now h cfg cipher = Ok (h', ctx) /\
    List.filter not_empty (cookie_pairs h') =
      List.filter not_empty (List.filter (fun c => negb (is_sticky cfg c)) (cookie_pairs h)) /\
    Forall (fun c => is_sticky cfg c = false) (cookie_pairs h') /\
    (forall k, COOKIE <> k -> field h' k = field h k) /\
    (ctx <> None -> length (List.filter (is_sticky cfg) (cookie_pairs h)) = 1%nat).
Proof.
  intros Hpre. unfold takeout_sticky_cookie_lb_context.
  assert (is_sticky cfg [] = false) as Hnil.
  { unfold is_sticky. destruct (starts_with _ []) eqn:E; [|done].
    apply starts_with_spec in E as [r E]. symmetry in E. by apply app_nil in E as [E _]. }
  destruct (hm_contains_key h COOKIE) eqn:Ec; cbn [negb].
  2:{ exists h, None. assert (cookie_pairs h = []) as ->.
      { unfold cookie_pairs. apply hm_contains_key_false in Ec. by rewrite Ec. }
      split_and!; done. }
  change (starts_with (cc_name_prefix cfg)) with (is_sticky cfg).
  destruct (List.filter (is_sticky cfg) (cookie_pairs h)) as [|c rest] eqn:Es.
  - exists h, None. rewrite filter_negb_id by done. split_and!; try done. by apply filter_nil_Forall.
  - destruct (rewritten_cookies cfg h) as (h' & E & Hf & Hno & Hk & _); [by rewrite Es|].
    cbv zeta in E. rewrite E. clear E. cbn [mbind result_bind].
    assert (Forall (fun c => is_sticky cfg c = false) (cookie_pairs h')) as Hno'.
    { eapply Forall_impl; [exact Hno|]. by intros x [?| ->]. }
    assert (forall o : option LoadBalanceContext, (o <> None -> rest = []) ->
      exists h1 ctx, Ok (h', o) = @Ok anyhow _ (h1, ctx) /\
        List.filter not_empty (cookie_pairs h1) =
          List.filter not_empty (List.filter (fun c => negb (is_sticky cfg c)) (cookie_pairs h)) /\
        Forall (fun c => is_sticky cfg c = false) (cookie_pairs h1) /\
        (forall k, COOKIE <> k -> field h1 k = field h k) /\
        (ctx <> None -> length (c :: rest) = 1%nat)) as Hfin.
    { intros o Ho. exists h', o. split_and!; try done. intros Hne. by rewrite (Ho Hne). }
    case_bool_decide as Er; cbn [negb]; [|by apply Hfin].
    repeat case_match; by apply Hfin.
Qed.

(** The sticky cookie never reaches an upstream: taking it out always succeeds,
    leaves every other header unchanged and the other cookies in their order, and no
    cookie of the sticky name remains, also when the client sends several. *)
Theorem sticky_cookie_taken_out now h cfg cipher :
  cc_name_prefix cfg <> [] ->
  exists h' ctx, takeout_sticky_cookie_lb_context now h cfg cipher = Ok (h', ctx) /\
    List.filter not_empty (cookie_pairs h') =
      List.filter not_empty (List.filter (fun c => negb (is_sticky cfg c)) (cookie_pairs h)) /\
    Forall (fun c => is_sticky cfg c = false) (cookie_pairs h') /\
    (forall k, COOKIE <> k -> field h' k = field h k) /\
    (ctx <> None -> length (List.filter (is_sticky cfg) (cookie_pairs h)) = 1%nat).
Proof. apply takeout_spec. Qed.

(** ** The exchange with a client *)

Definition b64_byte (b : byte) : bool := is_ascii_alphanumeric b || (b =? HYPHEN) || (b =? UNDERSCORE).

Lemma b64_byte_facts b :
  b64_byte b = true -> graphic b = true /\ b <> EQUALS /\ (0 <=? b) && (b <=? 127) = true.
Proof.
  unfold b64_byte, graphic, is_ascii_alphanumeric, is_ascii_digit, is_ascii_uppercase, is_ascii_lowercase.
  lia.
Qed.

(** A well-formed pair is read back as it is. *)
Lemma try_from_pair name v :
  EQUALS ∉ name -> forallb graphic name = true -> v <> [] -> forallb b64_byte v = true ->
  StickyCookieValue_try_from (name ++ EQUALS :: v) name = Ok {| cv_name := name; cv_value := v |}.
Proof.
  intros Hn Hg Hne Hv. unfold StickyCookieValue_try_from.
  rewrite (proj2 (split_once_Some EQUALS _ name v)) by done.
  assert (forallb graphic v = true) as Hgv.
  { eapply forallb_weaken; [|exact Hv]. intros b Hb. by apply b64_byte_facts. }
  rewrite !trim_all_graphic by done. rewrite bool_decide_true by done. cbn [negb].
  by rewrite bool_decide_false.
Qed.

Lemma takeout_single now h cfg cipher v id :
  cc_name_prefix cfg = cc_name cfg ++ B "=" -> EQUALS ∉ cc_name cfg ->
  forallb graphic (cc_name cfg) = true -> v <> [] -> forallb b64_byte v = true ->
  List.filter (is_sticky cfg) (cookie_pairs h) = [cc_name cfg ++ EQUALS :: v] ->
  open_server_id cipher (cc_aad cfg) v now = Some id ->
  exists h', takeout_sticky_cookie_lb_context now h cfg cipher = Ok (h', Some {| sticky_cookie :=
    {| sc_value := {| cv_name := cc_name cfg; cv_value := id |}; sc_info := None |} |}).
Proof.
  intros Hp Hn Hg Hne Hv Hs Hopen. unfold takeout_sticky_cookie_lb_context.
  assert (hm_contains_key h COOKIE = true) as ->.
  { apply hm_contains_key_true. intros E. unfold cookie_pairs in Hs. by rewrite E in Hs. }
  cbn [negb]. change (starts_with (cc_name_prefix cfg)) with (is_sticky cfg).
  destruct (rewritten_cookies cfg h) as (h' & E & _); [by rewrite Hs|]. cbv zeta in E.
  rewrite Hs, E. clear E. cbn [mbind result_bind]. rewrite bool_decide_true by done. cbn [negb].
  rewrite try_from_pair by done. cbn [cv_value]. rewrite Hopen. by eexists.
Qed.

(** A successful [Set-Cookie] puts the sealed pair in front of a line of the response. *)
Lemma set_cookie_inv now nonce h ctx cfg secure cipher h' :
  set_sticky_cookie_lb_context now nonce h ctx cfg secure cipher = Ok h' ->
  exists info sealed attrs, sc_info (sticky_cookie ctx) = Some info /\
    seal_server_id nonce cipher (cc_aad cfg) (cv_value (sc_value (sticky_cookie ctx))) (expires info)
      = Ok sealed /\
    cv_name (sc_value (sticky_cookie ctx)) ++ EQUALS :: sealed ++ B "; expires=" ++ attrs
      ∈ field h' SET_COOKIE.
Proof.
  unfold set_sticky_cookie_lb_context. destruct (sc_info _) as [info|] eqn:Ei; [|done].
  cbn [ok_or mbind result_bind]. destruct (seal_server_id _ _ _ _ _) as [sealed|] eqn:Es; [|done].
  cbn [map_err mbind result_bind]. unfold to_set_cookie_value_with_value. rewrite Ei.
  destruct (format_gmt (expires info)) as [e|]; [|done]. cbn [ok_or map_err mbind result_bind].
  match goal with |- context [hv_from_str ?l] => set (line := l) end.
  destruct (hv_from_str line) as [v|] eqn:Ev; [|done]. cbn [ok_or mbind result_bind]. intros Hset.
  exists info, sealed. eexists. split_and!; [done..|].
  assert (v ∈ hm_get_all h' SET_COOKIE) as Hin.
  { destruct (hm_contains_key h SET_COOKIE) eqn:Ek; cbn [negb] in Hset.
    - destruct (existsb _ _) eqn:Ex; injection Hset as <-.
      + rewrite hm_get_all_map_values, decide_True by done.
        apply existsb_exists in Ex as (e' & He & Hs). apply list_elem_of_fmap. exists e'.
        split; [by rewrite Hs|by apply list_elem_of_In].
      + rewrite hm_get_all_append, decide_True by done. set_solver.
    - injection Hset as <-. rewrite hm_get_all_insert_eq. by left. }
  unfold field. apply list_elem_of_fmap. exists v. split; [|done].
  by rewrite (hv_from_str_as_bytes _ _ Ev).
Qed.

(** The configuration of a sticky route: the fixed cookie name. *)
Definition sticky_config_of (server_name : str) (path : option str) (cfg : StickyCookieConfig) : Prop :=
  StickyCookieConfig_try_new STICKY_COOKIE_NAME server_name path STICKY_COOKIE_DURATION_SECS = Ok cfg.

Lemma sticky_config_inv sn path cfg :
  sticky_config_of sn path cfg ->
  cc_name cfg = STICKY_COOKIE_NAME /\ cc_name_prefix cfg = STICKY_COOKIE_NAME ++ B "=" /\
  cc_duration cfg = STICKY_COOKIE_DURATION_SECS.
Proof.
  unfold sticky_config_of, StickyCookieConfig_try_new. cbn [Z.leb].
  destruct (build_sticky_cookie_aad _ _ _); [|done]. cbn. by intros [= <-].
Qed.

Lemma sealed_b64 nonce c aad id exp sealed :
  seal_server_id nonce c aad id exp = Ok sealed -> forallb b64_byte sealed = true /\ sealed <> [].
Proof.
  intros (_ & _ & ct & _ & ->)%seal_inv. split; [apply b64_alphabet|].
  intros E. apply (f_equal (fun l => Z.of_nat (length l))) in E. rewrite b64_encode_length in E.
  cbn [length] in E. assert (1 <= Z.of_nat (length ([VERSION_V1] ++ nonce ++ ct))) as Hl.
  { rewrite length_app. cbn. lia. }
  pose proof (b64_len_mono 1 _ ltac:(split; [lia|exact Hl])) as Hm. rewrite E in Hm. by vm_compute in Hm.
Qed.

Lemma server_id_utf8 u i : is_utf8 (calculate_id_with_index u i) = true.
Proof.
  apply ascii_is_utf8. unfold calculate_id_with_index. eapply forallb_weaken; [|apply b64_alphabet].
  intros b Hb. by apply b64_byte_facts.
Qed.

(** C4: sticky sessions work end to end: when a response sets the cookie the balancer
    issued for the upstream that served the request, the response carries a
    [Set-Cookie] line with a sealed pair, and any later request that presents this
    pair before its expiry, among whatever other cookies, is opened to a context with
    which the balancer selects the same upstream again, without a new cookie, as long as
    that upstream is healthy. *)
Theorem sticky_client_roundtrip us r0 s s1 p c ctx0 t0 t1 nonce h h' cfg sn path secure cipher :
  us <> [] -> observes us r0 -> lb_wf us (StickyRoundRobin s) -> collision_free us ->
  sticky_config s = cfg -> sticky_config_of sn path cfg ->
  length nonce = 12%nat -> is_bytes nonce = true -> 0 <= t0 < 2 ^ 62 ->
  Sticky_get_ptr t0 s ctx0 r0 = Some (s1, p) -> context p = Some c ->
  set_sticky_cookie_lb_context t1 nonce h c cfg secure cipher = Ok h' ->
  exists sealed attrs,
    STICKY_COOKIE_NAME ++ EQUALS :: sealed ++ B "; expires=" ++ attrs ∈ field h' SET_COOKIE /\
    forall t2 req, t2 < t0 + STICKY_COOKIE_DURATION_SECS ->
      List.filter (is_sticky cfg) (cookie_pairs req) = [STICKY_COOKIE_NAME ++ EQUALS :: sealed] ->
      exists req' c', takeout_sticky_cookie_lb_context t2 req cfg cipher = Ok (req', Some c') /\
        forall s2 r2 v t3, lb_wf us (StickyRoundRobin s2) ->
          r2 0%nat !! ptr p = Some v -> is_healthy v = true ->
          Sticky_get_ptr t3 s2 (Some c') r2 = Some (s2, {| ptr := ptr p; context := None |}).
Proof.
  intros Hne Ho Hwf Hcf Hcfg Hsc Hn12 Hnb Ht0 Hget Hctx Hset.
  destruct (sticky_issued t0 s us r0 ctx0 s1 p c) as (u & Hu & ->); [done..|]. rewrite Hcfg in Hset.
  destruct (sticky_config_inv _ _ _ Hsc) as (Hname & Hpre & Hdur).
  apply set_cookie_inv in Hset as (info & sealed & attrs & Hinfo & Hseal & Hline).
  cbn [sticky_cookie build_sticky_cookie sc_info sc_value StickyCookieValue_build cv_name cv_value] in *.
  injection Hinfo as <-. cbn [StickyCookieInfo_build expires] in Hseal. rewrite Hdur in Hseal.
  exists sealed, attrs. split; [by rewrite Hname in Hline|]. intros t2 req Ht2 Hreq.
  destruct (sealed_b64 _ _ _ _ _ _ Hseal) as [Hb64 Hsne].
  unfold STICKY_COOKIE_DURATION_SECS in *.
  assert (open_server_id cipher (cc_aad cfg) sealed t2 = Some (calculate_id_with_index u (ptr p))) as Hopen.
  { rewrite (open_seal nonce cipher (cc_aad cfg) (calculate_id_with_index u (ptr p)) (t0 + 300));
      [|done|done|lia|apply server_id_utf8|done]. by destruct (Z.leb_spec (t0 + 300) t2); [lia|]. }
  destruct (takeout_single t2 req cfg cipher sealed (calculate_id_with_index u (ptr p)))
    as (req' & Htake); [by rewrite Hname|rewrite Hname; by apply (bool_decide_unpack _)|by rewrite Hname|done|done| |done|].
  { by rewrite Hname. }
  rewrite Htake. eexists req', _. split; [reflexivity|].
  intros s2 r2 v t3 Hwf2 Hv Hh. by eapply sticky_selects.
Qed.
End sticky_header.

(** ** Witnesses *)

Module StickyExamples.

Import BalanceExamples.
#[local] Existing Instance Alist.laws.

Definition cfg : StickyCookieConfig :=
  default config (ok (StickyCookieConfig_try_new STICKY_COOKIE_NAME (B "example.com") None STICKY_COOKIE_DURATION_SECS)).

Definition balancer : LoadBalanceSticky :=
  {| st_ptr := 7; sticky_config := cfg; upstream_maps := build_upstream_maps group |}.

Definition key : @Cipher toy_crypto := (None : toy_key).
Definition nonce : str := replicate 12 7.

Definition cookies : @HeaderMap Alist.api :=
  [(COOKIE, B "a=1; rpxy_sticky_token=xyz"); (COOKIE, B "b=2"); (HOST, B "example.com")].

Lemma sticky_cookie_taken_out_witness :
  exists h' ctx, takeout_sticky_cookie_lb_context 0 cookies cfg key = Ok (h', ctx) /\
    List.filter not_empty (cookie_pairs h') = [B "a=1"; B "b=2"] /\
    Forall (fun c => is_sticky cfg c = false) (cookie_pairs h') /\
    (forall k, COOKIE <> k -> field h' k = field cookies k) /\
    (ctx <> None -> length (List.filter (is_sticky cfg) (cookie_pairs cookies)) = 1%nat).
Proof. apply (sticky_cookie_taken_out 0 cookies cfg key). done. Defined.

Definition served : option (LoadBalanceSticky * PointerToUpstream) :=
  Sticky_get_ptr 1000 balancer None (steady group).

Definition issued_context : LoadBalanceContext :=
  default {| sticky_cookie := build_sticky_cookie cfg 0 [] |} (served ≫= fun r => context r.2).

Definition next_balancer : LoadBalanceSticky := default balancer (fst <$> served).
Definition chosen : PointerToUpstream := default {| ptr := 0; context := None |} (snd <$> served).

Definition no_headers : @HeaderMap Alist.api := [].

Definition response : @HeaderMap Alist.api :=
  default no_headers (ok (set_sticky_cookie_lb_context 1001 nonce no_headers issued_context cfg true key)).

Lemma sticky_client_roundtrip_witness :
  exists sealed attrs,
    STICKY_COOKIE_NAME ++ EQUALS :: sealed ++ B "; expires=" ++ attrs ∈ field response SET_COOKIE /\
    forall t2 (req : @HeaderMap Alist.api), t2 < 1000 + STICKY_COOKIE_DURATION_SECS ->
      List.filter (is_sticky cfg) (cookie_pairs req) = [STICKY_COOKIE_NAME ++ EQUALS :: sealed] ->
      exists req' c', takeout_sticky_cookie_lb_context t2 req cfg key = Ok (req', Some c') /\
        forall s2 (r2 : @Reads Alist.api) v t3, lb_wf group (StickyRoundRobin s2) ->
          r2 0%nat !! ptr chosen = Some v -> is_healthy v = true ->
          Sticky_get_ptr t3 s2 (Some c') r2 = Some (s2, {| ptr := ptr chosen; context := None |}).
Proof.
  apply (sticky_client_roundtrip group (steady group) balancer next_balancer chosen issued_context None
           1000 1001 nonce no_headers response cfg (B "example.com") None true key).
  - done.
  - apply observes_steady.
  - split; [done|]. cbn. unfold usize_max. lia.
  - apply group_collision_free.
  - done.
  - vm_compute. reflexivity.
  - done.
  - done.
  - lia.
  - vm_compute. reflexivity.
  - vm_compute. reflexivity.
  - vm_compute. reflexivity.
Defined.

End StickyExamples.

(** Only the first [Connection] line is read: a header that a second one lists stays. *)
Module HopExamples.
Definition two_connection_lines : @HeaderMap Alist.api :=
  [(B "connection", B "close"); (B "connection", B "x-hop"); (B "x-hop", B "1")].

Example second_connection_line_ignored :
  @hm_get_all Alist.api (remove_hop_header (remove_connection_header two_connection_lines)) (B "x-hop") = [B "1"].
Proof. vm_compute. reflexivity. Qed.
End HopExamples.
