(* ===== verification/RouteProps.v ===== *)
(** * What routing guarantees

    Longest-prefix routing at path boundaries, independent of the iteration order of
    the hash map; what a successful configuration establishes; the default
    application. *)

From S2P Require Import Prelude RustStr RustNet HttpIface Globals HealthCheck StickyCookie.
From S2P Require Import NameExp LoadBalance Backend BalanceProps CryptoInstance.

Section route_lemmas.
Context `{HttpApi} `{CryptoApi}.

(** ** Matching *)

(** [route] covers [path]: it is the path, a prefix of it up to a slash, or a single
    byte (the default route) in front of it. *)
Definition covers (route path : str) : Prop :=
  path = route \/ (exists s, path = route ++ SLASH :: s) \/
  (length route = 1%nat /\ exists s, path = route ++ s).

Lemma route_matches_covers path route : route_matches path route = true <-> covers (pn_inner route) path.
Proof.
  unfold route_matches, covers. destruct route as [r]; cbn [pn_inner].
  rewrite andb_true_iff, starts_with_spec, orb_true_iff, Nat.eqb_eq. split.
  - intros [[s ->] [Hl|Hb]]; [right; right; split; [done|by exists s]|].
    destruct s as [|b s]; [left; by rewrite app_nil_r|].
    rewrite list_lookup_middle in Hb by done. apply Z.eqb_eq in Hb as ->. right; left. by exists s.
  - intros [->|[[s ->]|[Hl [s ->]]]].
    + split; [exists []; by rewrite app_nil_r|]. right. by rewrite lookup_ge_None_2.
    + split; [by eexists|]. right. by rewrite list_lookup_middle.
    + split; [by eexists|by left].
Qed.

Lemma covers_prefix r path : covers r path -> exists s, path = r ++ s.
Proof.
  intros [->|[[s ->]|[_ [s ->]]]]; [exists []; by rewrite app_nil_r|by exists (SLASH :: s)|by exists s].
Qed.

(** Two covering routes of the same length are the same route. *)
Lemma covers_same_length r r' path :
  covers r path -> covers r' path -> length r = length r' -> r = r'.
Proof.
  intros [s ->]%covers_prefix [s' E]%covers_prefix Hl. by apply app_inj_1 in E as [? _].
Qed.

Definition matching (pm : PathManager) (path : str) : list (PathName * UpstreamCandidates) :=
  List.filter (fun e => route_matches path e.1) (pm_inner pm).

Lemma matching_elem pm path r c :
  (r, c) ∈ matching pm path <-> (r, c) ∈ pm_inner pm /\ covers (pn_inner r) path.
Proof.
  unfold matching. rewrite list_elem_of_In, filter_In, <- list_elem_of_In. cbn [fst].
  by rewrite route_matches_covers.
Qed.

Lemma get_Some pm path c :
  PathManager_get pm path = Some c ->
  exists r, (r, c) ∈ pm_inner pm /\ covers (pn_inner r) path /\
    forall r' c', (r', c') ∈ pm_inner pm -> covers (pn_inner r') path ->
      r' = r \/ (PathName_len r' < PathName_len r)%nat.
Proof.
  unfold PathManager_get. fold (matching pm path).
  destruct (max_by_key _ _) as [[r c']|] eqn:E; [|done]. intros [= <-]. cbn in *.
  apply max_by_key_Some in E as [[Hin Hc]%matching_elem Hmax]. exists r. split_and!; [done..|].
  intros r' c1 Hin' Hc'. pose proof (Hmax (r', c1) ltac:(by apply matching_elem)) as Hle. cbn in Hle.
  destruct (decide (PathName_len r' = PathName_len r)) as [El|]; [left|right; lia].
  destruct r as [r], r' as [r']. f_equal. by eapply covers_same_length.
Qed.

Lemma get_None pm path :
  PathManager_get pm path = None -> forall r c, (r, c) ∈ pm_inner pm -> ~ covers (pn_inner r) path.
Proof.
  unfold PathManager_get. fold (matching pm path). intros E r c Hin Hc.
  destruct (max_by_key _ _) eqn:Em; [done|]. apply max_by_key_None in Em.
  assert ((r, c) ∈ matching pm path) as Hm by (by apply matching_elem). rewrite Em in Hm.
  by apply not_elem_of_nil in Hm.
Qed.

Lemma get_perm pm pm' path :
  NoDup (fst <$> pm_inner pm) -> pm_inner pm' ≡ₚ pm_inner pm ->
  PathManager_get pm' path = PathManager_get pm path.
Proof.
  intros Hnd Hp.
  destruct (PathManager_get pm' path) as [c'|] eqn:E', (PathManager_get pm path) as [c|] eqn:E; [|exfalso..|done].
  - apply get_Some in E as (r & Hin & Hc & Hmax), E' as (r' & Hin' & Hc' & Hmax').
    rewrite Hp in Hin'. assert (r = r') as <-.
    { destruct (Hmax r' c' Hin' Hc') as [->|]; [done|].
      destruct (Hmax' r c) as [->|]; [by rewrite Hp|done|done|lia]. }
    apply map_find_elem in Hin, Hin'; [|done..]. congruence.
  - apply get_Some in E' as (r' & Hin' & Hc' & _). rewrite Hp in Hin'. by eapply get_None in E.
  - apply get_Some in E as (r & Hin & Hc & _). rewrite <- Hp in Hin. by eapply get_None in E'.
Qed.

(** ** Building *)

(** The candidates a reverse proxy setting stands for. *)
Definition candidates_of (server_name : str) (rpc : ReverseProxyConfig) : result RpxyError UpstreamCandidates :=
  lb ← load_balance_of (rp_load_balance rpc) (upstream_vec_of rpc) server_name (rp_path rpc);
  Ok {| uc_inner := upstream_vec_of rpc;
        uc_path := to_path_name (default (B "/") (rp_path rpc));
        uc_replace_path := to_path_name <$> rp_replace_path rpc;
        uc_load_balance := lb;
        uc_options :=
          match rp_upstream_options rpc with
          | None => []
          | Some opts => remove_dups (omap (fun s => ok (UpstreamOption_try_from s)) opts)
          end;
        uc_health_check_config := rp_health_check rpc |}.

Lemma add_route_candidates cfg m rpc :
  add_route cfg m rpc = (c ← candidates_of (ac_server_name cfg) rpc; Ok (map_put (uc_path c) c m)).
Proof.
  unfold add_route, candidates_of, builder_load_balance.
  destruct (load_balance_of _ _ _ _) as [lb|e]; [|done]. cbn. by destruct (rp_path rpc).
Qed.

(** Invariant of the loop over the settings [done]. *)
Definition routes_wf (cfg : AppConfig) (done : list ReverseProxyConfig)
    (m : list (PathName * UpstreamCandidates)) : Prop :=
  NoDup (fst <$> m) /\
  (forall p c, (p, c) ∈ m -> uc_path c = p /\
     exists rpc, rpc ∈ done /\ candidates_of (ac_server_name cfg) rpc = Ok c) /\
  (forall rpc, rpc ∈ done -> exists c0 c, candidates_of (ac_server_name cfg) rpc = Ok c0 /\
     map_find (uc_path c0) m = Some c).

Lemma routes_wf_step cfg dn m rpc m' :
  routes_wf cfg dn m -> add_route cfg m rpc = Ok m' -> routes_wf cfg (dn ++ [rpc]) m'.
Proof.
  intros (Hnd & Hel & Hall) Ha. rewrite add_route_candidates in Ha.
  destruct (candidates_of _ rpc) as [c|] eqn:Ec; [|done]. cbn in Ha. injection Ha as <-.
  split_and!.
  - by apply map_put_keys.
  - intros p c' [[-> ->]|Hin]%map_put_elem.
    + split; [done|]. exists rpc. split; [set_solver|done].
    + destruct (Hel p c' Hin) as (Hp & r & Hr & Hc). split; [done|]. exists r. split; [set_solver|done].
  - intros r [Hr| ->%list_elem_of_singleton]%elem_of_app.
    + destruct (Hall r Hr) as (c0 & c1 & Hc0 & Hf).
      destruct (decide (uc_path c = uc_path c0)) as [E|Hne].
      * exists c0, c. split; [done|]. rewrite <- E. apply map_find_put.
      * exists c0, c1. split; [done|]. by rewrite map_find_put_ne.
    + exists c, c. split; [done|]. apply map_find_put.
Qed.

Lemma routes_wf_fold cfg dn m l m' :
  routes_wf cfg dn m -> result_foldM (add_route cfg) l m = Ok m' -> routes_wf cfg (dn ++ l) m'.
Proof.
  revert dn m; induction l as [|rpc l IH]; intros dn m Hwf Hf; cbn in Hf.
  - rewrite app_nil_r. by injection Hf as <-.
  - destruct (add_route cfg m rpc) as [m1|] eqn:E; [|done]. cbn in Hf.
    rewrite cons_middle, app_assoc. eapply IH; [|exact Hf]. by eapply routes_wf_step.
Qed.

Lemma try_from_inv cfg pm :
  PathManager_try_from cfg = Ok pm ->
  routes_wf cfg (ac_reverse_proxy cfg) (pm_inner pm) /\
  count_if (fun rpc => bool_decide (rp_path rpc = None)) (ac_reverse_proxy cfg) < 2 /\
  forall p c, (p, c) ∈ pm_inner pm -> options_exclusive c = true.
Proof.
  unfold PathManager_try_from. destruct (result_foldM _ _ _) as [m|] eqn:E; [|done]. cbn.
  destruct (Z.leb_spec 2 (count_if (fun rpc => bool_decide (rp_path rpc = None)) (ac_reverse_proxy cfg)));
    [done|]. destruct (forallb _ _) eqn:Ef; [|done]. cbn. intros [= <-]. cbn. split_and!; [|done|].
  - apply (routes_wf_fold cfg [] [] _ m); [|done].
    split_and!; [constructor|by intros ? ? ?%not_elem_of_nil|by intros ? ?%not_elem_of_nil].
  - intros p c Hin. rewrite forallb_forall in Ef. by apply (Ef (p, c)), list_elem_of_In.
Qed.

Lemma load_balance_wf v us sn p lb : load_balance_of v us sn p = Ok lb -> lb_wf us lb.
Proof.
  unfold load_balance_of. destruct v as [x|]; [|by intros [= <-]].
  destruct (StickyCookieConfig_try_new _ _ _ _); repeat case_decide; intros [= <-]; try done;
    cbn; unfold usize_max; lia.
Qed.

Lemma candidates_wf sn rpc c : candidates_of sn rpc = Ok c -> lb_wf (uc_inner c) (uc_load_balance c).
Proof.
  unfold candidates_of. destruct (load_balance_of _ _ _ _) eqn:E; [|done]. cbn. intros [= <-]. cbn.
  by eapply load_balance_wf.
Qed.
End route_lemmas.

(** ** Applications *)

Section app_lemmas.
Context `{HttpApi} `{CryptoApi}.

(** The registered applications: distinct names, each the server name of its entry,
    each built from a configuration. *)
Definition apps_wf (l : list AppConfig) (m : list (ServerName * BackendApp)) : Prop :=
  NoDup (fst <$> m) /\
  (forall n a, (n, a) ∈ m -> ba_server_name a = n /\
     exists cfg, cfg ∈ l /\ BackendApp_try_from cfg = Ok a) /\
  (forall cfg, cfg ∈ l -> is_Some (map_find (to_server_name (ac_server_name cfg)) m)).

Lemma app_server_name cfg a :
  BackendApp_try_from cfg = Ok a -> ba_server_name a = to_server_name (ac_server_name cfg).
Proof. unfold BackendApp_try_from. destruct (PathManager_try_from cfg); [|done]. cbn. by intros [= <-]. Qed.

Lemma apps_wf_step l m cfg m' : apps_wf l m -> add_app m cfg = Ok m' -> apps_wf (l ++ [cfg]) m'.
Proof.
  intros (Hnd & Hel & Hall) Ha. unfold add_app in Ha.
  destruct (BackendApp_try_from cfg) as [a|] eqn:Ea; [|done]. cbn in Ha. injection Ha as <-. split_and!.
  - by apply map_put_keys.
  - intros n b [[-> ->]|Hin]%map_put_elem.
    + split; [by apply app_server_name|]. exists cfg. split; [set_solver|done].
    + destruct (Hel n b Hin) as (Hn & c & Hc & Hb). split; [done|]. exists c. split; [set_solver|done].
  - intros c [Hc| ->%list_elem_of_singleton]%elem_of_app; [|rewrite map_find_put; by eexists].
    destruct (decide (to_server_name (ac_server_name cfg) = to_server_name (ac_server_name c))) as [->|];
      [rewrite map_find_put; by eexists|]. rewrite map_find_put_ne by done. by apply Hall.
Qed.

Lemma apps_wf_fold dn m l m' :
  apps_wf dn m -> result_foldM add_app l m = Ok m' -> apps_wf (dn ++ l) m'.
Proof.
  revert dn m; induction l as [|cfg l IH]; intros dn m Hwf Hf; cbn in Hf.
  - rewrite app_nil_r. by injection Hf as <-.
  - destruct (add_app m cfg) as [m1|] eqn:E; [|done]. cbn in Hf.
    rewrite cons_middle, app_assoc. eapply IH; [|exact Hf]. by eapply apps_wf_step.
Qed.

Lemma manager_inv cl m :
  BackendAppManager_try_from cl = Ok m ->
  apps_wf (acl_inner cl) (apps m) /\
  (forall n, default_server_name m = Some n -> exists a, (n, a) ∈ apps m /\
     acl_default_app cl = Some (ba_app_name a)).
Proof.
  unfold BackendAppManager_try_from. destruct (result_foldM _ _ _) as [l|] eqn:E; [|done]. cbn.
  assert (apps_wf (acl_inner cl) l) as Hwf.
  { apply (apps_wf_fold [] [] _ l); [|done].
    split_and!; [constructor|by intros ? ? ?%not_elem_of_nil|by intros ? ?%not_elem_of_nil]. }
  destruct (acl_default_app cl) as [d|]; intros [= <-]; cbn; [|by split].
  split; [done|]. intros n Hn. apply head_Some in Hn as [rest Hm].
  assert (n ∈ map (fun e => ba_server_name e.2)
    (List.filter (fun e => bool_decide (ba_app_name e.2 = d)) l)) as Hin by (rewrite Hm; by left).
  apply list_elem_of_fmap in Hin as ([k a] & -> & Hf). rewrite list_elem_of_In, filter_In in Hf.
  destruct Hf as [Hf Hd%bool_decide_eq_true]. cbn in *. apply list_elem_of_In in Hf.
  destruct Hwf as (_ & Hel & _). destruct (Hel k a Hf) as [-> _]. exists a. by subst.
Qed.
End app_lemmas.

(** ** Theorems *)

Section route_theorems.
Context `{HttpApi} `{CL : CryptoLaws}.

(** C5: a request path is routed to the candidates of the longest configured path that
    covers it at a path boundary; when none covers it no route is found; and the order
    in which the hash map is iterated does not matter. *)
Theorem longest_prefix_routing cfg pm path :
  PathManager_try_from cfg = Ok pm ->
  match PathManager_get pm path with
  | Some c =>
      (uc_path c, c) ∈ pm_inner pm /\ covers (pn_inner (uc_path c)) path /\
      forall r' c', (r', c') ∈ pm_inner pm -> covers (pn_inner r') path ->
        r' = uc_path c \/ (PathName_len r' < PathName_len (uc_path c))%nat
  | None => forall r c, (r, c) ∈ pm_inner pm -> ~ covers (pn_inner r) path
  end /\
  (forall pm', pm_inner pm' ≡ₚ pm_inner pm -> PathManager_get pm' path = PathManager_get pm path).
Proof.
  intros ((Hnd & Hel & _) & _)%try_from_inv. split; [|intros; by apply get_perm].
  destruct (PathManager_get pm path) as [c|] eqn:E; [|by apply get_None].
  apply get_Some in E as (r & Hin & Hc & Hmax). by destruct (Hel r c Hin) as [-> _].
Qed.

(** A configuration that is accepted determines the routes: every entry is what one
    of the settings describes, under its own path, with a balancer built for its
    upstreams and at most one forced HTTP version; every configured path is routed to
    an entry of exactly that path; and at most one setting omits its path. *)
Theorem accepted_config_routes cfg pm :
  PathManager_try_from cfg = Ok pm ->
  (forall p c, (p, c) ∈ pm_inner pm ->
     uc_path c = p /\ lb_wf (uc_inner c) (uc_load_balance c) /\
     ~ (ForceHttp11Upstream ∈ uc_options c /\ ForceHttp2Upstream ∈ uc_options c) /\
     exists rpc, rpc ∈ ac_reverse_proxy cfg /\ candidates_of (ac_server_name cfg) rpc = Ok c) /\
  (forall rpc, rpc ∈ ac_reverse_proxy cfg ->
     exists c, PathManager_get pm (default (B "/") (rp_path rpc)) = Some c /\
       uc_path c = to_path_name (default (B "/") (rp_path rpc))) /\
  count_if (fun rpc => bool_decide (rp_path rpc = None)) (ac_reverse_proxy cfg) < 2.
Proof.
  intros ((Hnd & Hel & Hall) & Hcount & Hopt)%try_from_inv. split_and!; [| |done].
  - intros p c Hin. destruct (Hel p c Hin) as (Hp & rpc & Hr & Hc). split_and!; [done| | |by exists rpc].
    + by eapply candidates_wf.
    + pose proof (Hopt p c Hin) as Ho. unfold options_exclusive in Ho. intros [H1 H2].
      by rewrite !bool_decide_true in Ho.
  - intros rpc Hr. destruct (Hall rpc Hr) as (c0 & c & Hc0 & Hf).
    apply map_find_elem in Hf; [|done].
    assert (uc_path c0 = to_path_name (default (B "/") (rp_path rpc))) as E0.
    { unfold candidates_of in Hc0. destruct (load_balance_of _ _ _ _); [|done]. by injection Hc0 as <-. }
    rewrite E0 in Hf. set (path := default (B "/") (rp_path rpc)) in *.
    destruct (PathManager_get pm path) as [c1|] eqn:E; [|by destruct (get_None pm path E _ _ Hf); left].
    exists c1. split; [done|]. apply get_Some in E as (r & Hin & Hc & Hmax).
    destruct (Hel r c1 Hin) as [-> _]. destruct (Hmax _ _ Hf) as [->|Hlt]; [by left|done|].
    apply covers_prefix in Hc as [s E]. apply (f_equal length) in E. rewrite length_app in E.
    unfold PathName_len in Hlt. cbn in Hlt. lia.
Qed.

(** A routed request always gets an upstream: with non-empty groups, the candidates
    found for a path yield one of their upstreams without a panic, whatever cookie the
    client sends and however health flags change meanwhile, and stay well formed for
    the next request. *)
Theorem routed_request_served cfg pm path c ctx r now rng :
  PathManager_try_from cfg = Ok pm ->
  (forall rpc, rpc ∈ ac_reverse_proxy cfg -> rp_upstream rpc <> []) ->
  PathManager_get pm path = Some c ->
  observes (uc_inner c) r -> (forall n, 0 < n -> 0 <= rng n < n) ->
  exists c' u ctx', UpstreamCandidates_get now rng c ctx r = Some (c', (Some u, ctx')) /\
    u ∈ uc_inner c /\ uc_inner c' = uc_inner c /\ lb_wf (uc_inner c') (uc_load_balance c').
Proof.
  intros ((Hnd & Hel & _) & _)%try_from_inv Hup (p & Hin & _)%get_Some Ho Hrng.
  destruct (Hel p c Hin) as (_ & rpc & Hr & Hc).
  assert (uc_inner c <> []) as Hne.
  { unfold candidates_of in Hc. destruct (load_balance_of _ _ _ _); [|done]. injection Hc as <-.
    cbn. unfold upstream_vec_of. specialize (Hup rpc Hr). by destruct (rp_upstream rpc). }
  destruct (selection_total (uc_inner c) r (uc_load_balance c) ctx now rng) as (lb' & q & Hg & Hq & Hwf);
    [done|done|by eapply candidates_wf|done|].
  unfold UpstreamCandidates_get. rewrite Hg. cbn. apply lookup_lt_is_Some_2 in Hq as [u Hu].
  rewrite Hu. eexists _, u, _. split; [reflexivity|]. split; [by eapply list_elem_of_lookup_2|done].
Qed.

(** Applications are found by server name regardless of case, and the default
    application, when the manager has one, is a registered application with the
    configured name. *)
Theorem default_app_registered cl m :
  BackendAppManager_try_from cl = Ok m ->
  (forall n, default_server_name m = Some n ->
     exists a, map_find n (apps m) = Some a /\ acl_default_app cl = Some (ba_app_name a)) /\
  (forall cfg host, cfg ∈ acl_inner cl -> eq_ignore_ascii_case host (ac_server_name cfg) = true ->
     exists a, map_find (to_server_name host) (apps m) = Some a /\
       ba_server_name a = to_server_name (ac_server_name cfg)).
Proof.
  intros [(Hnd & Hel & Hall) Hdef]%manager_inv. split.
  - intros n (a & Hin & Ha)%Hdef. exists a. split; [|done]. by apply map_find_elem.
  - intros cfg host Hin Hh. assert (to_server_name host = to_server_name (ac_server_name cfg)) as ->.
    { unfold to_server_name, ServerName_from. f_equal.
      by apply bool_decide_eq_true in Hh. }
    destruct (Hall cfg Hin) as [a Ha]. exists a. split; [done|].
    apply map_find_elem in Ha; [|done]. by destruct (Hel _ a Ha) as [-> _].
Qed.
End route_theorems.

(** ** Witnesses *)

Module RouteExamples.

Definition uri_of (host : string) : @UpstreamUri Alist.api :=
  @Build_UpstreamUri Alist.api
    {| Alist.u_scheme := Some (B "http"); Alist.u_authority := Some (B host);
       Alist.u_path := B "/"; Alist.u_query := None |}.

Definition rp (path : option string) (hosts : list string) (lb : option string) : @ReverseProxyConfig Alist.api :=
  {| rp_path := B <$> path; rp_replace_path := None; rp_upstream := uri_of <$> hosts;
     rp_upstream_options := Some [B "forwarded_header"]; rp_load_balance := B <$> lb;
     rp_health_check := None |}.

Definition cfg : @AppConfig Alist.api :=
  {| ac_app_name := B "app1"; ac_server_name := B "Example.com";
     ac_reverse_proxy :=
       [rp None ["a.internal"%string; "b.internal"%string] (Some "sticky"%string);
        rp (Some "/api"%string) ["c.internal"%string] None];
     ac_tls := None |}.

Definition pm : PathManager := default {| pm_inner := [] |} (ok (PathManager_try_from cfg)).

Definition sticky_route : UpstreamCandidates :=
  default {| uc_inner := []; uc_path := to_path_name []; uc_replace_path := None;
             uc_load_balance := FixToFirst; uc_options := []; uc_health_check_config := None |}
    (PathManager_get pm (B "/apix")).

Definition cl : @AppConfigList Alist.api := {| acl_inner := [cfg]; acl_default_app := Some (B "app1") |}.

Definition manager : BackendAppManager :=
  default {| apps := []; default_server_name := None |} (ok (BackendAppManager_try_from cl)).

Lemma cfg_accepted : PathManager_try_from cfg = Ok pm.
Proof.
  assert (is_ok (PathManager_try_from cfg) = true) as Hok by (vm_compute; reflexivity).
  unfold pm. by destruct (PathManager_try_from cfg).
Qed.

Lemma cl_accepted : BackendAppManager_try_from cl = Ok manager.
Proof.
  assert (is_ok (BackendAppManager_try_from cl) = true) as Hok by (vm_compute; reflexivity).
  unfold manager. by destruct (BackendAppManager_try_from cl).
Qed.

Lemma sticky_route_found : PathManager_get pm (B "/apix") = Some sticky_route.
Proof.
  assert (bool_decide (is_Some (PathManager_get pm (B "/apix"))) = true) as Hs by (vm_compute; reflexivity).
  unfold sticky_route. by destruct (PathManager_get pm (B "/apix")).
Qed.

Lemma longest_prefix_routing_witness :
  uc_path <$> PathManager_get pm (B "/api/v1") = Some (to_path_name (B "/api")) /\
  forall pm', pm_inner pm' ≡ₚ pm_inner pm -> PathManager_get pm' (B "/api/v1") = PathManager_get pm (B "/api/v1").
Proof.
  split; [vm_compute; reflexivity|]. apply (longest_prefix_routing cfg pm (B "/api/v1") cfg_accepted).
Defined.

Lemma accepted_config_routes_witness :
  count_if (fun rpc => bool_decide (rp_path rpc = None)) (ac_reverse_proxy cfg) < 2.
Proof. apply (accepted_config_routes cfg pm). apply cfg_accepted. Defined.

Lemma routed_request_served_witness :
  exists c' u ctx', UpstreamCandidates_get 0 BalanceExamples.rng sticky_route None (steady (uc_inner sticky_route))
      = Some (c', (Some u, ctx')) /\
    u ∈ uc_inner sticky_route /\ uc_inner c' = uc_inner sticky_route /\
    lb_wf (uc_inner c') (uc_load_balance c').
Proof.
  apply (routed_request_served cfg pm (B "/apix") sticky_route None).
  - apply cfg_accepted.
  - apply Forall_forall. repeat constructor; done.
  - apply sticky_route_found.
  - apply observes_steady.
  - apply BalanceExamples.rng_ok.
Defined.

Lemma default_app_registered_witness :
  exists a, map_find (to_server_name (B "example.com")) (apps manager) = Some a /\
    acl_default_app cl = Some (ba_app_name a).
Proof.
  apply (proj1 (default_app_registered cl manager cl_accepted)). vm_compute. reflexivity.
Defined.


(** A default route and an explicit one for the root path are not told apart: the check
    for several defaults passes, and the later route takes the place of the first. *)
Definition two_defaults : @AppConfig Alist.api :=
  {| ac_app_name := B "app1"; ac_server_name := B "example.com";
     ac_reverse_proxy := [rp None ["a.internal"%string] None; rp (Some "/"%string) ["b.internal"%string] None];
     ac_tls := None |}.

Definition authorities (m : @PathManager Alist.api) : list (list (option str)) :=
  map (fun r => map (fun u => Alist.u_authority (@u_uri Alist.api u)) (@uc_inner Alist.api (snd r))) (pm_inner m).

Example default_route_overwritten :
  authorities <$> ok (PathManager_try_from two_defaults) = Some [[Some (B "b.internal")]].
Proof. vm_compute. reflexivity. Qed.
End RouteExamples.
