(* ===== verification/HandlerProps.v ===== *)
(** * What the message handler guarantees

    The handler always answers, rejects in a fixed order before any upstream contact,
    never serves a TLS request with an application other than the one its SNI names,
    and sends upstreams a sanitised request. *)

From S2P Require Import Prelude RustStr RustNet HttpIface ForwardedSyntax HeaderCommon.
From S2P Require Import Forwarding Globals HealthCheck StickyCookie NameExp LoadBalance Backend.
From S2P Require Import HeaderOps RequestOps Handler BalanceProps HeaderProps RouteProps.
From S2P Require Import CryptoInstance.

(** ** The shared state *)

Section handler_state.
Context `{HttpApi} `{IpNetApi} `{CL : CryptoLaws} `{ClockApi}.

Definition candidates_ok (c : UpstreamCandidates) : Prop :=
  uc_inner c <> [] /\ lb_wf (uc_inner c) (uc_load_balance c).

Definition app_ok (app : BackendApp) : Prop :=
  forall p c, (p, c) ∈ pm_inner (path_manager app) -> candidates_ok c.

(** Non-empty groups with balancers built for them, and a default that exists. *)
Definition manager_wf (m : BackendAppManager) : Prop :=
  (forall n a, (n, a) ∈ apps m -> app_ok a) /\
  (forall d, default_server_name m = Some d -> is_Some (map_find d (apps m))).

(** The flags are those of the group, and draws are in range. *)
Definition env_ok (env : Env) : Prop :=
  (forall c, observes (uc_inner c) (health_reads env c)) /\
  (forall n, 0 < n -> 0 <= random_range env n < n).

Lemma put_candidates_wf m key app c :
  manager_wf m -> app_ok app -> is_Some (map_find key (apps m)) -> candidates_ok c ->
  manager_wf (put_candidates m key app c).
Proof.
  intros [Hok Hdef] Happ Hkey Hc. split; cbn.
  - intros n a [[-> ->]|Hin]%map_put_elem; [|by eapply Hok].
    intros p c' [[-> ->]|Hin]%map_put_elem; [done|by eapply Happ].
  - intros d Hd. destruct (decide (key = d)) as [->|]; [rewrite map_find_put; by eexists|].
    rewrite map_find_put_ne by done. by apply Hdef.
Qed.

Lemma candidates_get_total env c ctx :
  env_ok env -> candidates_ok c ->
  exists c' u ctx', UpstreamCandidates_get (now_issue env) (random_range env) c ctx (health_reads env c)
      = Some (c', (Some u, ctx')) /\ u ∈ uc_inner c /\ candidates_ok c'.
Proof.
  intros [Hobs Hrng] [Hne Hwf].
  destruct (selection_total (uc_inner c) (health_reads env c) (uc_load_balance c) ctx (now_issue env)
    (random_range env)) as (lb' & q & Hg & Hq & Hwf'); [done|done|done|done|].
  unfold UpstreamCandidates_get. rewrite Hg. cbn. apply lookup_lt_is_Some_2 in Hq as [u Hu].
  rewrite Hu. eexists _, u, _. split; [reflexivity|]. split; [by eapply list_elem_of_lookup_2|by split].
Qed.

Lemma generate_total env g client listen req upgrade c tls fb :
  env_ok env -> candidates_ok c ->
  exists c' r, generate_request_forwarded env g client listen req upgrade c tls fb = Some (c', r) /\
    candidates_ok c'.
Proof.
  intros Henv Hc. unfold generate_request_forwarded.
  destruct (prepare_request _ _ _ _ _ _ _) as [p|e]; [|by eexists _, _].
  destruct (candidates_get_total env c (pr_context p) Henv Hc) as (c' & u & ctx' & -> & _ & Hc').
  by eexists _, _.
Qed.

Lemma select_app_total m sn tls :
  manager_wf m -> exists r, select_app m sn tls = Some r /\
    forall key app fb, r = Ok (key, app, fb) -> map_find key (apps m) = Some app.
Proof.
  intros [_ Hdef]. unfold select_app. destruct (map_find sn (apps m)) as [a|] eqn:E.
  { eexists. split; [done|]. by intros key app fb [= <- <- <-]. }
  destruct tls; [by eexists|]. destruct (default_server_name m) as [d|] eqn:Ed; [|by eexists].
  destruct (Hdef d eq_refl) as [a Ha]. rewrite Ha. cbn. eexists. split; [done|].
  by intros key app fb [= <- <- <-].
Qed.

Lemma route_total env g m req client listen tls sni :
  env_ok env -> manager_wf m ->
  exists m' d, route_request env g m req client listen tls sni = Some (m', d) /\ manager_wf m'.
Proof.
  intros Henv Hwf. unfold route_request.
  destruct (inspect_request _ _ _ _) as [sn|e]; [|by eexists _, _].
  destruct (select_app_total m sn tls Hwf) as (r & -> & Hr).
  destruct r as [[[key app] fb]|e]; [|by eexists _, _].
  case_match; [by eexists _, _|].
  destruct (PathManager_get _ _) as [c|] eqn:Ec; [|by eexists _, _].
  case_match; [by eexists _, _|].
  specialize (Hr _ _ _ eq_refl). destruct Hwf as [Hok Hdef].
  assert (app_ok app) as Happ by (eapply Hok; by eapply map_find_in).
  apply get_Some in Ec as (p & Hin & _).
  edestruct (generate_total env g client listen req (extract_upgrade (rq_headers req)) c tls)
    as (c' & r & Hg & Hc'); [done|by eapply Happ|].
  rewrite Hg. cbn [mbind option_bind]. eexists _, _. split; [reflexivity|].
  apply put_candidates_wf; [done|done|by eexists|done].
Qed.

Lemma initial_manager_wf cl m :
  BackendAppManager_try_from cl = Ok m ->
  (forall cfg rpc, cfg ∈ acl_inner cl -> rpc ∈ ac_reverse_proxy cfg -> rp_upstream rpc <> []) ->
  manager_wf m.
Proof.
  intros [(Hnd & Hel & _) Hdef]%manager_inv Hup. split.
  - intros n a Hin. destruct (Hel n a Hin) as (_ & cfg & Hcfg & Ha).
    unfold BackendApp_try_from in Ha. destruct (PathManager_try_from cfg) as [pm|] eqn:Epm; [|done].
    injection Ha as <-. intros p c Hc. cbn in Hc.
    apply try_from_inv in Epm as ((_ & Hr & _) & _). destruct (Hr p c Hc) as (_ & rpc & Hrpc & Hcand).
    specialize (Hup cfg rpc Hcfg Hrpc). split; [|by eapply candidates_wf].
    unfold candidates_of in Hcand. destruct (load_balance_of _ _ _ _); [|done]. injection Hcand as <-.
    cbn. unfold upstream_vec_of. by destruct (rp_upstream rpc).
  - intros d (a & Hin & _)%Hdef. exists a. by apply map_find_elem.
Qed.
End handler_state.

(** ** Which stage writes which header *)

Section handler_headers.
Context `{HL : HttpLaws} `{IpNetApi} `{CL : CryptoLaws} `{ClockApi}.

Lemma takeout_ne now h cfg cipher h' ctx k :
  takeout_sticky_cookie_lb_context now h cfg cipher = Ok (h', ctx) -> COOKIE <> k -> field h' k = field h k.
Proof.
  unfold takeout_sticky_cookie_lb_context. change (starts_with (cc_name_prefix cfg)) with (is_sticky cfg).
  intros Ht Hk. case_match; [by injection Ht as <- <-|].
  destruct (List.filter (is_sticky cfg) _) as [|c rest] eqn:Es; [by injection Ht as <- <-|].
  destruct (rewritten_cookies cfg h) as (h1 & E & _ & _ & Hne & _); [by rewrite Es|].
  cbv zeta in E. rewrite E in Ht.
  cbn [mbind result_bind] in Ht. rewrite <- (Hne k Hk). clear E.
  repeat case_match; by injection Ht as <- <-.
Qed.

(** A line of text that [to_str] accepts. *)
Definition readable (line : str) : Prop := forallb is_visible_ascii line = true.

(** The cookies that a server finds in the [Cookie] lines, whatever bytes they contain. *)
Definition sent_cookies (h : HeaderMap) : list str :=
  concat (map (fun line => map trim (split_char SEMICOLON line)) (field h COOKIE)).

(** The header names that a [Connection] line lists. *)
Definition connection_options (line : str) : list str := map to_ascii_lowercase (list_elements line).

Lemma cookie_pairs_bytes h :
  cookie_pairs h = concat (map (fun b => map trim (split_char SEMICOLON
    (default [] (if forallb is_visible_ascii b then Some b else None)))) (field h COOKIE)).
Proof.
  unfold cookie_pairs, field. f_equal. change (hv_as_bytes <$> ?l) with (map hv_as_bytes l).
  rewrite map_map. apply map_ext. intros v. by rewrite hv_to_str_visible.
Qed.

(** The cookies are a function of the bytes of the field. *)
Lemma cookie_pairs_field h1 h2 : field h1 COOKIE = field h2 COOKIE -> cookie_pairs h1 = cookie_pairs h2.
Proof. intros E. by rewrite !cookie_pairs_bytes, E. Qed.

Lemma sent_cookies_readable h : Forall readable (field h COOKIE) -> sent_cookies h = cookie_pairs h.
Proof.
  intros Hr. rewrite cookie_pairs_bytes. unfold sent_cookies. f_equal. apply map_ext_in. intros line Hl%list_elem_of_In.
  rewrite Forall_forall in Hr. specialize (Hr line Hl). unfold readable in Hr. by rewrite Hr.
Qed.

Lemma connection_listed_first h line rest :
  field h CONNECTION = line :: rest -> readable line -> connection_listed h = connection_options line.
Proof.
  unfold field, connection_listed. rewrite hm_get_first. destruct (hm_get_all h CONNECTION) as [|v vs]; [done|].
  cbn [fmap list_fmap head]. intros [= <- _] Hr. by rewrite hv_to_str_visible, Hr.
Qed.

(** The lines are only rewritten for a sticky cookie that could be read. *)
Lemma takeout_lines now h cfg cipher h' ctx :
  takeout_sticky_cookie_lb_context now h cfg cipher = Ok (h', ctx) ->
  field h' COOKIE = field h COOKIE \/
  (exists x, x ∈ cookie_pairs h /\ is_sticky cfg x = true) /\ Forall readable (field h' COOKIE).
Proof.
  unfold takeout_sticky_cookie_lb_context. change (starts_with (cc_name_prefix cfg)) with (is_sticky cfg).
  intros Ht. case_match; [injection Ht as <- <-; by left|].
  destruct (List.filter (is_sticky cfg) _) as [|c rest] eqn:Es; [injection Ht as <- <-; by left|].
  right. split.
  { exists c. rewrite list_elem_of_In, <- filter_In, Es. by left. }
  destruct (rewritten_cookies cfg h) as (h1 & E & _ & _ & _ & Hv); [by rewrite Es|].
  cbv zeta in E. rewrite E in Ht. cbn [mbind result_bind] in Ht. clear E.
  repeat case_match; by injection Ht as <- <-.
Qed.

Definition OPTION_HEADERS : list str := [HOST; UPGRADE_INSECURE_REQUESTS; FORWARDED].

Lemma options_ne h host u c trusted h' k :
  apply_upstream_options_to_header h host u c trusted = Ok h' -> k ∉ OPTION_HEADERS ->
  field h' k = field h k.
Proof.
  unfold OPTION_HEADERS. rewrite !not_elem_of_cons. intros Ho (Hk1 & Hk2 & Hk3 & _).
  unfold apply_upstream_options_to_header in Ho.
  match type of Ho with mbind _ ?r = _ => destruct r as [h1|] eqn:E1; [|done] end.
  cbn [mbind result_bind] in Ho.
  assert (field h1 k = field h k) as <-.
  { clear Ho. case_match; [|by injection E1 as <-]. unfold override_host_header in E1.
    destruct (host_header u); [|done]. injection E1 as <-. by rewrite field_insert_ne. }
  match type of Ho with context [hm_contains_key ?x FORWARDED] => set (h2 := x) in * end.
  assert (field h2 k = field h1 k) as <-.
  { unfold h2, or_insert_static. clear Ho. repeat case_match; try done; by rewrite field_static_ne. }
  case_match; [|by injection Ho as <-].
  destruct (extract_forwarding_chain_from_headers h2 host) as [[chain|]|]; [|by injection Ho as <-|done].
  cbn [map_err mbind result_bind] in Ho.
  destruct (generate_forwarded_header _); [by eapply field_overwrite_ne|by injection Ho as <-].
Qed.

Lemma version_option_headers l req : rq_headers (fold_left apply_version_option l req) = rq_headers req.
Proof. revert req; induction l as [|o l IH]; intros req; [done|]. cbn. rewrite IH. by destruct o. Qed.

Lemma version_option_uri l req : rq_uri (fold_left apply_version_option l req) = rq_uri req.
Proof. revert req; induction l as [|o l IH]; intros req; [done|]. cbn. rewrite IH. by destruct o. Qed.

Lemma request_line_headers req u c : rq_headers (update_request_line req u c) = rq_headers req.
Proof. unfold update_request_line. case_match; [done|]. rewrite version_option_headers. by repeat case_match. Qed.

Lemma request_line_uri req u c : rq_uri (update_request_line req u c) = rq_uri req.
Proof. unfold update_request_line. case_match; [done|]. rewrite version_option_uri. by repeat case_match. Qed.

Lemma effective_headers req s a u : rq_headers (insert_client_facing_effective_uri req s a u) = rq_headers req.
Proof. unfold insert_client_facing_effective_uri. by case_match. Qed.

Lemma effective_uri_same req s a u : rq_uri (insert_client_facing_effective_uri req s a u) = rq_uri req.
Proof. unfold insert_client_facing_effective_uri. by case_match. Qed.

(** The first half: the forwarding rewrite of the request without its hop-by-hop
    headers, then [TE], [Host] and the sticky cookie. *)
Lemma prepare_inv env g client listen req c tls p :
  prepare_request env g client listen req c tls = Ok p ->
  rq_uri (pr_req p) = rq_uri req /\
  exists h0,
    add_forwarding_header (remove_hop_header (remove_connection_header (rq_headers req))) client listen tls
      (rq_uri req) (client_authority req) (trusted_forwarded_proxies (proxy_config g)) = Ok h0 /\
    (forall k, k ∉ [TE; HOST; COOKIE] -> field (rq_headers (pr_req p)) k = field h0 k) /\
    field (rq_headers (pr_req p)) TE =
      (if match hm_get (rq_headers req) TE with Some te => te_contains_trailers te | None => false end
       then [B "trailers"] else field h0 TE) /\
    (hm_get (rq_headers req) HOST <> None -> field (rq_headers (pr_req p)) HOST = field h0 HOST) /\
    (forall lb, uc_load_balance c = StickyRoundRobin lb -> cc_name_prefix (sticky_config lb) <> [] ->
       Forall (fun x => is_sticky (sticky_config lb) x = false) (cookie_pairs (rq_headers (pr_req p)))).
Proof.
  unfold prepare_request. intros Hp.
  destruct (add_forwarding_header _ _ _ _ _ _ _) as [h0|] eqn:E0; [|done]. cbn [mbind result_bind] in Hp.
  set (te := match hm_get (rq_headers req) TE with Some te => te_contains_trailers te | None => false end) in *.
  set (h1 := if te then insert_static h0 TE (B "trailers") else h0) in *.
  match type of Hp with mbind _ ?r = _ => destruct r as [h2|] eqn:E2; [|done] end.
  cbn [mbind result_bind] in Hp.
  assert (forall k, k ∉ [TE; HOST; COOKIE] -> field h2 k = field h0 k) as Hne.
  { intros k. rewrite !not_elem_of_cons. intros (Ht & Hh & _).
    assert (field h1 k = field h0 k) as <- by (unfold h1; destruct te; [by rewrite field_static_ne|done]).
    destruct (hm_get _ HOST); [by injection E2 as <-|]. bind_inv E2. bind_inv E2.
    injection E2 as <-. by rewrite field_insert_ne. }
  assert (field h2 TE = if te then [B "trailers"] else field h0 TE) as Hte.
  { assert (field h1 TE = if te then [B "trailers"] else field h0 TE) as <-.
    { unfold h1. destruct te; [by apply field_static_eq|done]. }
    destruct (hm_get _ HOST); [by injection E2 as <-|]. bind_inv E2. bind_inv E2.
    injection E2 as <-. by rewrite field_insert_ne by closed_ne. }
  assert (hm_get (rq_headers req) HOST <> None -> field h2 HOST = field h0 HOST) as Hhost.
  { intros Hs. destruct (hm_get _ HOST); [|done]. injection E2 as <-. unfold h1.
    destruct te; [by rewrite field_static_ne by closed_ne|done]. }
  assert (forall h3 pr, (forall k, COOKIE <> k -> field h3 k = field h2 k) ->
    (forall lb, uc_load_balance c = StickyRoundRobin lb -> cc_name_prefix (sticky_config lb) <> [] ->
       Forall (fun x => is_sticky (sticky_config lb) x = false) (cookie_pairs h3)) ->
    pr_req pr = with_headers req h3 -> Ok pr = @Ok anyhow _ p ->
    rq_uri (pr_req p) = rq_uri req /\ exists h0', Ok h0 = @Ok anyhow _ h0' /\
      (forall k, k ∉ [TE; HOST; COOKIE] -> field (rq_headers (pr_req p)) k = field h0' k) /\
      field (rq_headers (pr_req p)) TE = (if te then [B "trailers"] else field h0' TE) /\
      (hm_get (rq_headers req) HOST <> None -> field (rq_headers (pr_req p)) HOST = field h0' HOST) /\
      (forall lb, uc_load_balance c = StickyRoundRobin lb -> cc_name_prefix (sticky_config lb) <> [] ->
         Forall (fun x => is_sticky (sticky_config lb) x = false) (cookie_pairs (rq_headers (pr_req p)))))
    as Hfin.
  { intros h3 pr H3 Hs Hr [= <-]. rewrite Hr. split; [done|]. exists h0. split; [done|]. cbn [with_headers rq_headers].
    split_and!; [|by rewrite H3 by closed_ne|by rewrite H3 by closed_ne|done].
    intros k Hk. rewrite H3; [by apply Hne|]. intros <-. apply Hk. set_solver. }
  destruct (uc_load_balance c) as [| | |lb|] eqn:Elb;
    try (eapply (Hfin h2); [done|by intros ? ?| |exact Hp]; reflexivity).
  destruct (sticky_cookie_cipher g) as [key|]; [|done]. cbn [ok_or mbind result_bind] in Hp.
  destruct (takeout_sticky_cookie_lb_context _ _ _ _) as [[h3 ctx]|] eqn:Et; [|done].
  cbn [mbind result_bind] in Hp. eapply (Hfin h3); [| | |exact Hp]; [..|reflexivity].
  - intros k Hk. by eapply takeout_ne.
  - intros lb' [= <-] Hpre. destruct (takeout_spec (now_open env) h2 (sticky_config lb) key Hpre)
      as (h4 & ctx' & E & _ & Hno & _). rewrite Et in E. by injection E as -> ->.
Qed.

(** The [Cookie] lines after the first half. *)
Lemma prepare_cookies env g client listen req c tls p h0 :
  prepare_request env g client listen req c tls = Ok p ->
  add_forwarding_header (remove_hop_header (remove_connection_header (rq_headers req))) client listen tls
    (rq_uri req) (client_authority req) (trusted_forwarded_proxies (proxy_config g)) = Ok h0 ->
  field (rq_headers (pr_req p)) COOKIE = field h0 COOKIE \/
  (exists lb x, uc_load_balance c = StickyRoundRobin lb /\ x ∈ cookie_pairs h0 /\ is_sticky (sticky_config lb) x = true) /\
  Forall readable (field (rq_headers (pr_req p)) COOKIE).
Proof.
  unfold prepare_request. intros Hp E0. rewrite E0 in Hp. cbn [mbind result_bind] in Hp.
  set (te := match hm_get (rq_headers req) TE with Some te => te_contains_trailers te | None => false end) in *.
  apply result_bind_Ok in Hp as (h2 & E2 & Hp).
  assert (field h2 COOKIE = field h0 COOKIE) as Hc.
  { assert (field (if te then insert_static h0 TE (B "trailers") else h0) COOKIE = field h0 COOKIE) as <-.
    { destruct te; [by rewrite field_static_ne by closed_ne|done]. }
    destruct (hm_get _ HOST); [by injection E2 as <-|]. bind_inv E2. bind_inv E2.
    injection E2 as <-. by rewrite field_insert_ne by closed_ne. }
  rewrite <- Hc, <- (cookie_pairs_field _ _ Hc). destruct (uc_load_balance c) as [| | |lb|]; try (injection Hp as <-; by left).
  apply result_bind_Ok in Hp as (cipher & _ & Hp). apply result_bind_Ok in Hp as ([h3 ctx] & Et & Hp). injection Hp as <-.
  cbn [pr_req with_headers rq_headers]. destruct (takeout_lines _ _ _ _ _ _ Et) as [E|[(x & Hx & Hs) Hv]]; [by left|].
  right. split; [by exists lb, x|done].
Qed.

(** The second half: the options, the default host, the target, and the upgrade. *)
Lemma finish_inv g p upgrade c fb u req' :
  finish_request g p upgrade c fb u = Ok req' ->
  (forall k, k ∉ [HOST; UPGRADE_INSECURE_REQUESTS; FORWARDED; UPGRADE; CONNECTION] ->
     field (rq_headers req') k = field (rq_headers (pr_req p)) k) /\
  (forall k, k = UPGRADE \/ k = CONNECTION ->
     field (rq_headers req') k =
       match upgrade with
       | Some v => if decide (k = UPGRADE) then [v] else [B "upgrade"]
       | None => field (rq_headers (pr_req p)) k
       end) /\
  (forall n, fb = Some n -> field (rq_headers req') HOST = [sn_inner n]) /\
  (exists scheme authority pq, uri_scheme_str (u_uri u) = Some scheme /\
     uri_authority (u_uri u) = Some authority /\
     rebuild_path_and_query (rq_uri (pr_req p)) (uc_replace_path c) (uc_path c) = Ok pq /\
     uri_build (Some scheme) (Some authority) (Some pq) = Some (rq_uri req')).
Proof.
  unfold finish_request. intros Hf.
  destruct (apply_upstream_options_to_header _ _ _ _ _) as [h1|] eqn:E1; [|done].
  cbn [mbind result_bind] in Hf.
  match type of Hf with mbind _ ?r = _ => destruct r as [h2|] eqn:E2; [|done] end.
  cbn [mbind result_bind] in Hf.
  destruct (uri_scheme_str (u_uri u)) as [scheme|]; [|done]. cbn [ok_or mbind result_bind] in Hf.
  destruct (uri_authority (u_uri u)) as [authority|]; [|done]. cbn [ok_or mbind result_bind] in Hf.
  destruct (rebuild_path_and_query _ _ _) as [pq|] eqn:Epq; [|done]. cbn [mbind result_bind] in Hf.
  destruct (uri_build _ _ _) as [target|] eqn:Eu; [|done]. cbn [ok_or mbind result_bind] in Hf.
  match type of Hf with mbind _ ?r = _ => destruct r as [req2|] eqn:E3; [|done] end.
  cbn [mbind result_bind] in Hf. injection Hf as <-. rewrite effective_headers, effective_uri_same.
  assert (forall k, HOST <> k -> field h2 k = field h1 k) as Hd2.
  { intros k Hk. destruct fb as [n|]; [|by injection E2 as <-]. unfold apply_default_app_host_rewrite in E2.
    bind_inv E2. injection E2 as <-. by rewrite field_insert_ne. }
  assert (rq_uri req2 = target) as ->.
  { destruct upgrade; [bind_inv E3; by injection E3 as <-|]. injection E3 as <-. by rewrite request_line_uri. }
  assert (forall k, k <> UPGRADE -> k <> CONNECTION -> field (rq_headers req2) k = field h2 k) as Hd3.
  { intros k Hu Hc. destruct upgrade as [v|].
    - bind_inv E3. injection E3 as <-. cbn [with_headers with_uri rq_headers].
      rewrite field_static_ne, field_insert_ne by done. done.
    - injection E3 as <-. by rewrite request_line_headers. }
  split_and!.
  - intros k. rewrite !not_elem_of_cons. intros (Hk1 & Hk2 & Hk3 & Hk4 & Hk5 & _).
    rewrite Hd3, Hd2 by done. eapply options_ne; [done|]. unfold OPTION_HEADERS. set_solver.
  - intros k Hk. destruct upgrade as [v|].
    + destruct (hv_from_str v) as [w|] eqn:Ew; [|done]. cbn [ok_or mbind result_bind] in E3.
      injection E3 as <-. cbn [with_headers with_uri rq_headers].
      destruct Hk as [-> | ->].
      * rewrite field_static_ne by closed_ne. rewrite field_insert_eq, (hv_from_str_as_bytes _ _ Ew).
        by rewrite decide_True.
      * rewrite field_static_eq by done. by rewrite decide_False by closed_ne.
    + injection E3 as <-. rewrite request_line_headers. cbn [with_headers with_uri rq_headers].
      rewrite Hd2 by (destruct Hk as [-> | ->]; closed_ne).
      apply (options_ne _ _ _ _ _ _ _ E1). destruct Hk as [-> | ->]; by apply (bool_decide_unpack _).
  - intros n ->. rewrite Hd3 by closed_ne. unfold apply_default_app_host_rewrite in E2.
    destruct (hv_from_bytes (sn_inner n)) as [w|] eqn:Ew; [|done]. cbn in E2. injection E2 as <-.
    by rewrite field_insert_eq, (hv_from_bytes_as_bytes _ _ Ew).
  - by exists scheme, authority, pq.
Qed.

(** The upstream that is chosen is one of the candidates. *)
Lemma candidates_get_elem now rnd c ctx hs c' u ctx' :
  UpstreamCandidates_get now rnd c ctx hs = Some (c', (Some u, ctx')) -> u ∈ uc_inner c.
Proof.
  unfold UpstreamCandidates_get. intros Hg. bind_inv Hg. destruct p as [lb q]. injection Hg as _ Hu _.
  by eapply list_elem_of_lookup_2.
Qed.

(** What [route_request] forwards. *)
Lemma route_forward_inv env g m req client listen tls sni m' app upgrade ctx req' :
  route_request env g m req client listen tls sni = Some (m', Forward app upgrade ctx req') ->
  exists sn key fb c p c' u,
    inspect_request g req tls sni = Ok sn /\ select_app m sn tls = Some (Ok (key, app, fb)) /\
    PathManager_get (path_manager app) (uri_path (rq_uri req)) = Some c /\
    upgrade = extract_upgrade (rq_headers req) /\
    prepare_request env g client listen req c tls = Ok p /\
    UpstreamCandidates_get (now_issue env) (random_range env) c (pr_context p) (health_reads env c)
      = Some (c', (Some u, context_lb ctx)) /\
    finish_request g p upgrade c (if fb then Some (ba_server_name app) else None) u = Ok req'.
Proof.
  unfold route_request. destruct (inspect_request _ _ _ _) as [sn|]; [|done].
  destruct (select_app m sn tls) as [[[[key a] fb]|]|] eqn:Es; [|done..].
  case_match; [done|]. destruct (PathManager_get _ _) as [c|] eqn:Ec; [|done]. case_match; [done|].
  unfold generate_request_forwarded.
  destruct (prepare_request _ _ _ _ _ _ _) as [p|] eqn:Ep; [|done].
  destruct (UpstreamCandidates_get _ _ _ _ _) as [[c' [o ctx']]|] eqn:Eg; [|done]. cbn [mbind option_bind].
  destruct o as [u|]; [|done]. cbn [ok_or mbind result_bind].
  destruct (finish_request _ _ _ _ _ _) as [r|] eqn:Ef; [|done]. cbn [mbind result_bind].
  intros [= <- <- <- <- <-]. by exists sn, key, fb, c, p, c', u.
Qed.

(** The headers that the proxy sets itself in a forwarded request. *)
Definition OWN_HEADERS : list str :=
  [TE; HOST; UPGRADE; CONNECTION; UPGRADE_INSECURE_REQUESTS; FORWARDED; X_FORWARDED_FOR; X_FORWARDED_PROTO;
   X_FORWARDED_PORT; X_REAL_IP; X_FORWARDED_SSL; X_ORIGINAL_URI; X_FORWARDED_HOST; PROXY].

(** The request's headers without the hop-by-hop ones. *)
Definition without_hop (h : HeaderMap) : HeaderMap := remove_hop_header (remove_connection_header h).

Lemma without_hop_field h k :
  field (without_hop h) k = if decide (k ∈ HOP_HEADERS \/ k ∈ connection_listed h) then [] else field h k.
Proof. unfold field, without_hop. rewrite hop_headers_removed. by case_decide. Qed.

(** What is gone before the rewrite, and not of the proxy's own making, stays away. *)
Lemma removed_not_forwarded env g client listen req c tls p upgrade fb u req' k :
  ip_wf (sa_ip client) = true -> 0 <= sa_port listen ->
  prepare_request env g client listen req c tls = Ok p -> finish_request g p upgrade c fb u = Ok req' ->
  k ∉ OWN_HEADERS -> field (without_hop (rq_headers req)) k = [] -> field (rq_headers req') k = [].
Proof.
  intros Hca Hla Hp Hf Hk He. apply finish_inv in Hf as (Hfne & _). unfold OWN_HEADERS in Hk.
  rewrite Hfne by set_solver. pose proof Hp as (_ & h0 & Ha & Hne & _)%prepare_inv.
  destruct (decide (k = COOKIE)) as [->|Hc].
  - assert (field h0 COOKIE = []) as E0.
    { destruct (add_forwarding_header_cookies _ _ _ _ _ _ _ _ Ha) as [[-> _]|[Hn _]]; [done|].
      unfold without_hop in He. rewrite He in Hn. cbn in Hn. lia. }
    destruct (prepare_cookies _ _ _ _ _ _ _ _ _ Hp Ha) as [->|[(lb & x & _ & Hx & _) _]]; [done|].
    rewrite cookie_pairs_bytes, E0 in Hx. by apply not_elem_of_nil in Hx.
  - rewrite Hne by set_solver. destruct (add_forwarding_header_fields _ _ _ _ _ _ _ _ Hca Hla Ha)
      as (? & ? & ? & ? & _ & _ & _ & _ & _ & _ & _ & _ & _ & _ & _ & _ & _ & Hother).
    rewrite Hother; [done|]. unfold FORWARDING_HEADERS. set_solver.
Qed.

(** The hop-by-hop headers of what is sent. *)
Lemma hop_fields env g client listen req c tls p upgrade fb u req' :
  ip_wf (sa_ip client) = true -> 0 <= sa_port listen ->
  prepare_request env g client listen req c tls = Ok p -> finish_request g p upgrade c fb u = Ok req' ->
  let h := rq_headers req' in
  (forall k, k ∈ HOP_HEADERS -> k <> TE ->
     field h k =
       match upgrade with
       | Some v => if decide (k = UPGRADE) then [v] else if decide (k = CONNECTION) then [B "upgrade"] else []
       | None => []
       end) /\
  (field h TE = [] \/ field h TE = [B "trailers"]).
Proof.
  intros Hca Hla Hp Hf h. pose proof (fun k => removed_not_forwarded _ _ _ _ _ _ _ _ _ _ _ _ k Hca Hla Hp Hf) as Hgone.
  apply prepare_inv in Hp as (_ & h0 & Ha & Hne & Hte & _).
  apply finish_inv in Hf as (Hfne & Hup & _).
  destruct (add_forwarding_header_fields _ _ _ _ _ _ _ _ Hca Hla Ha)
    as (? & ? & ? & ? & _ & _ & _ & _ & _ & _ & _ & _ & _ & _ & _ & _ & _ & Hother).
  fold (without_hop (rq_headers req)) in Hother.
  assert (forall k, k ∈ HOP_HEADERS -> field (without_hop (rq_headers req)) k = []) as Hw.
  { intros k Hk. rewrite without_hop_field, decide_True; [done|]. by left. }
  assert (forall k, k ∈ HOP_HEADERS -> field h0 k = []) as Hhop.
  { intros k Hk. rewrite Hother; [by apply Hw|]. revert k Hk. apply Forall_forall. by apply (bool_decide_unpack _). }
  split.
  - intros k Hk Hkte. destruct (decide (k = UPGRADE \/ k = CONNECTION)) as [Huc|Hn].
    + unfold h. rewrite Hup by done. rewrite Hne by (destruct Huc as [-> | ->]; by apply (bool_decide_unpack _)).
      rewrite Hhop by done. destruct upgrade; [|done]. case_decide; [done|]. by rewrite decide_True by (by destruct Huc).
    + unfold h. rewrite Hgone; [destruct upgrade; [by rewrite !decide_False by tauto|done]| |by apply Hw].
      clear -Hk Hkte Hn. unfold HOP_HEADERS in Hk.
      repeat (apply elem_of_cons in Hk as [->|Hk]; [first [by apply (bool_decide_unpack _)|tauto]|]). by apply not_elem_of_nil in Hk.
  - unfold h. rewrite Hfne, Hte by (by apply (bool_decide_unpack _)).
    match goal with |- context [if ?b then [B "trailers"] else _] => destruct b end; [by right|].
    left. apply Hhop. by apply (bool_decide_unpack _).
Qed.

(** The headers that describe the connection. *)
Lemma forwarding_fields env g client listen req c tls p upgrade fb u req' :
  ip_wf (sa_ip client) = true -> 0 <= sa_port listen ->
  prepare_request env g client listen req c tls = Ok p -> finish_request g p upgrade c fb u = Ok req' ->
  let h := rq_headers req' in
  field h PROXY = [[]] /\
  field h X_FORWARDED_PROTO = [if tls then B "https" else B "http"] /\
  field h X_FORWARDED_HOST = match client_authority req with Some x => [x] | None => [] end /\
  (is_trusted_proxy (peer_ip_of client) (trusted_forwarded_proxies (proxy_config g)) = false ->
     field h X_FORWARDED_FOR = [show_ip (peer_ip_of client)] /\
     field h X_REAL_IP = [show_ip (peer_ip_of client)]).
Proof.
  intros Hca Hla (_ & h0 & Ha & Hne & _)%prepare_inv (Hfne & _)%finish_inv h.
  destruct (add_forwarding_header_fields _ _ _ _ _ _ _ _ Hca Hla Ha)
    as (ec & a & ips & t & Hec & Hips & _ & _ & Hxff & Hxri & _ & Hproto & _ & _ & _ & Hhost & Hproxy & _).
  assert (forall k, k ∉ [TE; HOST; COOKIE; UPGRADE_INSECURE_REQUESTS; FORWARDED; UPGRADE; CONNECTION] ->
    field h k = field h0 k) as Hkeep.
  { intros k Hk. unfold h. rewrite Hfne, Hne by set_solver. done. }
  split_and!; try (by rewrite Hkeep by (by apply (bool_decide_unpack _))).
  intros Ht. rewrite !Hkeep by (by apply (bool_decide_unpack _)). rewrite Hxff, Hxri.
  unfold normalize_forwarding_chain in Hec. rewrite Ht in Hec. cbn in Hec. subst ec. by injection Hips as <- <-.
Qed.

(** The [Cookie] lines that are forwarded can be read, unless the only line of the client
    cannot, which is then forwarded as it is. *)
Lemma forwarded_cookie_lines env g client listen req c tls p upgrade fb u req' :
  prepare_request env g client listen req c tls = Ok p -> finish_request g p upgrade c fb u = Ok req' ->
  let h := rq_headers req' in
  ((forall line, field (rq_headers req) COOKIE = [line] -> readable line) -> Forall readable (field h COOKIE)) /\
  (forall line, field (rq_headers req) COOKIE = [line] -> ~ readable line -> COOKIE ∉ connection_listed (rq_headers req) ->
     (forall lb, uc_load_balance c = StickyRoundRobin lb -> cc_name_prefix (sticky_config lb) <> []) ->
     field h COOKIE = [line]).
Proof.
  intros Hp Hf h. apply finish_inv in Hf as (Hfne & _). unfold h. rewrite Hfne by (by apply (bool_decide_unpack _)).
  pose proof Hp as (_ & h0 & Ha & _)%prepare_inv. fold (without_hop (rq_headers req)) in Ha.
  pose proof (prepare_cookies _ _ _ _ _ _ _ _ _ Hp Ha) as Hl.
  pose proof (add_forwarding_header_cookies _ _ _ _ _ _ _ _ Ha) as H0'. split.
  - intros Hr. destruct Hl as [->|[_ ?]]; [|done]. destruct H0' as [[-> Hlen]|(_ & line & -> & ?)]; [|by constructor].
    rewrite without_hop_field in *. case_decide; [constructor|].
    destruct (field (rq_headers req) COOKIE) as [|line [|? ?]]; [constructor| |cbn in Hlen; lia]. constructor; [by apply Hr|constructor].
  - intros line E Hu Hc Hpre. assert (field (without_hop (rq_headers req)) COOKIE = [line]) as Ew.
    { rewrite without_hop_field, decide_False, E; [done|]. intros [Hh|?]; [|done]. revert Hh. by apply (bool_decide_unpack _). }
    assert (field h0 COOKIE = [line]) as E0.
    { destruct H0' as [[-> _]|(Hn & _)]; [done|]. rewrite Ew in Hn. cbn in Hn. lia. }
    destruct Hl as [->|[(lb & x & Hlb & Hx & Hs) _]]; [done|]. exfalso. rewrite cookie_pairs_bytes, E0 in Hx.
    unfold readable in Hu. apply not_true_iff_false in Hu. cbn [map concat] in Hx. rewrite Hu in Hx. cbn in Hx. apply list_elem_of_singleton in Hx as ->.
    unfold is_sticky in Hs. apply starts_with_spec in Hs as [r Hs]. specialize (Hpre lb Hlb). by destruct (cc_name_prefix _).
Qed.
End handler_headers.

(** ** Theorems *)

Section handler_theorems.
Context `{HL : HttpLaws} `{IpNetApi} `{CL : CryptoLaws} `{ClockApi}.

(** One request and everything it meets. *)
Record Arrival := {
  a_env : Env;
  a_forwarder : Request -> option Response;
  a_req : Request;
  a_client : SocketAddr;
  a_listen : SocketAddr;
  a_tls : bool;
  a_sni : option ServerName
}.

(** Serving a sequence of requests, the balancers' counters carried along. *)
Fixpoint serve (g : Globals) (m : BackendAppManager) (l : list Arrival) : option (list Response) :=
  match l with
  | [] => Some []
  | a :: l =>
      '(m', res) ← handle_request (a_env a) g (a_forwarder a) m (a_req a) (a_client a) (a_listen a)
                     (a_tls a) (a_sni a);
      rest ← serve g m' l; Some (res :: rest)
  end.

Lemma serve_total cl m g l :
  BackendAppManager_try_from cl = Ok m ->
  (forall cfg rpc, cfg ∈ acl_inner cl -> rpc ∈ ac_reverse_proxy cfg -> rp_upstream rpc <> []) ->
  Forall (fun a => env_ok (a_env a)) l ->
  exists rs, serve g m l = Some rs /\ length rs = length l.
Proof.
  intros Hm Hup Hl. pose proof (initial_manager_wf cl m Hm Hup) as Hwf. clear Hm.
  revert m Hwf. induction Hl as [|a l Ha Hl IH]; intros m Hwf; [by exists []|].
  cbn [serve]. unfold handle_request.
  unfold handle_request_inner.
  destruct (route_total (a_env a) g m (a_req a) (a_client a) (a_listen a) (a_tls a) (a_sni a) Ha Hwf)
    as (m' & r & -> & Hwf'). cbn [mbind option_bind].
  destruct (IH m' Hwf') as (rs & -> & Hlen). cbn [mbind option_bind].
  eexists. split; [reflexivity|]. cbn. by rewrite Hlen.
Qed.

(** C3: the handler always answers: started from an accepted configuration whose groups
    are not empty, it answers every request of every sequence, whatever the clients and
    the upstreams send and however health flags change; no index and no [unwrap] can
    panic. *)
Theorem handler_always_answers cl m g l :
  BackendAppManager_try_from cl = Ok m ->
  (forall cfg rpc, cfg ∈ acl_inner cl -> rpc ∈ ac_reverse_proxy cfg -> rp_upstream rpc <> []) ->
  Forall (fun a => env_ok (a_env a)) l ->
  exists rs, serve g m l = Some rs /\ length rs = length l.
Proof. apply serve_total. Qed.

(** C2: what an upstream receives: the hop-by-hop headers of the client are gone (only a
    negotiated upgrade puts back its two, and [TE] is at most [trailers]), and so is every
    header that the first [Connection] line of the client lists, unless the proxy sets it
    itself; the [Proxy] header is neutralised, the scheme and host headers describe this
    proxy's connection, a peer outside the trusted proxies is the only forwarding
    identity, and no [Cookie] line contains the sticky cookie, unless the client sent one
    single [Cookie] line that is not text (which [unreadable_cookie_line_forwarded] is
    about). *)
Theorem upstream_request_sanitised env g m req client listen tls sni m' app upgrade ctx req' :
  ip_wf (sa_ip client) = true -> 0 <= sa_port listen ->
  route_request env g m req client listen tls sni = Some (m', Forward app upgrade ctx req') ->
  let h := rq_headers req' in
  (forall k, k ∈ HOP_HEADERS -> k <> TE ->
     field h k =
       match upgrade with
       | Some v => if decide (k = UPGRADE) then [v] else if decide (k = CONNECTION) then [B "upgrade"] else []
       | None => []
       end) /\
  (field h TE = [] \/ field h TE = [B "trailers"]) /\
  (forall line rest k, field (rq_headers req) CONNECTION = line :: rest -> readable line ->
     k ∈ connection_options line -> k ∉ OWN_HEADERS -> field h k = []) /\
  field h PROXY = [[]] /\
  field h X_FORWARDED_PROTO = [if tls then B "https" else B "http"] /\
  field h X_FORWARDED_HOST = match client_authority req with Some x => [x] | None => [] end /\
  (is_trusted_proxy (peer_ip_of client) (trusted_forwarded_proxies (proxy_config g)) = false ->
     field h X_FORWARDED_FOR = [show_ip (peer_ip_of client)] /\
     field h X_REAL_IP = [show_ip (peer_ip_of client)]) /\
  (forall c lb, PathManager_get (path_manager app) (uri_path (rq_uri req)) = Some c ->
     uc_load_balance c = StickyRoundRobin lb -> cc_name_prefix (sticky_config lb) <> [] ->
     (forall line, field (rq_headers req) COOKIE = [line] -> readable line) ->
     Forall (fun x => is_sticky (sticky_config lb) x = false) (sent_cookies h)).
Proof.
  intros Hca Hla (sn & key & fb & c & p & c' & u & _ & _ & Hc & -> & Hp & _ & Hf)%route_forward_inv h.
  pose proof (fun k => removed_not_forwarded _ _ _ _ _ _ _ _ _ _ _ _ k Hca Hla Hp Hf) as Hgone.
  destruct (forwarded_cookie_lines _ _ _ _ _ _ _ _ _ _ _ _ Hp Hf) as [Hlines _].
  destruct (forwarding_fields _ _ _ _ _ _ _ _ _ _ _ _ Hca Hla Hp Hf) as (Hproxy & Hproto & Hhost & Huntrusted).
  destruct (hop_fields _ _ _ _ _ _ _ _ _ _ _ _ Hca Hla Hp Hf) as (Hhop & Hte).
  apply prepare_inv in Hp as (_ & _ & _ & _ & _ & _ & Hsticky). apply finish_inv in Hf as (Hfne & _).
  split_and!; try done.
  - intros line rest k Hl Hr Hk Ho. apply Hgone; [done|]. rewrite without_hop_field, decide_True; [done|].
    right. by rewrite (connection_listed_first _ _ _ Hl Hr).
  - intros c1 lb Hc1 Hlb Hpre Hr. rewrite Hc in Hc1. injection Hc1 as <-.
    rewrite sent_cookies_readable by auto. unfold h. rewrite (cookie_pairs_field _ (rq_headers (pr_req p))); [by apply Hsticky|].
    by rewrite Hfne by (by apply (bool_decide_unpack _)).
Qed.

(** C26: a single [Cookie] line with a byte outside ASCII is forwarded unchanged, with the
    sticky cookie in it, which the comment of [takeout_sticky_cookie_lb_context] says must
    not be passed to an upstream. *)
Theorem unreadable_cookie_line_forwarded env g m req client listen tls sni m' app upgrade ctx req' line :
  route_request env g m req client listen tls sni = Some (m', Forward app upgrade ctx req') ->
  field (rq_headers req) COOKIE = [line] -> ~ readable line -> COOKIE ∉ connection_listed (rq_headers req) ->
  (forall c lb, PathManager_get (path_manager app) (uri_path (rq_uri req)) = Some c ->
     uc_load_balance c = StickyRoundRobin lb -> cc_name_prefix (sticky_config lb) <> []) ->
  field (rq_headers req') COOKIE = [line] /\ sent_cookies (rq_headers req') = sent_cookies (rq_headers req).
Proof.
  intros (sn & key & fb & c & p & c' & u & _ & _ & Hc & -> & Hp & _ & Hf)%route_forward_inv Hl Hr Hn Hpre.
  destruct (forwarded_cookie_lines _ _ _ _ _ _ _ _ _ _ _ _ Hp Hf) as [_ Hkept].
  assert (field (rq_headers req') COOKIE = [line]) as E by (apply Hkept; eauto).
  split; [done|]. unfold sent_cookies. by rewrite E, Hl.
Qed.

(** C10: with SNI consistency, a request on a TLS connection is only ever forwarded by the
    application whose server name is the connection's SNI, and without it by the one
    its host names: the default application never serves TLS. *)
Theorem tls_requests_stay_in_their_application env g m req client listen sni m' app upgrade ctx req' :
  route_request env g m req client listen true sni = Some (m', Forward app upgrade ctx req') ->
  exists host, inspect_parse_host req = Ok host /\
    map_find (ServerName_from host) (apps m) = Some app /\
    (sni_consistency (proxy_config g) = true ->
       ServerName_from host = default {| sn_inner := [] |} sni).
Proof.
  intros (sn & key & fb & c & p & c' & u & Hi & Hs & _)%route_forward_inv.
  unfold inspect_request in Hi. destruct (inspect_parse_host req) as [host|]; [|done]. exists host.
  cbn [map_err mbind result_bind andb] in Hi. destruct (sni_consistency _) eqn:Ec.
  - unfold ensure in Hi. case_bool_decide; [|done]. bind_inv Hi. bind_inv Hi. injection Hi as <-.
    unfold select_app in Hs. destruct (map_find _ _); [|done]. by injection Hs as _ -> _.
  - bind_inv Hi. bind_inv Hi. injection Hi as <-.
    unfold select_app in Hs. destruct (map_find _ _); [|done]. by injection Hs as _ -> _.
Qed.

(** The content length a request announces. *)
Definition announced_length (req : Request) : option Z :=
  v ← hm_get (rq_headers req) CONTENT_LENGTH; s ← hv_to_str v; parse_uint u64_max s.

(** The announced length exceeds the configured limit. *)
Definition over_limit (g : Globals) (req : Request) : bool :=
  match request_max_body_size (proxy_config g), announced_length req with
  | Some limit, Some n => limit <? n
  | _, _ => false
  end.

Lemma content_length_check g req :
  check_content_length_limit req (request_max_body_size (proxy_config g))
    = if over_limit g req then Err PayloadTooLarge else Ok ().
Proof.
  unfold check_content_length_limit, over_limit, announced_length.
  destruct (request_max_body_size _); [|done]. destruct (hm_get _ CONTENT_LENGTH) as [v|]; [|done].
  cbn [mbind option_bind]. by destruct (hv_to_str v ≫= parse_uint u64_max).
Qed.

(** C20: bad requests are rejected without contacting any upstream and without moving any
    balancer, in this order: no consistent host (400), host and SNI differ on TLS (421),
    announced body over the limit (413, closing an HTTP/1 connection), no application
    and no default one, or TLS (503). *)
Theorem rejections_precede_upstream env g fwd m req client listen tls sni :
  let answer := handle_request env g fwd m req client listen tls sni in
  match inspect_parse_host req with
  | Err _ => answer = Some (m, synthetic_error_response 400)
  | Ok host =>
      if tls && sni_consistency (proxy_config g)
         && negb (bool_decide (ServerName_from host = default {| sn_inner := [] |} sni))
      then answer = Some (m, synthetic_error_response 421)
      else if over_limit g req then
        exists res, answer = Some (m, res) /\ rs_status res = 413 /\
          field (rs_headers res) CONNECTION =
            if bool_decide (rq_version req ∈ [HTTP_10; HTTP_11]) then [B "close"] else []
      else map_find (ServerName_from host) (apps m) = None -> tls = true \/ default_server_name m = None ->
        answer = Some (m, synthetic_error_response 503)
  end.
Proof.
  unfold handle_request, handle_request_inner, route_request, inspect_request. cbv zeta.
  destruct (inspect_parse_host req) as [host|e]; [|done]. cbn [map_err mbind result_bind].
  rewrite content_length_check. destruct (tls && sni_consistency (proxy_config g)) eqn:Et; cbn [andb].
  - unfold ensure. destruct (bool_decide (ServerName_from host = _)); cbn [negb]; [|done].
    cbn [mbind result_bind]. destruct (over_limit g req); cbn [mbind result_bind option_bind].
    + eexists. split; [reflexivity|]. split; [done|]. cbn [synthetic_error_response_with_close rs_headers].
      destruct (rq_version req); cbn -[field]; try (unfold field; by rewrite hm_get_all_empty);
        by apply field_static_eq.
    + intros Hn Ht. unfold select_app. rewrite Hn. destruct tls; [done|]. by destruct Ht as [?| ->].
  - cbn [mbind result_bind]. destruct (over_limit g req); cbn [mbind result_bind option_bind].
    + eexists. split; [reflexivity|]. split; [done|]. cbn [synthetic_error_response_with_close rs_headers].
      destruct (rq_version req); cbn -[field]; try (unfold field; by rewrite hm_get_all_empty);
        by apply field_static_eq.
    + intros Hn Ht. unfold select_app. rewrite Hn. destruct tls; [done|]. by destruct Ht as [?| ->].
Qed.

(** C21: a forwarded request goes to an upstream of the route that matches its path: the
    target has that upstream's scheme and authority, and the client's path and query,
    of which [replace_path] exchanges exactly the matched prefix. A request that fell
    back to the default application carries that application's server name as [Host]. *)
Theorem forwarded_to_matched_route env g m req client listen tls sni m' app upgrade ctx req' :
  route_request env g m req client listen tls sni = Some (m', Forward app upgrade ctx req') ->
  exists c u scheme authority pq,
    PathManager_get (path_manager app) (uri_path (rq_uri req)) = Some c /\ u ∈ uc_inner c /\
    uri_scheme_str (u_uri u) = Some scheme /\ uri_authority (u_uri u) = Some authority /\
    uri_build (Some scheme) (Some authority) (Some pq) = Some (rq_uri req') /\
    match uc_replace_path c with
    | None => pq = default (B "/") (uri_path_and_query (rq_uri req))
    | Some new =>
        forall rest, default (B "/") (uri_path_and_query (rq_uri req)) = pn_inner (uc_path c) ++ rest ->
          pq_try_from (pn_inner new ++ rest) = Some pq
    end /\
    (forall host, inspect_parse_host req = Ok host -> map_find (ServerName_from host) (apps m) = None ->
       field (rq_headers req') HOST = [sn_inner (ba_server_name app)]).
Proof.
  intros (sn & key & fb & c & p & c' & u & Hi & Hs & Hc & _ & Hp & Hg & Hf)%route_forward_inv.
  apply prepare_inv in Hp as (Huri & _).
  apply finish_inv in Hf as (_ & _ & Hhost & scheme & authority & pq & Hsc & Hau & Hpq & Hb).
  rewrite Huri in Hpq. exists c, u, scheme, authority, pq. split_and!; try done.
  - by eapply candidates_get_elem.
  - unfold rebuild_path_and_query in Hpq. destruct (uc_replace_path c) as [new|]; [|by injection Hpq as <-].
    intros rest E. rewrite E in Hpq. bind_inv Hpq. rewrite drop_app_length in Hpq. by apply ok_or_Ok in Hpq.
  - intros host Hh Hn. unfold inspect_request in Hi. rewrite Hh in Hi. cbn [map_err mbind result_bind] in Hi.
    bind_inv Hi. bind_inv Hi. injection Hi as <-. unfold select_app in Hs. rewrite Hn in Hs.
    destruct tls; [done|]. destruct (default_server_name m) as [d|]; [|done].
    destruct (map_find d (apps m)); [|done]. cbn in Hs. injection Hs as <- <- <-. by apply Hhost.
Qed.

(** C36: a response that is not a protocol switch reaches the client without hop-by-hop
    headers and without the headers that the first [Connection] line of the upstream
    lists, with this proxy as [Server], and advertises HTTP/3 exactly when it is enabled,
    the client came over TLS and the application has TLS without client certificates;
    every other header is kept, also one that only a later [Connection] line lists. *)
Theorem downstream_response_sanitised g res app tls res' :
  generate_response_forwarded g res app tls = Ok res' ->
  let h := rs_headers res' in
  rs_status res' = rs_status res /\
  (forall k, k ∈ HOP_HEADERS -> field h k = []) /\
  (forall line rest k, field (rs_headers res) CONNECTION = line :: rest -> readable line ->
     k ∈ connection_options line -> k ∉ [SERVER; ALT_SVC] -> field h k = []) /\
  field h SERVER = [RESPONSE_HEADER_SERVER] /\
  (field h ALT_SVC <> [] <->
     http3 (proxy_config g) = true /\ tls = true /\ ba_mutual_tls app = Some false /\
     public_https_port (proxy_config g) <> None) /\
  (forall k, k ∉ [SERVER; ALT_SVC] -> k ∉ HOP_HEADERS -> k ∉ connection_listed (rs_headers res) ->
     field h k = field (rs_headers res) k).
Proof.
  unfold generate_response_forwarded. intros Hg.
  destruct (add_header_entry_overwrite_if_exist _ SERVER _) as [h1|] eqn:E1; [|done].
  cbn [mbind result_bind] in Hg.
  match type of Hg with mbind _ ?r = _ => destruct r as [h2|] eqn:E2; [|done] end.
  injection Hg as <-. cbn [rs_headers rs_status].
  assert (forall k, ALT_SVC <> k -> field h2 k = field h1 k) as Hk2.
  { intros k Hk. clear -E2 Hk HL. case_match; [by eapply field_overwrite_ne|]. injection E2 as <-. by apply field_remove_ne. }
  assert (forall k, k ∈ HOP_HEADERS -> k <> SERVER /\ k <> ALT_SVC) as Hdist.
  { apply Forall_forall. apply (bool_decide_unpack _). vm_compute. done. }
  split_and!; [done|..].
  - intros k Hk. destruct (Hdist k Hk). rewrite Hk2, (field_overwrite_ne _ _ _ _ _ E1) by done.
    unfold field. by rewrite hop_headers_removed, decide_True by (by left).
  - intros line rest k Hl Hr Hk Ho. rewrite !not_elem_of_cons in Ho. destruct Ho as (Hs & Ha & _).
    rewrite Hk2, (field_overwrite_ne _ _ _ _ _ E1) by done. fold (without_hop (rs_headers res)).
    rewrite without_hop_field, decide_True; [done|]. right. by rewrite (connection_listed_first _ _ _ Hl Hr).
  - rewrite Hk2 by closed_ne. by eapply field_overwrite_eq.
  - unfold h3_alt_svc_port in E2.
    destruct (http3 _), tls, (ba_mutual_tls app) as [[]|], (public_https_port _) as [port|];
      cbn [andb bool_decide decide_rel] in E2;
      repeat (rewrite bool_decide_true in E2 by done || rewrite bool_decide_false in E2 by done);
      try (injection E2 as <-; rewrite field_remove_eq; naive_solver).
    rewrite (field_overwrite_eq _ _ _ _ E2). naive_solver.
  - intros k Hk Hh Hl. rewrite !not_elem_of_cons in Hk. destruct Hk as (Hs & Ha & _).
    rewrite Hk2, (field_overwrite_ne _ _ _ _ _ E1) by done. unfold field.
    by rewrite hop_headers_removed, decide_False by tauto.
Qed.
End handler_theorems.

(** ** Witnesses *)

Module HandlerExamples.

Import RouteExamples.
#[local] Existing Instance Alist.laws.

Definition g : @Globals Alist.net_api toy_crypto :=
  @Build_Globals Alist.net_api toy_crypto ProxyConfig_default (Some (None : toy_key)).

Definition env : @Env Alist.api :=
  {| now_open := 1000; now_issue := 1000; now_set := 1001; random_range := BalanceExamples.rng;
     fresh_nonce := replicate 12 7; health_reads := fun c => steady (uc_inner c) |}.

Lemma env_ok_env : env_ok env.
Proof. split; [intros c; apply observes_steady|apply BalanceExamples.rng_ok]. Qed.

Definition uri (p : string) : @Uri Alist.api :=
  {| Alist.u_scheme := None; Alist.u_authority := None; Alist.u_path := B p; Alist.u_query := None |}.

(** A plaintext client that spoofs its address and sends hop-by-hop headers. *)
Definition headers : @HeaderMap Alist.api :=
  [(HOST, B "Example.com"); (X_FORWARDED_FOR, B "1.2.3.4"); (CONNECTION, B "x-internal");
   (B "x-internal", B "1"); (TE, B "trailers, deflate"); (COOKIE, B "a=1; rpxy_sticky_token=forged")].

Definition req (p : string) : @Request Alist.api :=
  @Build_Request Alist.api (B "GET") (uri p) HTTP_11 headers None.

Definition client : SocketAddr := {| sa_ip := V4 203 0 113 9; sa_port := 5000 |}.
Definition listen : SocketAddr := {| sa_ip := V4 192 0 2 1; sa_port := 80 |}.

Definition echo (r : @Request Alist.api) : option (@Response Alist.api) :=
  Some (@Build_Response Alist.api 200 (rq_headers r)).

Lemma upstreams_nonempty cfg rpc :
  cfg ∈ acl_inner cl -> rpc ∈ ac_reverse_proxy cfg -> rp_upstream rpc <> [].
Proof.
  intros ->%list_elem_of_singleton. revert rpc. apply Forall_forall. repeat constructor; done.
Qed.

Lemma handler_always_answers_witness :
  exists rs, serve g manager
    [{| a_env := env; a_forwarder := echo; a_req := req "/"; a_client := client; a_listen := listen;
        a_tls := false; a_sni := None |};
     {| a_env := env; a_forwarder := fun _ => None; a_req := req "/api/v1"; a_client := client;
        a_listen := listen; a_tls := true; a_sni := None |}] = Some rs /\ length rs = 2%nat.
Proof.
  apply (handler_always_answers cl manager g).
  - apply cl_accepted.
  - apply upstreams_nonempty.
  - apply Forall_cons. split; [apply env_ok_env|]. apply Forall_singleton. apply env_ok_env.
Defined.

(** What the proxy decides about the request for [p]. *)
Definition outcome (p : string) (tls : bool) := route_request env g manager (req p) client listen tls
  (Some (to_server_name (B "example.com"))).

Definition no_app : @BackendApp Alist.api :=
  {| ba_app_name := []; ba_server_name := to_server_name []; path_manager := pm;
     ba_https_redirection := None; ba_mutual_tls := None |}.

Definition no_context : HandlerContext :=
  {| context_lb := None; sticky_cookie_secure := false; sticky_cookie_config := None |}.

(** The parts of the decision to forward. *)
Definition parts (p : string) (tls : bool) : BackendAppManager * BackendApp * HandlerContext * Request :=
  match outcome p tls with
  | Some (m, Forward app _ ctx r) => (m, app, ctx, r)
  | _ => (manager, no_app, no_context, req p)
  end.

Definition next_manager (p : string) (tls : bool) := fst (fst (fst (parts p tls))).
Definition chosen_app (p : string) (tls : bool) := snd (fst (fst (parts p tls))).
Definition lb_context (p : string) (tls : bool) := snd (fst (parts p tls)).
Definition sent (p : string) (tls : bool) := snd (parts p tls).

Definition is_forward (d : option (@BackendAppManager Alist.api * @Decision Alist.api)) : bool :=
  match d with Some (_, Forward _ None _ _) => true | _ => false end.

Lemma forwarded_parts p tls :
  is_forward (outcome p tls) = true ->
  outcome p tls = Some (next_manager p tls, Forward (chosen_app p tls) None (lb_context p tls) (sent p tls)).
Proof.
  unfold next_manager, chosen_app, lb_context, sent, parts.
  destruct (outcome p tls) as [[m [|app [u|] ctx r]]|]; by intros Hf.
Qed.

Lemma root_forwarded : is_forward (outcome "/" false) = true.
Proof. vm_compute. reflexivity. Qed.

Lemma api_forwarded : is_forward (outcome "/api/v1" true) = true.
Proof. vm_compute. reflexivity. Qed.

Lemma upstream_request_sanitised_witness :
  field (rq_headers (sent "/" false)) X_FORWARDED_FOR = [B "203.0.113.9"] /\
  field (rq_headers (sent "/" false)) PROXY = [[]] /\ field (rq_headers (sent "/" false)) (B "x-internal") = [].
Proof.
  destruct (upstream_request_sanitised env g manager (req "/") client listen false
    (Some (to_server_name (B "example.com"))) _ _ _ _ _ eq_refl ltac:(vm_compute; discriminate)
    (forwarded_parts _ _ root_forwarded))
    as (_ & _ & Hlisted & Hproxy & _ & _ & Hxff & _).
  split; [apply Hxff; reflexivity|]. split; [exact Hproxy|].
  apply (Hlisted (B "x-internal") []); [reflexivity|reflexivity|by left|by apply (bool_decide_unpack _)].
Defined.

(** The sticky cookie next to a cookie with a byte of Latin-1. *)
Definition latin1_line : str := STICKY_COOKIE_NAME ++ B "=sealed; name=Ren" ++ [233].

Definition latin1_req : @Request Alist.api :=
  @Build_Request Alist.api (B "GET") (uri "/") HTTP_11 [(HOST, B "example.com"); (COOKIE, latin1_line)] None.

Definition latin1_outcome := route_request env g manager latin1_req client listen false None.

Lemma latin1_forwarded : is_forward latin1_outcome = true.
Proof. vm_compute. reflexivity. Qed.

(** The balancing of the route that [app] has for the request has a cookie name. *)
Definition named_cookie (app : @BackendApp Alist.api) : bool :=
  match PathManager_get (path_manager app) (B "/") with
  | Some c => match uc_load_balance c with StickyRoundRobin lb => not_empty (cc_name_prefix (sticky_config lb)) | _ => true end
  | None => true
  end.

Lemma latin1_named :
  match latin1_outcome with Some (_, Forward app _ _ _) => named_cookie app | _ => false end = true.
Proof. vm_compute. reflexivity. Qed.

Lemma unreadable_cookie_line_forwarded_witness :
  exists m' app ctx req', latin1_outcome = Some (m', Forward app None ctx req') /\
    field (rq_headers req') COOKIE = [latin1_line].
Proof.
  pose proof latin1_forwarded as Hf. pose proof latin1_named as Hn.
  destruct latin1_outcome as [[m' [|app [v|] ctx req']]|] eqn:E; [discriminate Hf|discriminate Hf| |discriminate Hf].
  exists m', app, ctx, req'. split; [reflexivity|].
  apply (unreadable_cookie_line_forwarded env g manager latin1_req client listen false None m' app None ctx req' latin1_line E).
  - reflexivity.
  - intros Hr. vm_compute in Hr. discriminate Hr.
  - by apply (bool_decide_unpack _).
  - intros c lb Hc Hlb Hp. unfold named_cookie in Hn. change (uri_path (rq_uri latin1_req)) with (B "/") in Hc.
    rewrite Hc, Hlb, Hp in Hn. discriminate Hn.
Defined.

Lemma tls_requests_stay_in_their_application_witness :
  exists host, inspect_parse_host (req "/api/v1") = Ok host /\
    map_find (ServerName_from host) (apps manager) = Some (chosen_app "/api/v1" true) /\
    ServerName_from host = to_server_name (B "example.com").
Proof.
  destruct (tls_requests_stay_in_their_application env g manager (req "/api/v1") client listen
    (Some (to_server_name (B "example.com"))) _ _ _ _ _
    (forwarded_parts _ _ api_forwarded)) as (host & Hh & Ha & Hs).
  exists host. split; [exact Hh|]. split; [exact Ha|]. apply Hs. reflexivity.
Defined.

Lemma forwarded_to_matched_route_witness :
  exists c u, PathManager_get (path_manager (chosen_app "/api/v1" true)) (B "/api/v1") = Some c /\ u ∈ uc_inner c.
Proof.
  destruct (forwarded_to_matched_route env g manager (req "/api/v1") client listen true
    (Some (to_server_name (B "example.com"))) _ _ _ _ _
    (forwarded_parts _ _ api_forwarded))
    as (c & v & scheme & authority & pq & Hc & Hv & _).
  exists c, v. split; [exact Hc|exact Hv].
Defined.

(** A body that announces a length over the default limit of 256 MiB. *)
Definition oversize : @Request Alist.api :=
  @Build_Request Alist.api (B "POST") (uri "/") HTTP_11
    [(HOST, B "example.com"); (CONTENT_LENGTH, B "999999999999")] None.

Lemma rejections_precede_upstream_witness :
  exists res, handle_request env g echo manager oversize client listen false None = Some (manager, res) /\
    rs_status res = 413 /\ field (rs_headers res) CONNECTION = [B "close"].
Proof.
  pose proof (rejections_precede_upstream env g echo manager oversize client listen false None) as Hr.
  cbv zeta in Hr. assert (inspect_parse_host oversize = Ok (B "example.com")) as E by (vm_compute; reflexivity).
  assert (over_limit g oversize = true) as El by (vm_compute; reflexivity).
  rewrite E in Hr. cbn [andb] in Hr. rewrite El in Hr. exact Hr.
Defined.

Definition backend_response : @Response Alist.api :=
  @Build_Response Alist.api 200 [(CONNECTION, B "x-debug"); (B "x-debug", B "1"); (ALT_SVC, B "h3"); (SERVER, B "nginx")].

Definition tls_app : BackendApp :=
  {| ba_app_name := B "app1"; ba_server_name := to_server_name (B "example.com"); path_manager := pm;
     ba_https_redirection := Some true; ba_mutual_tls := Some false |}.

Lemma downstream_response_sanitised_witness :
  exists res', generate_response_forwarded g backend_response tls_app true = Ok res' /\
    field (rs_headers res') SERVER = [B "rpxy"] /\ field (rs_headers res') (B "x-debug") = [].
Proof.
  assert (is_ok (generate_response_forwarded g backend_response tls_app true) = true) as Hok
    by (vm_compute; reflexivity).
  destruct (generate_response_forwarded g backend_response tls_app true) as [res'|] eqn:E; [|discriminate Hok].
  exists res'. split; [reflexivity|].
  destruct (downstream_response_sanitised g backend_response tls_app true res' E) as (_ & _ & Hlisted & Hs & _).
  split; [exact Hs|]. apply (Hlisted (B "x-debug") []); [reflexivity|reflexivity|by left|by apply (bool_decide_unpack _)].
Defined.

End HandlerExamples.
