(* ===== verification/UpstreamClient.v ===== *)
(** * The clients of the forwarder ([forwarder/client.rs])

    The two HTTP clients that requests are sent with, as they are built with rustls, and
    which of them a request of the handler goes to. What a client does with a request is a
    parameter. *)

From S2P Require Import Prelude RustStr RustNet HttpIface Globals HeaderCommon StickyCookie NameExp LoadBalance Backend.
From S2P Require Import Forwarding CryptoInstance HeaderOps RequestOps Handler RouteProps HandlerProps.

(** ** Building *)

(** [HttpConnector] and the TLS connector around it. *)
Record Connector := {
  co_enforce_http : bool;
  co_reuse_address : bool;
  co_keepalive : option Duration;
  co_nodelay : bool;
  co_https_or_http : bool;
  co_alpn : list str
}.

Record HttpClient := { hc_connector : Connector; hc_http2_only : bool }.

Record Forwarder := { fw_inner : HttpClient; fw_inner_h2 : HttpClient }.

Definition Forwarder_try_new `{IpNetApi} (pc : ProxyConfig) : Forwarder :=
  let http alpn := {| co_enforce_http := false; co_reuse_address := true; co_keepalive := Some (upstream_idle_timeout pc);
                      co_nodelay := true; co_https_or_http := true; co_alpn := alpn |} in
  {| fw_inner := {| hc_connector := http [B "h2"; B "http/1.1"]; hc_http2_only := false |};
     fw_inner_h2 := {| hc_connector := http [B "h2"]; hc_http2_only := true |} |}.

(** ** Sending *)

Section client.
Context `{HttpApi} `{IpNetApi} `{CryptoApi} `{ClockApi}.

Definition client_for (self : Forwarder) (req : Request) : HttpClient :=
  match rq_version req with HTTP_2 => fw_inner_h2 self | _ => fw_inner self end.

Inductive FetchError := FailedToFetchFromUpstream.

(** [send] is what a client answers to a request. *)
Definition request_directly (send : HttpClient -> Request -> option Response) (self : Forwarder) (req : Request)
    : result FetchError Response :=
  ok_or (send (client_for self req) req) FailedToFetchFromUpstream.

(** ** The version of a request *)

Definition is_grpc (h : HeaderMap) : bool :=
  bool_decide (((fun v => starts_with (B "application/grpc") (hv_as_bytes v)) <$> hm_get h CONTENT_TYPE) = Some true).

(** The version an option asks for. *)
Definition forced (opts : list UpstreamOption) : option Version :=
  if bool_decide (ForceHttp11Upstream ∈ opts) then Some HTTP_11
  else if bool_decide (ForceHttp2Upstream ∈ opts) then Some HTTP_2
  else None.

(** Without an option: cleartext upstreams are spoken to in HTTP/1.1, others in the version
    of the client, where HTTP/2 stands for HTTP/3. *)
Definition unforced (scheme : option str) (v : Version) : Version :=
  if bool_decide (scheme = Some (B "http")) then HTTP_11
  else if bool_decide (v = HTTP_3) then HTTP_2
  else v.

Definition exclusive (opts : list UpstreamOption) : Prop :=
  ~ (ForceHttp11Upstream ∈ opts /\ ForceHttp2Upstream ∈ opts).

Lemma fold_version opts req :
  exclusive opts -> rq_version (fold_left apply_version_option opts req) = default (rq_version req) (forced opts).
Proof.
  unfold exclusive, forced. revert req. induction opts as [|o opts IH]; intros req Hx; [done|]. cbn [fold_left].
  rewrite IH by set_solver. repeat case_bool_decide; destruct o; try done; set_solver.
Qed.

Lemma fold_not_h3 opts req : rq_version req <> HTTP_3 -> rq_version (fold_left apply_version_option opts req) <> HTTP_3.
Proof. revert req. induction opts as [|o opts IH]; intros req Hv; [done|]. cbn [fold_left]. apply IH. by destruct o. Qed.

Lemma line_version req u c :
  rq_version (update_request_line req u c) <> HTTP_3 /\
  (exclusive (uc_options c) ->
   rq_version (update_request_line req u c) =
     if is_grpc (rq_headers req) then HTTP_2
     else default (unforced (uri_scheme_str (u_uri u)) (rq_version req)) (forced (uc_options c))).
Proof.
  unfold update_request_line. fold (is_grpc (rq_headers req)). destruct (is_grpc (rq_headers req)); [done|].
  match goal with |- context [fold_left apply_version_option _ ?x] => set (r := x) end. assert (rq_version r = unforced (uri_scheme_str (u_uri u)) (rq_version req)) as Hr.
  { unfold r, unforced. by repeat case_bool_decide. }
  split; [|intros Hx; by rewrite fold_version, Hr].
  apply fold_not_h3. rewrite Hr. unfold unforced. by repeat case_bool_decide.
Qed.

Lemma prepare_version env g client listen req c tls p :
  prepare_request env g client listen req c tls = Ok p -> rq_version (pr_req p) = rq_version req.
Proof.
  unfold prepare_request. intros Hp. apply result_bind_Ok in Hp as (h0 & _ & Hp). apply result_bind_Ok in Hp as (h1 & _ & Hp).
  destruct (uc_load_balance c); try (by injection Hp as <-).
  apply result_bind_Ok in Hp as (cipher & _ & Hp). apply result_bind_Ok in Hp as ([h2 ctx] & _ & Hp). by injection Hp as <-.
Qed.

Lemma effective_version req s a u : rq_version (insert_client_facing_effective_uri req s a u) = rq_version req.
Proof. unfold insert_client_facing_effective_uri. by repeat case_match. Qed.

Lemma finish_version g p upgrade c fb u req' :
  finish_request g p upgrade c fb u = Ok req' ->
  match upgrade with
  | Some _ => rq_version req' = rq_version (pr_req p)
  | None => rq_version req' <> HTTP_3 /\
      (exclusive (uc_options c) ->
       rq_version req' = if is_grpc (rq_headers req') then HTTP_2
                         else default (unforced (uri_scheme_str (u_uri u)) (rq_version (pr_req p))) (forced (uc_options c)))
  end.
Proof.
  unfold finish_request. intros Hf. do 6 (apply result_bind_Ok in Hf as (? & _ & Hf)).
  apply result_bind_Ok in Hf as (req2 & E & [= <-]). rewrite effective_version, effective_headers. destruct upgrade as [v|].
  - apply result_bind_Ok in E as (w & _ & [= <-]). done.
  - injection E as <-. rewrite request_line_headers. exact (line_version (with_uri (with_headers (pr_req p) _) _) u c).
Qed.

Lemma forward_upgrade_h1 env g m req client listen tls sni m' app upgrade ctx req' :
  route_request env g m req client listen tls sni = Some (m', Forward app upgrade ctx req') ->
  is_Some upgrade -> rq_version req = HTTP_11.
Proof.
  unfold route_request. destruct (inspect_request _ _ _ _) as [sn|]; [|done].
  destruct (select_app m sn tls) as [[[[key a] fb]|]|]; [|done..]. destruct (_ && _); [done|].
  destruct (PathManager_get _ _) as [c|]; [|done]. destruct (_ && _) eqn:Eu; [done|].
  destruct (generate_request_forwarded _ _ _ _ _ _ _ _ _) as [[c' [[r ctx']|]]|]; [|done..]. cbn. intros [= <- <- <- <- <-] Hs.
  rewrite bool_decide_true in Eu by done. cbn in Eu. apply negb_false_iff, bool_decide_eq_true in Eu. done.
Qed.
End client.

(** ** Theorem *)

Section choice.
Context `{HL : HttpLaws} `{IpNetApi} `{CL : CryptoLaws} `{ClockApi}.

(** C22: how a forwarded request is sent: an upgrade goes out as HTTP/1.1 with the client that
    speaks it, gRPC always in HTTP/2, and any other request in the version its route
    forces, else in HTTP/1.1 if the upstream it is sent to (the scheme and authority of
    its target) is a cleartext one, and in the version of the client otherwise, HTTP/3
    being replaced by HTTP/2; no request is sent as HTTP/3, and the client that speaks
    only HTTP/2 is used exactly for requests in HTTP/2. *)
Theorem upstream_protocol_choice env g m req client listen tls sni m' app upgrade ctx req' send :
  route_request env g m req client listen tls sni = Some (m', Forward app upgrade ctx req') ->
  let fw := Forwarder_try_new (proxy_config g) in
  rq_version req' <> HTTP_3 /\
  request_directly send fw req' =
    ok_or (send (if bool_decide (rq_version req' = HTTP_2) then fw_inner_h2 fw else fw_inner fw) req') FailedToFetchFromUpstream /\
  exists c u, PathManager_get (path_manager app) (uri_path (rq_uri req)) = Some c /\ u ∈ uc_inner c /\
    uri_scheme_str (rq_uri req') = uri_scheme_str (u_uri u) /\ uri_authority (rq_uri req') = uri_authority (u_uri u) /\
    (exclusive (uc_options c) ->
     rq_version req' =
       if bool_decide (is_Some upgrade) then HTTP_11
       else if is_grpc (rq_headers req') then HTTP_2
       else default (unforced (uri_scheme_str (rq_uri req')) (rq_version req)) (forced (uc_options c))).
Proof.
  intros Hf fw. pose proof (forward_upgrade_h1 _ _ _ _ _ _ _ _ _ _ _ _ _ Hf) as Hup.
  apply route_forward_inv in Hf as (sn & key & fb & c & p & c' & u & _ & _ & Hc & -> & Hp & Hg & Hfin).
  apply prepare_version in Hp as Hv.
  pose proof Hfin as (_ & _ & _ & scheme & authority & pq & Hs & Ha & _ & [Hs' Ha']%uri_build_parts)%finish_inv.
  apply finish_version in Hfin. rewrite Hv, Hs, <- Hs' in Hfin.
  assert (rq_version req' <> HTTP_3) as Hn3.
  { destruct (extract_upgrade (rq_headers req)); [|apply Hfin]. by rewrite Hfin, Hup by (by eexists). }
  split; [done|]. split.
  - unfold request_directly, client_for. by destruct (rq_version req').
  - exists c, u. rewrite Hs, Ha. split_and!; try done; [by eapply candidates_get_elem|].
    intros Hx. destruct (extract_upgrade (rq_headers req)) as [v|].
    + rewrite bool_decide_true by (by eexists). by rewrite Hfin, Hup by (by eexists).
    + rewrite bool_decide_false by (by intros []). by apply Hfin.
Qed.
End choice.

(** ** Witness *)

Module ClientExamples.
Import RouteExamples HandlerExamples.
#[local] Existing Instance Alist.api.
#[local] Existing Instance Alist.net_api.
#[local] Existing Instance Alist.laws.
#[local] Existing Instance toy_crypto.
#[local] Existing Instance toy_crypto_laws.
#[local] Existing Instance toy_clock.

(** Everything is answered by the client it is sent with. *)
Definition answering (c : HttpClient) (_ : @Request Alist.api) : option (@Response Alist.api) :=
  if hc_http2_only c then None else Some {| rs_status := 204; rs_headers := [] |}.

Lemma upstream_protocol_choice_witness :
  rq_version (sent "/" false) <> HTTP_3 /\
  request_directly answering (Forwarder_try_new (proxy_config g)) (sent "/" false) = Ok {| rs_status := 204; rs_headers := [] |}.
Proof.
  destruct (upstream_protocol_choice env g manager (req "/") client listen false
    (Some (to_server_name (B "example.com"))) _ _ _ _ _ answering (forwarded_parts _ _ root_forwarded)) as (H1 & H2 & _).
  split; [exact H1|]. rewrite H2. vm_compute. reflexivity.
Defined.
End ClientExamples.
