(* ===== verification/Body.v ===== *)
(** * Request bodies ([hyper_ext/body_type.rs], the body task of [proxy/proxy_h3.rs])

    [LimitedBody] as a state machine over the polls of its inner body, which is a
    script of what each poll returns; declared lengths; and what the task that copies an
    HTTP/3 body sends, as one function of what the stream yields. Lengths are machine
    words. The channel the task sends into is in [BodyChannel]. *)

From S2P Require Import Prelude RustStr.

(** ** Frames and polls *)

Inductive Frame :=
| Data (chunk : str)
| Trailers (fields : list (str * str)).

(** [Pending], or what a ready poll yields. *)
Inductive Poll (A : Type) :=
| Pending
| Ready (a : A).
Arguments Pending {A}.
Arguments Ready {A} a.

(** The errors of a request body. *)
Inductive BodyError :=
| RequestBodyTooLarge (received limit : Z)
| HyperIncomingLikeNewClosed
| HyperNewBodyWriteAborted
| H3TooLargeBody
| H3StreamError
| InnerError.

#[export] Instance Frame_eq_dec : EqDecision Frame.
Proof. solve_decision. Defined.
#[export] Instance BodyError_eq_dec : EqDecision BodyError.
Proof. solve_decision. Defined.

Definition FramePoll : Type := Poll (option (result BodyError Frame)).

Definition chunk_len (s : str) : Z := Z.of_nat (length s).

(** An inner body: what its successive polls return; it has ended after the script.
    Its error is converted by [into]. *)
Definition InnerPoll : Type := Poll (option (result () Frame)).
Definition Script : Type := list InnerPoll.

Definition poll_script (b : Script) : Script * InnerPoll :=
  match b with [] => ([], Ready None) | e :: r => (r, e) end.

Definition into (e : InnerPoll) : FramePoll :=
  match e with
  | Pending => Pending
  | Ready None => Ready None
  | Ready (Some (Err _)) => Ready (Some (Err InnerError))
  | Ready (Some (Ok f)) => Ready (Some (Ok f))
  end.

(** ** [LimitedBody] *)

Record LimitedBody := {
  lb_inner : Script;
  lb_limit : option Z;
  lb_received : Z;
  lb_tripped : bool
}.

Definition LimitedBody_new (inner : Script) (limit : option Z) : LimitedBody :=
  {| lb_inner := inner; lb_limit := limit; lb_received := 0; lb_tripped := false |}.

Definition LimitedBody_poll_frame (self : LimitedBody) : LimitedBody * FramePoll :=
  if lb_tripped self then (self, Ready None)
  else
    let '(inner, e) := poll_script (lb_inner self) in
    let next received tripped :=
      {| lb_inner := inner; lb_limit := lb_limit self; lb_received := received; lb_tripped := tripped |} in
    match lb_limit self with
    | None => (next (lb_received self) false, into e)
    | Some limit =>
        match e with
        | Ready (Some (Ok (Data data))) =>
            let received := saturating_add usize_max (lb_received self) (chunk_len data) in
            if limit <? received
            then (next received true, Ready (Some (Err (RequestBodyTooLarge received limit))))
            else (next received false, into e)
        | _ => (next (lb_received self) false, into e)
        end
    end.

Definition LimitedBody_is_end_stream (inner_end : bool) (self : LimitedBody) : bool :=
  lb_tripped self || inner_end.

(** The results of [n] successive polls. *)
Fixpoint polls (n : nat) (b : LimitedBody) : list FramePoll :=
  match n with
  | O => []
  | S n => let '(b, e) := LimitedBody_poll_frame b in e :: polls n b
  end.

(** The data a list of results carries. *)
Definition frame_data (e : FramePoll) : str :=
  match e with Ready (Some (Ok (Data d))) => d | _ => [] end.

Definition data_of (l : list FramePoll) : str := concat (map frame_data l).

(** ** Declared lengths *)

Definition DecodedLength : Type := Z.
Definition CLOSE_DELIMITED : DecodedLength := u64_max.
Definition CHUNKED : DecodedLength := u64_max - 1.
Definition ZERO : DecodedLength := 0.
Definition MAX_LEN : Z := u64_max - 2.

(** [None] is the panic of the subtraction. *)
Definition sub_if (self : DecodedLength) (amt : Z) : option DecodedLength :=
  if (self =? CHUNKED) || (self =? CLOSE_DELIMITED) then Some self
  else if amt <=? self then Some (self - amt) else None.

Definition into_opt (self : DecodedLength) : option Z :=
  if (self =? CHUNKED) || (self =? CLOSE_DELIMITED) then None else Some self.

(** ** Copying an HTTP/3 body *)

(** What the task puts into the channel. *)
Inductive Sent :=
| SentData (chunk : str)
| SentTrailers (t : list (str * str))
| Aborted.

(** The loop over the received chunks: the counter is not saturating. [trailers] is what
    follows the chunks; an [Err] is a failure to receive more data or the trailers. *)
Fixpoint h3_copy_body (limit : option Z) (size : Z) (chunks : list str)
    (trailers : result () (option (list (str * str)))) : list Sent * result BodyError () :=
  match chunks with
  | body :: r =>
      let size := wrap_usize (size + chunk_len body) in
      if match limit with Some limit => limit <? size | None => false end
      then ([Aborted], Err H3TooLargeBody)
      else let '(sent, res) := h3_copy_body limit size r trailers in (SentData body :: sent, res)
  | [] =>
      match trailers with
      | Ok (Some t) => ([SentTrailers t], Ok ())
      | Ok None => ([], Ok ())
      | Err _ => ([], Err H3StreamError)
      end
  end.

Definition effective_body_limit (h3_request_max_body_size request_max_body_size : option Z) : option Z :=
  match h3_request_max_body_size with Some l => Some l | None => request_max_body_size end.

(** ** The limit *)

(** The longest prefix of the chunks that stays within the limit. *)
Fixpoint within (limit received : Z) (chunks : list str) : list str :=
  match chunks with
  | [] => []
  | c :: r => if limit <? received + chunk_len c then [] else c :: within limit (received + chunk_len c) r
  end.

Lemma chunk_len_nonneg s : 0 <= chunk_len s.
Proof. unfold chunk_len. lia. Qed.

Lemma chunk_len_app s t : chunk_len (s ++ t) = chunk_len s + chunk_len t.
Proof. unfold chunk_len. rewrite length_app. lia. Qed.

Lemma within_bound limit received chunks :
  received <= limit -> received + chunk_len (concat (within limit received chunks)) <= limit.
Proof.
  revert received. induction chunks as [|c r IH]; intros received Hr; cbn [within].
  - unfold chunk_len. cbn. lia.
  - case_match eqn:E; [unfold chunk_len; cbn; lia|]. cbn [concat]. rewrite chunk_len_app. apply Z.ltb_ge in E.
    pose proof (IH _ E). lia.
Qed.

Lemma within_all limit received chunks :
  received + chunk_len (concat chunks) <= limit -> within limit received chunks = chunks.
Proof.
  revert received. induction chunks as [|c r IH]; intros received Hr; cbn [within]; [done|].
  cbn [concat] in Hr. rewrite chunk_len_app in Hr. pose proof (chunk_len_nonneg (concat r)).
  destruct (Z.ltb_spec limit (received + chunk_len c)); [lia|]. f_equal. apply IH. lia.
Qed.

(** The state of a body that has not overrun its limit. *)
Definition limited (script : Script) (limit received : Z) : LimitedBody :=
  {| lb_inner := script; lb_limit := Some limit; lb_received := received; lb_tripped := false |}.

Lemma saturating_over limit received n :
  0 <= n -> limit < usize_max -> received <= limit ->
  (limit <? saturating_add usize_max received n) = (limit <? received + n).
Proof. unfold saturating_add. lia. Qed.

Lemma saturating_within limit received n :
  limit < usize_max -> (limit <? received + n) = false ->
  saturating_add usize_max received n = received + n.
Proof. unfold saturating_add. lia. Qed.

(** One poll within the limit. *)
Lemma limited_poll script limit received :
  limit < usize_max -> 0 <= received <= limit ->
  LimitedBody_poll_frame (limited script limit received) =
    let '(inner, e) := poll_script script in
    match e with
    | Ready (Some (Ok (Data d))) =>
        if limit <? received + chunk_len d
        then ({| lb_inner := inner; lb_limit := Some limit;
                 lb_received := saturating_add usize_max received (chunk_len d); lb_tripped := true |},
              Ready (Some (Err (RequestBodyTooLarge (saturating_add usize_max received (chunk_len d)) limit))))
        else (limited inner limit (received + chunk_len d), into e)
    | _ => (limited inner limit received, into e)
    end.
Proof.
  intros Hl Hr. unfold LimitedBody_poll_frame. cbn [limited lb_tripped lb_inner lb_limit lb_received].
  destruct (poll_script script) as [inner e]. destruct e as [|[[f|]|]]; try done. destruct f as [d|]; [|done].
  rewrite saturating_over by (pose proof (chunk_len_nonneg d); lia). case_match eqn:E; [done|].
  by rewrite (saturating_within limit).
Qed.

Lemma polls_tripped n b : lb_tripped b = true -> polls n b = replicate n (Ready None).
Proof.
  intros Ht. revert b Ht. induction n as [|n IH]; intros b Ht; [done|].
  cbn [polls replicate]. unfold LimitedBody_poll_frame. rewrite Ht. by rewrite IH.
Qed.

Lemma data_of_nothing n : data_of (replicate n (Ready None)) = [].
Proof. induction n as [|n IH]; [done|]. cbn. exact IH. Qed.

Definition inner_data (e : InnerPoll) : str := frame_data (into e).

Lemma data_of_cons e l : data_of (e :: l) = frame_data e ++ data_of l.
Proof. done. Qed.

(** One more poll: the cases that stay within the limit, and the overrun. *)
Lemma polls_step n script limit received :
  limit < usize_max -> 0 <= received <= limit ->
  let '(inner, e) := poll_script script in
  (exists received', received' = received + chunk_len (inner_data e) /\ 0 <= received' <= limit /\
     polls (S n) (limited script limit received) = into e :: polls n (limited inner limit received')) \/
  (limit < received + chunk_len (inner_data e) /\ exists r, r = Z.min usize_max (received + chunk_len (inner_data e)) /\
     polls (S n) (limited script limit received)
       = Ready (Some (Err (RequestBodyTooLarge r limit))) :: replicate n (Ready None)).
Proof.
  intros Hl Hr. cbn [polls]. rewrite limited_poll by done.
  destruct (poll_script script) as [inner e]. unfold inner_data.
  destruct e as [|[[[d|t]|]|]]; cbn [into frame_data];
    try (left; exists received; change (chunk_len []) with 0; split_and!; [lia..|done]).
  pose proof (chunk_len_nonneg d). destruct (Z.ltb_spec limit (received + chunk_len d)).
  - right. split; [done|]. eexists. split; [done|]. rewrite polls_tripped by done. unfold saturating_add. by rewrite Z.min_comm.
  - left. eexists. split_and!; [done|lia|lia|done].
Qed.

Lemma polls_bound n script limit received :
  limit < usize_max -> 0 <= received <= limit ->
  received + chunk_len (data_of (polls n (limited script limit received))) <= limit.
Proof.
  intros Hl. revert script received. induction n as [|n IH]; intros script received Hr.
  { unfold chunk_len. cbn. lia. }
  pose proof (polls_step n script limit received Hl Hr) as Hs. destruct (poll_script script) as [inner e].
  destruct Hs as [(r' & -> & Hr' & ->)|(Hover & r & _ & ->)].
  - rewrite data_of_cons, chunk_len_app. specialize (IH inner _ Hr'). unfold inner_data in *. lia.
  - rewrite data_of_cons, data_of_nothing. unfold chunk_len. cbn. lia.
Qed.

Lemma into_not_too_large e r limit : into e <> Ready (Some (Err (RequestBodyTooLarge r limit))).
Proof. by destruct e as [|[[[d|t]|]|]]. Qed.

Lemma polls_after_error n script limit received i r :
  limit < usize_max -> 0 <= received <= limit ->
  polls n (limited script limit received) !! i = Some (Ready (Some (Err (RequestBodyTooLarge r limit)))) ->
  forall j, (i < j < n)%nat -> polls n (limited script limit received) !! j = Some (Ready None).
Proof.
  intros Hl. revert script received i. induction n as [|n IH]; intros script received i Hr Hi j Hj; [done|].
  pose proof (polls_step n script limit received Hl Hr) as Hs. destruct (poll_script script) as [inner e].
  destruct Hs as [(r' & _ & Hr' & E)|(_ & r' & _ & E)]; rewrite E in Hi |- *; destruct j as [|j]; try lia; cbn.
  - destruct i as [|i]; cbn in Hi.
    + injection Hi as Hi. by apply into_not_too_large in Hi.
    + apply (IH inner r' i); [done|done|lia].
  - apply lookup_replicate_2. lia.
Qed.

Lemma polls_transparent n script limit received :
  limit < usize_max -> 0 <= received <= limit ->
  received + chunk_len (concat (map inner_data (take n script))) <= limit ->
  polls n (limited script limit received) = map into (take n (script ++ replicate n (Ready None))).
Proof.
  intros Hl. revert script received. induction n as [|n IH]; intros script received Hr Hsum; [done|].
  pose proof (polls_step n script limit received Hl Hr) as Hs.
  destruct script as [|e script]; cbn [poll_script] in Hs.
  - destruct Hs as [(r' & -> & Hr' & ->)|(Hover & _)]; [|unfold inner_data, chunk_len in Hover; cbn in Hover; lia].
    cbn [app replicate take map]. f_equal. rewrite (IH [] _ Hr').
    + done.
    + rewrite take_nil. unfold inner_data, chunk_len in *. cbn in *. lia.
  - cbn [take map concat] in Hsum. rewrite chunk_len_app in Hsum.
    pose proof (chunk_len_nonneg (concat (map inner_data (take n script)))).
    destruct Hs as [(r' & -> & Hr' & ->)|(Hover & _)]; [|lia].
    change (take (S n) ((e :: script) ++ ?l)) with (e :: take n (script ++ l)). cbn [map]. f_equal.
    rewrite (IH script _ Hr') by lia. f_equal.
    rewrite replicate_S_end, app_assoc, (take_app_le (script ++ _)); [done|].
    rewrite length_app, length_replicate. lia.
Qed.

(** The poll that exceeds the limit, those before it and those after it. *)
Lemma polls_overrun n i script limit received :
  limit < usize_max -> 0 <= received <= limit -> (i < n)%nat ->
  received + chunk_len (concat (map inner_data (take i script))) <= limit ->
  limit < received + chunk_len (concat (map inner_data (take (S i) script))) ->
  polls n (limited script limit received) =
    map into (take i script)
      ++ Ready (Some (Err (RequestBodyTooLarge
           (Z.min usize_max (received + chunk_len (concat (map inner_data (take (S i) script))))) limit)))
      :: replicate (n - S i) (Ready None).
Proof.
  intros Hl. revert i script received. induction n as [|n IH]; intros i script received Hr Hi Hb Ho; [lia|].
  destruct script as [|e script]; [rewrite take_nil in Ho; unfold chunk_len in Ho; cbn in Ho; lia|].
  pose proof (polls_step n (e :: script) limit received Hl Hr) as Hs. cbn [poll_script] in Hs.
  cbn [take map concat] in Ho |- *. rewrite chunk_len_app in Ho |- *.
  pose proof (chunk_len_nonneg (concat (map inner_data (take i script)))) as H0.
  destruct i as [|i]; cbn [take map concat] in *.
  - change (chunk_len []) with 0 in *. rewrite Z.add_0_r in *. destruct Hs as [(r' & -> & Hr' & _)|(_ & r & -> & ->)]; [lia|].
    cbn [app]. by rewrite Nat.sub_succ, Nat.sub_0_r.
  - rewrite chunk_len_app in Hb. destruct Hs as [(r' & -> & Hr' & ->)|(Hover & _)].
    + cbn [app]. f_equal. rewrite (IH i script); [|done|lia|lia|cbn [take map concat]; lia].
      cbn [take map concat]. by rewrite Z.add_assoc, Nat.sub_succ.
    + pose proof (chunk_len_nonneg (concat (map inner_data (take i script)))). lia.
Qed.

(** Copying an HTTP/3 body sends the prefix within the limit. *)
Lemma h3_copy_within limit size chunks trailers :
  0 <= size -> size + chunk_len (concat chunks) <= usize_max -> size <= limit ->
  h3_copy_body (Some limit) size chunks (Ok trailers) =
    (map SentData (within limit size chunks)
       ++ (if decide (within limit size chunks = chunks)
           then match trailers with Some t => [SentTrailers t] | None => [] end else [Aborted]),
     if decide (within limit size chunks = chunks) then Ok () else Err H3TooLargeBody).
Proof.
  revert size. induction chunks as [|c r IH]; intros size H0 Hmax Hs; [by destruct trailers|].
  cbn [concat] in Hmax. rewrite chunk_len_app in Hmax. pose proof (chunk_len_nonneg c).
  pose proof (chunk_len_nonneg (concat r)). cbn [h3_copy_body within]. rewrite wrap_usize_small by lia.
  destruct (Z.ltb_spec limit (size + chunk_len c)); [done|].
  rewrite IH by lia. cbn [map app]. repeat case_decide; try done; congruence.
Qed.

(** The chunks as polls of an inner body. *)
Definition data_script (chunks : list str) : Script := map (fun c => Ready (Some (Ok (Data c)))) chunks.

Lemma polls_within n chunks limit received :
  (length chunks <= n)%nat -> limit < usize_max -> 0 <= received <= limit ->
  data_of (polls n (limited (data_script chunks) limit received)) = concat (within limit received chunks).
Proof.
  intros Hn Hl. revert chunks received Hn. induction n as [|n IH]; intros chunks received Hn Hr.
  { destruct chunks; [done|cbn in Hn; lia]. }
  pose proof (polls_step n (data_script chunks) limit received Hl Hr) as Hs.
  destruct chunks as [|c r]; cbn [data_script map poll_script] in Hs.
  - destruct Hs as [(r' & _ & Hr' & E)|(Hover & _)]; [|unfold inner_data, chunk_len in Hover; cbn in Hover; lia].
    etrans; [exact (f_equal data_of E)|]. rewrite data_of_cons. apply (IH [] r'); [cbn; lia|done].
  - unfold inner_data in Hs. cbn [into frame_data] in Hs. cbn [within length] in *.
    destruct Hs as [(r' & -> & Hr' & E)|(Hover & q & _ & E)]; (etrans; [exact (f_equal data_of E)|]).
    + destruct (Z.ltb_spec limit (received + chunk_len c)); [lia|].
      rewrite data_of_cons. cbn [concat frame_data into]. f_equal. apply IH; [lia|done].
    + destruct (Z.ltb_spec limit (received + chunk_len c)); [|lia].
      rewrite data_of_cons, data_of_nothing. done.
Qed.

(** ** Theorems *)

(** C39: a limited body never lets more than its limit through: however the inner body is
    polled, the data handed on is at most the limit; a body within the limit is handed on
    unchanged; and the poll that would exceed it reports the overrun, with the number of
    bytes received and the limit, after the results of all polls before it, while every
    later poll reports the end and nothing else. *)
Theorem body_limit_enforced script limit n :
  0 <= limit < usize_max ->
  let out := polls n (LimitedBody_new script (Some limit)) in
  let received i := chunk_len (concat (map inner_data (take i script))) in
  chunk_len (data_of out) <= limit /\
  (forall i r, out !! i = Some (Ready (Some (Err (RequestBodyTooLarge r limit)))) ->
     forall j, (i < j < n)%nat -> out !! j = Some (Ready None)) /\
  (received n <= limit -> out = map into (take n (script ++ replicate n (Ready None)))) /\
  (forall i, (i < n)%nat -> received i <= limit -> limit < received (S i) ->
     out = map into (take i script)
       ++ Ready (Some (Err (RequestBodyTooLarge (Z.min usize_max (received (S i))) limit)))
       :: replicate (n - S i) (Ready None)).
Proof.
  intros Hl out received. unfold out, LimitedBody_new. change (Build_LimitedBody _ _ _ _) with (limited script limit 0).
  pose proof (polls_bound n script limit 0). split_and!.
  - lia.
  - intros i r. apply polls_after_error; lia.
  - intros Hsum. apply polls_transparent; unfold received in Hsum; lia.
  - intros i Hi Hb Ho. apply (polls_overrun n i script limit 0); unfold received in *; lia.
Qed.

(** HTTP/3 enforces the same limit as HTTP/1 and HTTP/2: the task that copies an
    HTTP/3 body hands on exactly the data a [LimitedBody] over the same chunks would,
    it ends without error exactly when the whole body is within the limit, and only
    then sends the trailers. *)
Theorem h3_limit_agrees limit chunks trailers :
  0 <= limit < usize_max -> chunk_len (concat chunks) <= usize_max ->
  let '(sent, res) := h3_copy_body (Some limit) 0 chunks (Ok trailers) in
  concat (omap (fun s => match s with SentData c => Some c | _ => None end) sent)
    = data_of (polls (S (length chunks)) (LimitedBody_new (data_script chunks) (Some limit))) /\
  (res = Ok () <-> chunk_len (concat chunks) <= limit) /\
  (forall t, SentTrailers t ∈ sent <-> res = Ok () /\ trailers = Some t).
Proof.
  intros Hl Hmax. rewrite h3_copy_within by lia.
  assert (omap (fun s => match s with SentData c => Some c | _ => None end)
    (map SentData (within limit 0 chunks)) = within limit 0 chunks) as Homap.
  { induction (within limit 0 chunks) as [|c l IH]; [done|]. cbn. by f_equal. }
  assert (forall t, SentTrailers t ∉ map SentData (within limit 0 chunks)) as Hno.
  { intros t (c & Hc & _)%list_elem_of_fmap. done. }
  split_and!.
  - unfold LimitedBody_new. change (Build_LimitedBody _ _ _ _) with (limited (data_script chunks) limit 0).
    rewrite polls_within by lia. rewrite omap_app, Homap, concat_app. case_decide.
    + destruct trailers; cbn; by rewrite app_nil_r.
    + cbn. by rewrite app_nil_r.
  - case_decide as Hd.
    + split; [|done]. intros _. pose proof (within_bound limit 0 chunks). rewrite Hd in *. lia.
    + split; [done|]. intros Hc. destruct Hd. by apply within_all.
  - intros t. rewrite elem_of_app. case_decide.
    + destruct trailers as [t'|]; [|split; [by intros [?%Hno|?%not_elem_of_nil]|naive_solver]].
      split; [intros [?%Hno|[= ->]%list_elem_of_singleton]; done|]. intros [_ [= ->]]. right. by left.
    + split; [intros [?%Hno|?%list_elem_of_singleton]; done|by intros [? _]].
Qed.

(** ** Witnesses *)

Module BodyExamples.

Definition script : Script :=
  [Ready (Some (Ok (Data (B "hello")))); Pending; Ready (Some (Ok (Data (B "world")))); Ready (Some (Ok (Trailers [])))].

Lemma body_limit_enforced_witness :
  chunk_len (data_of (polls 5 (LimitedBody_new script (Some 7)))) <= 7 /\
  polls 5 (LimitedBody_new script (Some 10)) = map into (take 5 (script ++ replicate 5 (Ready None))) /\
  polls 5 (LimitedBody_new script (Some 7)) =
    [Ready (Some (Ok (Data (B "hello")))); Pending; Ready (Some (Err (RequestBodyTooLarge 10 7))); Ready None; Ready None].
Proof.
  split; [|split].
  - apply (body_limit_enforced script 7 5). unfold usize_max. lia.
  - apply (body_limit_enforced script 10 5); [unfold usize_max; lia|vm_compute; discriminate].
  - destruct (body_limit_enforced script 7 5) as (_ & _ & _ & Ho); [unfold usize_max; lia|].
    exact (Ho 2%nat ltac:(lia) ltac:(vm_compute; discriminate) ltac:(vm_compute; reflexivity)).
Defined.

Lemma h3_limit_agrees_witness :
  snd (h3_copy_body (Some 7) 0 [B "hello"; B "world"] (Ok None)) = Err H3TooLargeBody /\
  concat (omap (fun s => match s with SentData c => Some c | _ => None end)
    (fst (h3_copy_body (Some 7) 0 [B "hello"; B "world"] (Ok None))))
    = data_of (polls 3 (LimitedBody_new (data_script [B "hello"; B "world"]) (Some 7))).
Proof.
  split; [reflexivity|].
  apply (h3_limit_agrees 7 [B "hello"; B "world"] None); [unfold usize_max; lia|vm_compute; discriminate].
Defined.

End BodyExamples.
