(* ===== verification/BodyChannel.v ===== *)
(** * The body channel of HTTP/3 requests ([hyper_ext/body_incoming_like.rs], [watch.rs],
      the body task of [proxy/proxy_h3.rs])

    The two halves of the channel, the task that feeds it from an HTTP/3 stream, and a
    consumer that polls it, as a system run by an arbitrary schedule. The queues of the
    [futures] crates are an interface ([MpscApi], [OneshotApi]) with their documented
    behaviour as laws over an abstract view; [ChannelLists] is an instance. *)

From S2P Require Import Prelude RustStr Body.

(** ** The queues *)

Definition Fields : Type := list (str * str).

(** A bounded queue with several senders and one receiver. The state of the queue and of
    its handles is the [mpsc_q]; a [mpsc_tx] names a handle. *)
Class MpscApi (T : Type) := {
  mpsc_tx : Type;
  mpsc_q : Type;
  mpsc_channel : Z -> mpsc_tx * mpsc_q;
  tx_poll_ready : mpsc_tx -> mpsc_q -> mpsc_q * Poll (result () ());
  tx_try_send : mpsc_tx -> mpsc_q -> T -> mpsc_q * result T ();
  tx_clone : mpsc_tx -> mpsc_q -> mpsc_q * mpsc_tx;
  tx_drop : mpsc_tx -> mpsc_q -> mpsc_q;
  rx_poll_next : mpsc_q -> mpsc_q * Poll (option T);
  rx_is_terminated : mpsc_q -> bool;
  rx_drop : mpsc_q -> mpsc_q
}.

(** What the documentation speaks of: the queued items, the live senders, whether the
    receiver is live, and whether it has reported the end. *)
Record QueueView (T : Type) := {
  qv_items : list T;
  qv_senders : nat;
  qv_open : bool;
  qv_terminated : bool
}.
Arguments qv_items {T}. Arguments qv_senders {T}. Arguments qv_open {T}. Arguments qv_terminated {T}.

(** [q_slot q tx]: a slot of the capacity is free for [tx]. Each sender has a slot of its
    own besides the buffer, so a fresh clone always has one, and so has every sender of
    an empty queue. *)
Class MpscLaws (T : Type) `{!MpscApi T} := {
  q_view : mpsc_q -> QueueView T;
  q_slot : mpsc_q -> mpsc_tx -> bool;
  slot_empty q tx : qv_items (q_view q) = [] -> q_slot q tx = true;
  channel_view n :
    q_view (snd (mpsc_channel n)) =
      {| qv_items := []; qv_senders := 1; qv_open := true; qv_terminated := false |};
  poll_ready_view tx q : q_view (fst (tx_poll_ready tx q)) = q_view q;
  poll_ready_slot tx q : q_slot (fst (tx_poll_ready tx q)) tx = q_slot q tx;
  poll_ready_result tx q :
    snd (tx_poll_ready tx q) =
      (if negb (qv_open (q_view q)) then Ready (Err ())
       else if q_slot q tx then Ready (Ok ()) else Pending);
  try_send_result tx q x :
    snd (tx_try_send tx q x) = (if qv_open (q_view q) && q_slot q tx then Ok () else Err x);
  try_send_view tx q x :
    q_view (fst (tx_try_send tx q x)) =
      (if qv_open (q_view q) && q_slot q tx
       then {| qv_items := qv_items (q_view q) ++ [x]; qv_senders := qv_senders (q_view q);
               qv_open := true; qv_terminated := qv_terminated (q_view q) |}
       else q_view q);
  clone_view tx q :
    q_view (fst (tx_clone tx q)) =
      {| qv_items := qv_items (q_view q); qv_senders := S (qv_senders (q_view q));
         qv_open := qv_open (q_view q); qv_terminated := qv_terminated (q_view q) |};
  clone_slot tx q : q_slot (fst (tx_clone tx q)) (snd (tx_clone tx q)) = true;
  drop_view tx q :
    q_view (tx_drop tx q) =
      {| qv_items := qv_items (q_view q); qv_senders := Nat.pred (qv_senders (q_view q));
         qv_open := qv_open (q_view q); qv_terminated := qv_terminated (q_view q) |};
  poll_next_result q :
    snd (rx_poll_next q) =
      match qv_items (q_view q) with
      | x :: _ => Ready (Some x)
      | [] => if Nat.eqb (qv_senders (q_view q)) 0 then Ready None else Pending
      end;
  poll_next_view q :
    q_view (fst (rx_poll_next q)) =
      match qv_items (q_view q) with
      | x :: r =>
          {| qv_items := r; qv_senders := qv_senders (q_view q);
             qv_open := qv_open (q_view q); qv_terminated := qv_terminated (q_view q) |}
      | [] =>
          {| qv_items := []; qv_senders := qv_senders (q_view q); qv_open := qv_open (q_view q);
             qv_terminated := Nat.eqb (qv_senders (q_view q)) 0 || qv_terminated (q_view q) |}
      end;
  is_terminated_view q : rx_is_terminated q = qv_terminated (q_view q);
  rx_drop_closed q : qv_open (q_view (rx_drop q)) = false
}.

(** A channel for one value. *)
Class OneshotApi (T : Type) := {
  oneshot : Type;
  oneshot_channel : oneshot;
  oneshot_send : oneshot -> T -> oneshot * result T ();
  oneshot_drop_tx : oneshot -> oneshot;
  oneshot_poll : oneshot -> oneshot * Poll (result () T);
  oneshot_drop_rx : oneshot -> oneshot
}.

Inductive OneshotView (T : Type) :=
| OsWaiting
| OsSent (v : T)
| OsCancelled
| OsTaken
| OsClosed.
Arguments OsWaiting {T}. Arguments OsSent {T} v. Arguments OsCancelled {T}.
Arguments OsTaken {T}. Arguments OsClosed {T}.

(** Nothing is said of a poll after the value has been taken. *)
Class OneshotLaws (T : Type) `{!OneshotApi T} := {
  os_view : oneshot -> OneshotView T;
  os_channel_view : os_view oneshot_channel = OsWaiting;
  os_send_waiting o v :
    os_view o = OsWaiting -> os_view (fst (oneshot_send o v)) = OsSent v /\ snd (oneshot_send o v) = Ok ();
  os_send_closed o v :
    os_view o = OsClosed -> os_view (fst (oneshot_send o v)) = OsClosed /\ snd (oneshot_send o v) = Err v;
  os_drop_tx_view o :
    os_view (oneshot_drop_tx o) = match os_view o with OsWaiting => OsCancelled | v => v end;
  os_poll_waiting o : os_view o = OsWaiting -> os_view (fst (oneshot_poll o)) = OsWaiting /\ snd (oneshot_poll o) = Pending;
  os_poll_sent o v :
    os_view o = OsSent v -> os_view (fst (oneshot_poll o)) = OsTaken /\ snd (oneshot_poll o) = Ready (Ok v);
  os_poll_cancelled o :
    os_view o = OsCancelled -> os_view (fst (oneshot_poll o)) = OsCancelled /\ snd (oneshot_poll o) = Ready (Err ());
  os_drop_rx_view o : os_view (oneshot_drop_rx o) = OsClosed
}.

(** ** The demand signal ([watch.rs]) *)

Definition CLOSED : Z := 0.
Definition WANT_PENDING : Z := 1.
Definition WANT_READY : Z := 2.

(** The shared word, and whether the receiver is woken. *)
Record Shared := { sh_value : Z; sh_woken : bool }.

Definition watch_channel (initial : Z) : Shared := {| sh_value := initial; sh_woken := false |}.

Definition watch_send (s : Shared) (value : Z) : Shared :=
  {| sh_value := value; sh_woken := if sh_value s =? value then sh_woken s else true |}.

Definition watch_drop (s : Shared) : Shared := watch_send s CLOSED.

(** Loading registers the waker anew. *)
Definition watch_load (s : Shared) : Shared * Z := ({| sh_value := sh_value s; sh_woken := false |}, sh_value s).

(** ** The two halves

    The word and the queues are shared: they are the state of [IncomingLike], and a
    [Sender] holds its handles. [s_trailers_tx] is whether the sending half of the
    trailers is still there. *)

Section Channel.
Context `{!MpscApi (result BodyError str)} `{!OneshotApi Fields}.

Record IncomingLike := {
  content_length : DecodedLength;
  want : Shared;
  data_rx : mpsc_q;
  trailers_rx : oneshot
}.

Record Sender := { data_tx : mpsc_tx; s_trailers_tx : bool }.

Definition with_data (c : IncomingLike) (q : mpsc_q) : IncomingLike :=
  {| content_length := content_length c; want := want c; data_rx := q; trailers_rx := trailers_rx c |}.

Definition with_want (c : IncomingLike) (w : Shared) : IncomingLike :=
  {| content_length := content_length c; want := w; data_rx := data_rx c; trailers_rx := trailers_rx c |}.

Definition with_trailers (c : IncomingLike) (o : oneshot) : IncomingLike :=
  {| content_length := content_length c; want := want c; data_rx := data_rx c; trailers_rx := o |}.

Definition new_channel (content_length : DecodedLength) (wanter : bool) : Sender * IncomingLike :=
  let '(data_tx, data_rx) := mpsc_channel 0 in
  ({| data_tx := data_tx; s_trailers_tx := true |},
   {| content_length := content_length;
      want := watch_channel (if wanter then WANT_PENDING else WANT_READY);
      data_rx := data_rx; trailers_rx := oneshot_channel |}).

Definition channel : Sender * IncomingLike := new_channel CHUNKED false.

(** [Sender::poll_want]; [None] is the [unreachable!]. *)
Definition poll_want (c : IncomingLike) : option (IncomingLike * Poll (result BodyError ())) :=
  let '(w, v) := watch_load (want c) in
  let c := with_want c w in
  if v =? WANT_READY then Some (c, Ready (Ok ()))
  else if v =? WANT_PENDING then Some (c, Pending)
  else if v =? CLOSED then Some (c, Ready (Err HyperIncomingLikeNewClosed))
  else None.

(** [Sender::poll_ready]: demand first, then the data queue. *)
Definition poll_ready (self : Sender) (c : IncomingLike)
    : option (IncomingLike * Poll (result BodyError ())) :=
  '(c, p) ← poll_want c;
  match p with
  | Ready (Ok ()) =>
      let '(q, p) := tx_poll_ready (data_tx self) (data_rx c) in
      Some (with_data c q,
        match p with
        | Pending => Pending
        | Ready r => Ready (map_err (fun _ => HyperIncomingLikeNewClosed) r)
        end)
  | _ => Some (c, p)
  end.

(** One poll of [send_data]: there is no suspension between readiness and [try_send]. *)
Definition send_data (self : Sender) (c : IncomingLike) (chunk : str)
    : option (IncomingLike * Poll (result BodyError ())) :=
  '(c, p) ← poll_ready self c;
  match p with
  | Ready (Ok ()) =>
      let '(q, r) := tx_try_send (data_tx self) (data_rx c) (Ok chunk) in
      Some (with_data c q, Ready (map_err (fun _ => HyperIncomingLikeNewClosed) r))
  | _ => Some (c, p)
  end.

Definition send_trailers (self : Sender) (c : IncomingLike) (trailers : Fields)
    : Sender * IncomingLike * result BodyError () :=
  if s_trailers_tx self then
    let '(o, r) := oneshot_send (trailers_rx c) trailers in
    ({| data_tx := data_tx self; s_trailers_tx := false |}, with_trailers c o,
     map_err (fun _ => HyperIncomingLikeNewClosed) r)
  else (self, c, Err HyperIncomingLikeNewClosed).

(** [None] is the panic of the [expect]. *)
Definition try_send_data (self : Sender) (c : IncomingLike) (chunk : str) : option (IncomingLike * result str ()) :=
  let '(q, r) := tx_try_send (data_tx self) (data_rx c) (Ok chunk) in
  match r with
  | Ok () => Some (with_data c q, Ok ())
  | Err (Ok chunk) => Some (with_data c q, Err chunk)
  | Err (Err _) => None
  end.

(** The error goes through a clone, which is dropped afterwards. *)
Definition send_error (self : Sender) (c : IncomingLike) (err : BodyError) : IncomingLike :=
  let '(q, clone) := tx_clone (data_tx self) (data_rx c) in
  let '(q, _) := tx_try_send clone q (Err err) in
  with_data c (tx_drop clone q).

(** The drop of a [Sender] drops its halves of both queues. *)
Definition drop_sender (self : Sender) (c : IncomingLike) : IncomingLike :=
  let c := with_data c (tx_drop (data_tx self) (data_rx c)) in
  if s_trailers_tx self then with_trailers c (oneshot_drop_tx (trailers_rx c)) else c.

Definition abort (self : Sender) (c : IncomingLike) : IncomingLike :=
  drop_sender self (send_error self c HyperNewBodyWriteAborted).

(** The trailers, once the data is exhausted. *)
Definition poll_trailers (self : IncomingLike) : IncomingLike * FramePoll :=
  let '(o, p) := oneshot_poll (trailers_rx self) in
  (with_trailers self o,
   match p with
   | Pending => Pending
   | Ready (Ok t) => Ready (Some (Ok (Trailers t)))
   | Ready (Err _) => Ready None
   end).

(** [poll_frame]: demand is signalled, then data, then trailers; [None] is a panic. *)
Definition IncomingLike_poll_frame (self : IncomingLike) : option (IncomingLike * FramePoll) :=
  let self := with_want self (watch_send (want self) WANT_READY) in
  if rx_is_terminated (data_rx self) then Some (poll_trailers self)
  else
    let '(q, p) := rx_poll_next (data_rx self) in
    let self := with_data self q in
    match p with
    | Pending => Some (self, Pending)
    | Ready (Some (Err e)) => Some (self, Ready (Some (Err e)))
    | Ready (Some (Ok chunk)) =>
        l ← sub_if (content_length self) (chunk_len chunk);
        Some ({| content_length := l; want := want self; data_rx := q; trailers_rx := trailers_rx self |},
              Ready (Some (Ok (Data chunk))))
    | Ready None => Some (poll_trailers self)
    end.

(** The drop of the body: the demand word is closed and both receivers go away. *)
Definition drop_body (self : IncomingLike) : IncomingLike :=
  {| content_length := content_length self; want := watch_drop (want self);
     data_rx := rx_drop (data_rx self); trailers_rx := oneshot_drop_rx (trailers_rx self) |}.

Definition IncomingLike_is_end_stream (self : IncomingLike) : bool := content_length self =? ZERO.

Definition IncomingLike_size_hint (self : IncomingLike) : option Z := into_opt (content_length self).

(** ** Request bodies of either kind ([body_type.rs]) *)

Inductive RequestBody :=
| IncomingBody (limited : LimitedBody)
| ChannelBody (incoming_like : IncomingLike).

Definition RequestBody_poll_frame (self : RequestBody) : option (RequestBody * FramePoll) :=
  match self with
  | IncomingBody limited => let '(limited, p) := LimitedBody_poll_frame limited in Some (IncomingBody limited, p)
  | ChannelBody incoming_like =>
      '(incoming_like, p) ← IncomingLike_poll_frame incoming_like;
      Some (ChannelBody incoming_like, p)
  end.

(** ** The body task

    What an HTTP/3 stream yields: its chunks, whether more data could be received after
    them or the stream failed, and the trailers. *)

Record H3Stream := {
  h3_chunks : list str;
  h3_data_end : result () ();
  h3_trailers : result () (option Fields)
}.

(** The points at which the task waits. *)
Inductive BodyTask :=
| Receiving (size : Z) (chunks : list str)
| Sending (size : Z) (chunk : str) (chunks : list str)
| ReceivingTrailers
| Finished (res : result BodyError ()).

(** From one point to the next: the return drops the sender. *)
Definition body_task (limit : option Z) (st : H3Stream) (tx : Sender) (t : BodyTask) (c : IncomingLike)
    : option (BodyTask * IncomingLike) :=
  match t with
  | Receiving size (body :: r) =>
      let size := wrap_usize (size + chunk_len body) in
      if match limit with Some limit => limit <? size | None => false end
      then Some (Finished (Err H3TooLargeBody), abort tx c)
      else Some (Sending size body r, c)
  | Receiving size [] =>
      match h3_data_end st with
      | Ok () => Some (ReceivingTrailers, c)
      | Err _ => Some (Finished (Err H3StreamError), drop_sender tx c)
      end
  | Sending size body r =>
      '(c, p) ← send_data tx c body;
      Some (match p with
            | Pending => (t, c)
            | Ready (Ok ()) => (Receiving size r, c)
            | Ready (Err e) => (Finished (Err e), drop_sender tx c)
            end)
  | ReceivingTrailers =>
      Some (match h3_trailers st with
            | Err _ => (Finished (Err H3StreamError), drop_sender tx c)
            | Ok None => (Finished (Ok ()), drop_sender tx c)
            | Ok (Some trailers) =>
                let '(tx, c, r) := send_trailers tx c trailers in (Finished r, drop_sender tx c)
            end)
  | Finished _ => Some (t, c)
  end.

(** ** The system *)

Inductive Event := TaskRuns | BodyPolled | BodyDropped.

(** [y_seen] is what the polls yielded, [None] being the end of the body. *)
Record System := {
  y_task : BodyTask;
  y_chan : IncomingLike;
  y_seen : list (option (result BodyError Frame));
  y_dropped : bool
}.

(** A body is not polled after its end or its trailers. *)
Definition is_last (e : option (result BodyError Frame)) : bool :=
  match e with None | Some (Ok (Trailers _)) => true | _ => false end.

Definition consumed (y : System) : bool := existsb is_last (y_seen y).

Definition system_step (limit : option Z) (st : H3Stream) (tx : Sender) (y : System) (e : Event) : option System :=
  match e with
  | TaskRuns =>
      '(t, c) ← body_task limit st tx (y_task y) (y_chan y);
      Some {| y_task := t; y_chan := c; y_seen := y_seen y; y_dropped := y_dropped y |}
  | BodyPolled =>
      if y_dropped y || consumed y then Some y
      else
        '(c, p) ← IncomingLike_poll_frame (y_chan y);
        Some {| y_task := y_task y; y_chan := c;
                y_seen := y_seen y ++ match p with Ready r => [r] | Pending => [] end;
                y_dropped := false |}
  | BodyDropped =>
      if y_dropped y then Some y
      else Some {| y_task := y_task y; y_chan := drop_body (y_chan y); y_seen := y_seen y; y_dropped := true |}
  end.

Definition run (limit : option Z) (st : H3Stream) (tx : Sender) (y : System) (es : list Event) : option System :=
  foldl (fun y e => y ← y; system_step limit st tx y e) (Some y) es.

Definition start (st : H3Stream) : System :=
  {| y_task := Receiving 0 (h3_chunks st); y_chan := snd channel; y_seen := []; y_dropped := false |}.

(** ** What is to be seen *)

(** What follows the chunks. *)
Definition h3_end (st : H3Stream) : result () (option Fields) :=
  match h3_data_end st with Ok () => h3_trailers st | Err e => Err e end.

Definition as_seen (s : Sent) : option (result BodyError Frame) :=
  match s with
  | SentData c => Some (Ok (Data c))
  | SentTrailers t => Some (Ok (Trailers t))
  | Aborted => Some (Err HyperNewBodyWriteAborted)
  end.

(** Everything sent, and the end unless trailers are the last thing. *)
Definition transcript (sent : list Sent) : list (option (result BodyError Frame)) :=
  map as_seen sent ++ (if existsb is_last (map as_seen sent) then [] else [None]).

Definition expected (limit : option Z) (st : H3Stream) : list (option (result BodyError Frame)) :=
  transcript (fst (h3_copy_body limit 0 (h3_chunks st) (h3_end st))).

End Channel.

(** ** The operations on the abstract view *)

Section Views.
Context `{!MpscApi (result BodyError str)} `{!OneshotApi Fields}.
Context `{!MpscLaws (result BodyError str)} `{!OneshotLaws Fields}.

Record ChanView := {
  v_length : DecodedLength;
  v_want : Z;
  v_queue : QueueView (result BodyError str);
  v_oneshot : OneshotView Fields
}.

Definition chan_view (c : IncomingLike) : ChanView :=
  {| v_length := content_length c; v_want := sh_value (want c);
     v_queue := q_view (data_rx c); v_oneshot := os_view (trailers_rx c) |}.

(** A channel with the receiver there: the queued items, the live senders, whether the end
    of the data was reported, and the state of the trailers. *)
Definition live (items : list (result BodyError str)) (senders : nat) (terminated : bool) (o : OneshotView Fields)
    : ChanView :=
  {| v_length := CHUNKED; v_want := WANT_READY;
     v_queue := {| qv_items := items; qv_senders := senders; qv_open := true; qv_terminated := terminated |};
     v_oneshot := o |}.

Lemma live_inv c items n b o :
  chan_view c = live items n b o ->
  content_length c = CHUNKED /\ sh_value (want c) = WANT_READY /\
  q_view (data_rx c) = {| qv_items := items; qv_senders := n; qv_open := true; qv_terminated := b |} /\
  os_view (trailers_rx c) = o.
Proof. unfold chan_view, live. by intros [= -> -> -> ->]. Qed.

Lemma channel_live : chan_view (snd channel) = live [] 1 false OsWaiting.
Proof.
  unfold channel, new_channel. pose proof (channel_view 0) as Hv. destruct (mpsc_channel 0) as [tx q].
  unfold chan_view, live. cbn in *. by rewrite Hv, os_channel_view.
Qed.

Lemma channel_sender : s_trailers_tx (fst channel) = true.
Proof. unfold channel, new_channel. by destruct (mpsc_channel 0). Qed.

Lemma poll_ready_live self c items n b o :
  chan_view c = live items n b o ->
  exists c', poll_ready self c =
      Some (c', if q_slot (data_rx c) (data_tx self) then Ready (Ok ()) else Pending) /\
    chan_view c' = live items n b o /\
    q_slot (data_rx c') (data_tx self) = q_slot (data_rx c) (data_tx self).
Proof.
  intros (Hl & Hw & Hq & Ho)%live_inv. unfold poll_ready, poll_want, watch_load. rewrite Hw. cbn.
  pose proof (poll_ready_view (data_tx self) (data_rx c)) as Hv.
  pose proof (poll_ready_slot (data_tx self) (data_rx c)) as Hs.
  pose proof (poll_ready_result (data_tx self) (data_rx c)) as Hr.
  destruct (tx_poll_ready _ _) as [q p]. cbn in *. rewrite Hq in *. cbn in Hr. subst p.
  eexists. split; [by destruct (q_slot (data_rx c) (data_tx self))|]. split; [|exact Hs].
  unfold chan_view, live. cbn. by rewrite Hl, Hv, Ho.
Qed.

(** A poll of [send_data] queues the chunk, or waits for a slot. *)
Lemma send_data_live self c chunk items n b o :
  chan_view c = live items n b o ->
  exists c' p, send_data self c chunk = Some (c', p) /\
    ((p = Ready (Ok ()) /\ chan_view c' = live (items ++ [Ok chunk]) n b o) \/
     (p = Pending /\ chan_view c' = live items n b o /\ items <> [])).
Proof.
  intros Hc. unfold send_data. destruct (poll_ready_live self c items n b o Hc) as (c1 & -> & Hc1 & Hs). cbn.
  destruct (q_slot (data_rx c) (data_tx self)) eqn:E.
  - apply live_inv in Hc1 as (Hl & Hw & Hq & Ho).
    pose proof (try_send_view (data_tx self) (data_rx c1) (Ok chunk)) as Hv.
    pose proof (try_send_result (data_tx self) (data_rx c1) (Ok chunk)) as Hr.
    destruct (tx_try_send _ _ _) as [q r]. cbn in *. rewrite Hs, Hq in *. cbn in *. subst r.
    do 2 eexists. split; [done|]. left. split; [done|]. unfold chan_view, live. cbn. by rewrite Hl, Hw, Hv, Ho.
  - do 2 eexists. split; [done|]. right. split_and!; [done|done|]. intros ->.
    apply live_inv in Hc as (_ & _ & Hq & _). by rewrite slot_empty in E by (by rewrite Hq).
Qed.

Lemma drop_sender_live self c items n b o :
  chan_view c = live items n b o ->
  chan_view (drop_sender self c) =
    live items (Nat.pred n) b
      (if s_trailers_tx self then match o with OsWaiting => OsCancelled | v => v end else o).
Proof.
  intros (Hl & Hw & Hq & Ho)%live_inv. unfold drop_sender, chan_view, live.
  destruct (s_trailers_tx self); cbn; rewrite ?os_drop_tx_view, drop_view, Hl, Hw, Hq, Ho; by destruct o.
Qed.

Lemma send_error_live self c e items n b o :
  chan_view c = live items n b o -> chan_view (send_error self c e) = live (items ++ [Err e]) n b o.
Proof.
  intros (Hl & Hw & Hq & Ho)%live_inv. unfold send_error.
  pose proof (clone_view (data_tx self) (data_rx c)) as Hc. pose proof (clone_slot (data_tx self) (data_rx c)) as Hs.
  destruct (tx_clone _ _) as [q clone]. cbn in *. rewrite Hq in Hc. cbn in Hc.
  pose proof (try_send_view clone q (Err e)) as Hv. destruct (tx_try_send _ _ _) as [q' r]. cbn in *.
  rewrite Hs, Hc in Hv. cbn in Hv. unfold chan_view, live. cbn. by rewrite drop_view, Hv, Hl, Hw, Ho.
Qed.

Lemma send_trailers_live self c t items n b :
  s_trailers_tx self = true -> chan_view c = live items n b OsWaiting ->
  exists self' c', send_trailers self c t = (self', c', Ok ()) /\ s_trailers_tx self' = false /\
    chan_view c' = live items n b (OsSent t).
Proof.
  intros Hs (Hl & Hw & Hq & Ho)%live_inv. unfold send_trailers. rewrite Hs.
  destruct (os_send_waiting _ t Ho) as [Hv Hr]. destruct (oneshot_send _ _) as [o r]. cbn in *. subst r.
  do 2 eexists. split_and!; [done|done|]. unfold chan_view, live. cbn. by rewrite Hl, Hw, Hq, Hv.
Qed.

Lemma watch_send_value s v : sh_value (watch_send s v) = v.
Proof. done. Qed.

(** What a poll yields, and what it leaves. *)
Lemma poll_trailers_live c n b o :
  o <> OsTaken -> o <> OsClosed -> chan_view c = live [] n b o ->
  exists c' p, poll_trailers c = (c', p) /\
    match o with
    | OsSent t => p = Ready (Some (Ok (Trailers t))) /\ chan_view c' = live [] n b OsTaken
    | OsCancelled => p = Ready None /\ chan_view c' = live [] n b o
    | _ => p = Pending /\ chan_view c' = live [] n b o
    end.
Proof.
  intros Ht Hcl (Hl & Hw & Hq & Ho)%live_inv. unfold poll_trailers.
  pose proof (os_poll_waiting (trailers_rx c)) as H1. pose proof (os_poll_cancelled (trailers_rx c)) as H2.
  pose proof (os_poll_sent (trailers_rx c)) as H3. rewrite Ho in *.
  destruct (oneshot_poll _) as [o' p]. cbn in *. do 2 eexists. split; [done|].
  unfold chan_view, live. cbn. rewrite Hl, Hw, Hq.
  destruct o as [|t| | |]; [destruct (H1 eq_refl) as [-> ->]|destruct (H3 t eq_refl) as [-> ->]
                           |destruct (H2 eq_refl) as [-> ->]|done|done]; done.
Qed.

Definition q_seen (x : result BodyError str) : option (result BodyError Frame) :=
  match x with Ok c => Some (Ok (Data c)) | Err e => Some (Err e) end.

Lemma poll_frame_item c x items n o :
  chan_view c = live (x :: items) n false o ->
  exists c', IncomingLike_poll_frame c = Some (c', Ready (q_seen x)) /\ chan_view c' = live items n false o.
Proof.
  intros (Hl & Hw & Hq & Ho)%live_inv. unfold IncomingLike_poll_frame. cbn. rewrite is_terminated_view, Hq. cbn.
  pose proof (poll_next_view (data_rx c)) as Hv. pose proof (poll_next_result (data_rx c)) as Hr.
  destruct (rx_poll_next _) as [q p]. cbn in *. rewrite Hq in *. cbn in *. subst p.
  destruct x as [chunk|e]; cbn; rewrite ?Hl; (eexists; split; [done|]);
    unfold chan_view, live; cbn; by rewrite ?Hl, Hv, Ho.
Qed.

Lemma poll_frame_waiting c n o :
  chan_view c = live [] (S n) false o ->
  exists c', IncomingLike_poll_frame c = Some (c', Pending) /\ chan_view c' = live [] (S n) false o.
Proof.
  intros (Hl & Hw & Hq & Ho)%live_inv. unfold IncomingLike_poll_frame. cbn. rewrite is_terminated_view, Hq. cbn.
  pose proof (poll_next_view (data_rx c)) as Hv. pose proof (poll_next_result (data_rx c)) as Hr.
  destruct (rx_poll_next _) as [q p]. cbn in *. rewrite Hq in *. cbn in *. subst p.
  eexists. split; [done|]. unfold chan_view, live. cbn. by rewrite Hl, Hv, Ho.
Qed.

Lemma poll_frame_end c b o :
  o <> OsTaken -> o <> OsClosed -> chan_view c = live [] 0 b o ->
  exists c' p, IncomingLike_poll_frame c = Some (c', p) /\
    match o with
    | OsSent t => p = Ready (Some (Ok (Trailers t))) /\ chan_view c' = live [] 0 true OsTaken
    | OsCancelled => p = Ready None /\ chan_view c' = live [] 0 true o
    | _ => p = Pending /\ chan_view c' = live [] 0 true o
    end.
Proof.
  intros Ht Hcl (Hl & Hw & Hq & Ho)%live_inv. unfold IncomingLike_poll_frame. cbn. rewrite is_terminated_view, Hq.
  cbn. destruct b.
  - destruct (poll_trailers_live (with_want c (watch_send (want c) WANT_READY)) 0 true o Ht Hcl)
      as (c' & p & -> & Hp); [unfold chan_view, live; cbn; by rewrite Hl, Hq, Ho|]. eauto.
  - pose proof (poll_next_view (data_rx c)) as Hv. pose proof (poll_next_result (data_rx c)) as Hr.
    destruct (rx_poll_next _) as [q p]. cbn in *. rewrite Hq in *. cbn in *. subst p.
    edestruct (poll_trailers_live (with_data (with_want c (watch_send (want c) WANT_READY)) q) 0 true o Ht Hcl)
      as (c' & p & -> & Hp); [unfold chan_view, live; cbn; by rewrite Hl, Hv, Ho|]. eauto.
Qed.

End Views.

(** ** The invariant of the system *)

Section Invariant.
Context `{!MpscApi (result BodyError str)} `{!OneshotApi Fields}.
Context `{!MpscLaws (result BodyError str)} `{!OneshotLaws Fields}.
Context (limit : option Z) (st : H3Stream) (tx : Sender) (Htx : s_trailers_tx tx = true).

(** What the task will still send, and how it will end. *)
Definition rest (t : BodyTask) : list Sent * result BodyError () :=
  match t with
  | Receiving size cs => h3_copy_body limit size cs (h3_end st)
  | Sending size c cs => let '(sent, r) := h3_copy_body limit size cs (h3_end st) in (SentData c :: sent, r)
  | ReceivingTrailers => h3_copy_body limit 0 [] (h3_trailers st)
  | Finished r => ([], r)
  end.

Definition finished (t : BodyTask) : bool := match t with Finished _ => true | _ => false end.

(** A bound on the runs of the task that are still needed. *)
Definition weight (t : BodyTask) : nat :=
  match t with
  | Receiving _ cs => 2 * length cs + 2
  | Sending _ _ cs => 2 * length cs + 3
  | ReceivingTrailers => 1
  | Finished _ => 0
  end.

(** What a finished task has left in the channel for the trailers. *)
Definition left_over (o : OneshotView Fields) : list (option (result BodyError Frame)) :=
  match o with OsSent t => [Some (Ok (Trailers t))] | OsCancelled => [None] | _ => [] end.

(** Everything still to be seen. *)
Definition to_see (t : BodyTask) (items : list (result BodyError str)) (o : OneshotView Fields)
    : list (option (result BodyError Frame)) :=
  map q_seen items ++ (if finished t then left_over o else transcript (fst (rest t))).

(** The body is there and not at its end: what was seen and what is to be seen make up
    the expected transcript. *)
Definition streaming (y : System) (items : list (result BodyError str)) (o : OneshotView Fields) : Prop :=
  y_dropped y = false /\ consumed y = false /\ snd (rest (y_task y)) = snd (h3_copy_body limit 0 (h3_chunks st) (h3_end st)) /\
  chan_view (y_chan y) = live items (if finished (y_task y) then 0 else 1)%nat false o /\
  (if finished (y_task y) then (exists t, o = OsSent t) \/ o = OsCancelled else o = OsWaiting) /\
  y_seen y ++ to_see (y_task y) items o = expected limit st.

(** The end was seen. *)
Definition completed (y : System) : Prop :=
  y_dropped y = false /\ consumed y = true /\ y_seen y = expected limit st /\
  y_task y = Finished (snd (h3_copy_body limit 0 (h3_chunks st) (h3_end st))).

(** The body is gone. *)
Definition abandoned (y : System) : Prop :=
  y_dropped y = true /\ y_seen y `prefix_of` expected limit st /\ sh_value (want (y_chan y)) = CLOSED.

Lemma transcript_data c l : transcript (SentData c :: l) = Some (Ok (Data c)) :: transcript l.
Proof. done. Qed.

Lemma consumed_app y e : existsb is_last (y_seen y ++ [e]) = consumed y || is_last e.
Proof. unfold consumed. rewrite existsb_app. cbn. by rewrite orb_false_r. Qed.

Lemma q_seen_not_last x : is_last (q_seen x) = false.
Proof. by destruct x. Qed.

(** A run of the task before it has finished moves what it sends into the channel. *)
Lemma task_step t c items :
  finished t = false -> chan_view c = live items 1 false OsWaiting ->
  exists t' c' items' o',
    body_task limit st tx t c = Some (t', c') /\
    chan_view c' = live items' (if finished t' then 0 else 1)%nat false o' /\
    snd (rest t') = snd (rest t) /\
    (if finished t' then (exists tr, o' = OsSent tr) \/ o' = OsCancelled else o' = OsWaiting) /\
    to_see t' items' o' = to_see t items OsWaiting.
Proof.
  intros Hf Hc. destruct t as [size [|body r]|size body r| |res]; [| | | |done]; cbn [body_task].
  - unfold to_see, rest, h3_end. destruct (h3_data_end st) as [[]|[]].
    + exists ReceivingTrailers, c, items, OsWaiting. split_and!; try done.
    + pose proof (drop_sender_live tx c _ _ _ _ Hc) as Hd. rewrite Htx in Hd.
      do 4 eexists. split_and!; [done|exact Hd|done|by right|done].
  - unfold to_see, rest. cbn [h3_copy_body]. case_match eqn:E.
    + pose proof (send_error_live tx c HyperNewBodyWriteAborted _ _ _ _ Hc) as He.
      pose proof (drop_sender_live tx _ _ _ _ _ He) as Hd. rewrite Htx in Hd.
      do 4 eexists. split_and!; [done|exact Hd|done|by right|]. cbn. by rewrite map_app, <- app_assoc.
    + do 4 eexists. split_and!; [done|exact Hc|done|done|]. cbn. by destruct (h3_copy_body _ _ _ _).
  - destruct (send_data_live tx c body _ _ _ _ Hc) as (c' & p & -> & [[-> Hc']|(-> & Hc' & _)]); cbn.
    + do 4 eexists. split_and!; [done|exact Hc'| |done|].
      * cbn. by destruct (h3_copy_body _ _ _ _).
      * unfold to_see. cbn. rewrite map_app, <- app_assoc. by destruct (h3_copy_body _ _ _ _).
    + do 4 eexists. split_and!; [done|exact Hc'|done|done|done].
  - unfold to_see, rest. cbn [h3_copy_body]. destruct (h3_trailers st) as [[trailers|]|[]].
    + destruct (send_trailers_live tx c trailers _ _ _ Htx Hc) as (tx' & c' & -> & Htx' & Hc').
      pose proof (drop_sender_live tx' _ _ _ _ _ Hc') as Hd. rewrite Htx' in Hd.
      do 4 eexists. split_and!; [done|exact Hd|done|left; by eexists|done].
    + pose proof (drop_sender_live tx c _ _ _ _ Hc) as Hd. rewrite Htx in Hd.
      do 4 eexists. split_and!; [done|exact Hd|done|by right|done].
    + pose proof (drop_sender_live tx c _ _ _ _ Hc) as Hd. rewrite Htx in Hd.
      do 4 eexists. split_and!; [done|exact Hd|done|by right|done].
Qed.

Lemma streaming_task y items o :
  streaming y items o ->
  exists y' items' o', system_step limit st tx y TaskRuns = Some y' /\ streaming y' items' o' /\
    y_seen y' = y_seen y /\ body_task limit st tx (y_task y) (y_chan y) = Some (y_task y', y_chan y').
Proof.
  intros (Hd & Hn & Hr & Hc & Ho & He). unfold system_step. destruct (finished (y_task y)) eqn:Ef.
  - destruct (y_task y) as [| | |r] eqn:Et; try done. cbn.
    do 3 eexists. split; [done|]. split; [|done]. split_and!; cbn; try done.
  - subst o. destruct (task_step _ _ _ Ef Hc) as (t' & c' & items' & o' & -> & Hc' & Hr' & Ho' & Hs). cbn.
    do 3 eexists. split; [done|]. split; [|done]. split_and!; cbn; [done|exact Hn|congruence|exact Hc'|exact Ho'|].
    by rewrite Hs.
Qed.

(** A poll takes the head of what is to be seen, or there is nothing yet. *)
Lemma streaming_poll y items o :
  streaming y items o ->
  exists y', system_step limit st tx y BodyPolled = Some y' /\ y_task y' = y_task y /\
    ((items = [] /\ finished (y_task y) = true /\ completed y') \/
     (items = [] /\ finished (y_task y) = false /\ y_seen y' = y_seen y /\ streaming y' [] o) \/
     (exists x items', items = x :: items' /\ y_seen y' = y_seen y ++ [q_seen x] /\ streaming y' items' o)).
Proof.
  intros (Hd & Hn & Hr & Hc & Ho & He). unfold system_step. rewrite Hd, Hn. cbn [orb].
  destruct items as [|x items]; [destruct (finished (y_task y)) eqn:Ef|].
  - assert (o <> OsTaken /\ o <> OsClosed) as [Ht Hcl] by (destruct Ho as [[? ->]| ->]; done).
    destruct (poll_frame_end _ _ _ Ht Hcl Hc) as (c' & p & -> & Hp). cbn. eexists. split; [done|]. split; [done|].
    left. split_and!; [done|done|]. unfold to_see in He. rewrite Ef in He.
    destruct (y_task y) as [| | |r] eqn:Et; try done. cbn in Hr. subst r. unfold completed, consumed. cbn.
    destruct Ho as [[tr ->]| ->]; destruct Hp as [-> _]; cbn in *; rewrite consumed_app, Hn; done.
  - subst o. destruct (poll_frame_waiting _ _ _ Hc) as (c' & -> & Hc'). cbn. eexists. split; [done|]. split; [done|].
    right. left. cbn. rewrite app_nil_r. split_and!; [done|done|done|]. unfold streaming, consumed. cbn.
    rewrite Ef. split_and!; [done|exact Hn|exact Hr|exact Hc'|done|unfold to_see in He; by rewrite Ef in He].
  - destruct (poll_frame_item _ _ _ _ _ Hc) as (c' & -> & Hc'). cbn. eexists. split; [done|]. split; [done|].
    right. right. exists x, items. split_and!; [done|done|]. unfold streaming, consumed. cbn.
    rewrite consumed_app, Hn, q_seen_not_last. split_and!; try done. rewrite <- app_assoc. exact He.
Qed.

(** After the body is gone no run of the task panics or waits. *)
Lemma abandoned_task y :
  abandoned y -> exists y', system_step limit st tx y TaskRuns = Some y' /\ abandoned y' /\
    (weight (y_task y') < weight (y_task y) \/ y' = y /\ finished (y_task y) = true)%nat.
Proof.
  intros (Hd & Hp & Hw). unfold system_step.
  assert (forall self c, want (drop_sender self c) = want c) as Hdrop.
  { intros self c. unfold drop_sender. by destruct (s_trailers_tx self). }
  assert (forall self c e, want (send_error self c e) = want c) as Herr.
  { intros self c e. unfold send_error. destruct (tx_clone _ _) as [q cl]. by destruct (tx_try_send _ _ _). }
  destruct (y_task y) as [size [|body r]|size body r| |res] eqn:Et; cbn [body_task].
  - destruct (h3_data_end st) as [[]|[]]; cbn; eexists; (split; [done|split; [|left; cbn; lia]]);
      split_and!; cbn; rewrite ?Hdrop; done.
  - case_match; cbn; eexists; (split; [done|split; [|left; cbn; lia]]); split_and!; cbn;
      unfold abort; rewrite ?Hdrop, ?Herr; done.
  - unfold send_data, poll_ready, poll_want, watch_load. rewrite Hw. cbn. eexists. split; [done|].
    split; [|left; cbn; lia]. split_and!; cbn; rewrite ?Hdrop; done.
  - destruct (h3_trailers st) as [[trailers|]|[]]; cbn;
      [|eexists; (split; [done|split; [|left; cbn; lia]]); split_and!; cbn; rewrite ?Hdrop; done..].
    unfold send_trailers. rewrite Htx. destruct (oneshot_send _ _) as [o r]. cbn.
    eexists. split; [done|]. split; [|left; cbn; lia]. split_and!; cbn; rewrite ?Hdrop; done.
  - exists y. split; [by destruct y; cbn in *; subst|]. split; [by split_and!|]. by right.
Qed.

Definition sound (y : System) : Prop := (exists items o, streaming y items o) \/ completed y \/ abandoned y.

Lemma sound_prefix y : sound y -> y_seen y `prefix_of` expected limit st.
Proof.
  intros [(items & o & _ & _ & _ & _ & _ & <-)|[(_ & _ & -> & _)|(_ & Hp & _)]]; [by eexists|done|done].
Qed.

Lemma sound_step y e : sound y -> exists y', system_step limit st tx y e = Some y' /\ sound y'.
Proof.
  intros Hs. pose proof (sound_prefix y Hs) as Hpre. destruct e.
  - destruct Hs as [(items & o & Hs)|[Hs|Hs]].
    + destruct (streaming_task y items o Hs) as (y' & i' & o' & Hy & Hs' & _). exists y'. split; [done|]. left. eauto.
    + destruct Hs as (Hd & Hn & He & Ht). cbn. rewrite Ht. cbn. eexists. split; [done|]. right. left. by split_and!.
    + destruct (abandoned_task y Hs) as (y' & Hy & Hs' & _). exists y'. split; [done|]. by right; right.
  - destruct Hs as [(items & o & Hs)|[Hs|Hs]].
    + destruct (streaming_poll y items o Hs) as (y' & Hy & _ & Hc). exists y'. split; [done|].
      destruct Hc as [(_ & _ & ?)|[(_ & _ & _ & ?)|(x & i' & _ & _ & ?)]]; [by right; left|left; eauto..].
    + cbn. destruct Hs as (Hd & Hn & He & Ht). rewrite Hd, Hn. exists y. split; [done|]. right. left. by split_and!.
    + cbn. destruct Hs as (Hd & Hp & Hw). rewrite Hd. exists y. split; [done|]. right. right. by split_and!.
  - cbn. destruct (y_dropped y) eqn:Hd.
    + exists y. by split.
    + eexists. split; [done|]. right. right. by split_and!.
Qed.

Lemma run_cons y e es :
  run limit st tx y (e :: es) = (y' ← system_step limit st tx y e; run limit st tx y' es).
Proof.
  unfold run. cbn [foldl]. change (Some y ≫= _) with (system_step limit st tx y e).
  destruct (system_step limit st tx y e) as [y'|]; cbn; [done|]. by induction es.
Qed.

Lemma sound_run y es : sound y -> exists y', run limit st tx y es = Some y' /\ sound y'.
Proof.
  revert y. induction es as [|e es IH]; intros y Hs; [by exists y|].
  rewrite run_cons. destruct (sound_step y e Hs) as (y' & -> & Hs'). cbn. by apply IH.
Qed.

Lemma run_app y es fs : run limit st tx y (es ++ fs) = (y' ← run limit st tx y es; run limit st tx y' fs).
Proof.
  revert y. induction es as [|e es IH]; intros y; [done|]. cbn [app]. rewrite !run_cons.
  destruct (system_step limit st tx y e); cbn; [apply IH|done].
Qed.

(** ** Progress *)

Lemma task_weight t c items :
  finished t = false -> chan_view c = live items 1 false OsWaiting ->
  exists t' c', body_task limit st tx t c = Some (t', c') /\
    ((weight t' < weight t)%nat \/ (t' = t /\ items <> [] /\ chan_view c' = chan_view c)).
Proof.
  intros Hf Hc. destruct t as [size [|body r]|size body r| |res]; [| | | |done]; cbn [body_task].
  - destruct (h3_data_end st) as [[]|[]]; do 2 eexists; (split; [done|]); left; cbn; lia.
  - case_match; do 2 eexists; (split; [done|]); left; cbn; lia.
  - destruct (send_data_live tx c body _ _ _ _ Hc) as (c' & p & -> & [[-> Hc']|(-> & Hc' & Hi)]); cbn;
      do 2 eexists; (split; [done|]); [left; cbn; lia|right]. split_and!; [done|done|congruence].
  - destruct (h3_trailers st) as [[trailers|]|[]]; [|do 2 eexists; (split; [done|]); left; cbn; lia..].
    destruct (send_trailers tx c trailers) as [[tx' c'] r]. do 2 eexists. split; [done|]. left. cbn. lia.
Qed.

Definition measure (t : BodyTask) (items : list (result BodyError str)) (o : OneshotView Fields) : nat :=
  weight t + length (to_see t items o).

Lemma streaming_length y items o :
  streaming y items o -> (length (y_seen y) + length (to_see (y_task y) items o))%nat = length (expected limit st).
Proof. intros (_ & _ & _ & _ & _ & <-). by rewrite length_app. Qed.

Lemma streaming_view y items o items' o' n b :
  streaming y items o -> chan_view (y_chan y) = live items' n b o' -> items = items'.
Proof. intros (_ & _ & _ & -> & _) [= -> _ _ _]. done. Qed.

(** A run of the task followed by a poll makes progress. *)
Lemma streaming_round y items o :
  streaming y items o ->
  exists y', run limit st tx y [TaskRuns; BodyPolled] = Some y' /\
    (completed y' \/
     exists items' o', streaming y' items' o' /\ (measure (y_task y') items' o' < measure (y_task y) items o)%nat).
Proof.
  intros Hs. rewrite run_cons.
  destruct (streaming_task y items o Hs) as (y1 & i1 & o1 & -> & Hs1 & Hseen & Hb).
  destruct (streaming_poll y1 i1 o1 Hs1) as (y2 & Hp & Ht2 & Hcase). cbn [mbind option_bind]. rewrite run_cons, Hp.
  exists y2. split; [done|].
  pose proof (streaming_length _ _ _ Hs) as L0. rewrite <- Hseen in L0.
  assert ((weight (y_task y1) <= weight (y_task y))%nat /\
          (i1 = [] -> finished (y_task y1) = false -> weight (y_task y1) < weight (y_task y))%nat) as [Hw Hstrict].
  { pose proof Hs as (_ & _ & _ & Hc & Ho & _). destruct (finished (y_task y)) eqn:Ef.
    - destruct (y_task y); try done. cbn in Hb. injection Hb as <- _. by split.
    - subst o. destruct (task_weight _ _ _ Ef Hc) as (t' & c' & Hb' & Hcase'). rewrite Hb in Hb'.
      injection Hb' as <- <-. destruct Hcase' as [?|(-> & Hi & Hv)]; [split; [lia|done]|]. split; [lia|].
      intros -> _. rewrite Hc in Hv. pose proof (streaming_view _ _ _ _ _ _ _ Hs1 Hv). congruence. }
  unfold measure. destruct Hcase as [(_ & _ & ?)|[(-> & Hf & Hs2 & ?)|(x & i2 & -> & Hs2 & ?)]]; [by left|right..];
    do 2 eexists; (split; [done|]).
  - pose proof (streaming_length _ _ _ H) as L2. rewrite Hs2 in L2. rewrite Ht2 in *. specialize (Hstrict eq_refl Hf). lia.
  - pose proof (streaming_length _ _ _ H) as L2. rewrite Hs2, length_app in L2. cbn [length] in L2. rewrite Ht2 in *. lia.
Qed.

Definition rounds (n : nat) : list Event := concat (replicate n [TaskRuns; BodyPolled]).

Lemma completed_stays y n : completed y -> run limit st tx y (rounds n) = Some y.
Proof.
  intros (Hd & Hn & He & Ht). induction n as [|n IH]; [done|]. unfold rounds in *. cbn [replicate concat app].
  rewrite run_cons. cbn [system_step]. rewrite Ht. cbn [body_task mbind option_bind]. rewrite <- Ht, run_cons.
  destruct y as [t c s d]. cbn in *. subst d. unfold consumed in *. cbn in *. rewrite Hn. cbn. exact IH.
Qed.

Lemma streaming_completes n y items o :
  streaming y items o -> (measure (y_task y) items o <= n)%nat ->
  exists y', run limit st tx y (rounds n) = Some y' /\ completed y'.
Proof.
  revert y items o. induction n as [|n IH]; intros y items o Hs Hm.
  - exfalso. pose proof Hs as (_ & _ & _ & _ & Ho & _). unfold measure in Hm.
    destruct (y_task y) as [? []| | |]; cbn in *; try lia. unfold to_see in Hm. rewrite length_app in Hm.
    destruct Ho as [[? ->]| ->]; cbn in Hm; lia.
  - change (rounds (S n)) with ([TaskRuns; BodyPolled] ++ rounds n). rewrite run_app.
    destruct (streaming_round y items o Hs) as (y' & -> & [Hc|(i' & o' & Hs' & Hlt)]); cbn [mbind option_bind].
    + exists y'. split; [by apply completed_stays|done].
    + apply (IH y' i' o'); [done|lia].
Qed.

(** No step adds work. *)
Lemma weight_step y e y' :
  sound y -> system_step limit st tx y e = Some y' -> (weight (y_task y') <= weight (y_task y))%nat.
Proof.
  intros Hs Hy. destruct e; cbn [system_step] in Hy.
  - destruct Hs as [(items & o & Hs)|[Hs|Hs]].
    + destruct Hs as (_ & _ & _ & Hc & Ho & _). destruct (finished (y_task y)) eqn:Ef.
      * destruct (y_task y); try done. cbn in Hy. by injection Hy as <-.
      * subst o. destruct (task_weight _ _ _ Ef Hc) as (t' & c' & Hb & Hw). rewrite Hb in Hy. cbn in Hy.
        injection Hy as <-. cbn. destruct Hw as [?|(-> & _)]; lia.
    + destruct Hs as (_ & _ & _ & Ht). rewrite Ht in Hy. cbn in Hy. injection Hy as <-. cbn. by rewrite Ht.
    + destruct (abandoned_task y Hs) as (y1 & Hy1 & _ & Hw). cbn [system_step] in Hy1. rewrite Hy in Hy1.
      injection Hy1 as <-. destruct Hw as [?|[-> _]]; lia.
  - destruct (y_dropped y || consumed y); [by injection Hy as <-|].
    destruct (IncomingLike_poll_frame _) as [[c p]|]; [|done]. cbn in Hy. by injection Hy as <-.
  - destruct (y_dropped y); by injection Hy as <-.
Qed.

Lemma weight_run y es y' :
  sound y -> run limit st tx y es = Some y' -> (weight (y_task y') <= weight (y_task y))%nat.
Proof.
  revert y. induction es as [|e es IH]; intros y Hs Hr; [by injection Hr as <-|].
  rewrite run_cons in Hr. destruct (sound_step y e Hs) as (y1 & Hy & Hs1). rewrite Hy in Hr. cbn in Hr.
  pose proof (weight_step y e y1 Hs Hy). pose proof (IH y1 Hs1 Hr). lia.
Qed.

Lemma abandoned_ends n y :
  abandoned y -> (weight (y_task y) <= n)%nat ->
  exists y', run limit st tx y (replicate n TaskRuns) = Some y' /\ finished (y_task y') = true.
Proof.
  revert y. induction n as [|n IH]; intros y Ha Hw.
  - exists y. split; [done|]. by destruct (y_task y); cbn in *; try lia.
  - cbn [replicate]. rewrite run_cons. destruct (abandoned_task y Ha) as (y' & Hy & Ha' & Hcase). rewrite Hy.
    cbn [mbind option_bind]. destruct Hcase as [?|[-> Hf]]; [apply IH; [done|lia]|].
    apply IH; [done|]. destruct (y_task y); cbn in *; try done. lia.
Qed.

End Invariant.

(** ** Theorems *)

Section Theorems.
Context `{!MpscApi (result BodyError str)} `{!OneshotApi Fields}.
Context `{!MpscLaws (result BodyError str)} `{!OneshotLaws Fields}.

Lemma start_streaming limit st : streaming limit st (start st) [] OsWaiting.
Proof.
  split_and!; [done|done|done|exact channel_live|done|done].
Qed.

Lemma expected_length limit st : (length (expected limit st) <= length (h3_chunks st) + 1)%nat.
Proof.
  unfold expected. generalize 0 as size. induction (h3_chunks st) as [|c r IH]; intros size; cbn [h3_copy_body length].
  - by destruct (h3_end st) as [[]|].
  - case_match; [cbn; lia|]. specialize (IH (wrap_usize (size + chunk_len c))).
    destruct (h3_copy_body _ _ _ _) as [sent res]. cbn [fst] in *. rewrite transcript_data. cbn [length]. lia.
Qed.

Lemma copy_failed size chunks : h3_copy_body None size chunks (Err ()) = (map SentData chunks, Err H3StreamError).
Proof. revert size. induction chunks as [|c r IH]; intros size; cbn [h3_copy_body map]; [done|]. by rewrite IH. Qed.

Lemma transcript_chunks chunks l :
  transcript (map SentData chunks ++ l) = map (fun c => Some (Ok (Data c))) chunks ++ transcript l.
Proof. induction chunks as [|c r IH]; [done|]. cbn [map app]. by rewrite transcript_data, IH. Qed.

Lemma sound_completes limit st es y :
  run limit st (fst channel) (start st) es = Some y -> y_dropped y = false ->
  exists y', run limit st (fst channel) y (rounds (3 * length (h3_chunks st) + 3)) = Some y' /\ completed limit st y'.
Proof.
  intros Hr Hd. assert (sound limit st (start st)) as H0 by (left; do 2 eexists; apply start_streaming).
  destruct (sound_run limit st _ channel_sender _ es H0) as (y0 & Hy & Hs). rewrite Hr in Hy. injection Hy as <-.
  destruct Hs as [(items & o & Hs)|[Hs|(Hs & _)]]; [|exists y; split; [by apply completed_stays|done]|congruence].
  apply (streaming_completes limit st _ channel_sender _ y items o Hs). unfold measure.
  pose proof (weight_run limit st _ channel_sender _ es y H0 Hr) as Hw. cbn [start y_task weight] in Hw.
  pose proof (expected_length limit st). pose proof (streaming_length _ _ _ _ _ Hs). lia.
Qed.

(** C15: an HTTP/3 request body reaches its consumer exactly as the body task sends it,
    whatever the order in which the task runs and the body is polled: no schedule
    panics, what the polls yield is at every moment a prefix of the expected transcript
    (the chunks within the limit in order, then the trailers, the abort of an overrun,
    or the end); as long as the body is kept, alternating the task and polls a bounded
    number of times yields all of it and ends the task with the result of the copy; and
    once the body is dropped the task ends within a bounded number of runs. *)
Theorem h3_body_relayed limit st es :
  exists y, run limit st (fst channel) (start st) es = Some y /\
    y_seen y `prefix_of` expected limit st /\
    (if y_dropped y
     then exists y', run limit st (fst channel) y (replicate (2 * length (h3_chunks st) + 2) TaskRuns) = Some y' /\
            finished (y_task y') = true
     else exists y', run limit st (fst channel) y (rounds (3 * length (h3_chunks st) + 3)) = Some y' /\
            y_seen y' = expected limit st /\
            y_task y' = Finished (snd (h3_copy_body limit 0 (h3_chunks st) (h3_end st)))).
Proof.
  assert (sound limit st (start st)) as H0 by (left; do 2 eexists; apply start_streaming).
  destruct (sound_run limit st _ channel_sender _ es H0) as (y & Hy & Hs). exists y. split; [done|].
  split; [by apply sound_prefix|]. destruct (y_dropped y) eqn:Hd.
  - apply abandoned_ends with (1 := channel_sender).
    + destruct Hs as [(? & ? & ? & _)|[(? & _)|?]]; [congruence|congruence|done].
    + exact (weight_run limit st _ channel_sender _ es y H0 Hy).
  - destruct (sound_completes limit st es y Hy Hd) as (y' & Hy' & (_ & _ & He & Ht)). by exists y'.
Qed.

(** A stream that fails before its end is not reported as a failure: however the
    upload breaks off, the consumer sees the chunks received so far and then the regular
    end of the body, while the task itself ends with the error of the stream. *)
Theorem truncated_upload_ends_cleanly chunks trailers :
  let st := {| h3_chunks := chunks; h3_data_end := Err (); h3_trailers := trailers |} in
  exists y, run None st (fst channel) (start st) (rounds (3 * length chunks + 3)) = Some y /\
    y_seen y = map (fun c => Some (Ok (Data c))) chunks ++ [None] /\
    y_task y = Finished (Err H3StreamError).
Proof.
  intros st. destruct (sound_completes None st [] (start st) eq_refl eq_refl) as (y & Hy & (_ & _ & He & Ht)).
  exists y. split; [exact Hy|]. rewrite He, Ht. unfold expected, st, h3_end. cbn [h3_chunks h3_data_end].
  rewrite copy_failed. cbn [fst snd]. by rewrite <- (app_nil_r (map SentData chunks)), transcript_chunks.
Qed.

(** An abort is seen even when the queue is full, after the chunks before it. *)
Lemma abort_seen_when_full (self : Sender) c items n o :
  chan_view c = live items (S n) false o -> v_queue (chan_view (abort self c)) =
    {| qv_items := items ++ [Err HyperNewBodyWriteAborted]; qv_senders := n; qv_open := true; qv_terminated := false |}.
Proof.
  intros Hc. unfold abort. pose proof (send_error_live self c HyperNewBodyWriteAborted _ _ _ _ Hc) as He.
  by rewrite (drop_sender_live self _ _ _ _ _ He).
Qed.

End Theorems.

(** ** An instance

    The queue with its items tagged by the handle that sent them. *)

Module ChannelLists.

Record Q (T : Type) := {
  l_items : list (nat * T);
  l_buffer : Z;
  l_next : nat;
  l_senders : nat;
  l_open : bool;
  l_terminated : bool
}.
Arguments l_items {T}. Arguments l_buffer {T}. Arguments l_next {T}.
Arguments l_senders {T}. Arguments l_open {T}. Arguments l_terminated {T}.

Section Instances.
Context {T : Type}.

Definition slot (q : Q T) (h : nat) : bool :=
  (Z.of_nat (length (l_items q)) <=? l_buffer q - 1) || negb (existsb (fun p => Nat.eqb (fst p) h) (l_items q)).

Definition list_channel (buffer : Z) : nat * Q T :=
  (0%nat, {| l_items := []; l_buffer := buffer; l_next := 1; l_senders := 1; l_open := true; l_terminated := false |}).

Definition list_poll_ready (h : nat) (q : Q T) : Q T * Poll (result () ()) :=
  (q, if negb (l_open q) then Ready (Err ()) else if slot q h then Ready (Ok ()) else Pending).

Definition try_send (h : nat) (q : Q T) (x : T) : Q T * result T () :=
  if l_open q && slot q h
  then ({| l_items := l_items q ++ [(h, x)]; l_buffer := l_buffer q; l_next := l_next q;
           l_senders := l_senders q; l_open := true; l_terminated := l_terminated q |}, Ok ())
  else (q, Err x).

(** Fresh handles are beyond every handle in the queue. *)
Definition fresh (q : Q T) : nat := S (foldr (fun p n => Nat.max (fst p) n) (l_next q) (l_items q)).

Definition clone (h : nat) (q : Q T) : Q T * nat :=
  ({| l_items := l_items q; l_buffer := l_buffer q; l_next := fresh q; l_senders := S (l_senders q);
      l_open := l_open q; l_terminated := l_terminated q |}, fresh q).

Definition drop (h : nat) (q : Q T) : Q T :=
  {| l_items := l_items q; l_buffer := l_buffer q; l_next := l_next q; l_senders := Nat.pred (l_senders q);
     l_open := l_open q; l_terminated := l_terminated q |}.

Definition poll_next (q : Q T) : Q T * Poll (option T) :=
  match l_items q with
  | (_, x) :: r =>
      ({| l_items := r; l_buffer := l_buffer q; l_next := l_next q; l_senders := l_senders q;
          l_open := l_open q; l_terminated := l_terminated q |}, Ready (Some x))
  | [] =>
      let over := Nat.eqb (l_senders q) 0 in
      ({| l_items := []; l_buffer := l_buffer q; l_next := l_next q; l_senders := l_senders q;
          l_open := l_open q; l_terminated := over || l_terminated q |}, if over then Ready None else Pending)
  end.

Definition close (q : Q T) : Q T :=
  {| l_items := []; l_buffer := l_buffer q; l_next := l_next q; l_senders := l_senders q;
     l_open := false; l_terminated := l_terminated q |}.

#[export] Instance mpsc_api : MpscApi T :=
  {| mpsc_tx := nat; mpsc_q := Q T; mpsc_channel := list_channel; tx_poll_ready := list_poll_ready; tx_try_send := try_send;
     tx_clone := clone; tx_drop := drop; rx_poll_next := poll_next; rx_is_terminated := l_terminated; rx_drop := close |}.

Definition view (q : Q T) : QueueView T :=
  {| qv_items := map snd (l_items q); qv_senders := l_senders q; qv_open := l_open q; qv_terminated := l_terminated q |}.

Lemma fresh_slot (q : Q T) : existsb (fun p => Nat.eqb (fst p) (fresh q)) (l_items q) = false.
Proof.
  assert (forall l n m, (foldr (fun (p : nat * T) n => Nat.max (fst p) n) n l < m)%nat ->
    existsb (fun p => Nat.eqb (fst p) m) l = false) as H; [|by apply (H _ (l_next q)); unfold fresh; lia].
  intros l n m. induction l as [|p l IH]; intros Hm; [done|]. cbn in *. rewrite IH by lia.
  rewrite orb_false_r. apply Nat.eqb_neq. lia.
Qed.

#[export] Instance mpsc_laws : MpscLaws T.
Proof.
  refine {| q_view := view : mpsc_q -> QueueView T; q_slot := slot : mpsc_q -> mpsc_tx -> bool |}; try done.
  - intros q tx. unfold view, slot. destruct q as [[|]]; [|done]. intros _. cbn. by rewrite orb_true_r.
  - intros tx q x. cbn. unfold try_send. by destruct (l_open q && slot q tx).
  - intros tx q x. cbn. unfold try_send. destruct (l_open q && slot q tx); [|done].
    unfold view. cbn. by rewrite map_app.
  - intros tx q. cbn. unfold slot. cbn. by rewrite fresh_slot, orb_true_r.
  - intros q. cbn. unfold poll_next. by destruct (l_items q) as [|[]].
  - intros q. cbn. unfold poll_next, view. by destruct (l_items q) as [|[]].
Defined.

Inductive Cell := Waiting | Full (v : T) | Cancelled | Taken | Closed.

#[export] Instance oneshot_api : OneshotApi T :=
  {| oneshot := Cell; oneshot_channel := Waiting;
     oneshot_send := fun o v => match o with Waiting => (Full v, Ok ()) | o => (o, Err v) end;
     oneshot_drop_tx := fun o => match o with Waiting => Cancelled | o => o end;
     oneshot_poll := fun o =>
       match o with
       | Waiting => (Waiting, Pending)
       | Full v => (Taken, Ready (Ok v))
       | o => (o, Ready (Err ()))
       end;
     oneshot_drop_rx := fun _ => Closed |}.

Definition cell_view (o : Cell) : OneshotView T :=
  match o with
  | Waiting => OsWaiting | Full v => OsSent v | Cancelled => OsCancelled | Taken => OsTaken | Closed => OsClosed
  end.

#[export] Instance oneshot_laws : OneshotLaws T.
Proof.
  refine {| os_view := cell_view : oneshot -> OneshotView T |}; try done;
    try (intros [|v| | |]; cbn; intros; simplify_eq; done).
Defined.

End Instances.
End ChannelLists.

(** ** Witnesses *)

Module ChannelExamples.
Import ChannelLists.

Definition upload : H3Stream :=
  {| h3_chunks := [B "hello"; B "world"]; h3_data_end := Ok (); h3_trailers := Ok (Some [(B "a", B "b")]) |}.

Definition seen_after (limit : option Z) (st : H3Stream) (es : list Event) : option (list (option (result BodyError Frame))) :=
  option_map y_seen (run limit st (fst channel) (start st) es).

(** The whole body with its trailers, an overrun reported although the queue is full, and a
    body dropped half-way. *)
Lemma h3_body_relayed_witness :
  (exists y, run None upload (fst channel) (start upload) [TaskRuns; BodyPolled] = Some y /\
     y_seen y `prefix_of` expected None upload) /\
  seen_after None upload (rounds 9) =
    Some [Some (Ok (Data (B "hello"))); Some (Ok (Data (B "world"))); Some (Ok (Trailers [(B "a", B "b")]))] /\
  seen_after (Some 7) upload ([TaskRuns; TaskRuns; TaskRuns] ++ rounds 9) =
    Some [Some (Ok (Data (B "hello"))); Some (Err HyperNewBodyWriteAborted); None] /\
  seen_after None upload [TaskRuns; TaskRuns; BodyPolled; BodyDropped; TaskRuns; TaskRuns; BodyPolled] =
    Some [Some (Ok (Data (B "hello")))].
Proof.
  split_and!; [|vm_compute; reflexivity..].
  destruct (h3_body_relayed None upload [TaskRuns; BodyPolled]) as (y & Hy & Hp & _). by exists y.
Defined.

Definition broken : H3Stream :=
  {| h3_chunks := [B "hel"]; h3_data_end := Err (); h3_trailers := Ok None |}.

Lemma truncated_upload_ends_cleanly_witness :
  exists y, run None broken (fst channel) (start broken) (rounds (3 * length [B "hel"] + 3)) = Some y /\
    y_seen y = map (fun c => Some (Ok (Data c))) [B "hel"] ++ [None] /\ y_task y = Finished (Err H3StreamError).
Proof. exact (truncated_upload_ends_cleanly [B "hel"] (Ok None)). Defined.

End ChannelExamples.
