(* ===== verification/Cache.v ===== *)
(** * The response cache ([forwarder/cache/cache_main.rs], [forwarder/client.rs])

    Small responses are kept in memory, larger ones in files, under an LRU map of their
    metadata. The LRU map is the [lru] crate's, freshness is [http_cache_semantics]'s,
    both parameters. The disk is a map from paths to contents whose operations may fail:
    the outcomes of the coming calls are part of its state. Tasks share the state below
    and interleave between its operations. *)

From S2P Require Import Prelude RustStr RustNet HttpIface ForwardedSyntax HeaderCommon Globals.
From S2P Require Import StickyCookie RequestOps Body.

(** ** The [lru] crate *)

Class LruApi (V : Type) := {
  LruCache : Type;
  lru_new : nat -> LruCache;
  lru_push : LruCache -> str -> V -> LruCache * option (str * V);
  lru_get : LruCache -> str -> LruCache * option V;
  lru_peek : LruCache -> str -> option V;
  lru_pop_entry : LruCache -> str -> LruCache * option (str * V);
  lru_len : LruCache -> nat;
  lru_cap : LruCache -> nat;
  (** [iter()]: from the most to the least recently used *)
  lru_iter : LruCache -> list (str * V);
  lru_wf : LruCache -> Prop
}.

(** An association list without a key. *)
Definition without {V} (k : str) (l : list (str * V)) : list (str * V) :=
  filter (fun e => fst e <> k) l.

Class LruLaws (V : Type) `{!LruApi V} : Prop := {
  lru_new_wf n : (0 < n)%nat -> lru_wf (lru_new n);
  lru_new_iter n : lru_iter (lru_new n) = [];
  lru_new_cap n : lru_cap (lru_new n) = n;
  (** keys are unique and there are at most [cap] of them *)
  lru_wf_keys c : lru_wf c -> NoDup (map fst (lru_iter c));
  lru_wf_cap c : lru_wf c -> (length (lru_iter c) <= lru_cap c)%nat;
  lru_len_iter c : lru_wf c -> lru_len c = length (lru_iter c);
  (** [push] returns the old entry of the key, or the least recently used one if there
      is no room *)
  lru_push_wf c k v : lru_wf c -> lru_wf (fst (lru_push c k v)) /\ lru_cap (fst (lru_push c k v)) = lru_cap c;
  lru_push_update c k v v0 : lru_wf c -> (k, v0) ∈ lru_iter c ->
    snd (lru_push c k v) = Some (k, v0) /\ lru_iter (fst (lru_push c k v)) = (k, v) :: without k (lru_iter c);
  lru_push_room c k v : lru_wf c -> k ∉ map fst (lru_iter c) -> (length (lru_iter c) < lru_cap c)%nat ->
    snd (lru_push c k v) = None /\ lru_iter (fst (lru_push c k v)) = (k, v) :: lru_iter c;
  lru_push_full c k v l e : lru_wf c -> k ∉ map fst (lru_iter c) -> lru_iter c = l ++ [e] ->
    length (lru_iter c) = lru_cap c ->
    snd (lru_push c k v) = Some e /\ lru_iter (fst (lru_push c k v)) = (k, v) :: l;
  (** [get] makes the entry the most recently used *)
  lru_get_wf c k : lru_wf c -> lru_wf (fst (lru_get c k)) /\ lru_cap (fst (lru_get c k)) = lru_cap c;
  lru_get_value c k : lru_wf c -> snd (lru_get c k) = map_find k (lru_iter c);
  lru_get_iter c k : lru_wf c ->
    lru_iter (fst (lru_get c k)) =
      match map_find k (lru_iter c) with Some v => (k, v) :: without k (lru_iter c) | None => lru_iter c end;
  lru_peek_value c k : lru_wf c -> lru_peek c k = map_find k (lru_iter c);
  lru_pop_wf c k : lru_wf c -> lru_wf (fst (lru_pop_entry c k)) /\ lru_cap (fst (lru_pop_entry c k)) = lru_cap c;
  lru_pop_value c k : lru_wf c -> snd (lru_pop_entry c k) = pair k <$> map_find k (lru_iter c);
  lru_pop_iter c k : lru_wf c -> lru_iter (fst (lru_pop_entry c k)) = without k (lru_iter c)
}.

(** ** The [http_cache_semantics] crate *)

Class PolicyApi `{HttpApi} := {
  CachePolicy : Type;
  (** [CachePolicy::new], which reads the clock: the time of the response *)
  policy_new : Request -> Response -> Z -> CachePolicy;
  is_storable : CachePolicy -> bool;
  (** the response to serve when the stored one is fresh for the request at the time *)
  before_request : CachePolicy -> Request -> Z -> option Response
}.

Inductive CacheError :=
| NullRequestOrResponse
| FailedToAcquiredMutexLockForCache
| FailedToAcquiredMutexLockForCheck
| FailedToCreateFileCache
| FailedToWriteFileCache
| FailedToRenameCacheFile
| FailedToOpenCacheFile
| FailedToSendFrameFromCache
| FailedToRemoveCacheFile
| HashMismatchedInCacheFile.

(** ** The disk *)

(** A call succeeds, or fails after that many bytes. *)
Inductive outcome := Success | Failure (bytes : nat).

Record Disk := {
  files : gmap str str;
  outcomes : list outcome;         (* of the coming calls; all succeed after them *)
  CACHE_FILE_SEQ : Z
}.

Definition IO (A : Type) : Type := Disk -> A * Disk.

#[export] Instance IO_ret : MRet IO := fun A a d => (a, d).
#[export] Instance IO_bind : MBind IO := fun A C f m d => let '(a, d') := m d in f a d'.

Definition next_outcome : IO outcome := fun d =>
  match outcomes d with
  | [] => (Success, d)
  | o :: r => (o, {| files := files d; outcomes := r; CACHE_FILE_SEQ := CACHE_FILE_SEQ d |})
  end.

Definition modify_files (f : gmap str str -> gmap str str) : IO () := fun d =>
  ((), {| files := f (files d); outcomes := outcomes d; CACHE_FILE_SEQ := CACHE_FILE_SEQ d |}).

Definition stat (p : str) : IO (option str) := fun d => (files d !! p, d).

(** [OpenOptions::new().write(true).create_new(true).open(p)] *)
Definition create_new (p : str) : IO bool :=
  o ← next_outcome;
  old ← stat p;
  match o, old with
  | Success, None => _ ← modify_files (fun fs => <[p := []]> fs); mret true
  | _, _ => mret false
  end.

(** Appends through the handle; a failed call may have written some of the data. *)
Definition write_all (p data : str) : IO bool :=
  o ← next_outcome;
  old ← stat p;
  let written := match o with Success => data | Failure n => take n data end in
  _ ← match old with
      | Some s => modify_files (fun fs => <[p := s ++ written]> fs)
      | None => mret ()
      end;
  mret (match o with Success => true | Failure _ => false end).

Definition flush : IO bool :=
  o ← next_outcome; mret (match o with Success => true | Failure _ => false end).

Definition rename (a b : str) : IO bool :=
  o ← next_outcome;
  old ← stat a;
  match o, old with
  | Success, Some s => _ ← modify_files (fun fs => <[b := s]> (delete a fs)); mret true
  | _, _ => mret false
  end.

Inductive unlink_result := Unlinked | NotFound | UnlinkFailed.

Definition remove_file (p : str) : IO unlink_result :=
  o ← next_outcome;
  old ← stat p;
  match o, old with
  | Success, Some _ => _ ← modify_files (delete p); mret Unlinked
  | Success, None => mret NotFound
  | Failure _, _ => mret UnlinkFailed
  end.

(** Opening for reading: the contents. *)
Definition open_read (p : str) : IO (option str) :=
  o ← next_outcome;
  old ← stat p;
  mret (match o with Success => old | Failure _ => None end).

Definition remove_uncounted_file (p : str) : IO () := _ ← remove_file p; mret ().

(** ** Storing a body *)

Section cache.
Context `{HttpApi} `{CryptoApi} `{!PolicyApi}.

(** The process id, and the time read with each file name. *)
Context (pid : Z) (nanos : Z -> Z).

Definition derive_filename_from_uri (uri : Uri) : str := b64_encode (sha256 (uri_to_string uri)).

Definition derive_cache_key_from_effective_uri (uri : Uri) : str := uri_to_string uri.

(** The temporary and the final path. *)
Definition cache_paths (cache_dir : str) (uri : Uri) (seq : Z) : str * str :=
  let unique := derive_filename_from_uri uri ++ HYPHEN :: show_dec pid ++ HYPHEN :: show_dec (nanos seq)
                  ++ HYPHEN :: show_dec seq in
  (path_join cache_dir (unique ++ B ".tmp"), path_join cache_dir unique).

Definition unique_cache_paths (cache_dir : str) (uri : Uri) : IO (str * str) := fun d =>
  let seq := CACHE_FILE_SEQ d in
  (cache_paths cache_dir uri seq,
   {| files := files d; outcomes := outcomes d; CACHE_FILE_SEQ := (seq + 1) mod 2 ^ 64 |}).

Record SpillFile := { temp_path : str; final_path : str }.

Definition SpillFile_create (cache_dir : str) (uri : Uri) : IO (result CacheError SpillFile) :=
  '(temp, final) ← unique_cache_paths cache_dir uri;
  created ← create_new temp;
  mret (if created : bool then Ok {| temp_path := temp; final_path := final |} else Err FailedToCreateFileCache).

Definition SpillFile_write (self : SpillFile) (data : str) : IO (result CacheError ()) :=
  written ← write_all (temp_path self) data;
  mret (if written : bool then Ok () else Err FailedToWriteFileCache).

Definition SpillFile_commit (self : SpillFile) : IO (result CacheError str) :=
  flushed ← flush;
  if negb flushed then
    _ ← remove_uncounted_file (temp_path self);
    mret (Err FailedToWriteFileCache)
  else
    renamed ← rename (temp_path self) (final_path self);
    if negb renamed then
      _ ← remove_uncounted_file (temp_path self);
      mret (Err FailedToRenameCacheFile)
    else mret (Ok (final_path self)).

Definition SpillFile_abort (self : SpillFile) : IO () := remove_uncounted_file (temp_path self).

Definition abort_spill (spill : option SpillFile) : IO () :=
  match spill with Some s => SpillFile_abort s | None => mret () end.

Inductive CacheFileOrOnMemory :=
| File (path : str)
| OnMemory (object : str).

(** The variables of the loop; [hashed] is what the hasher has been fed. *)
Record Spool := {
  hashed : str;
  buf : str;
  size : Z;
  cacheable : bool;
  spill : option SpillFile
}.

Definition Spool_new : Spool :=
  {| hashed := []; buf := []; size := 0; cacheable := true; spill := None |}.

Definition stop_caching (st : Spool) : Spool :=
  {| hashed := hashed st; buf := []; size := size st; cacheable := false; spill := None |}.

(** What the body yields: frames, or the error that ends it. *)
Definition BodyFrame : Type := result () Frame.

(** One turn of the loop for a frame that was forwarded. *)
Definition spool_frame (max_each_size max_each_size_on_memory : Z) (cache_dir : str) (uri : Uri)
    (st : Spool) (frame : BodyFrame) : IO Spool :=
  if negb (cacheable st) then mret st
  else
    match frame with
    | Err _ => _ ← abort_spill (spill st); mret (stop_caching st)
    | Ok (Trailers _) => mret st
    | Ok (Data data) =>
        let len := chunk_len data in
        if max_each_size <? saturating_add usize_max (size st) len then
          _ ← abort_spill (spill st); mret (stop_caching st)
        else
          let st := {| hashed := hashed st ++ data; buf := buf st;
                       size := saturating_add usize_max (size st) len;
                       cacheable := true; spill := spill st |} in
          match spill st with
          | Some s =>
              w ← SpillFile_write s data;
              match w with
              | Ok _ => mret st
              | Err _ => _ ← SpillFile_abort s; mret (stop_caching st)
              end
          | None =>
              if max_each_size_on_memory <? saturating_add usize_max (chunk_len (buf st)) len then
                created ← SpillFile_create cache_dir uri;
                match created with
                | Err _ => mret (stop_caching st)
                | Ok s =>
                    w1 ← SpillFile_write s (buf st);
                    w2 ← match w1 with Ok _ => SpillFile_write s data | Err e => mret (Err e) end;
                    match w2 with
                    | Err _ => _ ← SpillFile_abort s; mret (stop_caching st)
                    | Ok _ => mret {| hashed := hashed st; buf := []; size := size st; cacheable := true; spill := Some s |}
                    end
                end
              else mret {| hashed := hashed st; buf := buf st ++ data; size := size st; cacheable := true; spill := None |}
          end
    end.

(** After the loop. *)
Definition spool_finish (st : Spool) : IO (option (CacheFileOrOnMemory * str)) :=
  if negb (cacheable st) then mret None
  else
    let hash := sha256 (hashed st) in
    match spill st with
    | Some s =>
        r ← SpillFile_commit s;
        mret (match r with Ok final_path => Some (File final_path, hash) | Err _ => None end)
    | None => mret (Some (OnMemory (buf st), hash))
    end.

(** The loop over the frames, with whether each could be sent downstream. Returns what
    was forwarded as well. *)
Fixpoint spool_loop (max_each_size max_each_size_on_memory : Z) (cache_dir : str) (uri : Uri)
    (frames : list (BodyFrame * bool)) (st : Spool)
    : IO (list BodyFrame * option (CacheFileOrOnMemory * str)) :=
  match frames with
  | [] => stored ← spool_finish st; mret ([], stored)
  | (frame, sent) :: r =>
      if negb sent then _ ← abort_spill (spill st); mret ([], None)
      else
        st ← spool_frame max_each_size max_each_size_on_memory cache_dir uri st frame;
        '(forwarded, stored) ← spool_loop max_each_size max_each_size_on_memory cache_dir uri r st;
        mret (frame :: forwarded, stored)
  end.

Definition spool_and_store (max_each_size max_each_size_on_memory : Z) (cache_dir : str) (uri : Uri)
    (body : list (BodyFrame * bool)) : IO (list BodyFrame * option (CacheFileOrOnMemory * str)) :=
  spool_loop max_each_size max_each_size_on_memory cache_dir uri body Spool_new.

(** ** Objects and the manager *)

Record CacheObject := {
  policy : CachePolicy;
  target : CacheFileOrOnMemory;
  hash : str;
  generation : Z
}.

Definition get_policy_if_cacheable (req : option Request) (res : option Response) (now : Z)
    : result CacheError (option CachePolicy) :=
  match req, res with
  | Some req, Some res =>
      let new_policy := policy_new req res now in
      Ok (if is_storable new_policy then Some new_policy else None)
  | _, _ => Err NullRequestOrResponse
  end.

Context `{!LruApi CacheObject}.

(** What the tasks share: the LRU map behind its mutex with the count of its entries,
    the count of committed files, the disk, and the counter of generations. *)
Record CacheState := {
  inner : LruCache;
  poisoned : bool;
  lru_cnt : Z;
  file_cnt : Z;
  disk : Disk;
  CACHE_OBJECT_GEN : Z
}.

Definition with_inner (s : CacheState) (c : LruCache) : CacheState :=
  {| inner := c; poisoned := poisoned s; lru_cnt := Z.of_nat (lru_len c); file_cnt := file_cnt s;
     disk := disk s; CACHE_OBJECT_GEN := CACHE_OBJECT_GEN s |}.

Definition with_file_cnt (s : CacheState) (n : Z) : CacheState :=
  {| inner := inner s; poisoned := poisoned s; lru_cnt := lru_cnt s; file_cnt := n;
     disk := disk s; CACHE_OBJECT_GEN := CACHE_OBJECT_GEN s |}.

Definition with_disk (s : CacheState) (d : Disk) : CacheState :=
  {| inner := inner s; poisoned := poisoned s; lru_cnt := lru_cnt s; file_cnt := file_cnt s;
     disk := d; CACHE_OBJECT_GEN := CACHE_OBJECT_GEN s |}.

(** A disk operation of a task. *)
Definition run_io {A} (m : IO A) (s : CacheState) : A * CacheState :=
  let '(a, d) := m (disk s) in (a, with_disk s d).

(** [CacheObject::new] *)
Definition CacheObject_new (p : CachePolicy) (t : CacheFileOrOnMemory) (h : str) (s : CacheState)
    : CacheObject * CacheState :=
  ({| policy := p; target := t; hash := h; generation := CACHE_OBJECT_GEN s |},
   {| inner := inner s; poisoned := poisoned s; lru_cnt := lru_cnt s; file_cnt := file_cnt s;
      disk := disk s; CACHE_OBJECT_GEN := (CACHE_OBJECT_GEN s + 1) mod 2 ^ 64 |}).

(** ** [LruCacheManager] *)

Definition LruCacheManager_new (cache_max_entry : nat) : option LruCache :=
  if (cache_max_entry =? 0)%nat then None else Some (lru_new cache_max_entry).

Definition evict_if_generation (cache_key : str) (gen : Z) (s : CacheState)
    : CacheState * option (str * CacheObject) :=
  if poisoned s then (s, None)
  else if negb (bool_decide (generation <$> lru_peek (inner s) cache_key = Some gen)) then (s, None)
  else
    let '(c, res) := lru_pop_entry (inner s) cache_key in
    (with_inner s c, res).

Definition LruCacheManager_push (cache_key : str) (cache_object : CacheObject) (s : CacheState)
    : CacheState * result CacheError (option (str * CacheObject)) :=
  if poisoned s then (s, Err FailedToAcquiredMutexLockForCache)
  else
    let '(c, res) := lru_push (inner s) cache_key cache_object in
    (with_inner s c, Ok res).

Definition LruCacheManager_get (cache_key : str) (s : CacheState)
    : CacheState * result CacheError (option CacheObject) :=
  if poisoned s then (s, Err FailedToAcquiredMutexLockForCheck)
  else
    let '(c, res) := lru_get (inner s) cache_key in
    ({| inner := c; poisoned := poisoned s; lru_cnt := lru_cnt s; file_cnt := file_cnt s;
        disk := disk s; CACHE_OBJECT_GEN := CACHE_OBJECT_GEN s |}, Ok res).

(** ** [FileStore] *)

Definition incr_count (s : CacheState) : CacheState := with_file_cnt s (wrap_usize (file_cnt s + 1)).

(** The first half of [FileStore::remove]. *)
Definition decr_count (s : CacheState) : CacheState := with_file_cnt s (saturating_sub (file_cnt s) 1).

Definition FileStore_remove (p : str) (s : CacheState) : CacheState * result CacheError () :=
  let s := decr_count s in
  let '(r, s) := run_io (remove_file p) s in
  (s, match r with Unlinked | NotFound => Ok () | UnlinkFailed => Err FailedToRemoveCacheFile end).

Definition FileStore_evict (p : str) (s : CacheState) : CacheState := fst (FileStore_remove p s).

(** [RpxyCache::count] *)
Definition count (s : CacheState) : Z * Z * Z :=
  let total := lru_cnt s in
  let file := file_cnt s in
  (total, saturating_sub total file, file).

(** ** [RpxyCache::new] *)

(** The limits, and the state at the start: the directory has been emptied. The counters
    for file names (in the disk) and for generations are those of the process, which
    earlier caches have used. [None] also stands for the panic on a capacity of zero. *)
Definition RpxyCache_new `{IpNetApi} (config : ProxyConfig) (create_dir_ok : bool) (d : Disk) (gen : Z)
    : option (Z * Z * str * CacheState) :=
  if negb (cache_enabled config) then None
  else
    dir ← cache_dir config;
    inner ← LruCacheManager_new (Z.to_nat (cache_max_entry config));
    let max_each_size := cache_max_each_size config in
    let on_memory := cache_max_each_size_on_memory config in
    let on_memory := if max_each_size <? on_memory then max_each_size else on_memory in
    if negb create_dir_ok then None
    else Some (max_each_size, on_memory, dir,
               {| inner := inner; poisoned := false; lru_cnt := 0; file_cnt := 0; disk := d; CACHE_OBJECT_GEN := gen |}).

(** ** [client.rs]: what is cached for a request *)

Definition cache_effective_uri (req : Request) : option Uri := effective_uri req.

(** A copy of the request under the client-facing URI, without extensions. *)
Definition build_synth_req_for_cache (req : Request) (uri : Uri) : Request :=
  {| rq_method := rq_method req; rq_uri := uri; rq_version := rq_version req;
     rq_headers := rq_headers req; effective_uri := None |}.

(** ** Tasks

    A request that uses the cache, and the storing of its response, at the points where
    other tasks may run in between. *)

Inductive Task :=
| Get (sreq : Request) (now : Z)                                  (* [RpxyCache::get] *)
| Open (sreq : Request) (now : Z) (res : Response) (obj : CacheObject) (path : str)
| Streaming (sreq : Request) (now : Z) (res : Response) (obj : CacheObject) (path sent rest : str) (* the file is open *)
| RemoveCorrupt (path : str)
| EvictEntry (sreq : Request) (obj : CacheObject)                 (* the snapshot is stale or unreadable *)
| Decr (path : str) (resume : option Request)                     (* [FileStore::evict] *)
| Unlink (path : str) (resume : option Request)
| Fetch (sreq : Request)                                          (* [request_directly] *)
| Spooling (sreq : Request) (res : Response) (received : Z) (seen : list BodyFrame) (st : Spool)
| Committed (sreq : Request) (res : Response) (received : Z) (t : CacheFileOrOnMemory) (hash : str)
| Publish (key : str) (obj : CacheObject) (counted : bool)        (* [publish_cache_object] *)
| Finished.

(** What a task waits for. *)
Inductive Event :=
| Continue
| Read (r : result () str) (delivered : bool)
| Upstream (res : option Response) (received : Z)
| NextFrame (frame : BodyFrame) (sent : bool)
| EndOfBody.

(** A response handed to the client from the cache, with the bytes of its body that were
    sent, and whether the body was neither cut off by the client nor by a read error. *)
Record Served := { sv_req : Request; sv_now : Z; sv_res : Response; sv_body : str; sv_complete : bool }.

(** A response that was stored when its body had ended, with the time it was received at
    and the frames of the body. *)
Record StoredResponse := { st_req : Request; st_res : Response; st_received : Z; st_frames : list BodyFrame }.

Definition miss (resume : option Request) : Task :=
  match resume with Some sreq => Fetch sreq | None => Finished end.

Definition cache_key (sreq : Request) : str := derive_cache_key_from_effective_uri (rq_uri sreq).

(** [get] up to its first file operation. *)
Definition get_step (sreq : Request) (now : Z) (s : CacheState) : CacheState * Task * option Served :=
  let '(s, r) := LruCacheManager_get (cache_key sreq) s in
  match r with
  | Err _ | Ok None => (s, Fetch sreq, None)
  | Ok (Some obj) =>
      match before_request (policy obj) sreq now with
      | None => (s, EvictEntry sreq obj, None)
      | Some res =>
          match target obj with
          | File path => (s, Open sreq now res obj path, None)
          | OnMemory object =>
              (s, Finished, Some {| sv_req := sreq; sv_now := now; sv_res := res; sv_body := object; sv_complete := true |})
          end
      end
  end.

Definition open_step (sreq : Request) (now : Z) (res : Response) (obj : CacheObject) (path : str) (s : CacheState)
    : CacheState * Task :=
  let '(content, s) := run_io (open_read path) s in
  (s, match content with
      | Some content => Streaming sreq now res obj path [] content
      | None => EvictEntry sreq obj
      end).

(** After the loop of [FileStore::read]: a file whose contents do not have the hash is removed. *)
Definition stream_end (obj : CacheObject) (path hashed : str) : Task :=
  if bool_decide (sha256 hashed = hash obj) then Finished else RemoveCorrupt path.

(** One turn of the loop: the file is read once, and what was read is sent and hashed, if
    it can still be delivered; [sent] is what has been sent, and hashed, so far. *)
Definition stream_step (sreq : Request) (now : Z) (res : Response) (obj : CacheObject) (path sent rest : str)
    (r : result () str) (delivered : bool) : Task * option Served :=
  let serve complete :=
    Some {| sv_req := sreq; sv_now := now; sv_res := res; sv_body := sent; sv_complete := complete |} in
  match r with
  | Ok [] => (stream_end obj path sent, serve true)
  | Ok bytes =>
      if delivered then (Streaming sreq now res obj path (sent ++ bytes) (drop (length bytes) rest), None)
      else (Finished, serve false)
  | Err _ => (stream_end obj path sent, serve false)
  end.

Definition evict_entry_step (sreq : Request) (obj : CacheObject) (s : CacheState) : CacheState * Task :=
  let '(s, popped) := evict_if_generation (cache_key sreq) (generation obj) s in
  (s, match popped, target obj with
      | Some _, File path => Decr path (Some sreq)
      | _, _ => Fetch sreq
      end).

Definition new_file_path (obj : CacheObject) : option str :=
  match target obj with File path => Some path | OnMemory _ => None end.

(** The second half of [publish_cache_object]: the metadata becomes visible, and a file
    that lost its entry is evicted, the new one if it could not be published. *)
Definition publish_push (key : str) (obj : CacheObject) (s : CacheState) : CacheState * Task :=
  let '(s, r) := LruCacheManager_push key obj s in
  (s, match r with
      | Err _ => match new_file_path obj with Some path => Decr path None | None => Finished end
      | Ok None => Finished
      | Ok (Some (_, v)) =>
          match target v with
          | File old => if bool_decide (new_file_path obj = Some old) then Finished else Decr old None
          | OnMemory _ => Finished
          end
      end).

(** [publish_cache_object]: a file is counted before its metadata is visible. *)
Definition publish_step (key : str) (obj : CacheObject) (counted : bool) (s : CacheState) : CacheState * Task :=
  match new_file_path obj, counted with
  | Some _, false => (incr_count s, Publish key obj true)
  | _, _ => publish_push key obj s
  end.

(** The upstream has answered: the response is stored if its policy allows. *)
Definition fetch_step (sreq : Request) (res : option Response) (received : Z) : Task :=
  match get_policy_if_cacheable (Some sreq) res received, res with
  | Ok (Some _), Some res => Spooling sreq res received [] Spool_new
  | _, _ => Finished
  end.

(** The data of the frames. *)
Definition frames_data (frames : list BodyFrame) : str :=
  concat (map (fun f => match f with Ok (Data d) => d | _ => [] end) frames).

(** ** Interleavings *)

Context (max_each_size max_each_size_on_memory : Z) (dir : str).

(** What a read of an open file may yield: the next of its contents, nothing only at the
    end, or an error. *)
Definition can_read (rest : str) (r : result () str) : bool :=
  match r with
  | Ok [] => bool_decide (rest = [])
  | Ok bytes => starts_with bytes rest
  | Err _ => true
  end.

(** One step of a task on an event: the state and the task afterwards, and a response
    that was served or stored by the step. *)
Inductive task_step : Task -> Event -> CacheState -> CacheState -> Task -> list Served -> list StoredResponse -> Prop :=
| step_get sreq now s s' t sv :
    get_step sreq now s = (s', t, sv) ->
    task_step (Get sreq now) Continue s s' t (option_list sv) []
| step_open sreq now res obj path s s' t :
    open_step sreq now res obj path s = (s', t) ->
    task_step (Open sreq now res obj path) Continue s s' t [] []
| step_read sreq now res obj path sent rest r delivered s t sv :
    can_read rest r = true -> stream_step sreq now res obj path sent rest r delivered = (t, sv) ->
    task_step (Streaming sreq now res obj path sent rest) (Read r delivered) s s t (option_list sv) []
| step_remove_corrupt path s :
    task_step (RemoveCorrupt path) Continue s (snd (run_io (remove_uncounted_file path) s)) Finished [] []
| step_evict sreq obj s s' t :
    evict_entry_step sreq obj s = (s', t) -> task_step (EvictEntry sreq obj) Continue s s' t [] []
| step_decr path resume s :
    task_step (Decr path resume) Continue s (decr_count s) (Unlink path resume) [] []
| step_unlink path resume s :
    task_step (Unlink path resume) Continue s (snd (run_io (remove_file path) s)) (miss resume) [] []
| step_fetch sreq res received s :
    task_step (Fetch sreq) (Upstream res received) s s (fetch_step sreq res received) [] []
| step_frame sreq res received seen st frame s st' s' :
    run_io (spool_frame max_each_size max_each_size_on_memory dir (rq_uri sreq) st frame) s = (st', s') ->
    task_step (Spooling sreq res received seen st) (NextFrame frame true) s s'
      (Spooling sreq res received (seen ++ [frame]) st') [] []
| step_dropped sreq res received seen st frame s :
    task_step (Spooling sreq res received seen st) (NextFrame frame false) s (snd (run_io (abort_spill (spill st)) s)) Finished [] []
| step_stored sreq res received seen st s tgt h s' :
    run_io (spool_finish st) s = (Some (tgt, h), s') ->
    task_step (Spooling sreq res received seen st) EndOfBody s s' (Committed sreq res received tgt h)
      [] [{| st_req := sreq; st_res := res; st_received := received; st_frames := seen |}]
| step_not_stored sreq res received seen st s s' :
    run_io (spool_finish st) s = (None, s') ->
    task_step (Spooling sreq res received seen st) EndOfBody s s' Finished [] []
| step_object sreq res received tgt h s obj s' :
    CacheObject_new (policy_new sreq res received) tgt h s = (obj, s') ->
    task_step (Committed sreq res received tgt h) Continue s s' (Publish (cache_key sreq) obj false) [] []
| step_publish key obj counted s s' t :
    publish_step key obj counted s = (s', t) ->
    task_step (Publish key obj counted) Continue s s' t [] [].

Record System := {
  shared : CacheState;
  tasks : list Task;
  served : list Served;
  stored : list StoredResponse
}.

(** [external]: whether something else may change the files of the cache. *)
Inductive step (external : bool) : System -> System -> Prop :=
| step_request y req uri now :
    cache_effective_uri req = Some uri ->
    step external y {| shared := shared y; tasks := tasks y ++ [Get (build_synth_req_for_cache req uri) now];
                       served := served y; stored := stored y |}
| step_task y i t e s' t' sv st :
    tasks y !! i = Some t -> task_step t e (shared y) s' t' sv st ->
    step external y {| shared := s'; tasks := <[i := t']> (tasks y); served := served y ++ sv; stored := stored y ++ st |}
| step_poison y :
    step external y {| shared := {| inner := inner (shared y); poisoned := true; lru_cnt := lru_cnt (shared y);
                                    file_cnt := file_cnt (shared y); disk := disk (shared y);
                                    CACHE_OBJECT_GEN := CACHE_OBJECT_GEN (shared y) |};
                       tasks := tasks y; served := served y; stored := stored y |}
| step_external y fs :
    external = true ->
    step external y {| shared := with_disk (shared y) {| files := fs; outcomes := outcomes (disk (shared y));
                                                         CACHE_FILE_SEQ := CACHE_FILE_SEQ (disk (shared y)) |};
                       tasks := tasks y; served := served y; stored := stored y |}.
End cache.

Arguments Finished {_ _}.
