(* ===== verification/CacheSpool.v ===== *)
(** * Storing a response body

    The effect of the disk operations, file names, and the loop that forwards a body
    while storing it. *)

From S2P Require Import Prelude RustStr RustNet HttpIface ForwardedSyntax HeaderCommon Globals.
From S2P Require Import StickyCookie CryptoInstance RequestOps Body Cache.

(** ** Disk operations *)

(** Only files of [ps] are touched, and no operation fails where none was going to. *)
Definition touches (ps : list str) (d d' : Disk) : Prop :=
  (forall q, q ∉ ps -> files d' !! q = files d !! q) /\ (outcomes d = [] -> outcomes d' = []).

Lemma touches_refl ps d : touches ps d d.
Proof. done. Qed.

Lemma touches_trans ps d1 d2 d3 : touches ps d1 d2 -> touches ps d2 d3 -> touches ps d1 d3.
Proof. intros [H1 H1'] [H2 H2']. split; [|auto]. intros q Hq. by rewrite H2, H1. Qed.

Lemma touches_mono ps ps' d d' : ps ⊆ ps' -> touches ps d d' -> touches ps' d d'.
Proof. intros Hs [H1 H2]. split; [|done]. intros q Hq. apply H1. set_solver. Qed.

(** Runs the outcome of a call. *)
Ltac run_outcome d :=
  unfold mbind, IO_bind, mret, IO_ret, next_outcome, stat, modify_files;
  destruct (outcomes d) as [|[|?] ?] eqn:?; cbn.

Lemma remove_file_spec p d :
  let '(r, d') := remove_file p d in
  touches [p] d d' /\ CACHE_FILE_SEQ d' = CACHE_FILE_SEQ d /\
  (files d' !! p = None \/ files d' = files d) /\ (outcomes d = [] -> files d' !! p = None).
Proof.
  unfold remove_file, touches. run_outcome d; destruct (files d !! p) eqn:E; cbn;
    repeat split; intros; try done; rewrite ?lookup_delete_eq, ?lookup_delete_ne by set_solver; auto.
Qed.

Lemma remove_uncounted_spec p d :
  let '(_, d') := remove_uncounted_file p d in
  touches [p] d d' /\ CACHE_FILE_SEQ d' = CACHE_FILE_SEQ d /\
  (files d' !! p = None \/ files d' = files d) /\ (outcomes d = [] -> files d' !! p = None).
Proof.
  unfold remove_uncounted_file, mbind, IO_bind. pose proof (remove_file_spec p d) as Hr.
  destruct (remove_file p d). done.
Qed.

Lemma write_all_spec p data d :
  let '(ok, d') := write_all p data d in
  touches [p] d d' /\ CACHE_FILE_SEQ d' = CACHE_FILE_SEQ d /\
  (ok = true -> files d' !! p = (fun s => s ++ data) <$> files d !! p) /\
  (outcomes d = [] -> ok = true).
Proof.
  unfold write_all, touches. run_outcome d; destruct (files d !! p) eqn:E; cbn;
    repeat split; intros; try done; rewrite ?E, ?lookup_insert_eq, ?lookup_insert_ne by set_solver; auto.
Qed.

Lemma create_new_spec p d :
  let '(ok, d') := create_new p d in
  touches [p] d d' /\ CACHE_FILE_SEQ d' = CACHE_FILE_SEQ d /\
  (if ok : bool then files d !! p = None /\ files d' !! p = Some [] else files d' = files d) /\
  (outcomes d = [] -> files d !! p = None -> ok = true).
Proof.
  unfold create_new, touches. run_outcome d; destruct (files d !! p) eqn:E; cbn;
    repeat split; intros; try done; rewrite ?lookup_insert_eq, ?lookup_insert_ne by set_solver; auto.
Qed.

Lemma rename_spec a b d :
  a <> b ->
  let '(ok, d') := rename a b d in
  touches [a; b] d d' /\ CACHE_FILE_SEQ d' = CACHE_FILE_SEQ d /\
  (if ok : bool then is_Some (files d !! a) /\ files d' !! b = files d !! a /\ files d' !! a = None
   else files d' = files d) /\
  (outcomes d = [] -> is_Some (files d !! a) -> ok = true).
Proof.
  intros Hab. unfold rename, touches. run_outcome d; destruct (files d !! a) eqn:E; cbn;
    repeat split; intros; try done;
    rewrite ?lookup_insert_eq, ?lookup_insert_ne, ?lookup_delete_eq, ?lookup_delete_ne by set_solver;
    eauto; by destruct H0.
Qed.

Lemma flush_spec d :
  let '(ok, d') := flush d in
  touches [] d d' /\ CACHE_FILE_SEQ d' = CACHE_FILE_SEQ d /\ files d' = files d /\ (outcomes d = [] -> ok = true).
Proof. unfold flush, touches. run_outcome d; repeat split; intros; done. Qed.

Lemma open_read_spec p d :
  let '(c, d') := open_read p d in
  touches [] d d' /\ CACHE_FILE_SEQ d' = CACHE_FILE_SEQ d /\ files d' = files d /\
  (c = None \/ c = files d !! p).
Proof. unfold open_read, touches. run_outcome d; repeat split; intros; auto; done. Qed.

(** ** File names *)

Section names.
Context `{HttpApi} `{CryptoApi} (pid : Z) (nanos : Z -> Z).

Lemma show_dec_no_hyphen n : 0 <= n -> HYPHEN ∉ show_dec n.
Proof. intros Hn Hin. by apply show_dec_digit in Hin. Qed.

Lemma final_path_inj dir uri uri' s s' :
  0 <= s -> 0 <= s' -> snd (cache_paths pid nanos dir uri s) = snd (cache_paths pid nanos dir uri' s') -> s = s'.
Proof.
  intros Hs Hs' E%path_join_inj. rewrite !app_comm_cons, !app_assoc in E.
  apply app_sep_inj_r in E as [_ E]; [|by apply show_dec_no_hyphen..]. by apply show_dec_inj in E.
Qed.

Lemma temp_path_inj dir uri uri' s s' :
  0 <= s -> 0 <= s' -> fst (cache_paths pid nanos dir uri s) = fst (cache_paths pid nanos dir uri' s') -> s = s'.
Proof.
  intros Hs Hs' E%path_join_inj%app_inv_tail.
  apply (final_path_inj [] uri uri'); [done|done|]. exact E.
Qed.

(** A temporary name is never a final one. *)
Lemma temp_not_final dir uri uri' s s' :
  0 <= s' -> fst (cache_paths pid nanos dir uri s) <> snd (cache_paths pid nanos dir uri' s').
Proof.
  intros Hs E%path_join_inj. destruct (show_radix_head 10 ltac:(lia) s' Hs) as (b0 & r & Eb & _).
  assert (show_dec s' <> []) as Hne by (unfold show_dec; by rewrite Eb).
  destruct (exists_last Hne) as (l & b & El).
  assert (is_ascii_digit b = true) as Hb by (apply (show_dec_digit s'); [done|rewrite El; set_solver]).
  change (B ".tmp") with (B ".tm" ++ [112]) in E. rewrite El, !app_comm_cons, !app_assoc in E.
  apply app_inj_tail in E as [_ <-]. done.
Qed.
End names.

(** ** One frame *)

Lemma frames_data_snoc seen f :
  frames_data (seen ++ [f]) = frames_data seen ++ match f with Ok (Data d) => d | _ => [] end.
Proof. unfold frames_data. rewrite map_app, concat_app. cbn [map concat]. by rewrite app_nil_r. Qed.

(** The temporary file of the loop. *)
Definition temp_of (sp : option SpillFile) : list str := match sp with Some s => [temp_path s] | None => [] end.

(** Under no failure no file is left behind: what is on the disk afterwards is the
    temporary file of the loop, or was there and was not. *)
Definition no_leak (sp sp' : option SpillFile) (d d' : Disk) : Prop :=
  outcomes d = [] -> forall q, is_Some (files d' !! q) ->
    q ∈ temp_of sp' \/ (q ∉ temp_of sp /\ is_Some (files d !! q)).

Lemma no_leak_touched sp sp' d d' ps :
  touches ps d d' ->
  (outcomes d = [] -> forall q, q ∈ ps -> is_Some (files d' !! q) ->
     q ∈ temp_of sp' \/ (q ∉ temp_of sp /\ is_Some (files d !! q))) ->
  (forall q, q ∈ temp_of sp -> q ∉ temp_of sp' -> q ∈ ps) -> no_leak sp sp' d d'.
Proof.
  intros [Ht _] Hps Hsub Ho q Hq. destruct (decide (q ∈ ps)) as [Hin|Hin]; [by apply Hps|].
  rewrite Ht in Hq by done. destruct (decide (q ∈ temp_of sp')); [by left|right]. split; [|done].
  intros Hsp. by apply Hin, Hsub.
Qed.

Lemma abort_spill_spec sp d :
  let '(_, d') := abort_spill sp d in
  touches (temp_of sp) d d' /\ CACHE_FILE_SEQ d' = CACHE_FILE_SEQ d /\ no_leak sp None d d'.
Proof.
  destruct sp as [s|]; cbn [abort_spill temp_of].
  - unfold SpillFile_abort. pose proof (remove_uncounted_spec (temp_path s) d) as Hr.
    destruct (remove_uncounted_file _ d) as [[] d']. destruct Hr as (Ht & Hs & _ & Hgone).
    split_and!; [done|done|]. eapply no_leak_touched; [done| |set_solver].
    intros Ho q ->%list_elem_of_singleton. rewrite Hgone by done. by intros [? ?].
  - split_and!; [done|done|]. intros Ho q Hq. right. by split; [apply not_elem_of_nil|].
Qed.

Section spool.
Context `{HttpApi} `{CryptoApi} (pid : Z) (nanos : Z -> Z) (max_each_size max_each_size_on_memory : Z) (dir : str).

Definition names (uri : Uri) (seq : Z) : SpillFile :=
  {| temp_path := fst (cache_paths pid nanos dir uri seq); final_path := snd (cache_paths pid nanos dir uri seq) |}.

(** What the variables say about the frames so far. *)
Definition spool_ok (seen : list BodyFrame) (st : Spool) : Prop :=
  if cacheable st then
    Forall (fun f => is_ok f = true) seen /\ hashed st = frames_data seen /\
    size st = chunk_len (frames_data seen) /\ size st <= max_each_size /\
    match spill st with
    | None => buf st = frames_data seen /\ chunk_len (buf st) <= max_each_size_on_memory
    | Some _ => buf st = []
    end
  else spill st = None.

Definition spill_holds (st : Spool) (data : str) (d : Disk) : Prop :=
  match spill st with Some s => files d !! temp_path s = Some data | None => True end.

(** How a turn of the loop changes the spill file and the disk. *)
Definition spill_moves (uri : Uri) (st st' : Spool) (d d' : Disk) : Prop :=
  (CACHE_FILE_SEQ d' = CACHE_FILE_SEQ d /\ touches (temp_of (spill st)) d d' /\
     (spill st' = None /\ cacheable st' = false \/ spill st' = spill st)) \/
  (spill st = None /\ CACHE_FILE_SEQ d' = (CACHE_FILE_SEQ d + 1) mod 2 ^ 64 /\
     touches [temp_path (names uri (CACHE_FILE_SEQ d))] d d' /\
     (spill st' = None /\ cacheable st' = false \/ spill st' = Some (names uri (CACHE_FILE_SEQ d)))).

Lemma spool_ok_give_up seen st : spool_ok seen (stop_caching st).
Proof. done. Qed.

Lemma SpillFile_write_spec s data d :
  let '(r, d') := SpillFile_write s data d in
  touches [temp_path s] d d' /\ CACHE_FILE_SEQ d' = CACHE_FILE_SEQ d /\
  (r = Ok () -> files d' !! temp_path s = (fun c => c ++ data) <$> files d !! temp_path s) /\
  (outcomes d = [] -> r = Ok ()).
Proof.
  unfold SpillFile_write, mbind, IO_bind, mret, IO_ret. pose proof (write_all_spec (temp_path s) data d) as Hw.
  destruct (write_all _ _ d) as [[] d']; destruct Hw as (Ht & Hs & Hf & Ho); split_and!; auto; try done.
  intros E. by specialize (Ho E).
Qed.

Lemma SpillFile_create_spec uri d :
  let '(r, d') := SpillFile_create pid nanos dir uri d in
  touches [temp_path (names uri (CACHE_FILE_SEQ d))] d d' /\
  CACHE_FILE_SEQ d' = (CACHE_FILE_SEQ d + 1) mod 2 ^ 64 /\
  match r with
  | Ok s => s = names uri (CACHE_FILE_SEQ d) /\ files d !! temp_path s = None /\ files d' !! temp_path s = Some []
  | Err _ => files d' = files d
  end /\
  (outcomes d = [] -> files d !! temp_path (names uri (CACHE_FILE_SEQ d)) = None -> is_ok r = true).
Proof.
  unfold SpillFile_create, unique_cache_paths, mbind, IO_bind, mret, IO_ret.
  destruct (cache_paths pid nanos dir uri (CACHE_FILE_SEQ d)) as [temp final] eqn:E.
  set (d0 := {| files := files d; outcomes := outcomes d; CACHE_FILE_SEQ := _ |}).
  pose proof (create_new_spec temp d0) as Hc. cbn [temp_path names].
  unfold names. rewrite E. cbn [fst snd temp_path].
  destruct (create_new temp d0) as [[] d']; destruct Hc as (Ht & Hs & Hf & Ho); cbn [temp_path];
    split_and!; try done; by apply Hf.
Qed.

Hypothesis Hmem : 0 <= max_each_size_on_memory <= max_each_size.
Hypothesis Hmax : max_each_size < usize_max.

(** The data fits: the saturating sums are exact. *)
Lemma fits_exact n data :
  0 <= n -> (max_each_size <? saturating_add usize_max n (chunk_len data)) = false ->
  saturating_add usize_max n (chunk_len data) = n + chunk_len data /\ n + chunk_len data <= max_each_size.
Proof. pose proof (chunk_len_nonneg data). unfold saturating_add. lia. Qed.

(** What a turn of the loop guarantees. *)
Definition frame_post (uri : Uri) (seen : list BodyFrame) (frame : BodyFrame) (st : Spool) (d : Disk)
    (r : Spool * Disk) : Prop :=
  spool_ok (seen ++ [frame]) (fst r) /\
  (spill_holds st (frames_data seen) d -> spill_holds (fst r) (frames_data (seen ++ [frame])) (snd r)) /\
  spill_moves uri st (fst r) d (snd r) /\ no_leak (spill st) (spill (fst r)) d (snd r).

Lemma frame_post_stay uri seen frame st st' d :
  spill st' = spill st -> spool_ok (seen ++ [frame]) st' ->
  (spill st <> None -> frames_data (seen ++ [frame]) = frames_data seen) ->
  frame_post uri seen frame st d (st', d).
Proof.
  intros E Hok Hd. unfold frame_post, spill_holds. cbn [fst snd]. rewrite E. split_and!; [done| | |].
  - destruct (spill st); [|done]. by rewrite Hd.
  - left. by split_and!; [|apply touches_refl|right].
  - intros Ho q Hq. destruct (decide (q ∈ temp_of (spill st))); [by left|by right].
Qed.

Lemma frame_post_abort uri seen frame st d :
  frame_post uri seen frame st d ((_ ← abort_spill (spill st); mret (stop_caching st)) d).
Proof.
  unfold mbind, IO_bind, mret, IO_ret. pose proof (abort_spill_spec (spill st) d) as Ha.
  destruct (abort_spill (spill st) d) as [[] d']. destruct Ha as (Ht & Hs & Hl).
  split_and!; try done. left. split_and!; [done|done|by left].
Qed.

(** Writing to the temporary file. *)
Lemma frame_post_write uri seen data st st1 s d :
  spill st = Some s -> spool_ok (seen ++ [Ok (Data data)]) st1 -> spill st1 = Some s ->
  frame_post uri seen (Ok (Data data)) st d
    ((w ← SpillFile_write s data;
      match w with Ok _ => mret st1 | Err _ => _ ← SpillFile_abort s; mret (stop_caching st1) end) d).
Proof.
  intros Es Hok Es1. unfold mbind, IO_bind, mret, IO_ret.
  pose proof (SpillFile_write_spec s data d) as Hw.
  destruct (SpillFile_write s data d) as [[[]|e] d1]; destruct Hw as (Ht & Hs & Hf & Ho).
  - split_and!; cbn [fst snd]; [done| | |].
    + unfold spill_holds. rewrite Es, Es1, frames_data_snoc, Hf by done. by intros ->.
    + left. rewrite Es. split_and!; [done|done|by right].
    + eapply no_leak_touched; [done| |rewrite Es; set_solver]. rewrite Es1. cbn. by left.
  - pose proof (abort_spill_spec (Some s) d1) as Ha. cbn [abort_spill temp_of] in Ha.
    destruct (SpillFile_abort s d1) as [[] d2]. destruct Ha as (Ht' & Hs' & Hl).
    split_and!; cbn [fst snd]; [done|done| |].
    + left. rewrite Es. split_and!; [congruence|by eapply touches_trans|by left].
    + intros E. by specialize (Ho E).
Qed.

(** Moving to a temporary file. *)
Lemma frame_post_create uri seen data st st1 d :
  spill st = None -> buf st1 = frames_data seen ->
  (forall s, spool_ok (seen ++ [Ok (Data data)])
     {| hashed := hashed st1; buf := []; size := size st1; cacheable := true; spill := Some s |}) ->
  frame_post uri seen (Ok (Data data)) st d
    ((created ← SpillFile_create pid nanos dir uri;
      match created with
      | Err _ => mret (stop_caching st1)
      | Ok s =>
          w1 ← SpillFile_write s (buf st1);
          w2 ← match w1 with Ok _ => SpillFile_write s data | Err e => mret (Err e) end;
          match w2 with
          | Err _ => _ ← SpillFile_abort s; mret (stop_caching st1)
          | Ok _ => mret {| hashed := hashed st1; buf := []; size := size st1; cacheable := true; spill := Some s |}
          end
      end) d).
Proof.
  intros Es Eb Hok. unfold mbind, IO_bind, mret, IO_ret.
  pose proof (SpillFile_create_spec uri d) as Hc.
  destruct (SpillFile_create pid nanos dir uri d) as [[s|e] d1]; destruct Hc as (Ht & Hs & Hf & _).
  2: { split_and!; cbn [fst snd]; [done|done| |].
       - right. split_and!; [done|done|done|by left].
       - rewrite Es. intros _ q Hq. right. rewrite Hf in Hq. split; [apply not_elem_of_nil|done]. }
  destruct Hf as (-> & Hfree & Hempty). set (s := names uri (CACHE_FILE_SEQ d)) in *.
  pose proof (SpillFile_write_spec s (buf st1) d1) as Hw1.
  destruct (SpillFile_write s (buf st1) d1) as [r1 d2]. destruct Hw1 as (Ht1 & Hs1 & Hf1 & Ho1).
  set (m2 := match r1 with Ok _ => SpillFile_write s data | Err e => fun d => (Err e, d) end).
  assert (let '(r2, d3) := m2 d2 in touches [temp_path s] d2 d3 /\ CACHE_FILE_SEQ d3 = CACHE_FILE_SEQ d2 /\
    (r2 = Ok () -> r1 = Ok () /\ files d3 !! temp_path s = (fun c => c ++ data) <$> files d2 !! temp_path s) /\
    (outcomes d2 = [] -> r1 = Ok () -> r2 = Ok ())) as Hw2.
  { unfold m2. destruct r1 as [[]|e]; [|split_and!; done].
    pose proof (SpillFile_write_spec s data d2) as Hw. destruct (SpillFile_write s data d2) as [r2 d3].
    destruct Hw as (? & ? & ? & ?). split_and!; auto. }
  fold m2. destruct (m2 d2) as [[[]|e] d3]; destruct Hw2 as (Ht2 & Hs2 & Hf2 & Ho2).
  - destruct (Hf2 eq_refl) as [-> Hd3]. split_and!; cbn [fst snd]; [done| | |].
    + intros _. unfold spill_holds; cbn [spill]. rewrite Hd3, Hf1, Hempty, frames_data_snoc, Eb by done. done.
    + right. split_and!; [done|congruence|eauto using touches_trans|by right].
    + rewrite Es. eapply no_leak_touched; [eauto using touches_trans| |set_solver]. by left.
  - pose proof (abort_spill_spec (Some s) d3) as Ha. cbn [abort_spill temp_of] in Ha.
    destruct (SpillFile_abort s d3) as [[] d4]. destruct Ha as (Ht4 & Hs4 & Hl).
    split_and!; cbn [fst snd]; [done|done| |].
    + right. split_and!; [done|congruence|eauto 6 using touches_trans|by left].
    + intros E. exfalso. pose proof (proj2 Ht E) as E1. specialize (Ho1 E1).
      by specialize (Ho2 (proj2 Ht1 E1) Ho1).
Qed.

Lemma spool_frame_spec uri seen st frame d :
  spool_ok seen st ->
  frame_post uri seen frame st d
    (spool_frame pid nanos max_each_size max_each_size_on_memory dir uri st frame d).
Proof.
  intros Hok. unfold spool_frame. destruct (cacheable st) eqn:Ec; cbn [negb].
  2: { apply frame_post_stay; [done| |]; unfold spool_ok in *; rewrite Ec in *; [done|by rewrite Hok]. }
  unfold spool_ok in Hok. rewrite Ec in Hok. destruct Hok as (Hall & Hh & Hsz & Hle & Hbuf).
  destruct frame as [[data|tr]|e]; [| |apply frame_post_abort].
  2: { apply frame_post_stay; [done| |]; [|intros; by rewrite frames_data_snoc, app_nil_r].
       unfold spool_ok. rewrite Ec, frames_data_snoc, app_nil_r. split_and!; try done.
       by apply Forall_app; split; [|apply Forall_singleton]. }
  destruct (max_each_size <? _) eqn:Em; [apply frame_post_abort|].
  pose proof (chunk_len_nonneg (frames_data seen)) as Hpos.
  apply fits_exact in Em as [Esum Hsum]; [|lia]. rewrite Esum.
  assert (Forall (fun f => is_ok f = true) (seen ++ [Ok (Data data)])) as Hall'
    by (by apply Forall_app; split; [|apply Forall_singleton]).
  assert (size st + chunk_len data = chunk_len (frames_data (seen ++ [Ok (Data data)]))) as Hsz'
    by (rewrite frames_data_snoc, chunk_len_app; lia).
  cbn [spill buf hashed size]. destruct (spill st) as [s|] eqn:Es.
  - apply frame_post_write; [done| |done]. unfold spool_ok; cbn. rewrite frames_data_snoc in *.
    split_and!; try done; congruence.
  - destruct Hbuf as [Hb Hbl]. destruct (max_each_size_on_memory <? _) eqn:Emm.
    + apply (frame_post_create uri seen data st
        {| hashed := hashed st ++ data; buf := buf st; size := size st + chunk_len data; cacheable := true; spill := None |});
        [done|done|]. intros s. unfold spool_ok; cbn. rewrite frames_data_snoc in *. split_and!; try done; congruence.
    + apply frame_post_stay; [done| |by rewrite Es]. unfold spool_ok; cbn.
      rewrite frames_data_snoc in *. split_and!; try done; [congruence|congruence|].
      rewrite chunk_len_app. pose proof (chunk_len_nonneg (buf st)). pose proof (chunk_len_nonneg data).
      unfold saturating_add in Emm. lia.
Qed.

(** After the loop: the object that is stored is the whole body. *)
Lemma spool_finish_spec seen st d :
  spool_ok seen st ->
  (forall s, spill st = Some s -> temp_path s <> final_path s) ->
  let '(r, d') := spool_finish st d in
  CACHE_FILE_SEQ d' = CACHE_FILE_SEQ d /\
  match r with
  | Some (t, h) =>
      Forall (fun f => is_ok f = true) seen /\ h = sha256 (frames_data seen) /\
      chunk_len (frames_data seen) <= max_each_size /\
      match t with
      | OnMemory b =>
          spill st = None /\ b = frames_data seen /\ chunk_len b <= max_each_size_on_memory /\ d' = d
      | File p =>
          exists s, spill st = Some s /\ p = final_path s /\ touches [temp_path s; final_path s] d d' /\
            files d' !! temp_path s = None /\
            (spill_holds st (frames_data seen) d -> files d' !! p = Some (frames_data seen))
      end
  | None => touches (temp_of (spill st)) d d' /\ no_leak (spill st) None d d'
  end /\
  (outcomes d = [] -> cacheable st = true -> spill_holds st (frames_data seen) d -> is_Some r).
Proof.
  unfold spool_finish, spool_ok. destruct (cacheable st); cbn [negb].
  2: { intros Es _. rewrite Es. split_and!; try done. intros _ q Hq. right. split; [apply not_elem_of_nil|done]. }
  intros (Hall & Hh & Hsz & Hle & Hbuf) Hne.
  destruct (spill st) as [s|] eqn:Es; [|destruct Hbuf as [Hb Hbl]; split_and!; try done; congruence].
  unfold SpillFile_commit, mbind, IO_bind, mret, IO_ret.
  pose proof (flush_spec d) as Hf. destruct (flush d) as [[] d1]; destruct Hf as (Ht & Hs & Hfiles & Ho); cbn [negb].
  - pose proof (rename_spec (temp_path s) (final_path s) d1 (Hne s eq_refl)) as Hr.
    destruct (rename _ _ d1) as [[] d2]; destruct Hr as (Ht2 & Hs2 & Hr & Ho2); cbn [negb].
    + destruct Hr as (Hsome & Hnew & Hgone). split; [congruence|]. split; [|done].
      split_and!; [done|congruence|congruence|]. exists s. split_and!; try done.
      * eapply touches_trans; [|done]. eapply touches_mono; [|done]. set_solver.
      * unfold spill_holds. rewrite Es, <- Hfiles. congruence.
    + pose proof (abort_spill_spec (Some s) d2) as Ha. cbn [abort_spill temp_of] in Ha. unfold SpillFile_abort in Ha.
      destruct (remove_uncounted_file _ d2) as [[] d3]. destruct Ha as (Ht3 & Hs3 & Hl).
      assert (touches [] d d2) as Ht02.
      { split; [intros q _; by rewrite Hr, Hfiles|]. intros E. by apply Ht2, Ht. }
      split; [congruence|]. split_and!.
      * eapply touches_trans; [|done]. eapply touches_mono; [|done]. set_solver.
      * intros E q Hq. destruct (Hl (proj2 Ht02 E) q Hq) as [|[? Hq2]]; [by left|right].
        split; [done|]. by rewrite Hr, Hfiles in Hq2.
      * unfold spill_holds. rewrite Es. intros E _ Hd. exfalso. rewrite <- Hfiles in Hd.
        by specialize (Ho2 (proj2 Ht E) (ex_intro _ _ Hd)).
  - pose proof (abort_spill_spec (Some s) d1) as Ha. cbn [abort_spill temp_of] in Ha. unfold SpillFile_abort in Ha.
    destruct (remove_uncounted_file _ d1) as [[] d2]. destruct Ha as (Ht3 & Hs3 & Hl).
    split; [congruence|]. split_and!.
    + eapply touches_trans; [|done]. eapply touches_mono; [|done]. set_solver.
    + intros E q Hq. destruct (Hl (proj2 Ht E) q Hq) as [|[? Hq2]]; [by left|right]. by rewrite Hfiles in Hq2.
    + intros E. by specialize (Ho E).
Qed.

(** Without failures a body that fits stays cacheable. *)
Lemma spool_frame_cacheable uri seen st f d :
  outcomes d = [] -> spool_ok seen st -> cacheable st = true ->
  chunk_len (frames_data (seen ++ [Ok f])) <= max_each_size ->
  (spill st = None -> files d !! temp_path (names uri (CACHE_FILE_SEQ d)) = None) ->
  cacheable (fst (spool_frame pid nanos max_each_size max_each_size_on_memory dir uri st (Ok f) d)) = true.
Proof.
  intros Ho Hok Ec Hfit Hfree. unfold spool_frame. rewrite Ec. cbn [negb].
  unfold spool_ok in Hok. rewrite Ec in Hok. destruct Hok as (Hall & Hh & Hsz & Hle & Hbuf).
  destruct f as [data|tr]; [|done]. rewrite frames_data_snoc, chunk_len_app in Hfit.
  assert (max_each_size <? saturating_add usize_max (size st) (chunk_len data) = false) as ->
    by (unfold saturating_add; lia).
  cbn [spill buf hashed size]. unfold mbind, IO_bind, mret, IO_ret. destruct (spill st) as [s|] eqn:Es.
  - pose proof (SpillFile_write_spec s data d) as Hw. destruct (SpillFile_write s data d) as [r d1].
    destruct Hw as (_ & _ & _ & Hw). by rewrite (Hw Ho).
  - destruct (max_each_size_on_memory <? _); [|done].
    pose proof (SpillFile_create_spec uri d) as Hc. destruct (SpillFile_create pid nanos dir uri d) as [[s|e] d1];
      destruct Hc as (Ht & _ & _ & Hc); [|by specialize (Hc Ho (Hfree eq_refl))].
    pose proof (SpillFile_write_spec s (buf st) d1) as Hw. destruct (SpillFile_write s (buf st) d1) as [r d2].
    destruct Hw as (Ht1 & _ & _ & Hw). rewrite (Hw (proj2 Ht Ho)).
    pose proof (SpillFile_write_spec s data d2) as Hw2. destruct (SpillFile_write s data d2) as [r2 d3].
    destruct Hw2 as (_ & _ & _ & Hw2). by rewrite (Hw2 (proj2 Ht1 (proj2 Ht Ho))).
Qed.

(** The frames that reach the client: up to the first that cannot be sent. *)
Fixpoint delivered (body : list (BodyFrame * bool)) : list BodyFrame :=
  match body with
  | (f, true) :: r => f :: delivered r
  | _ => []
  end.

Lemma delivered_all body : forallb snd body = true -> delivered body = map fst body.
Proof.
  induction body as [|[f []] r IH]; cbn; [done| |done]. intros Hr. by rewrite IH.
Qed.

(** What storing a body leaves behind, and what was sent. *)
Definition loop_post (uri : Uri) (sp : option SpillFile) (seen : list BodyFrame)
    (body : list (BodyFrame * bool)) (d : Disk)
    (r : list BodyFrame * option (CacheFileOrOnMemory * str) * Disk) : Prop :=
  let '(forwarded, stored, d') := r in
  let data := frames_data (seen ++ map fst body) in
  forwarded = delivered body /\
  match stored with
  | Some (t, h) =>
      forallb snd body = true /\ Forall (fun f => is_ok f = true) (seen ++ map fst body) /\
      h = sha256 data /\ chunk_len data <= max_each_size /\
      match t with
      | OnMemory b =>
          b = data /\ chunk_len b <= max_each_size_on_memory /\ sp = None /\ forall q, files d' !! q = files d !! q
      | File p => files d' !! p = Some data
      end
  | None => no_leak sp None d d'
  end.

Lemma no_leak_trans sp1 sp2 sp3 d1 d2 d3 :
  (outcomes d1 = [] -> outcomes d2 = []) ->
  no_leak sp1 sp2 d1 d2 -> no_leak sp2 sp3 d2 d3 -> no_leak sp1 sp3 d1 d3.
Proof.
  intros Ho H1 H2 E q Hq. destruct (H2 (Ho E) q Hq) as [|[Hn Hq2]]; [by left|right].
  destruct (H1 E q Hq2) as [Hin|Hr]; [by destruct Hn|done].
Qed.

Lemma spill_moves_outcomes uri st st' d d' : spill_moves uri st st' d d' -> outcomes d = [] -> outcomes d' = [].
Proof. by intros [(_ & Ht & _)|(_ & _ & Ht & _)]; apply Ht. Qed.

(** Once given up, nothing is stored. *)
Lemma spool_loop_given_up uri body st d :
  cacheable st = false ->
  snd (fst (spool_loop pid nanos max_each_size max_each_size_on_memory dir uri body st d)) = None.
Proof.
  revert d. induction body as [|[frame []] body IH]; intros d Ec; cbn [spool_loop negb].
  - unfold spool_finish. by rewrite Ec.
  - unfold mbind, IO_bind, mret, IO_ret, spool_frame. rewrite Ec. cbn [negb mret IO_ret].
    unfold mret, IO_ret. specialize (IH d Ec). by destruct (spool_loop _ _ _ _ _ _ _ _ _) as [[? ?] ?].
  - unfold mbind, IO_bind. by destruct (abort_spill _ _).
Qed.

Lemma spool_loop_spec uri body seen st d :
  spool_ok seen st -> spill_holds st (frames_data seen) d -> 0 <= CACHE_FILE_SEQ d ->
  (forall s, spill st = Some s -> temp_path s <> final_path s) ->
  loop_post uri (spill st) seen body d
    (spool_loop pid nanos max_each_size max_each_size_on_memory dir uri body st d).
Proof.
  revert seen st d. induction body as [|[frame sent] body IH]; intros seen st d Hok Hd Hseq Hne; cbn [spool_loop].
  - unfold mbind, IO_bind, mret, IO_ret. pose proof (spool_finish_spec seen st d Hok Hne) as Hf.
    destruct (spool_finish st d) as [r d']. destruct Hf as (_ & Hr & _). unfold loop_post. cbn [map delivered].
    rewrite app_nil_r. split; [done|]. destruct r as [[t h]|]; [|apply Hr].
    destruct Hr as (Hall & Hh & Hle & Ht). split_and!; [done..|].
    destruct t as [p|b]; [destruct Ht as (s & _ & _ & _ & _ & Hp); by apply Hp|].
    destruct Ht as (Es & -> & Hb & ->). by split_and!.
  - destruct sent; cbn [negb].
    + unfold mbind, IO_bind, mret, IO_ret. pose proof (spool_frame_spec uri seen st frame d Hok) as Hf.
      destruct (spool_frame _ _ _ _ _ _ _ _ _) as [st' d1]. destruct Hf as (Hok' & Hd' & Hmv & Hl). cbn [fst snd] in *.
      assert (0 <= CACHE_FILE_SEQ d1) as Hseq1.
      { destruct Hmv as [(-> & _)|(_ & -> & _)]; [done|]. by apply Z.mod_pos_bound. }
      assert (forall s, spill st' = Some s -> temp_path s <> final_path s) as Hne'.
      { intros s Es. destruct Hmv as [(_ & _ & [[E _]|E])|(_ & _ & _ & [[E _]|E])]; rewrite E in Es; try done;
          [by apply Hne|]. injection Es as <-. by apply temp_not_final. }
      specialize (IH _ _ _ Hok' (Hd' Hd) Hseq1 Hne').
      assert (cacheable st' = false -> snd (fst (spool_loop pid nanos max_each_size max_each_size_on_memory dir uri body st' d1)) <> None -> False)
        as Hstop by (intros Ec; by rewrite spool_loop_given_up).
      destruct (spool_loop _ _ _ _ _ _ _ _ d1) as [[forwarded stored] d2]. cbn [fst snd] in Hstop. unfold loop_post in *.
      rewrite <- app_assoc in IH. cbn [app map fst delivered forallb snd] in *. destruct IH as [-> Hst].
      split; [done|]. destruct stored as [[t h]|]; [|eapply no_leak_trans; [by eapply spill_moves_outcomes|done|done]].
      destruct Hst as (H1 & H2 & H3 & H4 & H5). split_and!; [done..|]. destruct t as [p|b]; [done|].
      destruct H5 as (H5 & H6 & H7 & H8).
      destruct Hmv as [(_ & [Ht _] & [[_ Ec]|E])|(_ & _ & _ & [[_ Ec]|E])]; [by destruct (Hstop Ec)| |by destruct (Hstop Ec)|congruence].
      rewrite <- E. split_and!; [done..|]. rewrite <- E, H7 in Ht. intros q. rewrite H8. apply Ht, not_elem_of_nil.
    + unfold mbind, IO_bind, mret, IO_ret. pose proof (abort_spill_spec (spill st) d) as Ha.
      destruct (abort_spill (spill st) d) as [[] d']. by destruct Ha as (_ & _ & Hl).
Qed.

Lemma frames_data_prefix l1 l2 : chunk_len (frames_data l1) <= chunk_len (frames_data (l1 ++ l2)).
Proof.
  unfold frames_data. rewrite map_app, concat_app, chunk_len_app.
  match goal with |- ?a <= ?b + chunk_len ?x => change a with b; pose proof (chunk_len_nonneg x); lia end.
Qed.

Lemma spool_loop_stores uri body seen st d :
  outcomes d = [] -> spool_ok seen st -> cacheable st = true -> spill_holds st (frames_data seen) d ->
  0 <= CACHE_FILE_SEQ d -> (forall s, spill st = Some s -> temp_path s <> final_path s) ->
  (spill st = None -> files d !! temp_path (names uri (CACHE_FILE_SEQ d)) = None) ->
  forallb (fun f => is_ok (fst f) && snd f) body = true ->
  chunk_len (frames_data (seen ++ map fst body)) <= max_each_size ->
  is_Some (snd (fst (spool_loop pid nanos max_each_size max_each_size_on_memory dir uri body st d))).
Proof.
  revert seen st d. induction body as [|[frame sent] body IH]; intros seen st d Ho Hok Ec Hd Hseq Hne Hfree Hall Hfit;
    cbn [spool_loop].
  - unfold mbind, IO_bind, mret, IO_ret. pose proof (spool_finish_spec seen st d Hok Hne) as Hf.
    destruct (spool_finish st d) as [r d']. destruct Hf as (_ & _ & Hs). by apply Hs.
  - cbn [forallb fst snd] in Hall. apply andb_prop in Hall as [[Hf ->]%andb_prop Hall]. cbn [negb].
    destruct frame as [f|]; [|done]. cbn [map fst] in Hfit.
    assert (seen ++ Ok f :: map fst body = (seen ++ [Ok f]) ++ map fst body) as Eapp by (by rewrite <- app_assoc).
    rewrite Eapp in Hfit. pose proof (frames_data_prefix (seen ++ [Ok f]) (map fst body)) as Hpre.
    pose proof (spool_frame_cacheable uri seen st f d Ho Hok Ec ltac:(lia) Hfree) as Ec'.
    pose proof (spool_frame_spec uri seen st (Ok f) d Hok) as Hp.
    unfold mbind, IO_bind, mret, IO_ret. destruct (spool_frame _ _ _ _ _ _ _ _ _) as [st' d1].
    destruct Hp as (Hok' & Hd' & Hmv & _). cbn [fst snd] in *.
    pose proof (spill_moves_outcomes _ _ _ _ _ Hmv Ho) as Ho1.
    assert (0 <= CACHE_FILE_SEQ d1) as Hseq1
      by (destruct Hmv as [(-> & _)|(_ & -> & _)]; [done|by apply Z.mod_pos_bound]).
    destruct (IH (seen ++ [Ok f]) st' d1) as [x Hx]; try done; [by apply Hd'| | |].
    + intros s Es. destruct Hmv as [(_ & _ & [[_ E]|E])|(_ & _ & _ & [[_ E]|E])]; [congruence| |congruence|].
      * apply Hne. congruence.
      * rewrite E in Es. injection Es as <-. by apply temp_not_final.
    + intros E1. destruct Hmv as [(-> & [Ht _] & [[_ E]|E])|(_ & _ & _ & [[_ E]|E])]; [congruence| |congruence|congruence].
      rewrite E1 in E. rewrite <- E in Ht. rewrite Ht by apply not_elem_of_nil. by apply Hfree.
    + destruct (spool_loop _ _ _ _ _ _ _ _ d1) as [[? ?] ?]. cbn in *. by exists x.
Qed.
End spool.

(** ** Theorem *)

Section spool_theorem.
Context `{HttpApi} `{CryptoApi}.

(** C31: a response is forwarded whole whatever happens to its copy: the client receives
    every frame, errors and trailers included, up to the point where it goes away; what
    is stored is the whole body of a response that ended without error, with its hash,
    within the limits, in memory or as the contents of its file; nothing is left on a
    disk that works when nothing is stored; and then every body that fits is stored. *)
Theorem response_relayed_and_stored pid nanos max mem dir uri body d :
  0 <= mem <= max -> max < usize_max -> 0 <= CACHE_FILE_SEQ d ->
  let '((forwarded, stored), d') := spool_and_store pid nanos max mem dir uri body d in
  let data := frames_data (map fst body) in
  forwarded = delivered body /\
  match stored with
  | Some (t, h) =>
      forwarded = map fst body /\ Forall (fun f => is_ok f = true) (map fst body) /\
      h = sha256 data /\ chunk_len data <= max /\
      match t with
      | OnMemory b => b = data /\ chunk_len b <= mem /\ (forall q, files d' !! q = files d !! q)
      | File p => files d' !! p = Some data
      end
  | None => outcomes d = [] -> forall q, is_Some (files d' !! q) -> is_Some (files d !! q)
  end /\
  (outcomes d = [] -> files d !! fst (cache_paths pid nanos dir uri (CACHE_FILE_SEQ d)) = None ->
   forallb (fun f => is_ok (fst f) && snd f) body = true -> chunk_len data <= max -> is_Some stored).
Proof.
  intros Hmem Hmax Hseq. unfold spool_and_store.
  assert (spool_ok max mem [] Spool_new) as Hok by (unfold spool_ok, chunk_len, frames_data; cbn; split_and!; try done; lia).
  pose proof (spool_loop_spec pid nanos max mem dir Hmem Hmax uri body [] Spool_new d Hok I Hseq ltac:(done)) as Hp.
  pose proof (spool_loop_stores pid nanos max mem dir Hmem Hmax uri body [] Spool_new d) as Hst.
  destruct (spool_loop _ _ _ _ _ _ _ _ d) as [[forwarded stored] d']. destruct Hp as [Hf Hp]. cbn [app] in *.
  split_and!; [done| |].
  - destruct stored as [[t h]|].
    + destruct Hp as (Hs & Hall & Hh & Hle & Ht). split_and!; [rewrite Hf; by apply delivered_all|done..|].
      destruct t; [done|]. by destruct Ht as (? & ? & _ & ?).
    + intros Ho q Hq. by destruct (Hp Ho q Hq) as [?%elem_of_nil|[_ ?]].
  - intros Ho Hfree Hall Hfit. by apply Hst.
Qed.
End spool_theorem.

(** ** Witness *)

Module SpoolExamples.

#[local] Existing Instance Alist.api.
#[local] Existing Instance toy_crypto.

Definition uri : Uri :=
  {| Alist.u_scheme := Some (B "https"); Alist.u_authority := Some (B "example.com");
     Alist.u_path := B "/a"; Alist.u_query := None |}.

Definition body : list (BodyFrame * bool) :=
  [(Ok (Data (B "hello")), true); (Ok (Data (B "world")), true); (Ok (Trailers []), true)].

Definition empty_disk : Disk := {| files := ∅; outcomes := []; CACHE_FILE_SEQ := 0 |}.

(** Five bytes stay in memory, ten go to a file. *)
Definition stored_10 : option (CacheFileOrOnMemory * str) :=
  snd (fst (spool_and_store 7 (fun _ => 0) 100 8 (B "./cache") uri body empty_disk)).

Lemma response_relayed_and_stored_witness :
  is_Some stored_10 /\
  fst (fst (spool_and_store 7 (fun _ => 0) 100 8 (B "./cache") uri body empty_disk)) = map fst body.
Proof.
  pose proof (response_relayed_and_stored 7 (fun _ => 0) 100 8 (B "./cache") uri body empty_disk
    ltac:(lia) ltac:(unfold usize_max; lia) ltac:(done)) as Hp.
  unfold stored_10. destruct (spool_and_store _ _ _ _ _ _ _ _) as [[forwarded stored] d'].
  destruct Hp as (Hf & _ & Hs). split; [|exact Hf]. apply Hs; [reflexivity|apply lookup_empty|reflexivity|].
  vm_compute. discriminate.
Defined.
End SpoolExamples.
