(* ===== verification/CacheInv.v ===== *)
(** * Accounting of the cache under every interleaving

    Who owns which file, the count of files, and the invariant that every step of every
    task keeps. *)

From S2P Require Import Prelude RustStr RustNet HttpIface ForwardedSyntax HeaderCommon Globals.
From S2P Require Import StickyCookie RequestOps Body Cache CacheSpool.

(** ** Permutations by counting *)

(** How often a path occurs in a list. *)
Definition occ (l : list str) (p : str) : nat := count_occ (fun x y => decide (x = y)) l p.

Lemma perm_occ (l k : list str) : l ≡ₚ k <-> forall p, occ l p = occ k p.
Proof. apply Permutation_count_occ. Qed.

Lemma occ_app l k p : occ (l ++ k) p = (occ l p + occ k p)%nat.
Proof. apply count_occ_app. Qed.

Lemma occ_cons x l p : occ (x :: l) p = (occ [x] p + occ l p)%nat.
Proof. apply (count_occ_app _ [x] l). Qed.

Lemma occ_nil p : occ [] p = 0%nat.
Proof. done. Qed.

(** Proves a permutation of appended lists from others. *)
Ltac perm :=
  let p := fresh "p" in
  rewrite ?perm_occ in *; intros p;
  repeat match goal with H : forall p, occ _ p = occ _ p |- _ => specialize (H p) end;
  repeat first [rewrite occ_app in * | rewrite occ_nil in *];
  lia.

(** ** The LRU map *)

Definition file_of (t : CacheFileOrOnMemory) : list str := match t with File p => [p] | OnMemory _ => [] end.

Section entry_files.
Context {V : Type} (path : V -> list str).

(** The files of the entries of a map. *)
Definition entry_files (l : list (str * V)) : list str := concat (map (fun e => path (snd e)) l).

Lemma entry_files_cons e l : entry_files (e :: l) = path (snd e) ++ entry_files l.
Proof. done. Qed.

Lemma entry_files_app l k : entry_files (l ++ k) = entry_files l ++ entry_files k.
Proof. unfold entry_files. by rewrite map_app, concat_app. Qed.

Lemma entry_files_perm l k : l ≡ₚ k -> entry_files l ≡ₚ entry_files k.
Proof.
  induction 1 as [|e l k _ IH|e e' l|l k m _ IH1 _ IH2]; [done|..|by etrans]; rewrite ?entry_files_cons; perm.
Qed.

End entry_files.

Section lru.
Context {V : Type}.

Lemma without_absent k (l : list (str * V)) : k ∉ map fst l -> without k l = l.
Proof.
  unfold without. intros Hk. induction l as [|[j w] l IH]; [done|]. cbn in Hk. rewrite filter_cons. cbn [fst].
  rewrite decide_True by set_solver. by rewrite IH by set_solver.
Qed.

Lemma without_perm k v (l : list (str * V)) :
  NoDup (map fst l) -> (k, v) ∈ l -> l ≡ₚ (k, v) :: without k l.
Proof.
  unfold without. induction l as [|[j w] l IH]; cbn [map fst]; [by intros _ ?%elem_of_nil|].
  intros [Hj Hnd]%NoDup_cons [[= -> ->]|Hin]%elem_of_cons; rewrite filter_cons; cbn [fst].
  - rewrite decide_False by naive_solver. fold (without j l). by rewrite without_absent.
  - assert (k ∈ map fst l) as Hk by (apply list_elem_of_fmap; by exists (k, v)).
    rewrite decide_True by (intros ->; done). rewrite (IH Hnd Hin) at 1. apply Permutation_swap.
Qed.

Context `{!LruApi V} `{!LruLaws V}.

Lemma lru_find c k v : lru_wf c -> map_find k (lru_iter c) = Some v <-> (k, v) ∈ lru_iter c.
Proof. intros Hwf. apply map_find_elem. by apply lru_wf_keys. Qed.

Lemma lru_find_None (l : list (str * V)) k : map_find k l = None -> k ∉ map fst l.
Proof.
  induction l as [|[j w] l IH]; cbn; [by intros _ ?%elem_of_nil|]. case_decide; [done|].
  intros Hn. rewrite not_elem_of_cons. by split; [|apply IH].
Qed.

(** The entry [push] displaces makes room for the new one. *)
Lemma lru_push_perm c k v :
  lru_wf c -> (0 < lru_cap c)%nat ->
  (k, v) :: lru_iter c ≡ₚ lru_iter (fst (lru_push c k v)) ++ option_list (snd (lru_push c k v)).
Proof.
  intros Hwf Hcap. destruct (map_find k (lru_iter c)) as [v0|] eqn:E.
  - apply lru_find in E; [|done]. destruct (lru_push_update c k v v0 Hwf E) as [-> ->]. cbn [option_list].
    rewrite (without_perm k v0 (lru_iter c)) at 1; [|by apply lru_wf_keys|done]. cbn [app].
    apply perm_skip. apply Permutation_cons_append.
  - apply lru_find_None in E. pose proof (lru_wf_cap c Hwf) as Hle.
    destruct (decide (length (lru_iter c) < lru_cap c)%nat) as [Hlt|].
    + destruct (lru_push_room c k v Hwf E Hlt) as [-> ->]. cbn. by rewrite app_nil_r.
    + assert (length (lru_iter c) = lru_cap c) as Hlen by lia.
      destruct (exists_last (l := lru_iter c)) as (l & e & El); [by intros Hl; rewrite Hl in Hlen; cbn in Hlen; lia|].
      destruct (lru_push_full c k v l e Hwf E El Hlen) as [-> ->]. rewrite El. cbn. done.
Qed.

Lemma lru_get_perm c k : lru_wf c -> lru_iter (fst (lru_get c k)) ≡ₚ lru_iter c.
Proof.
  intros Hwf. rewrite lru_get_iter by done. destruct (map_find k (lru_iter c)) as [v|] eqn:E; [|done].
  apply lru_find in E; [|done]. symmetry. apply without_perm; [by apply lru_wf_keys|done].
Qed.

Lemma lru_pop_perm c k v :
  lru_wf c -> (k, v) ∈ lru_iter c ->
  snd (lru_pop_entry c k) = Some (k, v) /\ lru_iter c ≡ₚ (k, v) :: lru_iter (fst (lru_pop_entry c k)).
Proof.
  intros Hwf Hin. rewrite lru_pop_value, lru_pop_iter by done. rewrite (proj2 (lru_find c k v Hwf) Hin).
  split; [done|]. apply without_perm; [by apply lru_wf_keys|done].
Qed.
End lru.

(** ** Ownership *)

Section accounting.
Context `{HttpApi} `{CryptoApi} `{!PolicyApi} `{!LruApi CacheObject} `{!LruLaws CacheObject}.
Context (pid : Z) (nanos : Z -> Z) (max mem : Z) (dir : str).
Hypothesis Hmem : 0 <= mem <= max.
Hypothesis Hmax : max < usize_max.

Implicit Types (s : CacheState) (t : Task) (o : CacheObject).

Definition lru_files s : list str := entry_files (fun o => file_of (target o)) (lru_iter (inner s)).

Definition spill_paths (sp : option SpillFile) : list str :=
  match sp with Some f => [temp_path f; final_path f] | None => [] end.

(** The files only this task may still rename, publish or remove. *)
Definition owns t : list str :=
  match t with
  | Spooling _ _ _ _ st => spill_paths (spill st)
  | Committed _ _ _ tgt _ => file_of tgt
  | Publish _ obj _ => file_of (target obj)
  | Decr p _ | Unlink p _ => [p]
  | _ => []
  end.

(** How many counted files that are not in the map the task answers for. *)
Definition counted t : Z :=
  match t with
  | Publish _ obj true => Z.of_nat (length (file_of (target obj)))
  | Decr _ _ => 1
  | _ => 0
  end.

Definition held t : list CacheObject :=
  match t with
  | Open _ _ _ obj _ | Streaming _ _ _ obj _ _ _ | EvictEntry _ obj | Publish _ obj _ => [obj]
  | _ => []
  end.

(** Names handed out so far. *)
Definition issued (bound : Z) (p : str) : Prop :=
  exists uri seq, 0 <= seq < bound /\
    (p = temp_path (names pid nanos dir uri seq) \/ p = final_path (names pid nanos dir uri seq)).

(** The loop of a task is consistent with the frames it has seen. *)
Definition task_ok (bound : Z) t : Prop :=
  match t with
  | Spooling sreq _ _ seen st =>
      spool_ok max mem seen st /\
      forall f, spill st = Some f -> exists seq, 0 <= seq < bound /\ f = names pid nanos dir (rq_uri sreq) seq
  | _ => True
  end.

Definition seq_of s : Z := CACHE_FILE_SEQ (disk s).

(** What one step does to the map, the names, the count and the objects. *)
Record local_post t s t' s' : Prop := {
  lp_wf : lru_wf (inner s') /\ lru_cap (inner s') = lru_cap (inner s);
  lp_len : lru_cnt s = Z.of_nat (length (lru_iter (inner s))) -> lru_cnt s' = Z.of_nat (length (lru_iter (inner s')));
  lp_paths : exists lost fresh, lru_files s' ++ owns t' ++ lost ≡ₚ lru_files s ++ owns t ++ fresh /\
    (fresh = [] /\ seq_of s' = seq_of s \/
     seq_of s' = seq_of s + 1 /\ exists uri, fresh = spill_paths (Some (names pid nanos dir uri (seq_of s))));
  lp_count : file_cnt s' - Z.of_nat (length (lru_files s')) - counted t' =
             file_cnt s - Z.of_nat (length (lru_files s)) - counted t;
  lp_count_bound : file_cnt s' <= file_cnt s + 1;
  lp_objects : exists fresh : option CacheObject, forall o, o ∈ map snd (lru_iter (inner s')) ++ held t' ->
    o ∈ map snd (lru_iter (inner s)) ++ held t \/
    fresh = Some o /\ generation o = CACHE_OBJECT_GEN s /\ CACHE_OBJECT_GEN s' = CACHE_OBJECT_GEN s + 1;
  lp_gen : CACHE_OBJECT_GEN s <= CACHE_OBJECT_GEN s' <= CACHE_OBJECT_GEN s + 1;
  lp_ok : task_ok (seq_of s') t'
}.

(** Steps that leave the map and the counters alone. *)
Lemma local_post_disk t s t' s' d :
  s' = with_disk s d -> lru_wf (inner s) -> counted t' = counted t ->
  (forall o, o ∈ held t' -> o ∈ map snd (lru_iter (inner s)) ++ held t) ->
  (exists lost fresh, owns t' ++ lost ≡ₚ owns t ++ fresh /\
    (fresh = [] /\ CACHE_FILE_SEQ d = seq_of s \/
     CACHE_FILE_SEQ d = seq_of s + 1 /\ exists uri, fresh = spill_paths (Some (names pid nanos dir uri (seq_of s))))) ->
  task_ok (CACHE_FILE_SEQ d) t' -> local_post t s t' s'.
Proof.
  intros -> Hwf Hc Hh (lost & fresh & Hp & Hf) Hok.
  split; cbn; unfold lru_files; cbn; [done|done| |lia|lia| |lia|done].
  - exists lost, fresh. split; [perm|done].
  - exists None. intros o [Ho|Ho]%elem_of_app; left; [apply elem_of_app; by left|by apply Hh].
Qed.

Lemma local_post_same t s t' :
  lru_wf (inner s) -> counted t' = counted t -> owns t' = [] \/ owns t' = owns t ->
  (forall o, o ∈ held t' -> o ∈ map snd (lru_iter (inner s)) ++ held t) ->
  task_ok (seq_of s) t' -> local_post t s t' s.
Proof.
  intros Hwf Hc Ho Hh Hok. eapply (local_post_disk _ _ _ _ (disk s)); [by destruct s|done..| |done].
  destruct Ho as [-> | ->]; [exists (owns t), []|exists [], []]; (split; [perm|by left]).
Qed.

(** What a step may rely on. *)
Record local_pre t s : Prop := {
  pre_wf : lru_wf (inner s);
  pre_cap : (0 < lru_cap (inner s))%nat;
  pre_seq : 0 <= seq_of s < 2 ^ 64 - 1;
  pre_gen : 0 <= CACHE_OBJECT_GEN s < 2 ^ 64 - 1;
  pre_cnt : counted t <= file_cnt s < 2 ^ 64 - 1;
  pre_ok : task_ok (seq_of s) t;
  pre_nodup : NoDup (lru_files s ++ owns t);
  pre_same_gen : forall o o', o ∈ map snd (lru_iter (inner s)) -> o' ∈ held t ->
    generation o = generation o' -> o = o'
}.

Lemma lru_object s k o : (k, o) ∈ lru_iter (inner s) -> o ∈ map snd (lru_iter (inner s)).
Proof. intros Hin. apply list_elem_of_fmap. by exists (k, o). Qed.

Lemma post_read sreq now res obj path sent rest r delivered s t' sv :
  lru_wf (inner s) -> stream_step sreq now res obj path sent rest r delivered = (t', sv) ->
  local_post (Streaming sreq now res obj path sent rest) s t' s.
Proof.
  intros Hwf E. unfold stream_step, stream_end in E.
  destruct r as [[|b bytes]|]; [case_bool_decide|destruct delivered|case_bool_decide]; injection E as <- _;
    (apply local_post_same; [done|done|by left| |done]); try (by intros ? ?%elem_of_nil).
  intros o Ho. apply elem_of_app. by right.
Qed.

Lemma post_get sreq now s s' t' sv :
  local_pre (Get sreq now) s -> get_step sreq now s = (s', t', sv) -> local_post (Get sreq now) s t' s'.
Proof.
  intros [Hwf Hcap _ _ _ _ _ _]. unfold get_step, LruCacheManager_get. destruct (poisoned s).
  { intros [= <- <- _]. apply local_post_same; [done|done|by left|by intros o ?%elem_of_nil|done]. }
  pose proof (lru_get_wf (inner s) (cache_key sreq) Hwf) as Hwf'.
  pose proof (lru_get_value (inner s) (cache_key sreq) Hwf) as Hv.
  pose proof (lru_get_perm (inner s) (cache_key sreq) Hwf) as Hp.
  destruct (lru_get (inner s) (cache_key sreq)) as [c r]. cbn [fst snd] in *. intros Hs.
  set (s1 := {| inner := c; poisoned := false; lru_cnt := lru_cnt s; file_cnt := file_cnt s;
                disk := disk s; CACHE_OBJECT_GEN := CACHE_OBJECT_GEN s |}) in *.
  assert (s' = s1 /\ owns t' = [] /\ counted t' = 0 /\ (forall o, o ∈ held t' -> r = Some o) /\ task_ok (seq_of s) t')
    as (-> & Ho & Hc & Hh & Hok).
  { destruct r as [o|]; [|injection Hs as <- <- _; split_and!; try done; by intros o ?%elem_of_nil].
    destruct (before_request _ _ _); [destruct (target o)|]; injection Hs as <- <- _; split_and!; try done;
      intros o' Ho'; try (by apply elem_of_nil in Ho'); by apply list_elem_of_singleton in Ho' as ->. }
  pose proof (entry_files_perm (fun o => file_of (target o)) _ _ Hp) as Hf.
  split; cbn [inner file_cnt lru_cnt CACHE_OBJECT_GEN s1]; try done; try lia.
  - intros ->. by rewrite Hp.
  - exists [], []. rewrite Ho. split; [unfold lru_files; cbn [inner s1 owns app]; perm|by left].
  - unfold lru_files; cbn [inner s1]. rewrite Hf, Hc. done.
  - exists None. intros o [Hin|Hin]%elem_of_app; left; apply elem_of_app; left.
    + by rewrite Hp in Hin.
    + apply (lru_object s (cache_key sreq)). apply lru_find; [done|]. rewrite <- Hv. by apply Hh.
Qed.

Lemma post_evict sreq o s s' t' :
  local_pre (EvictEntry sreq o) s -> evict_entry_step sreq o s = (s', t') -> local_post (EvictEntry sreq o) s t' s'.
Proof.
  intros [Hwf Hcap _ _ _ _ _ Hgen]. unfold evict_entry_step, evict_if_generation.
  assert (local_post (EvictEntry sreq o) s (Fetch sreq) s) as Hstay
    by (apply local_post_same; [done|done|by left|by intros ? ?%elem_of_nil|done]).
  destruct (poisoned s); [by intros [= <- <-]|].
  case_bool_decide as Eg; cbn [negb]; [|by intros [= <- <-]].
  rewrite lru_peek_value in Eg by done.
  destruct (map_find (cache_key sreq) (lru_iter (inner s))) as [o'|] eqn:Ef; [|done].
  injection Eg as Eg. apply lru_find in Ef; [|done].
  assert (o' = o) as -> by (apply Hgen; [by eapply lru_object|by apply list_elem_of_singleton|done]).
  pose proof (lru_pop_wf (inner s) (cache_key sreq) Hwf) as Hwf'.
  destruct (lru_pop_perm (inner s) (cache_key sreq) o Hwf Ef) as [Hv Hp].
  destruct (lru_pop_entry (inner s) (cache_key sreq)) as [c r]. cbn [fst snd] in *. subst r.
  pose proof (entry_files_perm (fun o => file_of (target o)) _ _ Hp) as Hf. rewrite entry_files_cons in Hf. cbn [snd] in Hf.
  assert (forall t'', owns t'' = file_of (target o) -> counted t'' = Z.of_nat (length (file_of (target o))) ->
    held t'' = [] -> task_ok (seq_of s) t'' -> local_post (EvictEntry sreq o) s t'' (with_inner s c)) as Hpost.
  { intros t'' Ho Hc Hh Hok. split; cbn [inner file_cnt lru_cnt CACHE_OBJECT_GEN with_inner]; try done; try lia.
    - intros _. by rewrite lru_len_iter by apply Hwf'.
    - exists [], []. rewrite Ho. unfold lru_files; cbn [inner with_inner owns app]. split; [perm|by left].
    - unfold lru_files; cbn [inner with_inner counted]. rewrite Hf, Hc, length_app. lia.
    - rewrite Hh. exists None. intros x [Hin|Hin]%elem_of_app; [|by apply elem_of_nil in Hin]. left. apply elem_of_app; left.
      rewrite Hp. cbn. by right. }
  intros [= <- <-]. apply Hpost; destruct (target o); done.
Qed.

(** After a push: the entry that was displaced, if any, goes to the task. *)
Lemma post_push key o counted0 s displaced t' :
  let c := fst (lru_push (inner s) key o) in
  local_pre (Publish key o counted0) s -> displaced = snd (lru_push (inner s) key o) ->
  (counted0 = true \/ file_of (target o) = []) ->
  (forall e, displaced = Some e -> owns t' = file_of (target (snd e)) /\ counted t' = Z.of_nat (length (owns t'))) ->
  (displaced = None -> owns t' = [] /\ counted t' = 0) -> held t' = [] -> task_ok (seq_of s) t' ->
  local_post (Publish key o counted0) s t' (with_inner s c).
Proof.
  intros c [Hwf Hcap _ _ _ _ _ _] -> Hcnt Hsome Hnone Hh Hok.
  pose proof (lru_push_wf (inner s) key o Hwf) as Hwf'. pose proof (lru_push_perm (inner s) key o Hwf Hcap) as Hp.
  pose proof (entry_files_perm (fun o => file_of (target o)) _ _ Hp) as Hf.
  rewrite entry_files_cons, entry_files_app in Hf. cbn [snd] in Hf. fold c in Hwf', Hp, Hf.
  assert (entry_files (fun o => file_of (target o)) (option_list (snd (lru_push (inner s) key o))) = owns t') as Eo.
  { destruct (snd (lru_push (inner s) key o)) as [e|]; cbn; [destruct (Hsome e eq_refl) as [-> _]; apply app_nil_r|].
    by destruct (Hnone eq_refl) as [-> _]. }
  assert (counted t' = Z.of_nat (length (owns t'))) as Ec.
  { destruct (snd (lru_push (inner s) key o)) as [e|]; [by apply (Hsome e)|]. by destruct (Hnone eq_refl) as [-> ->]. }
  rewrite Eo in Hf. split; cbn [inner file_cnt lru_cnt CACHE_OBJECT_GEN with_inner]; try done; try lia.
  - intros _. by rewrite lru_len_iter by apply Hwf'.
  - exists [], []. unfold lru_files; cbn [inner with_inner owns]. split; [perm|by left].
  - unfold lru_files; cbn [inner with_inner counted]. rewrite Ec.
    apply Permutation_length in Hf. rewrite !length_app in Hf.
    destruct Hcnt as [-> |E]; [lia|]. rewrite E in *. cbn [length] in *. destruct counted0; lia.
  - rewrite Hh, app_nil_r. exists None. intros x Hx. left. apply elem_of_app.
    assert (x ∈ map snd ((key, o) :: lru_iter (inner s))) as Hin by (rewrite Hp, map_app; apply elem_of_app; by left).
    cbn in Hin. apply elem_of_cons in Hin as [-> |Hin]; [right; by left|by left].
Qed.

Lemma displaced_not_owned key o counted0 s k v old :
  local_pre (Publish key o counted0) s -> snd (lru_push (inner s) key o) = Some (k, v) -> target v = File old ->
  file_of (target o) <> [old].
Proof.
  intros [Hwf Hcap _ _ _ _ Hnd _] Ed Ev Eo. pose proof (lru_push_perm (inner s) key o Hwf Hcap) as Hp.
  rewrite Ed in Hp. cbn [option_list] in Hp.
  assert (v ∈ map snd (lru_iter (inner s))) as Hin.
  { assert ((k, v) ∈ (key, o) :: lru_iter (inner s)) as Hkv by (rewrite Hp; apply elem_of_app; right; by left).
    apply elem_of_cons in Hkv as [[= -> ->]|Hin]; [|by apply (lru_object s k)].
    (* the displaced entry is an old one *)
    destruct (map_find key (lru_iter (inner s))) as [v0|] eqn:E.
    - apply lru_find in E; [|done]. destruct (lru_push_update (inner s) key o v0 Hwf E) as [E2 _].
      rewrite Ed in E2. injection E2 as ->. by apply (lru_object s key).
    - apply lru_find_None in E. exfalso. pose proof (lru_wf_keys _ (proj1 (lru_push_wf (inner s) key o Hwf))) as Hk.
      assert (NoDup (map fst ((key, o) :: lru_iter (inner s)))) as Hk2
        by (cbn; apply NoDup_cons; split; [done|by apply lru_wf_keys]).
      rewrite Hp, map_app in Hk2. apply NoDup_app in Hk2 as (_ & Hk2 & _). apply (Hk2 key); [|by left].
      pose proof (lru_wf_cap (inner s) Hwf) as Hle.
      destruct (decide (length (lru_iter (inner s)) < lru_cap (inner s))%nat) as [Hlt|].
      { by destruct (lru_push_room (inner s) key o Hwf E Hlt) as [E2 _]; rewrite Ed in E2. }
      destruct (exists_last (l := lru_iter (inner s))) as (l & e & El);
        [intros Hl; rewrite Hl in *; cbn in *; lia|].
      destruct (lru_push_full (inner s) key o l e Hwf E El) as [_ ->]; [lia|]. cbn. by left. }
  cbn [owns] in Hnd. rewrite Eo in Hnd. apply NoDup_app in Hnd as (_ & Hnd & _). apply (Hnd old); [|by left].
  apply list_elem_of_fmap in Hin as ([k' v'] & -> & Hin). apply elem_of_concat_map. exists (k', v').
  split; [done|]. cbn [snd] in *. rewrite Ev. by left.
Qed.

Lemma post_publish_push key o counted0 s s' t' :
  local_pre (Publish key o counted0) s -> counted0 = true \/ file_of (target o) = [] ->
  publish_push key o s = (s', t') -> local_post (Publish key o counted0) s t' s'.
Proof.
  intros Hpre Hc. unfold publish_push, LruCacheManager_push, new_file_path. destruct (poisoned s).
  - intros [= <- <-]. apply local_post_same; [apply Hpre| | | |]; destruct (target o) eqn:E; cbn; rewrite ?E; cbn; try done.
    + by destruct Hc as [-> |].
    + by destruct counted0.
    + by right.
    + by left.
    + by intros ? ?%elem_of_nil.
    + by intros ? ?%elem_of_nil.
  - pose proof (post_push key o counted0 s (snd (lru_push (inner s) key o)) t' Hpre eq_refl Hc) as Hp.
    pose proof (displaced_not_owned key o counted0 s) as Hd.
    destruct (lru_push (inner s) key o) as [c disp]. cbn [fst snd] in *. intros [= <- <-]. apply Hp.
    + intros [k v] ->. cbn [snd]. destruct (target v) as [old|b] eqn:Ev; [|done].
      case_bool_decide as En; [|done]. exfalso. destruct (target o) as [p|] eqn:Eo; [|done].
      injection En as ->. by eapply (Hd k v old Hpre eq_refl Ev).
    + by intros ->.
    + destruct disp as [[k v]|]; [|done]. destruct (target v); [|done]. by case_bool_decide.
    + destruct disp as [[k v]|]; [|done]. destruct (target v); [|done]. by case_bool_decide.
Qed.

Lemma post_publish key o counted0 s s' t' :
  local_pre (Publish key o counted0) s -> publish_step key o counted0 s = (s', t') ->
  local_post (Publish key o counted0) s t' s'.
Proof.
  intros Hpre. unfold publish_step. pose proof (post_publish_push key o counted0 s s' t' Hpre) as Hpush.
  unfold new_file_path. destruct (target o) as [p|b] eqn:Eo; [destruct counted0|].
  - apply Hpush. by left.
  - intros [= <- <-]. destruct Hpre as [Hwf _ _ _ Hc _ _ _]. cbn in Hc.
    split; cbn [inner file_cnt lru_cnt CACHE_OBJECT_GEN incr_count with_file_cnt]; try done; try lia.
    + exists [], []. split; [unfold lru_files; cbn; perm|by left].
    + rewrite wrap_usize_small by (unfold usize_max; lia). unfold lru_files; cbn. rewrite Eo. cbn. lia.
    + rewrite wrap_usize_small by (unfold usize_max; lia). lia.
    + exists None. intros x Hx. by left.
  - apply Hpush. by right.
Qed.

Lemma run_io_disk {A} (m : IO A) s a s' : run_io m s = (a, s') -> exists d, m (disk s) = (a, d) /\ s' = with_disk s d.
Proof. unfold run_io. destruct (m (disk s)) as [a' d]. intros [= -> <-]. by exists d. Qed.

Lemma seq_step s : 0 <= seq_of s < 2 ^ 64 - 1 -> (seq_of s + 1) mod 2 ^ 64 = seq_of s + 1.
Proof. intros. apply Z.mod_small. lia. Qed.

Lemma post_frame sreq res received seen st frame s st' s' :
  local_pre (Spooling sreq res received seen st) s ->
  run_io (spool_frame pid nanos max mem dir (rq_uri sreq) st frame) s = (st', s') ->
  local_post (Spooling sreq res received seen st) s (Spooling sreq res received (seen ++ [frame]) st') s'.
Proof.
  intros Hpre (d & Hd & ->)%run_io_disk. pose proof (pre_seq _ _ Hpre) as Hseq.
  destruct (pre_ok _ _ Hpre) as [Hok Hnamed].
  pose proof (spool_frame_spec pid nanos max mem dir Hmem Hmax (rq_uri sreq) seen st frame (disk s) Hok) as Hp.
  rewrite Hd in Hp. destruct Hp as (Hok' & _ & Hmv & _). cbn [fst snd] in *.
  eapply local_post_disk; [done|apply Hpre|done|by intros ? ?%elem_of_nil| |].
  - unfold spill_moves in Hmv. destruct Hmv as [(Es & _ & Hsp)|(Esp & Es & _ & Hsp)].
    + destruct Hsp as [[Hsp _]|Hsp]; cbn [owns]; rewrite Hsp; [exists (spill_paths (spill st)), []|exists [], []];
        (split; [cbn [spill_paths]; perm|by left]).
    + fold (seq_of s) in *. rewrite seq_step in Es by done. cbn [owns]. rewrite Esp.
      destruct Hsp as [[Hsp _]|Hsp]; rewrite Hsp;
        [exists (spill_paths (Some (names pid nanos dir (rq_uri sreq) (seq_of s))))|exists []];
        eexists; (split; [|right; split; [done|by eexists]]); cbn [spill_paths app]; done.
  - split; [done|]. intros f Ef. destruct Hmv as [(Es & _ & Hsp)|(Esp & Es & _ & Hsp)].
    + destruct Hsp as [[Hsp _]|Hsp]; [congruence|]. rewrite Hsp in Ef. rewrite Es. by apply Hnamed.
    + fold (seq_of s) in *. rewrite seq_step in Es by done. destruct Hsp as [[Hsp _]|Hsp]; [congruence|].
      rewrite Hsp in Ef. injection Ef as <-. exists (seq_of s). split; [lia|done].
Qed.

Lemma temp_final_ne uri seq :
  0 <= seq -> temp_path (names pid nanos dir uri seq) <> final_path (names pid nanos dir uri seq).
Proof. intros. by apply temp_not_final. Qed.

Lemma post_finish sreq res received seen st s r s' :
  local_pre (Spooling sreq res received seen st) s -> run_io (spool_finish st) s = (r, s') ->
  local_post (Spooling sreq res received seen st) s
    (match r with Some (tgt, h) => Committed sreq res received tgt h | None => Finished end) s'.
Proof.
  intros Hpre (d & Hd & ->)%run_io_disk. destruct (pre_ok _ _ Hpre) as [Hok Hnamed].
  assert (forall f, spill st = Some f -> temp_path f <> final_path f) as Hne.
  { intros f Ef. destruct (Hnamed f Ef) as (seq & Hseq & ->). apply temp_final_ne. lia. }
  pose proof (spool_finish_spec max mem Hmem Hmax seen st (disk s) Hok Hne) as Hp. rewrite Hd in Hp.
  destruct Hp as (Hseq & Hr & _).
  eapply local_post_disk; [done|apply Hpre|by destruct r as [[? ?]|]|destruct r as [[? ?]|]; by intros ? ?%elem_of_nil| |].
  - destruct r as [[[p|b] h]|]; cbn [owns file_of].
    + destruct Hr as (_ & _ & _ & f & -> & -> & _). exists [temp_path f], []. split; [|by left].
      cbn [spill_paths app]. apply Permutation_swap.
    + destruct Hr as (_ & _ & _ & -> & _). exists [], []. split; [done|by left].
    + exists (spill_paths (spill st)), []. split; [by rewrite app_nil_r|by left].
  - by destruct r as [[? ?]|].
Qed.

Lemma post_disk_end {A} t (m : IO A) t' s :
  local_pre t s -> (forall d, CACHE_FILE_SEQ (snd (m d)) = CACHE_FILE_SEQ d) ->
  counted t' = counted t -> owns t' = [] -> held t' = [] -> task_ok (seq_of s) t' ->
  local_post t s t' (snd (run_io m s)).
Proof.
  intros Hpre Hseq Hc Ho Hh Hok. destruct (run_io m s) as [a s'] eqn:E. apply run_io_disk in E as (d & E & ->).
  specialize (Hseq (disk s)). rewrite E in Hseq. cbn [snd] in *.
  eapply local_post_disk; [done|apply Hpre|done|rewrite Hh; by intros ? ?%elem_of_nil| |by rewrite Hseq].
  exists (owns t), []. rewrite Ho. split; [perm|by left].
Qed.

Lemma remove_file_seq p d : CACHE_FILE_SEQ (snd (remove_file p d)) = CACHE_FILE_SEQ d.
Proof. pose proof (remove_file_spec p d) as Hr. by destruct (remove_file p d), Hr as (_ & ? & _). Qed.

Lemma remove_uncounted_seq p d : CACHE_FILE_SEQ (snd (remove_uncounted_file p d)) = CACHE_FILE_SEQ d.
Proof. pose proof (remove_uncounted_spec p d) as Hr. by destruct (remove_uncounted_file p d), Hr as (_ & ? & _). Qed.

Lemma abort_seq sp d : CACHE_FILE_SEQ (snd (abort_spill sp d)) = CACHE_FILE_SEQ d.
Proof. pose proof (abort_spill_spec sp d) as Hr. by destruct (abort_spill sp d), Hr as (_ & ? & _). Qed.

(** Every step. *)
Lemma task_step_post t e s s' t' sv st :
  task_step pid nanos max mem dir t e s s' t' sv st -> local_pre t s -> local_post t s t' s'.
Proof.
  intros Hstep Hpre. pose proof (pre_wf _ _ Hpre) as Hwf.
  destruct Hstep as [sreq now s s' t sv E|sreq now res obj path s s' t E|sreq now res obj path sent rest r delivered s t sv Hr E|path s|sreq obj s s' t E|path resume s
    |path resume s|sreq res received s|sreq res received seen st frame s st' s' E|sreq res received seen st frame s|sreq res received seen st s tgt h s' E
    |sreq res received seen st s s' E|sreq res received tgt h s obj s' E|key obj counted0 s s' t E].
  - by eapply post_get.
  - unfold open_step, run_io in E. pose proof (open_read_spec path (disk s)) as Ho.
    destruct (open_read path (disk s)) as [c d]. destruct Ho as (_ & Hseq & _). injection E as <- <-.
    eapply local_post_disk; [done|done|by destruct c|destruct c; intros o Ho; apply elem_of_app; by right| |by destruct c].
    exists [], []. destruct c; (split; [done|by left]).
  - by eapply post_read.
  - by apply (post_disk_end (RemoveCorrupt path) (remove_uncounted_file path) Finished); [|apply remove_uncounted_seq|..].
  - by eapply post_evict.
  - destruct Hpre as [_ _ _ _ Hc _ _ _]. cbn in Hc.
    split; cbn [inner file_cnt lru_cnt CACHE_OBJECT_GEN decr_count with_file_cnt]; try done; try lia.
    + exists [], []. split; [unfold lru_files; cbn; perm|by left].
    + rewrite saturating_sub_exact by lia. unfold lru_files; cbn. lia.
    + unfold saturating_sub. lia.
    + exists None. intros o Ho. by left.
  - apply (post_disk_end (Unlink path resume) (remove_file path)); [done|apply remove_file_seq|by destruct resume..].
  - apply local_post_same; [done|..]; unfold fetch_step, get_policy_if_cacheable;
      (destruct res as [res|]; [destruct (is_storable _)|]); cbn; try done; try (by left); try (by intros ? ?%elem_of_nil).
    split; [|done]. unfold spool_ok, chunk_len, frames_data. cbn. split_and!; try done; lia.
  - by eapply post_frame.
  - by apply (post_disk_end (Spooling sreq res received seen st) (abort_spill (spill st)) Finished); [|apply abort_seq|..].
  - by apply (post_finish _ _ _ _ _ _ (Some (tgt, h))).
  - by apply (post_finish _ _ _ _ _ _ None).
  - injection E as <- <-. destruct Hpre as [_ _ _ Hg _ _ _ _].
    assert ((CACHE_OBJECT_GEN s + 1) mod 2 ^ 64 = CACHE_OBJECT_GEN s + 1) as Eg by (apply Z.mod_small; lia).
    split; cbn [inner file_cnt lru_cnt CACHE_OBJECT_GEN]; try done; try lia.
    + exists [], []. split; [unfold lru_files; cbn; perm|by left].
    + eexists (Some _). intros o [Ho|Ho%list_elem_of_singleton]%elem_of_app; [left; apply elem_of_app; by left|right].
      subst o. cbn. by rewrite Eg.
  - by eapply post_publish.
Qed.

(** ** The invariant *)

Definition owned (ts : list Task) : list str := concat (map owns ts).
Definition total_counted (ts : list Task) : Z := foldr (fun t n => counted t + n) 0 ts.
Definition objects (y : System) : list CacheObject :=
  map snd (lru_iter (inner (shared y))) ++ concat (map held (tasks y)).

(** [n] bounds the steps so far. *)
Record acc_inv (n : Z) (cap : nat) (y : System) : Prop := {
  inv_wf : lru_wf (inner (shared y));
  inv_cap : lru_cap (inner (shared y)) = cap /\ (0 < cap)%nat;
  inv_len : lru_cnt (shared y) = Z.of_nat (length (lru_iter (inner (shared y))));
  inv_seq : 0 <= seq_of (shared y) <= n;
  inv_gen : 0 <= CACHE_OBJECT_GEN (shared y) <= n;
  inv_cnt_bound : file_cnt (shared y) <= n;
  inv_cnt : file_cnt (shared y) = Z.of_nat (length (lru_files (shared y))) + total_counted (tasks y);
  inv_ok : forall t, t ∈ tasks y -> task_ok (seq_of (shared y)) t;
  inv_nodup : NoDup (lru_files (shared y) ++ owned (tasks y));
  inv_issued : forall p, p ∈ lru_files (shared y) ++ owned (tasks y) -> issued (seq_of (shared y)) p;
  inv_old : forall o, o ∈ objects y -> generation o < CACHE_OBJECT_GEN (shared y);
  inv_same : forall o o', o ∈ objects y -> o' ∈ objects y -> generation o = generation o' -> o = o'
}.

Lemma counted_nonneg t : 0 <= counted t.
Proof. destruct t as [| | | | | | | | | |? ? []|]; cbn; lia. Qed.

Lemma total_counted_app l k : total_counted (l ++ k) = total_counted l + total_counted k.
Proof. unfold total_counted. induction l as [|t l IH]; cbn; [done|]. rewrite IH. lia. Qed.

Lemma total_counted_cons t l : total_counted (t :: l) = counted t + total_counted l.
Proof. done. Qed.

Lemma total_counted_nonneg l : 0 <= total_counted l.
Proof. unfold total_counted. induction l as [|t l IH]; cbn; [done|]. pose proof (counted_nonneg t). lia. Qed.

Lemma task_ok_mono b b' t : b <= b' -> task_ok b t -> task_ok b' t.
Proof.
  intros Hb. destruct t; cbn; try done. intros [Hok Hn]. split; [done|]. intros f Ef.
  destruct (Hn f Ef) as (seq & Hs & ->). exists seq. split; [lia|done].
Qed.

Lemma issued_mono b b' p : b <= b' -> issued b p -> issued b' p.
Proof. intros Hb (uri & seq & Hs & Hp). exists uri, seq. split; [lia|done]. Qed.

Lemma fresh_not_issued b uri p : 0 <= b -> issued b p -> p ∉ spill_paths (Some (names pid nanos dir uri b)).
Proof.
  intros Hb (uri' & seq & Hs & Hp). cbn. rewrite !not_elem_of_cons.
  destruct Hp as [-> | ->]; cbn; (split_and!; [| |apply not_elem_of_nil]).
  - intros E%temp_path_inj; lia.
  - apply temp_not_final. lia.
  - intros E. symmetry in E. revert E. apply temp_not_final. lia.
  - intros E%final_path_inj; lia.
Qed.

Lemma fresh_nodup uri b : 0 <= b -> NoDup (spill_paths (Some (names pid nanos dir uri b))).
Proof. intros Hb. cbn. apply NoDup_cons. split; [|apply NoDup_singleton]. rewrite list_elem_of_singleton. by apply temp_final_ne. Qed.

End accounting.

Section around.
Context `{HttpApi} `{CryptoApi} `{!PolicyApi} `{!LruApi CacheObject}.
Implicit Types (s : CacheState) (t : Task) (o : CacheObject).

(** The lists of a system around one of its tasks. *)
Lemma tasks_split (ts : list Task) i t :
  ts !! i = Some t -> exists l r, ts = l ++ t :: r /\ forall t', <[i := t']> ts = l ++ t' :: r.
Proof.
  intros Hi. exists (take i ts), (drop (S i) ts). split; [by rewrite take_drop_middle|].
  intros t'. apply insert_take_drop. by eapply lookup_lt_Some.
Qed.

Lemma owned_app l k : owned (l ++ k) = owned l ++ owned k.
Proof. unfold owned. by rewrite map_app, concat_app. Qed.

Lemma owned_cons t l : owned (t :: l) = owns t ++ owned l.
Proof. done. Qed.

Lemma held_around s ts l r t o :
  ts = l ++ t :: r ->
  o ∈ map snd (lru_iter (inner s)) ++ concat (map held ts) <->
  o ∈ map snd (lru_iter (inner s)) ++ held t \/ o ∈ concat (map held (l ++ r)).
Proof. intros ->. rewrite !map_app, !concat_app. cbn. rewrite !elem_of_app. tauto. Qed.

End around.

Section established.
Context `{HttpApi} `{CryptoApi} `{!PolicyApi} `{!LruApi CacheObject} `{!LruLaws CacheObject}.
Context (pid : Z) (nanos : Z -> Z) (max mem : Z) (dir : str).
Implicit Types (s : CacheState) (t : Task) (o : CacheObject) (y : System).

Lemma acc_inv_pre n cap y i t :
  n < 2 ^ 64 - 1 -> acc_inv pid nanos max mem dir n cap y -> tasks y !! i = Some t -> local_pre pid nanos max mem dir t (shared y).
Proof.
  intros Hn Hi Ht. destruct (tasks_split _ _ _ Ht) as (l & r & E & _). destruct Hi. split; try lia; try done.
  - rewrite E, total_counted_app, total_counted_cons in inv_cnt0.
    pose proof (total_counted_nonneg l). pose proof (total_counted_nonneg r). lia.
  - apply inv_ok0. by eapply list_elem_of_lookup_2.
  - rewrite E, owned_app, owned_cons in inv_nodup0.
    assert (lru_files (shared y) ++ owned l ++ owns t ++ owned r ≡ₚ
            (lru_files (shared y) ++ owns t) ++ owned l ++ owned r) as Hp by perm.
    rewrite Hp in inv_nodup0. by apply NoDup_app in inv_nodup0 as [? _].
  - intros o o' Ho Ho'. apply inv_same0; unfold objects; apply (held_around (shared y) _ l r t _ E); left;
      apply elem_of_app; auto.
Qed.
End established.
