(* ===== verification/CacheProps.v ===== *)
(** * The cache under interleaving

    Any number of requests run against the shared cache at once. The accounting
    invariant of [CacheInv] holds after every step; from it, the counters are exact. *)

From S2P Require Import Prelude RustStr RustNet HttpIface ForwardedSyntax HeaderCommon Globals.
From S2P Require Import StickyCookie CryptoInstance RequestOps Body Cache CacheSpool CacheInv.

(** ** Every step preserves the accounting *)

Section preserved.
Context `{HttpApi} `{CryptoApi} `{!PolicyApi} `{!LruApi CacheObject} `{!LruLaws CacheObject}.
Context (pid : Z) (nanos : Z -> Z) (max mem : Z) (dir : str).
Hypothesis Hmem : 0 <= mem <= max.
Hypothesis Hmax : max < usize_max.

Implicit Types (s : CacheState) (t : Task) (o : CacheObject) (y : System).

Notation inv := (acc_inv pid nanos max mem dir).

(** The names after a step are distinct and were issued, whatever the other tasks hold. *)
Lemma paths_step t s t' s' rest :
  0 <= seq_of s -> local_post pid nanos max mem dir t s t' s' ->
  NoDup (lru_files s ++ owns t ++ rest) ->
  (forall p, p ∈ lru_files s ++ owns t ++ rest -> issued pid nanos dir (seq_of s) p) ->
  NoDup (lru_files s' ++ owns t' ++ rest) /\
  (forall p, p ∈ lru_files s' ++ owns t' ++ rest -> issued pid nanos dir (seq_of s') p).
Proof.
  intros Hs Hpost Hnd Hiss. destruct (lp_paths _ _ _ _ _ _ _ _ _ Hpost) as (lost & fresh & Hp & Hf).
  assert (lost ++ lru_files s' ++ owns t' ++ rest ≡ₚ fresh ++ lru_files s ++ owns t ++ rest) as Hp' by perm.
  assert (NoDup (fresh ++ lru_files s ++ owns t ++ rest) /\
          (forall p, p ∈ fresh ++ lru_files s ++ owns t ++ rest -> issued pid nanos dir (seq_of s') p)) as [Hnd' Hiss'].
  { destruct Hf as [[-> ->]|(-> & uri & ->)]; [done|]. split.
    - apply NoDup_app. split_and!; [by apply fresh_nodup| |done].
      intros p Hp1 Hp2. by eapply fresh_not_issued; [|apply Hiss|].
    - intros p [Hin|Hin]%elem_of_app; [|eapply issued_mono, Hiss, Hin; lia].
      exists uri, (seq_of s). split; [lia|]. cbn in Hin. rewrite !elem_of_cons in Hin.
      destruct Hin as [Hin|[Hin|Hin%elem_of_nil]]; [by left|by right|done]. }
  rewrite <- Hp' in Hnd'. split; [by apply NoDup_app in Hnd' as (_ & _ & ?)|].
  intros p Hin. apply Hiss'. rewrite <- Hp'. apply elem_of_app. by right.
Qed.

Lemma in_objects s ts sv st l r t o :
  ts = l ++ t :: r ->
  o ∈ objects {| shared := s; tasks := ts; served := sv; stored := st |} <->
  o ∈ map snd (lru_iter (inner s)) ++ held t \/ o ∈ concat (map held (l ++ r)).
Proof. intros ->. by apply (held_around s _ l r t o). Qed.

Lemma objects_step t s t' s' ts ts' l r sv st sv' st' :
  local_post pid nanos max mem dir t s t' s' -> ts = l ++ t :: r -> ts' = l ++ t' :: r ->
  let old := objects {| shared := s; tasks := ts; served := sv; stored := st |} in
  let new := objects {| shared := s'; tasks := ts'; served := sv'; stored := st' |} in
  (forall o, o ∈ old -> generation o < CACHE_OBJECT_GEN s) ->
  (forall o o', o ∈ old -> o' ∈ old -> generation o = generation o' -> o = o') ->
  (forall o, o ∈ new -> generation o < CACHE_OBJECT_GEN s') /\
  (forall o o', o ∈ new -> o' ∈ new -> generation o = generation o' -> o = o').
Proof.
  intros Hpost Et Et' old new Hold Hsame. destruct (lp_objects _ _ _ _ _ _ _ _ _ Hpost) as (fresh & Hf).
  pose proof (lp_gen _ _ _ _ _ _ _ _ _ Hpost) as Hg.
  assert (forall o, o ∈ new -> o ∈ old \/ fresh = Some o /\ generation o = CACHE_OBJECT_GEN s /\
    CACHE_OBJECT_GEN s' = CACHE_OBJECT_GEN s + 1) as Hn.
  { intros o Ho. apply (in_objects _ _ _ _ l r t') in Ho; [|done].
    destruct Ho as [[Ho|Ho]%Hf|Ho]; [left|by right|left]; apply (in_objects _ _ _ _ l r t); auto. }
  split.
  - intros o [Ho%Hold|(_ & ? & ?)]%Hn; lia.
  - intros o o' [Ho|(E1 & G1 & _)]%Hn [Ho'|(E2 & G2 & _)]%Hn Eg; [by apply Hsame| | |congruence].
    + apply Hold in Ho. lia.
    + apply Hold in Ho'. lia.
Qed.

Lemma acc_inv_task n cap y i t s' t' sv st :
  n < 2 ^ 64 - 1 -> inv n cap y -> tasks y !! i = Some t -> local_post pid nanos max mem dir t (shared y) t' s' ->
  inv (n + 1) cap {| shared := s'; tasks := <[i := t']> (tasks y); served := sv; stored := st |}.
Proof.
  intros Hn Hi Ht Hpost. destruct (tasks_split _ _ _ Ht) as (l & r & E & E'). specialize (E' t').
  pose proof Hi as [Hwf Hcap Hlen Hseq Hgen Hcb Hc Hok Hnd Hiss Hold Hsame].
  destruct Hpost as [[Hwf' Hcap'] Hlen' Hpaths Hcnt Hcntb Hobj Hgen' Hok'] eqn:Ep. clear Ep.
  assert (seq_of (shared y) <= seq_of s' <= seq_of (shared y) + 1) as Hseq'
    by (destruct Hpaths as (? & ? & _ & [[_ ?]|[? _]]); lia).
  assert (forall p, p ∈ lru_files (shared y) ++ owned (tasks y) <->
    p ∈ lru_files (shared y) ++ owns t ++ owned l ++ owned r) as Hin.
  { intros p. rewrite E, owned_app, owned_cons, !elem_of_app. tauto. }
  destruct (paths_step t (shared y) t' s' (owned l ++ owned r)) as [Hnd' Hiss']; [lia|done| |by intros p Hp; apply Hiss, Hin|].
  { rewrite E, owned_app, owned_cons in Hnd.
    assert (lru_files (shared y) ++ owns t ++ owned l ++ owned r ≡ₚ
            lru_files (shared y) ++ owned l ++ owns t ++ owned r) as -> by perm. done. }
  split; cbn [shared tasks]; try (rewrite E'); try done; try lia; auto.
  - rewrite total_counted_app, total_counted_cons. rewrite E, total_counted_app, total_counted_cons in Hc. lia.
  - intros t0 [Ht0|[-> |Ht0]%elem_of_cons]%elem_of_app; [|done|];
      (eapply task_ok_mono, Hok; [lia|]; rewrite E; apply elem_of_app); [by left|right; by right].
  - rewrite owned_app, owned_cons.
    assert (lru_files s' ++ owned l ++ owns t' ++ owned r ≡ₚ lru_files s' ++ owns t' ++ owned l ++ owned r) as -> by perm. done.
  - intros p Hp. apply Hiss'. revert Hp. rewrite owned_app, owned_cons, !elem_of_app. tauto.
  - by eapply (objects_step t (shared y) t' s' (tasks y) _ l r (served y) (stored y) sv st).
  - by eapply (objects_step t (shared y) t' s' (tasks y) _ l r (served y) (stored y) sv st).
Qed.

Lemma acc_inv_mono n n' cap y : n <= n' -> inv n cap y -> inv n' cap y.
Proof. intros Hn []. split; try done; lia. Qed.

(** Steps of the system that are not a task's. *)
Lemma acc_inv_idle n cap y y' :
  inv n cap y -> inner (shared y') = inner (shared y) -> lru_cnt (shared y') = lru_cnt (shared y) ->
  file_cnt (shared y') = file_cnt (shared y) -> seq_of (shared y') = seq_of (shared y) ->
  CACHE_OBJECT_GEN (shared y') = CACHE_OBJECT_GEN (shared y) ->
  (exists new, tasks y' = tasks y ++ new /\
    forall t, t ∈ new -> owns t = [] /\ counted t = 0 /\ held t = [] /\ task_ok pid nanos max mem dir (seq_of (shared y)) t) ->
  inv n cap y'.
Proof.
  intros [Hwf Hcap Hlen Hseq Hgen Hcb Hc Hok Hnd Hiss Hold Hsame] E1 E2 E3 E4 E5 (new & Et & Hnew).
  assert (owned new = [] /\ total_counted new = 0 /\ concat (map held new) = []) as (Eo & Ec & Eh).
  { clear Et. induction new as [|t new IH]; [done|]. destruct (Hnew t) as (Ho & Hct & Hh & _); [by left|].
    destruct IH as (Io & Ic & Ih); [intros t' Ht'; apply Hnew; by right|].
    rewrite owned_cons, total_counted_cons, Ho, Hct, Io, Ic. cbn. by rewrite Hh, Ih. }
  assert (objects y' = objects y) as Eobj
    by (unfold objects; by rewrite E1, Et, map_app, concat_app, Eh, app_nil_r).
  assert (lru_files (shared y') = lru_files (shared y)) as El by (unfold lru_files; by rewrite E1).
  assert (owned (tasks y') = owned (tasks y)) as Eow by (by rewrite Et, owned_app, Eo, app_nil_r).
  split; rewrite ?E1, ?E2, ?E3, ?E4, ?E5, ?El, ?Eow, ?Eobj; try done.
  - rewrite Et, total_counted_app, Ec. lia.
  - rewrite Et. intros t [Ht|Ht]%elem_of_app; [by apply Hok|by apply Hnew].
Qed.

Lemma acc_inv_step external n cap y y' :
  0 <= n < 2 ^ 64 - 1 -> inv n cap y -> step pid nanos max mem dir external y y' -> inv (n + 1) cap y'.
Proof.
  intros Hn Hi Hs. destruct Hs as [y req uri now _|y i t e s' t' sv st Ht Hs|y|y fs _].
  - apply acc_inv_mono with n; [lia|]. eapply acc_inv_idle; try done. eexists. split; [done|].
    by intros t ->%list_elem_of_singleton.
  - eapply acc_inv_task; [lia|done..|]. eapply task_step_post; try done. eapply acc_inv_pre; [|exact Hi|exact Ht]. lia.
  - apply acc_inv_mono with n; [lia|]. eapply acc_inv_idle; try done. exists []. split; [by rewrite app_nil_r|by intros ? ?%elem_of_nil].
  - apply acc_inv_mono with n; [lia|]. eapply acc_inv_idle; try done. exists []. split; [by rewrite app_nil_r|by intros ? ?%elem_of_nil].
Qed.

Lemma acc_inv_nsteps external n m cap y y' :
  0 <= m -> Z.of_nat n + m < 2 ^ 64 - 1 -> inv m cap y -> nsteps (step pid nanos max mem dir external) n y y' ->
  inv (m + Z.of_nat n) cap y'.
Proof.
  intros Hm Hn Hi Hs. revert m Hm Hn Hi. induction Hs as [y|n y y1 y2 Hy1 _ IH]; intros m Hm Hn Hi.
  - by rewrite Z.add_0_r.
  - replace (m + Z.of_nat (S n)) with (m + 1 + Z.of_nat n) by lia. apply IH; [lia..|].
    eapply acc_inv_step; [lia|done..].
Qed.

(** The state [RpxyCache::new] starts from. *)
Definition start s : System := {| shared := s; tasks := []; served := []; stored := [] |}.

Lemma acc_inv_start `{!IpNetApi} cfg ok d gen s m1 m2 dir' n :
  0 <= CACHE_FILE_SEQ d <= n -> 0 <= gen <= n -> 0 <= cache_max_entry cfg ->
  RpxyCache_new cfg ok d gen = Some (m1, m2, dir', s) -> inv n (Z.to_nat (cache_max_entry cfg)) (start s).
Proof.
  unfold RpxyCache_new, LruCacheManager_new. intros Hd Hg Hc. destruct (cache_enabled cfg); [|done]. cbn [negb].
  destruct (cache_dir cfg) as [dr|]; [|done]. cbn [mbind option_bind].
  destruct (Nat.eqb_spec (Z.to_nat (cache_max_entry cfg)) 0) as [|Hne]; [done|]. cbn [mbind option_bind].
  destruct ok; [|done]. cbn [negb]. intros [= <- <- <- <-].
  assert (lru_iter (lru_new (Z.to_nat (cache_max_entry cfg))) = []) as Hit by apply lru_new_iter.
  split; cbn [shared tasks start inner lru_cnt file_cnt disk CACHE_OBJECT_GEN]; unfold lru_files, seq_of; cbn [inner disk];
    rewrite ?Hit; try done; try lia.
  - apply lru_new_wf. lia.
  - split; [apply lru_new_cap|lia].
  - by intros t ?%elem_of_nil.
  - cbn. apply NoDup_nil_2.
  - by intros p ?%elem_of_nil.
  - unfold objects; cbn. rewrite Hit. by intros p ?%elem_of_nil.
  - unfold objects; cbn. rewrite Hit. by intros o o' ?%elem_of_nil.
Qed.
End preserved.
