(* ===== verification/CacheContent.v ===== *)
(** * What the cache serves, and what it leaves on the disk

    Every entry of the map, and every snapshot of one that a task still holds, stands for
    a response that was stored whole under its key; the file of an entry holds the data
    of that response or is gone. Files of the directory that no entry refers to belong to
    a task that will remove or publish them, unless a disk operation has failed. *)

From S2P Require Import Prelude RustStr RustNet HttpIface ForwardedSyntax HeaderCommon Globals.
From S2P Require Import StickyCookie CryptoInstance RequestOps Body Cache CacheSpool CacheInv CacheProps.

Section content.
Context `{HttpApi} `{CryptoApi} `{!PolicyApi} `{!LruApi CacheObject} `{!LruLaws CacheObject}.
Context (pid : Z) (nanos : Z -> Z) (max mem : Z) (dir : str).

Implicit Types (s : CacheState) (t : Task) (o : CacheObject) (y : System).

(** ** Claims *)

(** What the map or a task takes for the stored response of a key, with what was read. *)
Record Claim := {
  cl_key : str;
  cl_policy : CachePolicy;
  cl_target : CacheFileOrOnMemory;
  cl_content : option str
}.

Definition claim_of (key : str) o (c : option str) : Claim :=
  {| cl_key := key; cl_policy := policy o; cl_target := target o; cl_content := c |}.

Definition claims_of t : list Claim :=
  match t with
  | Open sreq _ _ obj _ => [claim_of (cache_key sreq) obj None]
  | Streaming sreq _ _ obj _ sent rest => [claim_of (cache_key sreq) obj (Some (sent ++ rest))]
  | Committed sreq res received tgt _ =>
      [{| cl_key := cache_key sreq; cl_policy := policy_new sreq res received; cl_target := tgt; cl_content := None |}]
  | Publish key obj _ => [claim_of key obj None]
  | _ => []
  end.

Definition map_claims s : list Claim := map (fun e => claim_of (fst e) (snd e) None) (lru_iter (inner s)).

Definition claims y : list Claim := map_claims (shared y) ++ concat (map claims_of (tasks y)).

(** The response behind a claim. *)
Definition stored_as (l : list StoredResponse) (fs : gmap str str) (c : Claim) : Prop :=
  exists r, r ∈ l /\ cache_key (st_req r) = cl_key c /\ cl_policy c = policy_new (st_req r) (st_res r) (st_received r) /\
    is_storable (cl_policy c) = true /\ Forall (fun f => is_ok f = true) (st_frames r) /\
    (forall b, cl_content c = Some b -> b = frames_data (st_frames r)) /\
    match cl_target c with
    | OnMemory b => b = frames_data (st_frames r)
    | File p => fs !! p = None \/ fs !! p = Some (frames_data (st_frames r))
    end.

(** A response handed out is the one its policy allows for that request at that time, with
    bytes of the stored body, all of them if nothing cut it short. *)
Definition served_ok (l : list StoredResponse) (v : Served) : Prop :=
  exists r, r ∈ l /\ cache_key (st_req r) = cache_key (sv_req v) /\
    is_storable (policy_new (st_req r) (st_res r) (st_received r)) = true /\
    before_request (policy_new (st_req r) (st_res r) (st_received r)) (sv_req v) (sv_now v) = Some (sv_res v) /\
    Forall (fun f => is_ok f = true) (st_frames r) /\
    sv_body v `prefix_of` frames_data (st_frames r) /\
    (sv_complete v = true -> sv_body v = frames_data (st_frames r)).

(** The paths a task refers to that are not of a file being written. *)
Definition named t : list str :=
  match t with
  | Open _ _ _ obj _ | Streaming _ _ _ obj _ _ _ | EvictEntry _ obj | Publish _ obj _ => file_of (target obj)
  | Committed _ _ _ tgt _ => file_of tgt
  | Decr p _ | Unlink p _ | RemoveCorrupt p => [p]
  | _ => []
  end.

Definition spilling t : list str :=
  match t with Spooling _ _ _ _ st => spill_paths (spill st) | _ => [] end.

(** What a task knows of its own request. *)
Definition task_good t (d : Disk) : Prop :=
  match t with
  | Open sreq now res obj path | Streaming sreq now res obj path _ _ =>
      before_request (policy obj) sreq now = Some res /\ target obj = File path
  | Spooling sreq res received seen st =>
      is_storable (policy_new sreq res received) = true /\ spill_holds st (frames_data seen) d
  | _ => True
  end.

Lemma stored_as_mono l l' fs fs' c :
  (forall p, p ∈ file_of (cl_target c) -> fs' !! p = fs !! p \/ fs' !! p = None) ->
  stored_as l fs c -> stored_as (l ++ l') fs' c.
Proof.
  intros Hfs (r & Hr & Hk & Hp & Hst & Hok & Hc & Ht). exists r.
  split_and!; try done; [apply elem_of_app; by left|].
  destruct (cl_target c) as [p|b]; [|done]. destruct (Hfs p) as [-> | ->]; [by left|done|by left].
Qed.

Lemma served_ok_mono l l' v : served_ok l v -> served_ok (l ++ l') v.
Proof. intros (r & Hr & Hv). exists r. split; [apply elem_of_app; by left|done]. Qed.

(** ** One step *)

Definition fresh_paths s (uri : Uri) : list str := spill_paths (Some (names pid nanos dir uri (seq_of s))).

Record content_post (l : list StoredResponse) t s t' s' (sv : list Served) (st : list StoredResponse) : Prop := {
  cp_claims : forall c, c ∈ map_claims s' ++ claims_of t' ->
    c ∈ map_claims s ++ claims_of t \/ stored_as (l ++ st) (files (disk s')) c;
  cp_named : forall p, p ∈ lru_files s' ++ named t' ->
    p ∈ lru_files s ++ named t \/ p ∈ spilling t /\ spilling t' = [];
  cp_spilling : forall p, p ∈ spilling t' -> p ∈ spilling t \/ exists uri, p ∈ fresh_paths s uri;
  cp_files : forall q, files (disk s') !! q = files (disk s) !! q \/ q ∈ spilling t \/
    (exists uri, q ∈ fresh_paths s uri) \/ q ∈ named t /\ files (disk s') !! q = None;
  cp_good : task_good t' (disk s');
  cp_served : Forall (served_ok (l ++ st)) sv
}.

Record content_pre (l : list StoredResponse) t s : Prop := {
  cpre_wf : lru_wf (inner s);
  cpre_cap : (0 < lru_cap (inner s))%nat;
  cpre_claims : forall c, c ∈ map_claims s ++ claims_of t -> stored_as l (files (disk s)) c;
  cpre_good : task_good t (disk s)
}.

(** Steps that write no file. *)
Lemma content_post_quiet l t s t' s' sv :
  files (disk s') = files (disk s) -> spilling t' = [] ->
  (forall c, c ∈ map_claims s' ++ claims_of t' -> c ∈ map_claims s ++ claims_of t \/ stored_as l (files (disk s)) c) ->
  (forall p, p ∈ lru_files s' ++ named t' -> p ∈ lru_files s ++ named t) ->
  task_good t' (disk s') -> Forall (served_ok l) sv -> content_post l t s t' s' sv [].
Proof.
  intros Hf Hs Hc Hn Hg Hsv. split; rewrite ?app_nil_r, ?Hf; try done.
  - intros p Hp. left. by apply Hn.
  - rewrite Hs. by intros p ?%elem_of_nil.
  - intros q. by left.
Qed.

Lemma map_claim s k o : (k, o) ∈ lru_iter (inner s) -> claim_of k o None ∈ map_claims s.
Proof. intros Hin. apply list_elem_of_fmap. by exists (k, o). Qed.

Lemma map_claims_incl s s' extra :
  (forall e, e ∈ lru_iter (inner s') -> e ∈ extra ++ lru_iter (inner s)) ->
  forall c, c ∈ map_claims s' -> c ∈ map (fun e => claim_of (fst e) (snd e) None) extra ++ map_claims s.
Proof.
  intros Hin c ((k, o) & -> & He)%list_elem_of_fmap. apply Hin in He. unfold map_claims. rewrite <- map_app.
  apply list_elem_of_fmap. by exists (k, o).
Qed.

Lemma lru_files_incl s s' extra :
  (forall e, e ∈ lru_iter (inner s') -> e ∈ extra ++ lru_iter (inner s)) ->
  forall p, p ∈ lru_files s' -> p ∈ entry_files (fun o => file_of (target o)) extra ++ lru_files s.
Proof.
  intros Hin p (e & He & Hp)%elem_of_concat_map. apply Hin in He. unfold lru_files. rewrite <- entry_files_app.
  apply elem_of_concat_map. by exists e.
Qed.

Lemma content_get l sreq now s s' t' sv :
  content_pre l (Get sreq now) s -> get_step sreq now s = (s', t', sv) ->
  content_post l (Get sreq now) s t' s' (option_list sv) [].
Proof.
  intros [Hwf _ Hcl _]. unfold get_step, LruCacheManager_get. destruct (poisoned s).
  { intros [= <- <- <-]. apply content_post_quiet; try done; auto. }
  pose proof (lru_get_value (inner s) (cache_key sreq) Hwf) as Hv.
  pose proof (lru_get_perm (inner s) (cache_key sreq) Hwf) as Hp.
  destruct (lru_get (inner s) (cache_key sreq)) as [c r]. cbn [fst snd] in *. intros Hs.
  set (s1 := {| inner := c; poisoned := false; lru_cnt := lru_cnt s; file_cnt := file_cnt s;
                disk := disk s; CACHE_OBJECT_GEN := CACHE_OBJECT_GEN s |}) in *.
  assert (forall e, e ∈ lru_iter (inner s1) -> e ∈ [] ++ lru_iter (inner s)) as Hin
    by (cbn; intros e He; by rewrite Hp in He).
  pose proof (map_claims_incl s s1 [] Hin) as Hmc. pose proof (lru_files_incl s s1 [] Hin) as Hmf. cbn [map app] in Hmc.
  change (entry_files (fun o => file_of (target o)) [] ++ lru_files s) with (lru_files s) in Hmf.
  assert (forall o, r = Some o -> (cache_key sreq, o) ∈ lru_iter (inner s)) as Hr
    by (intros o ->; by apply lru_find).
  assert (forall t'' sv'', spilling t'' = [] -> (forall c, c ∈ claims_of t'' -> c ∈ map_claims s) ->
    (forall p, p ∈ named t'' -> p ∈ lru_files s) -> task_good t'' (disk s) -> Forall (served_ok l) sv'' ->
    content_post l (Get sreq now) s t'' s1 sv'' []) as Hq.
  { intros t'' sv'' Hsp Hc Hn Hg Hsv. apply content_post_quiet; try done.
    - intros c0 [Hc0|Hc0]%elem_of_app; left; apply elem_of_app; left; auto.
    - intros p [Hp0|Hp0]%elem_of_app; apply elem_of_app; left; auto. }
  destruct r as [o|].
  2: { injection Hs as <- <- <-. apply Hq; try done; by intros ? ?%elem_of_nil. }
  specialize (Hr o eq_refl). pose proof (map_claim _ _ _ Hr) as Hclaim.
  assert (forall p, p ∈ file_of (target o) -> p ∈ lru_files s) as Hof
    by (intros p Hp0; apply elem_of_concat_map; by exists (cache_key sreq, o)).
  destruct (before_request (policy o) sreq now) as [res|] eqn:Eb.
  2: { injection Hs as <- <- <-. apply Hq; try done. by intros ? ?%elem_of_nil. }
  destruct (target o) as [path|b] eqn:Et; injection Hs as <- <- <-; apply Hq; try done;
    try (by intros ? ?%elem_of_nil).
  - by intros c0 ->%list_elem_of_singleton.
  - intros p Hp0. cbn in Hp0. rewrite Et in Hp0. auto.
  - apply Forall_singleton. destruct (Hcl (claim_of (cache_key sreq) o None)) as (r & Hin0 & Hk & Hpol & Hst & Hok & _ & Htg);
      [apply elem_of_app; by left|]. cbn in *. rewrite Et in Htg. subst b. exists r. rewrite <- Hpol. split_and!; try done.
Qed.

Lemma content_open l sreq now res obj path s s' t' :
  content_pre l (Open sreq now res obj path) s -> open_step sreq now res obj path s = (s', t') ->
  content_post l (Open sreq now res obj path) s t' s' [] [].
Proof.
  intros [_ _ Hcl [Hb Ht]] E. unfold open_step, run_io in E. pose proof (open_read_spec path (disk s)) as Ho.
  destruct (open_read path (disk s)) as [c d]. destruct Ho as (_ & _ & Hf & Hc). injection E as <- <-.
  apply content_post_quiet; try done; [by destruct c| |by destruct c|by destruct c].
  intros c0 [Hc0|Hc0]%elem_of_app; [left; apply elem_of_app; by left|]. right.
  destruct c as [content|]; [|by apply elem_of_nil in Hc0]. apply list_elem_of_singleton in Hc0 as ->.
  destruct (Hcl (claim_of (cache_key sreq) obj None)) as (r & Hr & Hk & Hp & Hst & Hok & _ & Htg);
    [apply elem_of_app; right; by left|].
  exists r. cbn in *. rewrite Ht in *. destruct Hc as [Hc|Hc]; [done|]. rewrite <- Hc in *.
  destruct Htg as [Htg|Htg]; [done|]. injection Htg as ->. split_and!; try done; [|by right]. by intros b [= <-].
Qed.

Lemma content_read l sreq now res obj path sent rest r delivered s t' sv :
  content_pre l (Streaming sreq now res obj path sent rest) s -> can_read rest r = true ->
  stream_step sreq now res obj path sent rest r delivered = (t', sv) ->
  content_post l (Streaming sreq now res obj path sent rest) s t' s (option_list sv) [].
Proof.
  intros [_ _ Hcl [Hb Ht]] Hr E.
  assert (forall complete, (complete = true -> rest = []) ->
    served_ok l {| sv_req := sreq; sv_now := now; sv_res := res; sv_body := sent; sv_complete := complete |}) as Hsv.
  { intros complete Hw. destruct (Hcl (claim_of (cache_key sreq) obj (Some (sent ++ rest))))
      as (x & Hx & Hk & Hpol & Hst & Hok & Hc & _); [apply elem_of_app; right; by left|].
    exists x. cbn in *. rewrite <- Hpol, <- (Hc _ eq_refl). split_and!; try done; [by eexists|].
    intros ->%Hw. by rewrite app_nil_r. }
  assert (forall complete, (complete = true -> rest = []) -> content_post l (Streaming sreq now res obj path sent rest) s
    (stream_end obj path sent) s [{| sv_req := sreq; sv_now := now; sv_res := res; sv_body := sent; sv_complete := complete |}] []) as Hend.
  { intros complete Hw. unfold stream_end. apply content_post_quiet; try done; try (by case_bool_decide).
    - intros c [Hc|Hc]%elem_of_app; left; apply elem_of_app; [by left|]. case_bool_decide; by apply elem_of_nil in Hc.
    - intros p [Hp|Hp]%elem_of_app; apply elem_of_app; [by left|]. right.
      case_bool_decide; [by apply elem_of_nil in Hp|]. cbn in *. by rewrite Ht.
    - by apply Forall_singleton, Hsv. }
  unfold stream_step in E. destruct r as [[|b bytes]|]; [|destruct delivered|]; injection E as <- <-; cbn [option_list].
  - apply Hend. intros _. by apply bool_decide_eq_true in Hr.
  - apply starts_with_spec in Hr as [rest' ->]. cbn [app length drop]. rewrite drop_app_length. apply content_post_quiet; try done.
    intros c Hc. left. cbn [claims_of] in *. by rewrite <- app_assoc in Hc.
  - apply content_post_quiet; try done.
    + intros c [Hc|?%elem_of_nil]%elem_of_app; [left; apply elem_of_app; by left|done].
    + intros p [Hp|?%elem_of_nil]%elem_of_app; [apply elem_of_app; by left|done].
    + by apply Forall_singleton, Hsv.
  - by apply Hend.
Qed.

Lemma content_evict l sreq obj s s' t' :
  content_pre l (EvictEntry sreq obj) s -> evict_entry_step sreq obj s = (s', t') ->
  content_post l (EvictEntry sreq obj) s t' s' [] [].
Proof.
  intros [Hwf _ _ _]. unfold evict_entry_step, evict_if_generation.
  assert (content_post l (EvictEntry sreq obj) s (Fetch sreq) s [] []) as Hstay.
  { apply content_post_quiet; try done; [by left|]. intros p [Hp|?%elem_of_nil]%elem_of_app; [|done]. apply elem_of_app; by left. }
  destruct (poisoned s); [by intros [= <- <-]|]. case_bool_decide; cbn [negb]; [|by intros [= <- <-]].
  pose proof (lru_pop_iter (inner s) (cache_key sreq) Hwf) as Hit.
  destruct (lru_pop_entry (inner s) (cache_key sreq)) as [c popped]. cbn [fst snd] in *. intros [= <- <-].
  assert (forall e, e ∈ lru_iter (inner (with_inner s c)) -> e ∈ [] ++ lru_iter (inner s)) as Hin.
  { cbn. rewrite Hit. intros e He. by apply list_elem_of_filter in He as [_ ?]. }
  apply content_post_quiet; try done.
  - destruct popped; [|done]. by destruct (target obj).
  - intros c0 [Hc|Hc]%elem_of_app; left; apply elem_of_app; left; [by apply (map_claims_incl s _ [] Hin)|].
    destruct popped; [destruct (target obj)|]; by apply elem_of_nil in Hc.
  - intros p [Hp|Hp]%elem_of_app; apply elem_of_app; [left; by apply (lru_files_incl s _ [] Hin)|right].
    cbn [named]. destruct popped; [|by apply elem_of_nil in Hp]. by destruct (target obj); [|apply elem_of_nil in Hp].
  - destruct popped; [|done]. by destruct (target obj).
Qed.

(** Removing a file the task refers to. *)
Lemma content_remove {A} l t s (m : IO A) p t' :
  (forall d, let '(_, d') := m d in touches [p] d d' /\ CACHE_FILE_SEQ d' = CACHE_FILE_SEQ d /\
     (files d' !! p = None \/ files d' = files d) /\ (outcomes d = [] -> files d' !! p = None)) ->
  p ∈ named t -> claims_of t' = [] -> named t' = [] -> spilling t' = [] -> task_good t' (disk s) ->
  (forall d d', task_good t' d -> task_good t' d') ->
  content_post l t s t' (snd (run_io m s)) [] [].
Proof.
  intros Hm Hp Hc Hn Hs Hg Hany. specialize (Hm (disk s)). unfold run_io. destruct (m (disk s)) as [a d]. cbn [snd].
  destruct Hm as (Ht & _ & Hgone & _). split; cbn [with_disk disk]; rewrite ?Hc, ?Hn, ?Hs, ?app_nil_r.
  - intros c Hin. left. apply elem_of_app. by left.
  - intros q Hin. left. apply elem_of_app. by left.
  - by intros q ?%elem_of_nil.
  - intros q. destruct (decide (q = p)) as [-> |Hq].
    + destruct Hgone as [Hgone| ->]; [right; right; right; by split|by left].
    + left. apply Ht. by rewrite list_elem_of_singleton.
  - by eapply Hany.
  - apply Forall_nil_2.
Qed.


(** The entry a push displaces was in the map, or is the new one. *)
Lemma content_displaced l key obj counted0 s c disp t' :
  (forall e, e ∈ lru_iter c ++ option_list disp -> e ∈ (key, obj) :: lru_iter (inner s)) ->
  t' = Finished \/ (exists k v old, disp = Some (k, v) /\ target v = File old /\ t' = Decr old None) ->
  content_post l (Publish key obj counted0) s t' (with_inner s c) [] [].
Proof.
  intros Hin Ht'.
  assert (forall e, e ∈ lru_iter (inner (with_inner s c)) -> e ∈ [(key, obj)] ++ lru_iter (inner s)) as Hin1
    by (intros e He; apply Hin, elem_of_app; by left).
  assert (claims_of t' = [] /\ spilling t' = [] /\ task_good t' (disk s)) as (Ec & Es & Hg)
    by (by destruct Ht' as [-> |(? & ? & ? & _ & _ & ->)]).
  assert (forall e p, e ∈ (key, obj) :: lru_iter (inner s) -> p ∈ file_of (target (snd e)) ->
    p ∈ lru_files s ++ named (Publish key obj counted0)) as Hfile.
  { intros e p He Hp. apply elem_of_app. apply elem_of_cons in He as [He|He].
    - subst e. by right.
    - left. apply elem_of_concat_map. by exists e. }
  apply content_post_quiet; try done.
  - rewrite Ec, app_nil_r. intros c0 Hc. left.
    apply (map_claims_incl s _ _ Hin1) in Hc. rewrite elem_of_app in *. cbn in Hc. tauto.
  - intros p [Hp|Hp]%elem_of_app.
    + apply elem_of_concat_map in Hp as (e & He & Hp). by apply (Hfile e); [apply Hin1|].
    + destruct Ht' as [-> |(k & v & old & -> & Ev & ->)]; [by apply elem_of_nil in Hp|].
      apply (Hfile (k, v)); [|cbn; by rewrite Ev]. apply Hin, elem_of_app. right. by left.
Qed.

Lemma content_publish l key obj counted0 s s' t' :
  content_pre l (Publish key obj counted0) s -> publish_step key obj counted0 s = (s', t') ->
  content_post l (Publish key obj counted0) s t' s' [] [].
Proof.
  intros [Hwf Hcap _ _].
  assert (publish_push key obj s = (s', t') -> content_post l (Publish key obj counted0) s t' s' [] []) as Hpush.
  { unfold publish_push, LruCacheManager_push, new_file_path. destruct (poisoned s).
    - intros [= <- <-]. apply content_post_quiet; try done; cbn [named]; destruct (target obj) eqn:Et; try done;
        intros c [Hc|?%elem_of_nil]%elem_of_app; try done; left; apply elem_of_app; by left.
    - pose proof (lru_push_perm (inner s) key obj Hwf Hcap) as Hp.
      destruct (lru_push (inner s) key obj) as [c disp]. cbn [fst snd] in *. intros [= <- <-].
      apply (content_displaced _ _ _ _ _ _ disp); [intros e He; by rewrite Hp|].
      destruct disp as [[k v]|]; [|by left]. destruct (target v) as [old|] eqn:Ev; [|by left].
      case_bool_decide; [by left|right; eauto 6]. }
  unfold publish_step. destruct (new_file_path obj); [destruct counted0|]; try done.
  intros [= <- <-]. apply content_post_quiet; try done; auto.
Qed.

Lemma temp_of_spilling (sp : option SpillFile) p : p ∈ temp_of sp -> p ∈ spill_paths sp.
Proof. destruct sp; [|done]. intros ->%list_elem_of_singleton. by left. Qed.

Hypothesis Hmem : 0 <= mem <= max.
Hypothesis Hmax : max < usize_max.

Lemma content_frame l sreq res received seen st frame s st' s' :
  task_ok pid nanos max mem dir (seq_of s) (Spooling sreq res received seen st) ->
  content_pre l (Spooling sreq res received seen st) s ->
  run_io (spool_frame pid nanos max mem dir (rq_uri sreq) st frame) s = (st', s') ->
  content_post l (Spooling sreq res received seen st) s (Spooling sreq res received (seen ++ [frame]) st') s' [] [].
Proof.
  intros [Hok _] [_ _ _ [Hst Hh]] (d & Hd & ->)%run_io_disk.
  pose proof (spool_frame_spec pid nanos max mem dir Hmem Hmax (rq_uri sreq) seen st frame (disk s) Hok) as Hp.
  rewrite Hd in Hp. destruct Hp as (_ & Hh' & Hmv & _). cbn [fst snd] in *.
  split; cbn [with_disk disk claims_of named]; try apply Forall_nil_2; [by left|by left| | |].
  - cbn [spilling]. intros p Hp. destruct Hmv as [(_ & _ & Hsp)|(_ & _ & _ & Hsp)].
    + left. destruct Hsp as [[Hsp _]|Hsp]; rewrite Hsp in Hp; [by apply elem_of_nil in Hp|done].
    + right. exists (rq_uri sreq). destruct Hsp as [[Hsp _]|Hsp]; rewrite Hsp in Hp; [by apply elem_of_nil in Hp|done].
  - cbn [spilling]. intros q. destruct Hmv as [(_ & [Ht _] & _)|(_ & _ & [Ht _] & _)].
    + destruct (decide (q ∈ temp_of (spill st))) as [Hq|Hq]; [right; left; by apply temp_of_spilling|left; by apply Ht].
    + destruct (decide (q ∈ [temp_path (names pid nanos dir (rq_uri sreq) (CACHE_FILE_SEQ (disk s)))])) as [Hq|Hq];
        [|left; by apply Ht]. right; right; left. exists (rq_uri sreq).
      apply list_elem_of_singleton in Hq as ->. by left.
  - split; [done|]. by apply Hh'.
Qed.

Lemma content_dropped l sreq res received seen st s :
  content_post l (Spooling sreq res received seen st) s Finished (snd (run_io (abort_spill (spill st)) s)) [] [].
Proof.
  pose proof (abort_spill_spec (spill st) (disk s)) as Ha. unfold run_io.
  destruct (abort_spill (spill st) (disk s)) as [[] d]. destruct Ha as ([Ht _] & _ & _). cbn [snd].
  split; cbn [with_disk disk claims_of named spilling]; try done; auto; [by intros p ?%elem_of_nil|].
  intros q. destruct (decide (q ∈ temp_of (spill st))) as [Hq|Hq]; [right; left; by apply temp_of_spilling|left; by apply Ht].
Qed.

Lemma content_finish l sreq res received seen st s r s' :
  task_ok pid nanos max mem dir (seq_of s) (Spooling sreq res received seen st) ->
  content_pre l (Spooling sreq res received seen st) s -> run_io (spool_finish st) s = (r, s') ->
  content_post l (Spooling sreq res received seen st) s
    (match r with Some (tgt, h) => Committed sreq res received tgt h | None => Finished end) s' []
    (match r with Some _ => [{| st_req := sreq; st_res := res; st_received := received; st_frames := seen |}] | None => [] end).
Proof.
  intros [Hok Hnamed] [_ _ _ [Hst Hh]] (d & Hd & ->)%run_io_disk.
  assert (forall f, spill st = Some f -> temp_path f <> final_path f) as Hne.
  { intros f Ef. destruct (Hnamed f Ef) as (seq & Hseq & ->). apply temp_final_ne. lia. }
  pose proof (spool_finish_spec max mem Hmem Hmax seen st (disk s) Hok Hne) as Hp. rewrite Hd in Hp.
  destruct Hp as (_ & Hr & _). destruct r as [[tgt h]|].
  - destruct Hr as (Hall & _ & _ & Htg).
    assert (forall b, tgt = OnMemory b -> d = disk s) as Hsame by (intros b ->; apply Htg).
    split; cbn [with_disk disk claims_of named spilling]; try done; [| |by intros p ?%elem_of_nil|].
    + intros c [Hc|Hc]%elem_of_app; [left; apply elem_of_app; by left|right]. apply list_elem_of_singleton in Hc as ->.
      eexists. split; [apply elem_of_app; right; by left|]. cbn. split_and!; try done.
      destruct tgt as [p|b]; [|apply Htg]. right. destruct Htg as (f & _ & _ & _ & _ & Hc). by apply Hc.
    + intros p [Hp|Hp]%elem_of_app; [left; apply elem_of_app; by left|right]. split; [|done].
      destruct tgt as [p'|b]; [|by apply elem_of_nil in Hp]. destruct Htg as (f & -> & -> & _).
      apply list_elem_of_singleton in Hp as ->. right. by left.
    + intros q. destruct tgt as [p'|b]; [|left; by rewrite (Hsame b eq_refl)].
      destruct Htg as (f & -> & -> & [Ht _] & _).
      destruct (decide (q ∈ [temp_path f; final_path f])) as [Hq|Hq]; [by right; left|left; by apply Ht].
  - destruct Hr as [[Ht _] _].
    split; cbn [with_disk disk claims_of named spilling]; try done; auto; [by intros p ?%elem_of_nil|].
    intros q. destruct (decide (q ∈ temp_of (spill st))) as [Hq|Hq]; [right; left; by apply temp_of_spilling|left; by apply Ht].
Qed.

Lemma task_step_content l t e s s' t' sv st :
  task_step pid nanos max mem dir t e s s' t' sv st -> task_ok pid nanos max mem dir (seq_of s) t ->
  content_pre l t s -> content_post l t s t' s' sv st.
Proof.
  intros Hstep Hok Hpre.
  destruct Hstep as [sreq now s s' t sv E|sreq now res obj path s s' t E| |path s|sreq obj s s' t E|path resume s
    |path resume s|sreq res received s|sreq res received seen st frame s st' s' E|sreq res received seen st frame s|sreq res received seen st s tgt h s' E
    |sreq res received seen st s s' E|sreq res received tgt h s obj s' E|key obj counted0 s s' t E].
  - by apply content_get.
  - by apply content_open.
  - by eapply content_read.
  - apply (content_remove _ _ _ _ path); try done; [apply remove_uncounted_spec|by left].
  - by apply content_evict.
  - apply content_post_quiet; try done; auto.
  - apply (content_remove _ _ _ _ path); try (by destruct resume); [apply remove_file_spec|by left].
  - split; unfold fetch_step, get_policy_if_cacheable;
      (destruct res as [res|]; [destruct (is_storable (policy_new sreq res received)) eqn:Es|]); cbn; try done; auto; by intros ? ?%elem_of_nil.
  - by apply content_frame.
  - by apply content_dropped.
  - by apply (content_finish _ _ _ _ _ _ _ (Some (tgt, h))).
  - by apply (content_finish _ _ _ _ _ _ _ None).
  - injection E as <- <-. apply content_post_quiet; try done; auto.
  - by apply content_publish.
Qed.

(** ** The invariant *)

Definition spilled (ts : list Task) : list str := concat (map spilling ts).

Record content_inv y : Prop := {
  ci_claims : forall c, c ∈ claims y -> stored_as (stored y) (files (disk (shared y))) c;
  ci_named : forall p, p ∈ lru_files (shared y) ++ concat (map named (tasks y)) ->
    issued pid nanos dir (seq_of (shared y)) p /\ p ∉ spilled (tasks y);
  ci_good : forall t, t ∈ tasks y -> task_good t (disk (shared y));
  ci_served : Forall (served_ok (stored y)) (served y)
}.

Lemma spilling_owned t p : p ∈ spilling t -> p ∈ owns t.
Proof. destruct t; cbn; try done; by intros ?%elem_of_nil. Qed.

Lemma spilled_owned ts p : p ∈ spilled ts -> p ∈ owned ts.
Proof. intros (t & Ht & Hp)%elem_of_concat_map. apply elem_of_concat_map. exists t. split; [done|by apply spilling_owned]. Qed.

Lemma claim_named s t c p :
  c ∈ map_claims s ++ claims_of t -> p ∈ file_of (cl_target c) -> p ∈ lru_files s ++ named t.
Proof.
  intros [Hc|Hc]%elem_of_app Hp; apply elem_of_app.
  - left. apply list_elem_of_fmap in Hc as ([k o] & -> & Hin). apply elem_of_concat_map. by exists (k, o).
  - right. destruct t; cbn in Hc; try (by apply elem_of_nil in Hc); by apply list_elem_of_singleton in Hc as ->.
Qed.

Lemma in_around {A} (f : Task -> list A) l t r x :
  x ∈ concat (map f (l ++ t :: r)) <-> x ∈ f t \/ x ∈ concat (map f (l ++ r)).
Proof. clear Hmem Hmax. rewrite !map_app, !concat_app. cbn. rewrite !elem_of_app. tauto. Qed.


Lemma in_beside {A} (f : Task -> list A) L l t r x :
  x ∈ L ++ concat (map f (l ++ t :: r)) <-> x ∈ L ++ f t \/ x ∈ concat (map f (l ++ r)).
Proof. clear Hmem Hmax. rewrite !elem_of_app, in_around. tauto. Qed.

(** ** A step beside the other tasks *)

Section beside.
Context (n : Z) (cap : nat) (y : System) (t t' : Task) (s' : CacheState) (sv : list Served) (st : list StoredResponse).
Context (l r : list Task).
Hypothesis Hacc : acc_inv pid nanos max mem dir n cap y.
Hypothesis Hinv : content_inv y.
Hypothesis Etasks : tasks y = l ++ t :: r.
Hypothesis Hseq : seq_of (shared y) <= seq_of s'.
Hypothesis Hpost : content_post (stored y) t (shared y) t' s' sv st.

Lemma beside_fresh p uri : issued pid nanos dir (seq_of (shared y)) p -> p ∉ fresh_paths (shared y) uri.
Proof. intros Hp. apply fresh_not_issued; [|done]. by apply Hacc. Qed.

Lemma beside_spilling p :
  p ∈ spilling t -> p ∉ spilled (l ++ r) /\ issued pid nanos dir (seq_of (shared y)) p.
Proof.
  intros Hp. pose proof (inv_nodup _ _ _ _ _ _ _ _ Hacc) as Hnd. rewrite Etasks, owned_app, owned_cons in Hnd.
  assert (lru_files (shared y) ++ owned l ++ owns t ++ owned r ≡ₚ owns t ++ owned (l ++ r) ++ lru_files (shared y)) as Hperm
    by (rewrite owned_app; perm).
  rewrite Hperm in Hnd. apply NoDup_app in Hnd as (_ & Hnd & _). split.
  - intros Hin%spilled_owned. eapply Hnd; [by apply spilling_owned|]. apply elem_of_app. by left.
  - apply (inv_issued _ _ _ _ _ _ _ _ Hacc). apply elem_of_app. right. rewrite Etasks. apply in_around. left.
    by apply spilling_owned.
Qed.

(** Paths in use before the step. *)
Definition used p : Prop := p ∈ lru_files (shared y) ++ named t \/ p ∈ concat (map named (l ++ r)).

Lemma beside_used p :
  used p -> issued pid nanos dir (seq_of (shared y)) p /\ p ∉ spilling t /\ p ∉ spilled (l ++ r).
Proof.
  intros Hp. destruct (ci_named _ Hinv p) as [Hi Hs].
  - rewrite Etasks. by apply in_beside.
  - split; [done|]. unfold spilled in *. rewrite Etasks, in_around in Hs. tauto.
Qed.

Lemma beside_stable p :
  used p -> files (disk s') !! p = files (disk (shared y)) !! p \/ files (disk s') !! p = None.
Proof.
  intros (Hi & Hs & _)%beside_used. destruct (cp_files _ _ _ _ _ _ _ Hpost p) as [?|[?|[[uri Hu]|[_ ?]]]]; auto; [done|].
  by destruct (beside_fresh p uri Hi).
Qed.

Lemma beside_claims c :
  c ∈ map_claims s' ++ concat (map claims_of (l ++ t' :: r)) -> stored_as (stored y ++ st) (files (disk s')) c.
Proof.
  pose proof (ci_claims _ Hinv) as Hcl. unfold claims in Hcl. rewrite Etasks in Hcl.
  rewrite in_beside. intros [Hc|Hc].
  - apply (cp_claims _ _ _ _ _ _ _ Hpost) in Hc as [Hc|Hc]; [|done]. eapply stored_as_mono.
    + intros p Hp. apply beside_stable. left. by eapply claim_named.
    + apply Hcl, in_beside. by left.
  - eapply stored_as_mono; [|apply Hcl, in_beside; by right].
    intros p Hp. apply beside_stable. right. apply elem_of_concat_map in Hc as (t0 & Ht0 & Hc).
    apply elem_of_concat_map. exists t0. split; [done|].
    destruct t0; cbn in Hc; try (by apply elem_of_nil in Hc); by apply list_elem_of_singleton in Hc as ->.
Qed.

Lemma beside_named p :
  p ∈ lru_files s' ++ concat (map named (l ++ t' :: r)) ->
  issued pid nanos dir (seq_of s') p /\ p ∉ spilled (l ++ t' :: r).
Proof.
  unfold spilled. rewrite in_around, in_beside. intros Hp.
  assert (used p \/ p ∈ spilling t /\ spilling t' = []) as [Hold|[Hsp Hnil]].
  { unfold used. destruct Hp as [[?|?]%(cp_named _ _ _ _ _ _ _ Hpost)|?]; auto. }
  - destruct (beside_used p Hold) as (Hi & Hs & Ho). split; [by eapply issued_mono|].
    intros [[?|[uri Hu]]%(cp_spilling _ _ _ _ _ _ _ Hpost)|?]; [done| |done]. by destruct (beside_fresh p uri Hi).
  - destruct (beside_spilling p Hsp) as [Ho Hi]. split; [by eapply issued_mono|].
    rewrite Hnil. intros [?%elem_of_nil|?]; done.
Qed.

Lemma beside_good t0 : t0 ∈ l ++ t' :: r -> task_good t0 (disk s').
Proof.
  intros Ht0. assert (t0 = t' \/ t0 ∈ l ++ r) as [-> |Hin] by (rewrite elem_of_app, elem_of_cons in *; tauto).
  { apply Hpost. }
  assert (task_good t0 (disk (shared y))) as Hg.
  { apply (ci_good _ Hinv). rewrite Etasks. rewrite elem_of_app, elem_of_cons in *. tauto. }
  destruct t0 as [| | | | | | | |sreq res received seen sp| | |]; try done. destruct Hg as [Hst Hh]. split; [done|].
  unfold spill_holds in *. destruct (spill sp) as [f|] eqn:Ef; [|done]. rewrite <- Hh.
  assert (temp_path f ∈ spilled (l ++ r)) as Hsp.
  { apply elem_of_concat_map. eexists. split; [done|]. cbn. rewrite Ef. by left. }
  destruct (cp_files _ _ _ _ _ _ _ Hpost (temp_path f)) as [?|[Hm|[[uri Hu]|[Hn _]]]]; [done|exfalso..].
  - by apply beside_spilling in Hm as [? _].
  - destruct (beside_fresh (temp_path f) uri); [|done]. apply (inv_issued _ _ _ _ _ _ _ _ Hacc), elem_of_app. right.
    rewrite Etasks. apply in_around. right. by apply spilled_owned.
  - destruct (beside_used (temp_path f)) as (_ & _ & ?); [|done]. left. apply elem_of_app. by right.
Qed.
End beside.

Lemma content_inv_step n cap y y' :
  0 <= n < 2 ^ 64 - 1 -> acc_inv pid nanos max mem dir n cap y -> content_inv y ->
  step pid nanos max mem dir false y y' -> content_inv y'.
Proof.
  intros Hn Hacc Hinv Hs. destruct Hs as [y req uri now _|y i t e s' t' sv st Ht Hs|y|y fs Hext]; [| | |done].
  - destruct Hinv as [Hcl Hnm Hg Hsv]. unfold claims, spilled in *.
    split; cbn [shared tasks served stored]; unfold claims, spilled; cbn [shared tasks];
      rewrite ?map_app, ?concat_app; cbn [map claims_of named spilling concat]; rewrite ?app_nil_r; try done.
    intros t [Ht|Ht]%elem_of_app; [by apply Hg|]. by apply list_elem_of_singleton in Ht as ->.
  - destruct (tasks_split _ _ _ Ht) as (l & r & E & E'). specialize (E' t').
    assert (local_post pid nanos max mem dir t (shared y) t' s') as Hlp.
    { eapply task_step_post; try done. eapply acc_inv_pre; [|exact Hacc|exact Ht]. lia. }
    assert (seq_of (shared y) <= seq_of s') as Hseq
      by (destruct (lp_paths _ _ _ _ _ _ _ _ _ Hlp) as (? & ? & _ & [[_ ?]|[? _]]); lia).
    assert (content_post (stored y) t (shared y) t' s' sv st) as Hpost.
    { eapply task_step_content; [done| |].
      - apply (inv_ok _ _ _ _ _ _ _ _ Hacc). by eapply list_elem_of_lookup_2.
      - split; try apply Hacc; [destruct (inv_cap _ _ _ _ _ _ _ _ Hacc); lia| |].
        + intros c Hc. apply (ci_claims _ Hinv). unfold claims. rewrite E. apply in_beside. by left.
        + apply (ci_good _ Hinv). by eapply list_elem_of_lookup_2. }
    split; cbn [shared tasks served stored]; unfold claims; cbn [shared tasks]; rewrite ?E'.
    + intros c Hc. by eapply beside_claims.
    + intros p Hp. by eapply beside_named.
    + intros t0 Ht0. by eapply beside_good.
    + apply Forall_app. split; [|apply Hpost]. eapply Forall_impl; [apply Hinv|]. intros v Hv. by apply served_ok_mono.
  - by destruct Hinv.
Qed.

(** ** Files left behind *)

(** Files on the disk that the task will publish or remove. *)
Definition live t : list str :=
  match t with Spooling _ _ _ _ st => temp_of (spill st) | _ => owns t end.

(** Without failing operations, a file on the disk after the step is one of the map or of
    the task, or was there before and belonged to neither. *)
Definition tidy t s t' s' : Prop :=
  outcomes (disk s) = [] -> outcomes (disk s') = [] /\
  forall p, is_Some (files (disk s') !! p) ->
    p ∈ lru_files s' ++ live t' \/ (is_Some (files (disk s) !! p) /\ p ∉ lru_files s ++ live t).

(** Steps that only hand files over. *)
Lemma tidy_kept t s t' s' :
  outcomes (disk s') = outcomes (disk s) \/ outcomes (disk s) = [] /\ outcomes (disk s') = [] ->
  files (disk s') = files (disk s) ->
  (forall p, p ∈ lru_files s ++ live t -> p ∈ lru_files s' ++ live t') -> tidy t s t' s'.
Proof.
  intros Ho Hf Hp Hnil. split; [destruct Ho as [-> |[_ ?]]; done|]. intros p. rewrite Hf. intros Hs.
  destruct (decide (p ∈ lru_files s ++ live t)); auto.
Qed.

(** The count shows that no file is dropped on the way. *)
Lemma tidy_counted t s t' s' :
  disk s' = disk s -> file_cnt s' = file_cnt s -> local_post pid nanos max mem dir t s t' s' ->
  live t = owns t -> live t' = owns t' ->
  counted t = Z.of_nat (length (owns t)) -> counted t' = Z.of_nat (length (owns t')) -> tidy t s t' s'.
Proof.
  intros Hd Hc Hpost E E' El El'. apply tidy_kept; [left; by rewrite Hd|by rewrite Hd|]. rewrite E, E'.
  destruct (lp_paths _ _ _ _ _ _ _ _ _ Hpost) as (lost & fresh & Hp & Hf).
  pose proof (lp_count _ _ _ _ _ _ _ _ _ Hpost) as Hcnt. unfold seq_of in Hf. rewrite Hd in Hf.
  destruct Hf as [[-> _]|[Hf _]]; [|lia]. pose proof (Permutation_length Hp) as Hlen. rewrite !length_app in Hlen. cbn in Hlen.
  destruct lost; [|cbn in Hlen; lia]. rewrite !app_nil_r in Hp. intros p. by rewrite Hp.
Qed.

Lemma tidy_get sreq now s s' t' sv :
  lru_wf (inner s) -> get_step sreq now s = (s', t', sv) -> tidy (Get sreq now) s t' s'.
Proof.
  intros Hwf. unfold get_step, LruCacheManager_get. destruct (poisoned s).
  { intros [= <- <- _]. apply tidy_kept; try done. by left. }
  pose proof (lru_get_perm (inner s) (cache_key sreq) Hwf) as Hp.
  destruct (lru_get (inner s) (cache_key sreq)) as [c r]. cbn [fst snd] in *. intros Hs.
  pose proof (entry_files_perm (fun o => file_of (target o)) _ _ Hp) as Hf.
  set (s1 := {| inner := c; poisoned := false; lru_cnt := lru_cnt s; file_cnt := file_cnt s;
                disk := disk s; CACHE_OBJECT_GEN := CACHE_OBJECT_GEN s |}) in *.
  assert (s' = s1) as ->.
  { destruct r as [o|]; [|congruence]. destruct (before_request _ _ _); [destruct (target o)|]; congruence. }
  apply tidy_kept; [by left|done|]. intros p [Hin|?%elem_of_nil]%elem_of_app; [|done]. apply elem_of_app; left.
  unfold lru_files. cbn [inner s1]. by rewrite Hf.
Qed.

Lemma tidy_evict sreq obj s s' t' :
  local_pre pid nanos max mem dir (EvictEntry sreq obj) s -> evict_entry_step sreq obj s = (s', t') ->
  tidy (EvictEntry sreq obj) s t' s'.
Proof.
  intros Hpre E. pose proof (post_evict pid nanos max mem dir _ _ _ _ _ Hpre E) as Hpost.
  unfold evict_entry_step, evict_if_generation in E.
  assert (disk s' = disk s /\ file_cnt s' = file_cnt s /\ (t' = Fetch sreq \/ exists p, t' = Decr p (Some sreq))) as (Hd & Hc & Ht').
  { destruct (poisoned s); [injection E as <- <-; auto|]. case_bool_decide; cbn [negb] in E; [|injection E as <- <-; auto].
    destruct (lru_pop_entry (inner s) (cache_key sreq)) as [c popped]. injection E as <- <-.
    split_and!; try done. destruct popped; [destruct (target obj)|]; eauto. }
  apply tidy_counted; try done; by destruct Ht' as [-> |[p ->]].
Qed.

Lemma tidy_publish key obj counted0 s s' t' :
  local_pre pid nanos max mem dir (Publish key obj counted0) s -> publish_step key obj counted0 s = (s', t') ->
  tidy (Publish key obj counted0) s t' s'.
Proof.
  intros Hpre E. pose proof (post_publish pid nanos max mem dir _ _ _ _ _ _ Hpre E) as Hpost.
  assert (counted0 = true \/ file_of (target obj) = [] -> publish_push key obj s = (s', t') ->
    tidy (Publish key obj counted0) s t' s') as Hpush.
  { intros Hcase E2.
    assert (disk s' = disk s /\ file_cnt s' = file_cnt s /\ (t' = Finished \/ exists p, t' = Decr p None)) as (Hd & Hc & Ht').
    { unfold publish_push, LruCacheManager_push in E2.
      destruct (poisoned s); [injection E2 as <- <-; destruct (new_file_path obj); eauto|].
      destruct (lru_push (inner s) key obj) as [c disp]. injection E2 as <- <-. split_and!; try done.
      destruct disp as [[k v]|]; [|by left]. destruct (target v); [|by left]. case_bool_decide; eauto. }
    apply tidy_counted; try done; try (by destruct Ht' as [-> |[p ->]]).
    cbn. destruct Hcase as [-> |Hnil]; [done|]. destruct counted0; [done|]. by rewrite Hnil. }
  unfold publish_step, new_file_path in E. destruct (target obj) eqn:Et; [destruct counted0|].
  - apply Hpush; [by left|done].
  - injection E as <- <-. apply tidy_kept; [by left|done|done].
  - apply Hpush; [by right|done].
Qed.

(** Removing the file the task answers for, or one it does not. *)
Lemma tidy_remove {A} t s (m : IO A) p t' :
  (forall d, let '(_, d') := m d in touches [p] d d' /\ CACHE_FILE_SEQ d' = CACHE_FILE_SEQ d /\
     (files d' !! p = None \/ files d' = files d) /\ (outcomes d = [] -> files d' !! p = None)) ->
  (forall q, q ∈ live t -> q = p) -> tidy t s t' (snd (run_io m s)).
Proof.
  intros Hm Hl Ho. specialize (Hm (disk s)). unfold run_io. destruct (m (disk s)) as [a d]. cbn [snd with_disk disk].
  destruct Hm as ([Ht Hto] & _ & _ & Hgone). split; [auto|]. intros q Hq.
  destruct (decide (q = p)) as [-> |Hne]; [rewrite Hgone in Hq by done; by destruct Hq|].
  rewrite Ht in Hq by (by rewrite list_elem_of_singleton). change (lru_files (with_disk s d)) with (lru_files s).
  destruct (decide (q ∈ lru_files s)); [left; apply elem_of_app; by left|]. right. split; [done|].
  intros [?|Hlive]%elem_of_app; [done|]. by apply Hl in Hlive.
Qed.

(** The loop, from [no_leak]. *)
Lemma tidy_spool sreq res received seen st s d sp t' :
  (outcomes (disk s) = [] -> outcomes d = []) -> live t' = temp_of sp -> no_leak (spill st) sp (disk s) d ->
  tidy (Spooling sreq res received seen st) s t' (with_disk s d).
Proof.
  intros Ho Ep Hl Hnil. split; [auto|]. cbn [with_disk disk]. intros p Hp.
  change (lru_files (with_disk s d)) with (lru_files s). cbn [live].
  destruct (decide (p ∈ lru_files s)); [left; apply elem_of_app; by left|].
  destruct (Hl Hnil p Hp) as [Hin|[Hnot Hs]].
  - left. apply elem_of_app. right. by rewrite Ep.
  - right. split; [done|]. by intros [?|?]%elem_of_app.
Qed.

Lemma tidy_finish sreq res received seen st s r s' :
  task_ok pid nanos max mem dir (seq_of s) (Spooling sreq res received seen st) -> run_io (spool_finish st) s = (r, s') ->
  tidy (Spooling sreq res received seen st) s (match r with Some (tgt, h) => Committed sreq res received tgt h | None => Finished end) s'.
Proof.
  intros [Hok Hnamed] (d & Hd & ->)%run_io_disk.
  assert (forall f, spill st = Some f -> temp_path f <> final_path f) as Hne.
  { intros f Ef. destruct (Hnamed f Ef) as (seq & Hseq & ->). apply temp_final_ne. lia. }
  pose proof (spool_finish_spec max mem Hmem Hmax seen st (disk s) Hok Hne) as Hp. rewrite Hd in Hp.
  destruct Hp as (_ & Hr & _). destruct r as [[tgt h]|].
  2: { destruct Hr as [[_ Ho] Hl]. by apply (tidy_spool _ _ _ _ _ _ _ None). }
  destruct Hr as (_ & _ & _ & Htg). destruct tgt as [p|b].
  - destruct Htg as (f & Ef & -> & [Ht Hto] & Hgone & _). intros Ho. split; [auto|]. cbn [with_disk disk live owns file_of].
    change (lru_files (with_disk s d)) with (lru_files s). rewrite Ef. cbn [temp_of]. intros q Hq.
    destruct (decide (q = temp_path f)) as [-> |Hq1]; [rewrite Hgone in Hq; by destruct Hq|].
    destruct (decide (q = final_path f)) as [-> |Hq2]; [left; apply elem_of_app; right; by left|].
    rewrite Ht in Hq by set_solver. destruct (decide (q ∈ lru_files s)); [left; apply elem_of_app; by left|].
    right. split; [done|]. by intros [?|?%list_elem_of_singleton]%elem_of_app.
  - destruct Htg as (Es & _ & _ & ->). apply tidy_kept; [by left|done|]. cbn [live]. by rewrite Es.
Qed.

Lemma task_step_tidy t e s s' t' sv st :
  task_step pid nanos max mem dir t e s s' t' sv st -> local_pre pid nanos max mem dir t s -> tidy t s t' s'.
Proof.
  intros Hstep Hpre. pose proof (pre_ok _ _ _ _ _ _ _ Hpre) as Hok.
  destruct Hstep as [sreq now s s' t sv E|sreq now res obj path s s' t E| |path s|sreq obj s s' t E|path resume s
    |path resume s|sreq res received s|sreq res received seen st frame s st' s' E|sreq res received seen st frame s|sreq res received seen st s tgt h s' E
    |sreq res received seen st s s' E|sreq res received tgt h s obj s' E|key obj counted0 s s' t E].
  - eapply tidy_get; [apply Hpre|done].
  - unfold open_step, run_io in E. pose proof (open_read_spec path (disk s)) as Ho.
    destruct (open_read path (disk s)) as [c d]. destruct Ho as ([_ Hto] & _ & Hf & _). injection E as <- <-.
    intros Hnil. split; [auto|]. cbn [with_disk disk]. rewrite Hf. intros p Hp.
    change (lru_files (with_disk s d)) with (lru_files s). cbn [live owns].
    destruct (decide (p ∈ lru_files s)); [left; apply elem_of_app; by left|]. right. by rewrite app_nil_r.
  - apply tidy_kept; [by left|done|]. intros p [Hp|?%elem_of_nil]%elem_of_app; [|done]. apply elem_of_app; by left.
  - apply (tidy_remove _ _ _ path); [apply remove_uncounted_spec|by intros q ?%elem_of_nil].
  - by apply tidy_evict.
  - apply tidy_kept; [by left|done|done].
  - apply (tidy_remove _ _ _ path); [apply remove_file_spec|by intros q ?%list_elem_of_singleton].
  - apply tidy_kept; [by left|done|]. intros p [Hp|?%elem_of_nil]%elem_of_app; [|done]. apply elem_of_app; by left.
  - apply run_io_disk in E as (d & Hd & ->). destruct Hok as [Hok _].
    pose proof (spool_frame_spec pid nanos max mem dir Hmem Hmax (rq_uri sreq) seen st frame (disk s) Hok) as Hp.
    rewrite Hd in Hp. destruct Hp as (_ & _ & Hmv & Hl). cbn [fst snd] in *.
    apply (tidy_spool _ _ _ _ _ _ _ (spill st')); [by eapply spill_moves_outcomes|done|done].
  - pose proof (abort_spill_spec (spill st) (disk s)) as Ha. unfold run_io.
    destruct (abort_spill (spill st) (disk s)) as [[] d]. destruct Ha as ([_ Ho] & _ & Hl).
    by apply (tidy_spool _ _ _ _ _ _ _ None).
  - by apply (tidy_finish _ _ _ _ _ _ (Some (tgt, h))).
  - by apply (tidy_finish _ _ _ _ _ _ None).
  - injection E as <- <-. apply tidy_kept; [by left|done|done].
  - by apply tidy_publish.
Qed.

Definition tidy_inv y : Prop :=
  outcomes (disk (shared y)) = [] /\
  forall p, is_Some (files (disk (shared y)) !! p) -> p ∈ lru_files (shared y) ++ concat (map live (tasks y)).

Lemma tidy_inv_step n cap y y' :
  n < 2 ^ 64 - 1 -> acc_inv pid nanos max mem dir n cap y -> tidy_inv y ->
  step pid nanos max mem dir false y y' -> tidy_inv y'.
Proof.
  intros Hn Hacc [Ho Hp] Hs. destruct Hs as [y req uri now _|y i t e s' t' sv st Ht Hs|y|y fs Hext]; [| |done|done].
  - split; cbn [shared tasks]; [done|]. intros p Hin. rewrite map_app, concat_app, app_assoc.
    apply elem_of_app. left. by apply Hp.
  - destruct (tasks_split _ _ _ Ht) as (l & r & E & E'). specialize (E' t').
    apply task_step_tidy in Hs; [|eapply acc_inv_pre; [exact Hn|exact Hacc|exact Ht]].
    destruct (Hs Ho) as [Ho' Hs']. split; cbn [shared tasks]; [done|]. intros p Hin. rewrite E', in_beside.
    destruct (Hs' p Hin) as [?|[Hold Hnot]]; [by left|]. apply Hp in Hold. rewrite E, in_beside in Hold.
    destruct Hold; [done|by right].
Qed.
End content.
