(* ===== verification/CacheSystem.v ===== *)
(** * The cache as a whole

    From the state [RpxyCache::new] sets up, any number of requests interleave: the
    counters stay exact, hits are responses stored for the same key, no file is left
    behind, and every task comes to its end. *)

From S2P Require Import Prelude RustStr RustNet HttpIface ForwardedSyntax HeaderCommon Globals.
From S2P Require Import StickyCookie CryptoInstance RequestOps Body Cache CacheSpool CacheInv CacheProps CacheContent.

(** ** Tasks end *)

Section ends.
Context `{HttpApi} `{CryptoApi} `{!PolicyApi} `{!LruApi CacheObject}.
Context (pid : Z) (nanos : Z -> Z) (max mem : Z) (dir : str).

Implicit Types (s : CacheState) (t : Task).

(** Steps a task may still take, frames of the body and chunks of the file apart. *)
Definition rank t : nat :=
  match t with
  | Finished => 0
  | Unlink _ None => 1
  | Decr _ None => 2
  | Publish _ _ true => 3
  | Publish _ _ false => 4
  | Committed _ _ _ _ _ => 5
  | Spooling _ _ _ _ _ => 6
  | Fetch _ => 7
  | Unlink _ (Some _) => 8
  | Decr _ (Some _) => 9
  | EvictEntry _ _ => 10
  | RemoveCorrupt _ => 1
  | Streaming _ _ _ _ _ _ _ => 2
  | Open _ _ _ _ _ => 11
  | Get _ _ => 12
  end.

(** A frame of a body, or a chunk of a file, that is passed on. *)
Definition is_data (e : Event) : bool :=
  match e with NextFrame _ true | Read (Ok (_ :: _)) true => true | _ => false end.

(** What a task may be answered: what it has not started to wait for does not occur. *)
Definition answers t (e : Event) : Prop :=
  match t with
  | Finished => False
  | Streaming _ _ _ _ _ _ rest => exists r delivered, e = Read r delivered /\ can_read rest r = true
  | Fetch _ => exists res received, e = Upstream res received
  | Spooling _ _ _ _ _ => (exists frame sent, e = NextFrame frame sent) \/ e = EndOfBody
  | _ => e = Continue
  end.

(** A task's own steps; the shared state may be anything in between. *)
Inductive task_run : Task -> list Event -> Task -> Prop :=
| run_done t : task_run t [] t
| run_step t e s s' t1 sv st evs t2 :
    task_step pid nanos max mem dir t e s s' t1 sv st -> task_run t1 evs t2 -> task_run t (e :: evs) t2.

Lemma rank_publish_push key obj s s' t' : publish_push key obj s = (s', t') -> (rank t' <= 2)%nat.
Proof.
  unfold publish_push. destruct (LruCacheManager_push key obj s) as [s1 [[[k v]|]|e]]; intros [= <- <-]; cbn.
  - destruct (target v); [case_bool_decide|]; cbn; lia.
  - lia.
  - destruct (new_file_path obj); cbn; lia.
Qed.

Lemma rank_end obj path hashed : (rank (stream_end obj path hashed) < 2)%nat.
Proof. unfold stream_end. case_bool_decide; cbn; lia. Qed.

Lemma task_step_rank t e s s' t' sv st :
  task_step pid nanos max mem dir t e s s' t' sv st ->
  (if is_data e then rank t' = rank t else rank t' < rank t)%nat.
Proof.
  destruct 1 as [sreq now s s' t sv E|sreq now res obj path s s' t E|? ? ? obj path sent rest r delivered s t sv Hr E|path s
    |sreq obj s s' t E|path resume s|path resume s|sreq res received s|sreq res received seen st frame s st' s' E
    |sreq res received seen st frame s|sreq res received seen st s tgt h s' E|sreq res received seen st s s' E
    |sreq res received tgt h s obj s' E|key obj counted0 s s' t E]; cbn; try lia.
  - unfold get_step in E. destruct (LruCacheManager_get _ s) as [s1 [[o|]|]]; [|injection E as <- <- <-; cbn; lia..].
    destruct (before_request _ _ _); [destruct (target o)|]; injection E as <- <- <-; cbn; lia.
  - unfold open_step in E. destruct (run_io _ s) as [[c|] s1]; injection E as <- <-; cbn; lia.
  - pose proof (rank_end obj path sent). unfold stream_step in E.
    destruct r as [[|b bytes]|]; [|destruct delivered|]; injection E as <- _; cbn; lia.
  - unfold evict_entry_step in E. destruct (evict_if_generation _ _ s) as [s1 popped]. injection E as <- <-.
    destruct popped; [destruct (target obj)|]; cbn; lia.
  - destruct resume; lia.
  - destruct resume; cbn; lia.
  - unfold fetch_step, get_policy_if_cacheable. destruct res as [res|]; [destruct (is_storable _)|]; cbn; lia.
  - unfold publish_step in E.
    destruct (new_file_path obj); [destruct counted0|]; try (apply rank_publish_push in E; destruct counted0; lia).
    + apply rank_publish_push in E. lia.
    + injection E as <- <-. cbn. lia.
Qed.

(** A task is ready for every answer. *)
Lemma task_ready t e s :
  answers t e -> exists s' t' sv st, task_step pid nanos max mem dir t e s s' t' sv st.
Proof.
  destruct t as [sreq now|sreq now res obj path|sreq now res obj path sent rest|path|sreq obj|path resume
    |path resume|sreq|sreq res received seen sp|sreq res received tgt h|key obj counted0|]; cbn [answers]; [..|done].
  - intros ->. destruct (get_step sreq now s) as [[s' t'] sv] eqn:E. do 4 eexists. by apply step_get.
  - intros ->. destruct (open_step sreq now res obj path s) as [s' t'] eqn:E. do 4 eexists. by apply step_open.
  - intros (r & delivered & -> & Hr). destruct (stream_step sreq now res obj path sent rest r delivered) as [t' sv] eqn:E.
    do 4 eexists. by eapply step_read.
  - intros ->. do 4 eexists. apply step_remove_corrupt.
  - intros ->. destruct (evict_entry_step sreq obj s) as [s' t'] eqn:E. do 4 eexists. by apply step_evict.
  - intros ->. do 4 eexists. apply step_decr.
  - intros ->. do 4 eexists. apply step_unlink.
  - intros (res & received & ->). do 4 eexists. apply step_fetch.
  - intros [(frame & [] & ->)| ->].
    + destruct (run_io (spool_frame pid nanos max mem dir (rq_uri sreq) sp frame) s) as [st' s'] eqn:E. do 4 eexists. by apply step_frame.
    + do 4 eexists. apply step_dropped.
    + destruct (run_io (spool_finish sp) s) as [[[tgt h]|] s'] eqn:E; do 4 eexists; [by eapply step_stored|by eapply step_not_stored].
  - intros ->. destruct (CacheObject_new (policy_new sreq res received) tgt h s) as [obj s'] eqn:E. do 4 eexists. by eapply step_object.
  - intros ->. destruct (publish_step key obj counted0 s) as [s' t'] eqn:E. do 4 eexists. by eapply step_publish.
Qed.

Lemma task_answered t : t = Finished \/ exists e, answers t e.
Proof.
  destruct t; [..|by left]; right; cbn [answers]; try (by exists Continue).
  - exists (Read (Err ()) true). by exists (Err ()), true.
  - exists (Upstream None 0). by exists None, 0.
  - exists EndOfBody. by right.
Qed.

(** Only the frames of a body and the chunks of a file can go on. *)
Lemma data_rank t e s s' t' sv st :
  task_step pid nanos max mem dir t e s s' t' sv st -> is_data e = true -> (2 <= rank t)%nat.
Proof. destruct 1; cbn; try done; lia. Qed.

Lemma short_run t evs t' : (rank t < 2)%nat -> task_run t evs t' -> (length evs <= rank t)%nat.
Proof.
  intros Ht Hrun. induction Hrun as [t|t e s s' t1 sv st evs t2 Hs _ IH]; [cbn; lia|].
  pose proof (task_step_rank _ _ _ _ _ _ _ Hs) as Hk. pose proof (data_rank _ _ _ _ _ _ _ Hs) as Hd.
  destruct (is_data e); [specialize (Hd eq_refl); lia|]. cbn [length]. specialize (IH ltac:(lia)). lia.
Qed.

(** Each chunk of an open file is one byte at least. *)
Lemma stream_run_bound sreq now res obj path sent rest evs t' :
  task_run (Streaming sreq now res obj path sent rest) evs t' -> (length evs <= 2 + length rest)%nat.
Proof.
  revert sent rest. induction evs as [|e evs IH]; intros sent rest Hrun; [cbn; lia|].
  inversion Hrun as [|? ? s s' t1 sv st ? ? Hs Hrest]; subst. inversion Hs as [| |? ? ? ? ? ? ? r delivered ? ? ? Hr E| | | | | | | | | | |]; subst.
  assert (forall t, (rank t < 2)%nat -> task_run t evs t' -> (length evs <= 1)%nat) as Hshort.
  { intros t Ht Hrun'. apply short_run in Hrun'; lia. }
  pose proof (rank_end obj path sent) as Hend. cbn [length]. unfold stream_step in E.
  destruct r as [[|b bytes]|]; [|destruct delivered|]; injection E as <- _.
  - apply Hshort in Hrest; [lia|done].
  - apply IH in Hrest. apply starts_with_spec in Hr as [r ->]. cbn [app length drop] in Hrest. rewrite drop_app_length in Hrest.
    rewrite length_app. cbn [length]. lia.
  - apply Hshort in Hrest; [lia|cbn; lia].
  - apply Hshort in Hrest; [lia|done].
Qed.

(** C38: A task of the cache (a lookup, or the storing of a response) comes to its end
    whatever the other tasks, the disk and the mutex do: it takes at most twelve steps
    beside the frames of the body it forwards and the chunks of the file it sends, and
    once a file is open at most two more than the bytes of that file; until it has
    finished it always waits for something, and goes on with whatever answer it gets. *)
Theorem cache_task_terminates t evs t' :
  task_run t evs t' ->
  (length evs <= 12 + length (filter (fun e => is_data e = true) evs))%nat /\
  (forall sreq now res obj path sent rest, t = Streaming sreq now res obj path sent rest -> (length evs <= 2 + length rest)%nat) /\
  (t' = Finished \/ exists e, answers t' e) /\
  (forall e s, answers t' e -> exists s' t'' sv st, task_step pid nanos max mem dir t' e s s' t'' sv st).
Proof.
  intros Hrun. split_and!.
  - assert (length evs + rank t' <= rank t + length (filter (fun e => is_data e = true) evs))%nat as Hb.
    { induction Hrun as [t|t e s s' t1 sv st evs t2 Hs _ IH]; cbn [length]; [cbn; lia|]. apply task_step_rank in Hs.
      rewrite filter_cons. case_decide; destruct (is_data e); try done; cbn [length]; lia. }
    assert (rank t <= 12)%nat by (destruct t as [| | | | |? []|? []| | | |? ? []|]; cbn; lia). lia.
  - intros ? ? ? ? ? ? ? ->. by eapply stream_run_bound.
  - apply task_answered.
  - intros e s. apply task_ready.
Qed.
End ends.

(** ** From the start *)

Section runs.
Context `{HttpApi} `{CryptoApi} `{!IpNetApi} `{!PolicyApi} `{!LruApi CacheObject} `{!LruLaws CacheObject}.
Context (pid : Z) (nanos : Z -> Z).

Implicit Types (s : CacheState) (t : Task) (y : System).

(** Limits as they come from the configuration. *)
Definition cache_limits_ok (cfg : ProxyConfig) : Prop :=
  0 <= cache_max_entry cfg /\ 0 <= cache_max_each_size cfg < usize_max /\ 0 <= cache_max_each_size_on_memory cfg.

(** The counters of the process, for files and generations, as the cache finds them: they
    do not wrap within [n] steps. *)
Definition counters_last (d : Disk) (gen : Z) (n : nat) : Prop :=
  0 <= CACHE_FILE_SEQ d /\ 0 <= gen /\ Z.of_nat n + Z.max (CACHE_FILE_SEQ d) gen < 2 ^ 64 - 1.

(** A cache that was just created, and [n] steps of the tasks after it. *)
Definition cache_run (cfg : ProxyConfig) (d : Disk) (gen : Z) (external : bool) (n : nat) y : Prop :=
  exists max mem dir s0, RpxyCache_new cfg true d gen = Some (max, mem, dir, s0) /\
    nsteps (step pid nanos max mem dir external) n (start s0) y.

Lemma RpxyCache_new_limits cfg ok d gen max mem dir s :
  cache_limits_ok cfg -> RpxyCache_new cfg ok d gen = Some (max, mem, dir, s) ->
  0 <= mem <= max /\ max < usize_max /\ disk s = d /\ lru_iter (inner s) = [].
Proof.
  intros (_ & Hmax & Hmem). unfold RpxyCache_new, LruCacheManager_new.
  destruct (cache_enabled cfg); [|done]. cbn [negb]. destruct (cache_dir cfg) as [dr|]; [|done]. cbn [mbind option_bind].
  destruct (Z.to_nat (cache_max_entry cfg) =? 0)%nat; [done|]. cbn [mbind option_bind]. destruct ok; [|done]. cbn [negb].
  intros [= <- <- <- <-]. cbn. split; [case_match; lia|]. split_and!; [lia|done|apply lru_new_iter].
Qed.

Lemma cache_run_acc cfg d gen external n y :
  cache_limits_ok cfg -> counters_last d gen n -> cache_run cfg d gen external n y ->
  exists max mem dir bound, acc_inv pid nanos max mem dir bound (Z.to_nat (cache_max_entry cfg)) y.
Proof.
  intros Hl (Hd & Hg & Hn) (max & mem & dir & s0 & E & Hs). exists max, mem, dir.
  destruct (RpxyCache_new_limits _ _ _ _ _ _ _ _ Hl E) as (Hmem & Hmax & _). eexists.
  eapply (acc_inv_nsteps _ _ _ _ _ Hmem Hmax _ n (Z.max (CACHE_FILE_SEQ d) gen)); [lia|lia| |exact Hs].
  eapply acc_inv_start; [| |apply Hl|exact E]; lia.
Qed.

Lemma content_nsteps max mem dir n m cap y y' :
  0 <= mem <= max -> max < usize_max -> 0 <= m -> Z.of_nat n + m < 2 ^ 64 - 1 ->
  acc_inv pid nanos max mem dir m cap y -> content_inv pid nanos dir y ->
  nsteps (step pid nanos max mem dir false) n y y' ->
  content_inv pid nanos dir y' /\ (tidy_inv y -> tidy_inv y').
Proof.
  intros Hmem Hmax Hm Hn Ha Hc Hs. revert m Hm Hn Ha Hc.
  induction Hs as [y|n y y1 y2 Hy1 _ IH]; intros m Hm Hn Ha Hc; [done|].
  destruct (IH (m + 1)) as [Hc' Ht']; [lia|lia|eapply acc_inv_step; [exact Hmem|exact Hmax| |exact Ha|exact Hy1]; lia
    |eapply content_inv_step; [exact Hmem|exact Hmax| |exact Ha|exact Hc|exact Hy1]; lia|].
  split; [done|]. intros Ht. apply Ht'. eapply tidy_inv_step; [exact Hmem|exact Hmax| |exact Ha|exact Ht|exact Hy1]. lia.
Qed.

Lemma cache_run_content cfg d gen n y :
  cache_limits_ok cfg -> counters_last d gen n -> cache_run cfg d gen false n y ->
  exists dir, content_inv pid nanos dir y /\ (outcomes d = [] -> files d = ∅ -> tidy_inv y).
Proof.
  intros Hl (Hd & Hg & Hn) (max & mem & dir & s0 & E & Hs). exists dir.
  destruct (RpxyCache_new_limits _ _ _ _ _ _ _ _ Hl E) as (Hmem & Hmax & Ed & Hit).
  assert (content_inv pid nanos dir (start s0)) as Hc.
  { split; unfold claims, map_claims, lru_files; cbn [shared start tasks served]; rewrite ?Hit; try by intros ? ?%elem_of_nil.
    apply Forall_nil_2. }
  assert (outcomes d = [] -> files d = ∅ -> tidy_inv (start s0)) as Ht.
  { intros Ho Hf. split; cbn [shared start]; rewrite Ed; [done|]. intros p. rewrite Hf, lookup_empty. by intros [? ?]. }
  apply (content_nsteps max mem dir n (Z.max (CACHE_FILE_SEQ d) gen) (Z.to_nat (cache_max_entry cfg))) in Hs as [Hc' Ht'];
    [by auto|done|done|lia|lia| |done]. eapply acc_inv_start; [| |apply Hl|exact E]; lia.
Qed.

Definition on_memory (e : str * CacheObject) : Prop :=
  match target (snd e) with OnMemory _ => True | File _ => False end.

#[global] Instance on_memory_dec e : Decision (on_memory e).
Proof. unfold on_memory. destruct (target (snd e)); apply _. Defined.

Lemma entries_split (l : list (str * CacheObject)) :
  (length (filter on_memory l) + length (entry_files (fun o => file_of (target o)) l) = length l)%nat.
Proof.
  induction l as [|[k o] l IH]; [done|]. rewrite filter_cons, entry_files_cons, length_app. cbn [snd].
  case_decide as Hd; unfold on_memory in Hd; cbn [snd] in Hd; destruct (target o); try done; cbn [length file_of]; lia.
Qed.

(** C9: However the tasks interleave, and whatever happens to the disk and the mutex, the
    cache never holds more than [max_cache_entry] entries, no two of them share a file,
    the file counter is the number of files in the map and of those still to be published
    or removed, so that it is positive whenever it is about to be decremented; and when
    all tasks have finished [count] reports the entries in memory and in files exactly. *)
Theorem cache_counters_exact cfg d gen external n y :
  cache_limits_ok cfg -> counters_last d gen n -> cache_run cfg d gen external n y ->
  let s := shared y in
  (length (lru_iter (inner s)) <= Z.to_nat (cache_max_entry cfg))%nat /\
  NoDup (lru_files s) /\
  file_cnt s = Z.of_nat (length (lru_files s)) + total_counted (tasks y) /\
  (forall path resume, Decr path resume ∈ tasks y -> 0 < file_cnt s) /\
  (Forall (fun t => t = Finished) (tasks y) ->
   count s = (Z.of_nat (length (lru_iter (inner s))), Z.of_nat (length (filter on_memory (lru_iter (inner s)))),
              Z.of_nat (length (lru_files s)))).
Proof.
  intros Hl Hn Hrun s. destruct (cache_run_acc _ _ _ _ _ _ Hl Hn Hrun) as (max & mem & dir & bound & Hacc).
  destruct Hacc as [Hwf [Hcap _] Hlen _ _ _ Hc _ Hnd _ _ _]. fold s in Hwf, Hcap, Hlen, Hc, Hnd.
  split_and!.
  - rewrite <- Hcap. by apply lru_wf_cap.
  - by apply NoDup_app in Hnd as [? _].
  - done.
  - intros path resume Hin. apply list_elem_of_split in Hin as (l & r & E). rewrite Hc, E, total_counted_app, total_counted_cons.
    pose proof (total_counted_nonneg l). pose proof (total_counted_nonneg r). cbn [counted]. lia.
  - intros Hfin. assert (total_counted (tasks y) = 0) as Ez.
    { clear -Hfin. induction Hfin as [|t ts -> _ IH]; [done|]. rewrite total_counted_cons, IH. done. }
    unfold count. pose proof (entries_split (lru_iter (inner s))) as Hs. unfold lru_files in *.
    rewrite Hlen, Hc, Ez, Z.add_0_r. unfold saturating_sub. repeat f_equal; lia.
Qed.

(** C8: Whatever is served from the cache is the answer of the policy of a response stored
    under the same key, for that request at that time; that response was storable and
    its body had arrived whole. The bytes sent are a prefix of that body, and all of it
    if the client did not leave and no read failed. Nothing but the proxy changes the
    files. *)
Theorem cache_hits_are_stored_responses cfg d gen n y :
  cache_limits_ok cfg -> counters_last d gen n -> cache_run cfg d gen false n y ->
  forall v, v ∈ served y -> exists r, r ∈ stored y /\
    cache_key (st_req r) = cache_key (sv_req v) /\
    is_storable (policy_new (st_req r) (st_res r) (st_received r)) = true /\
    before_request (policy_new (st_req r) (st_res r) (st_received r)) (sv_req v) (sv_now v) = Some (sv_res v) /\
    Forall (fun f => is_ok f = true) (st_frames r) /\
    sv_body v `prefix_of` frames_data (st_frames r) /\
    (sv_complete v = true -> sv_body v = frames_data (st_frames r)).
Proof.
  intros Hl Hn Hrun v Hv. destruct (cache_run_content _ _ _ _ _ Hl Hn Hrun) as (dir & Hc & _).
  exact (proj1 (Forall_forall _ _) (ci_served _ _ _ _ Hc) v Hv).
Qed.

(** C37: If no disk operation fails, then once all tasks have finished the directory holds
    no file but those of the entries of the map, whatever was stored, displaced, evicted,
    abandoned or given up on the way. *)
Theorem cache_leaves_no_files cfg d gen n y :
  cache_limits_ok cfg -> counters_last d gen n -> cache_run cfg d gen false n y ->
  outcomes d = [] -> files d = ∅ -> Forall (fun t => t = Finished) (tasks y) ->
  forall p, is_Some (files (disk (shared y)) !! p) ->
  exists k o, (k, o) ∈ lru_iter (inner (shared y)) /\ target o = File p.
Proof.
  intros Hl Hn Hrun Ho Hf Hfin p Hp. destruct (cache_run_content _ _ _ _ _ Hl Hn Hrun) as (dir & _ & Ht).
  destruct (Ht Ho Hf) as [_ Hin]. apply Hin in Hp.
  assert (concat (map live (tasks y)) = []) as Enil by (clear -Hfin; induction Hfin as [|t ts -> _ IH]; [done|]; exact IH).
  rewrite Enil, app_nil_r in Hp. apply elem_of_concat_map in Hp as ([k o] & He & Hp). exists k, o. split; [done|].
  cbn in Hp. destruct (target o) as [q|]; [|by apply elem_of_nil in Hp]. by apply list_elem_of_singleton in Hp as ->.
Qed.
End runs.

(** ** Running a schedule *)

Section schedule.
Context `{HttpApi} `{CryptoApi} `{!PolicyApi} `{!LruApi CacheObject}.
Context (pid : Z) (nanos : Z -> Z) (max mem : Z) (dir : str).

Inductive Move := Arrive (req : Request) (now : Z) | Turn (i : nat) (e : Event).

Definition task_exec (t : Task) (e : Event) (s : CacheState)
    : option (CacheState * Task * list Served * list StoredResponse) :=
  match t, e with
  | Get sreq now, Continue =>
      let '(s', t', sv) := get_step sreq now s in Some (s', t', option_list sv, [])
  | Open sreq now res obj path, Continue =>
      let '(s', t') := open_step sreq now res obj path s in Some (s', t', [], [])
  | Streaming sreq now res obj path sent rest, Read r delivered =>
      if can_read rest r then
        let '(t', sv) := stream_step sreq now res obj path sent rest r delivered in Some (s, t', option_list sv, [])
      else None
  | RemoveCorrupt path, Continue => Some (snd (run_io (remove_uncounted_file path) s), Finished, [], [])
  | EvictEntry sreq obj, Continue =>
      let '(s', t') := evict_entry_step sreq obj s in Some (s', t', [], [])
  | Decr path resume, Continue => Some (decr_count s, Unlink path resume, [], [])
  | Unlink path resume, Continue => Some (snd (run_io (remove_file path) s), miss resume, [], [])
  | Fetch sreq, Upstream res received => Some (s, fetch_step sreq res received, [], [])
  | Spooling sreq res received seen st, NextFrame frame true =>
      let '(st', s') := run_io (spool_frame pid nanos max mem dir (rq_uri sreq) st frame) s in
      Some (s', Spooling sreq res received (seen ++ [frame]) st', [], [])
  | Spooling sreq res received seen st, NextFrame frame false =>
      Some (snd (run_io (abort_spill (spill st)) s), Finished, [], [])
  | Spooling sreq res received seen st, EndOfBody =>
      let '(r, s') := run_io (spool_finish st) s in
      match r with
      | Some (tgt, h) => Some (s', Committed sreq res received tgt h, [], [{| st_req := sreq; st_res := res; st_received := received; st_frames := seen |}])
      | None => Some (s', Finished, [], [])
      end
  | Committed sreq res received tgt h, Continue =>
      let '(obj, s') := CacheObject_new (policy_new sreq res received) tgt h s in Some (s', Publish (cache_key sreq) obj false, [], [])
  | Publish key obj counted, Continue =>
      let '(s', t') := publish_step key obj counted s in Some (s', t', [], [])
  | _, _ => None
  end.

Definition move (y : System) (m : Move) : option System :=
  match m with
  | Arrive req now =>
      uri ← cache_effective_uri req;
      Some {| shared := shared y; tasks := tasks y ++ [Get (build_synth_req_for_cache req uri) now];
              served := served y; stored := stored y |}
  | Turn i e =>
      t ← tasks y !! i;
      '(s', t', sv, st) ← task_exec t e (shared y);
      Some {| shared := s'; tasks := <[i := t']> (tasks y); served := served y ++ sv; stored := stored y ++ st |}
  end.

Fixpoint exec (y : System) (moves : list Move) : option System :=
  match moves with
  | [] => Some y
  | m :: r => y' ← move y m; exec y' r
  end.

Lemma task_exec_sound t e s s' t' sv st :
  task_exec t e s = Some (s', t', sv, st) -> task_step pid nanos max mem dir t e s s' t' sv st.
Proof.
  intros E. destruct t, e; cbn [task_exec] in E; try done;
    repeat match type of E with
    | context [if ?b then _ else _] => destruct b eqn:?
    | (let '(_, _) := ?x in _) = _ => destruct x eqn:?
    | match ?x with Some _ => _ | None => _ end = _ => destruct x eqn:?
    end; try done; injection E as <- <- <- <-;
    first [by eapply step_get|by eapply step_open|by eapply step_remove_corrupt
          |by eapply step_read
          |by eapply step_evict|by eapply step_decr|by eapply step_unlink|by eapply step_fetch|by eapply step_frame
          |by eapply step_dropped|by eapply step_stored|by eapply step_not_stored|by eapply step_object|by eapply step_publish].
Qed.

Lemma move_sound external y m y' : move y m = Some y' -> step pid nanos max mem dir external y y'.
Proof.
  destruct m as [req now|i e]; cbn.
  - destruct (cache_effective_uri req) as [uri|] eqn:E; [|done]. intros [= <-]. by apply step_request.
  - destruct (tasks y !! i) as [t|] eqn:Et; [|done]. cbn.
    destruct (task_exec t e (shared y)) as [[[[s' t'] sv] st]|] eqn:E; [|done]. intros [= <-].
    eapply step_task; [done|]. by apply task_exec_sound.
Qed.

(** What a schedule reaches, the steps reach. *)
Lemma exec_sound moves external y y' :
  exec y moves = Some y' -> nsteps (step pid nanos max mem dir external) (length moves) y y'.
Proof.
  revert y. induction moves as [|m moves IH]; intros y; cbn; [intros [= ->]; apply nsteps_O|].
  destruct (move y m) as [y1|] eqn:E; [|done]. intros Hr. eapply nsteps_l; [by eapply move_sound|]. by apply IH.
Qed.
End schedule.

(** ** Instances and witnesses *)

(** An LRU map as a list. *)
Module LruList.
Section lru_list.
Context {V : Type}.

Definition push (c : nat * list (str * V)) (k : str) (v : V) : (nat * list (str * V)) * option (str * V) :=
  match map_find k (snd c) with
  | Some v0 => ((fst c, (k, v) :: without k (snd c)), Some (k, v0))
  | None =>
      if (length (snd c) <? fst c)%nat then ((fst c, (k, v) :: snd c), None)
      else ((fst c, (k, v) :: removelast (snd c)), last (snd c))
  end.

Definition touch (c : nat * list (str * V)) (k : str) : (nat * list (str * V)) * option V :=
  match map_find k (snd c) with
  | Some v => ((fst c, (k, v) :: without k (snd c)), Some v)
  | None => (c, None)
  end.

#[export] Instance api : LruApi V := {|
  LruCache := nat * list (str * V);
  lru_new n := (n, []);
  lru_push := push;
  lru_get := touch;
  lru_peek c k := map_find k (snd c);
  lru_pop_entry c k := ((fst c, without k (snd c)), pair k <$> map_find k (snd c));
  lru_len c := length (snd c);
  lru_cap c := fst c;
  lru_iter c := snd c;
  lru_wf c := NoDup (map fst (snd c)) /\ (length (snd c) <= fst c)%nat /\ (0 < fst c)%nat
|}.

Lemma without_keys (k : str) (l : list (str * V)) : NoDup (map fst l) -> NoDup (map fst (without k l)) /\ k ∉ map fst (without k l).
Proof.
  unfold without. induction l as [|[j w] l IH]; [split; [apply NoDup_nil_2|apply not_elem_of_nil]|]. cbn [map fst].
  intros [Hj Hnd]%NoDup_cons. destruct (IH Hnd) as [IH1 IH2]. rewrite filter_cons. cbn [fst]. case_decide; [|done]. cbn [map fst].
  split; [apply NoDup_cons; split; [|done]|by apply not_elem_of_cons].
  intros ([j' w'] & E & [_ Hin]%list_elem_of_filter)%list_elem_of_fmap. apply Hj. apply list_elem_of_fmap. by exists (j', w').
Qed.

Lemma without_length (k : str) (l : list (str * V)) v : NoDup (map fst l) -> map_find k l = Some v -> S (length (without k l)) = length l.
Proof.
  intros Hnd Hf. apply map_find_elem in Hf; [|done]. apply (without_perm k v l Hnd), Permutation_length in Hf. done.
Qed.

Lemma without_le (k : str) (l : list (str * V)) : (length (without k l) <= length l)%nat.
Proof. apply length_filter. Qed.

#[local] Arguments without : simpl never.

#[export] Instance laws : LruLaws V.
Proof.
  split; cbn.
  - intros n Hn. split_and!; [apply NoDup_nil_2|lia|done].
  - done.
  - done.
  - by intros c (? & _).
  - by intros c (_ & ? & _).
  - done.
  - intros [n l] k v (Hnd & Hle & Hn). cbn in *. unfold push. cbn [fst snd]. destruct (map_find k l) as [v0|] eqn:E; cbn [fst snd].
    + destruct (without_keys k l Hnd). pose proof (without_length k l v0 Hnd E).
      split; [|done]. split_and!; [by apply NoDup_cons| |done]. cbn [length]. lia.
    + apply lru_find_None in E. destruct (Nat.ltb_spec (length l) n) as [Hlt|Hge]; cbn [fst snd map length]; (split; [|done]).
      * split_and!; [by apply NoDup_cons|lia|done].
      * destruct (exists_last (l := l)) as (l0 & e & ->); [intros ->; cbn in *; lia|].
        rewrite removelast_last. rewrite map_app in *. apply NoDup_app in Hnd as (Hnd & _ & _).
        rewrite length_app in *. cbn in *. split_and!; [|lia|done]. apply NoDup_cons. split; [|done]. set_solver.
  - intros [n l] k v v0 (Hnd & _) Hin. unfold push. cbn in *. by rewrite (proj2 (map_find_elem k v0 l Hnd) Hin).
  - intros [n l] k v _ Hk Hlt. unfold push. cbn [fst snd] in *.
    destruct (map_find k l) as [v0|] eqn:E; [|by rewrite (proj2 (Nat.ltb_lt _ _) Hlt)].
    exfalso. apply Hk. apply list_elem_of_fmap. exists (k, v0). split; [done|]. by apply map_find_in.
  - intros [n l0] k v l e _ Hk El Hlen. unfold push. cbn [fst snd lru_iter] in *. subst l0.
    destruct (map_find k (l ++ [e])) as [v0|] eqn:E.
    { exfalso. apply Hk. apply list_elem_of_fmap. exists (k, v0). split; [done|]. by apply map_find_in. }
    rewrite (proj2 (Nat.ltb_ge _ _)) by lia. cbn. by rewrite last_snoc, removelast_last.
  - intros [n l] k (Hnd & Hle & Hn). unfold touch. cbn in *. destruct (map_find k l) as [v0|] eqn:E; [|done]. cbn.
    destruct (without_keys k l Hnd). pose proof (without_length k l v0 Hnd E).
    split; [|done]. split_and!; [by apply NoDup_cons|cbn [length]; lia|done].
  - intros [n l] k _. unfold touch. cbn. by destruct (map_find k l).
  - intros [n l] k _. unfold touch. cbn. by destruct (map_find k l).
  - done.
  - intros [n l] k (Hnd & Hle & Hn). cbn in *. pose proof (without_le k l). split; [|done].
    split_and!; [by apply without_keys|lia|done].
  - done.
  - done.
Qed.
End lru_list.
End LruList.

Module CacheExamples.

#[local] Existing Instance Alist.api.
#[local] Existing Instance Alist.net_api.
#[local] Existing Instance toy_crypto.

(** Everything may be stored, and stays fresh. *)
#[local] Instance always_fresh : PolicyApi := {|
  CachePolicy := Response;
  policy_new _ res _ := res;
  is_storable _ := true;
  before_request p _ _ := Some p
|}.

#[local] Existing Instance LruList.api.
#[local] Existing Instance LruList.laws.

Definition config : ProxyConfig := {|
  listen_sockets := []; http_port := None; https_port := None; public_https_port := None;
  tcp_listen_backlog := 0; proxy_idle_timeout := from_secs 0; upstream_idle_timeout := from_secs 0;
  max_clients := 0; max_clients_per_ip := 0; max_concurrent_streams := 0; keepalive := true;
  redact_query_in_access_log := false; sni_consistency := true; trusted_forwarded_proxies := [];
  tcp_recv_proxy_protocol := None; connection_handling_timeout := None; request_max_body_size := None;
  cache_enabled := true; cache_dir := Some (B "./cache"); cache_max_entry := 2; cache_max_each_size := 100;
  cache_max_each_size_on_memory := 8; http3 := false; h3_alt_svc_max_age := 0; h3_request_max_body_size := None;
  h3_max_concurrent_bidistream := 0; h3_max_concurrent_unistream := 0; h3_max_concurrent_connections := 0;
  h3_max_idle_timeout := None
|}.

Definition request : Request :=
  {| rq_method := B "GET"; rq_uri := SpoolExamples.uri; rq_version := HTTP_11; rq_headers := [];
     effective_uri := Some SpoolExamples.uri |}.
Definition response : Response := {| rs_status := 200; rs_headers := [] |}.
Definition hello : str := B "hello".
Definition world : str := B "world".

(** The disk after earlier caches of the process: their files are gone, the counter is not. *)
Definition used_disk : Disk := {| files := ∅; outcomes := []; CACHE_FILE_SEQ := 17 |}.

Lemma counters_of_used : counters_last used_disk 41 15.
Proof. unfold counters_last. cbn [used_disk CACHE_FILE_SEQ]. lia. Qed.

(** A response of ten bytes is stored in a file, then served from there in two chunks. *)
Definition moves : list Move :=
  [Arrive request 0; Turn 0 Continue; Turn 0 (Upstream (Some response) 1);
   Turn 0 (NextFrame (Ok (Data hello)) true); Turn 0 (NextFrame (Ok (Data world)) true); Turn 0 EndOfBody;
   Turn 0 Continue; Turn 0 Continue; Turn 0 Continue;
   Arrive request 5; Turn 1 Continue; Turn 1 Continue; Turn 1 (Read (Ok hello) true);
   Turn 1 (Read (Ok world) true); Turn 1 (Read (Ok []) true)].

Definition final : option System :=
  '(max, mem, dir, s0) ← RpxyCache_new config true used_disk 41;
  exec 7 (fun _ => 0) max mem dir (start s0) moves.

Definition finished (t : Task) : bool := match t with Finished => true | _ => false end.

Definition one_file (y : System) : bool :=
  bool_decide (length (lru_iter (inner (shared y))) = 1%nat /\
    length (filter on_memory (lru_iter (inner (shared y)))) = 0%nat /\ length (lru_files (shared y)) = 1%nat).

Definition served_whole (y : System) : bool :=
  match served y with v :: _ => sv_complete v | [] => false end.

Definition file_written (y : System) : bool :=
  match lru_files (shared y) with
  | p :: _ => bool_decide (files (disk (shared y)) !! p = Some (hello ++ world))
  | [] => false
  end.

Lemma final_run :
  exists y, cache_run 7 (fun _ => 0) config used_disk 41 false 15 y /\ final = Some y.
Proof.
  assert (match final with Some _ => true | None => false end = true) as Hf by (vm_compute; reflexivity).
  destruct final as [y|] eqn:E; [|done]. exists y. split; [|done]. unfold final in E.
  destruct (RpxyCache_new config true used_disk 41) as [[[[max mem] dir] s0]|] eqn:E0; [|done].
  exists max, mem, dir, s0. split; [exact E0|]. by apply (exec_sound 7 (fun _ => 0) max mem dir moves).
Qed.

Lemma final_checked (P : System -> bool) :
  match final with Some y => P y | None => false end = true -> forall y, final = Some y -> P y = true.
Proof. intros Hp y E. by rewrite E in Hp. Qed.

Lemma final_finished y : final = Some y -> Forall (fun t => t = Finished) (tasks y).
Proof.
  intros E. pose proof (final_checked (fun y => forallb finished (tasks y)) ltac:(vm_compute; reflexivity) y E) as Hb.
  cbv beta in Hb. clear E. revert Hb. induction (tasks y) as [|t ts IH]; [intros _; apply Forall_nil_2|]. cbn. intros [Ht Hts]%andb_true_iff.
  apply Forall_cons. split; [by destruct t|by apply IH].
Qed.

Lemma config_limits : cache_limits_ok config.
Proof. unfold cache_limits_ok, usize_max. cbn. lia. Qed.

Lemma cache_counters_exact_witness :
  exists y, cache_run 7 (fun _ => 0) config used_disk 41 false 15 y /\
    count (shared y) = (1, 0, 1).
Proof.
  destruct final_run as (y & Hrun & E). exists y. split; [exact Hrun|].
  destruct (cache_counters_exact 7 (fun _ => 0) config used_disk 41 false 15 y
    config_limits counters_of_used Hrun) as (_ & _ & _ & _ & Hcount).
  rewrite Hcount.
  - pose proof (final_checked one_file ltac:(vm_compute; reflexivity) y E) as Hb.
    apply bool_decide_eq_true in Hb as (-> & -> & ->). reflexivity.
  - exact (final_finished y E).
Defined.

Lemma cache_hits_are_stored_responses_witness :
  exists y v r, cache_run 7 (fun _ => 0) config used_disk 41 false 15 y /\
    v ∈ served y /\ r ∈ stored y /\ sv_body v = frames_data (st_frames r).
Proof.
  destruct final_run as (y & Hrun & E).
  pose proof (final_checked served_whole ltac:(vm_compute; reflexivity) y E) as Hv. unfold served_whole in Hv.
  destruct (served y) as [|v rest] eqn:Es; [discriminate Hv|].
  assert (v ∈ served y) as Hin by (rewrite Es; apply elem_of_cons; left; reflexivity).
  destruct (cache_hits_are_stored_responses 7 (fun _ => 0) config used_disk 41 15 y
    config_limits counters_of_used Hrun v Hin) as (r & Hr & _ & _ & _ & _ & _ & Hbody).
  exists y, v, r. split; [exact Hrun|]. split; [exact Hin|]. split; [exact Hr|]. exact (Hbody Hv).
Defined.

Lemma cache_leaves_no_files_witness :
  exists y p k o, cache_run 7 (fun _ => 0) config used_disk 41 false 15 y /\
    is_Some (files (disk (shared y)) !! p) /\ (k, o) ∈ lru_iter (inner (shared y)) /\ target o = File p.
Proof.
  destruct final_run as (y & Hrun & E).
  pose proof (final_checked file_written ltac:(vm_compute; reflexivity) y E) as Hp. unfold file_written in Hp.
  destruct (lru_files (shared y)) as [|p rest]; [discriminate Hp|]. apply bool_decide_eq_true in Hp.
  destruct (cache_leaves_no_files 7 (fun _ => 0) config used_disk 41 15 y
    config_limits counters_of_used Hrun eq_refl eq_refl (final_finished y E) p (ex_intro _ _ Hp)) as (k & o & Hin & Ht).
  exists y, p, k, o. split; [exact Hrun|]. split; [exact (ex_intro _ _ Hp)|]. split; [exact Hin|exact Ht].
Defined.

(** The second request on its own, from the state the cache is in at the end. *)
Definition lookup_events : list Event :=
  [Continue; Continue; Read (Ok hello) true; Read (Ok world) true; Read (Ok []) true].

Fixpoint task_execs (t : Task) (evs : list Event) (s : CacheState) : option Task :=
  match evs with
  | [] => Some t
  | e :: r => '(s', t', _, _) ← task_exec 7 (fun _ => 0) 100 8 (B "./cache") t e s; task_execs t' r s'
  end.

Lemma task_execs_run t evs s t' :
  task_execs t evs s = Some t' -> task_run 7 (fun _ => 0) 100 8 (B "./cache") t evs t'.
Proof.
  revert t s. induction evs as [|e evs IH]; intros t s; cbn; [intros [= ->]; apply run_done|].
  destruct (task_exec _ _ _ _ _ t e s) as [[[[s' t1] sv] st]|] eqn:E; [|done]. cbn. intros Hr.
  eapply run_step; [by eapply task_exec_sound|]. by eapply IH.
Qed.

Definition lookup_ends (y : System) : bool :=
  match task_execs (Get request 9) lookup_events (shared y) with Some Finished => true | _ => false end.

Lemma cache_task_terminates_witness :
  exists s : CacheState, task_execs (Get request 9) lookup_events s = Some Finished /\ (length lookup_events <= 12 + 2)%nat.
Proof.
  destruct final_run as (y & _ & E). exists (shared y).
  pose proof (final_checked lookup_ends ltac:(vm_compute; reflexivity) y E) as Hb. unfold lookup_ends in Hb.
  destruct (task_execs (Get request 9) lookup_events (shared y)) as [[]|] eqn:Et; try discriminate Hb.
  split; [reflexivity|]. apply task_execs_run in Et.
  exact (proj1 (cache_task_terminates 7 (fun _ => 0) 100 8 (B "./cache") (Get request 9) lookup_events Finished Et)).
Defined.
End CacheExamples.
