(* ===== verification/ProxyProtocol.v ===== *)
(** * The inbound PROXY protocol ([proxy/proxy_protocol.rs], and
      [extract_parse_result_from_proxy_protocol_header] of [proxy/proxy_main.rs])

    A stream is the bytes still to be read; peeking returns a prefix of at most sixteen
    of them, as many as have arrived. The decoding of a complete header is the [ppp]
    crate's, a parameter. *)

From S2P Require Import Prelude RustStr RustNet HttpIface Globals.

(** ** The [ppp] crate *)

Inductive PpAddresses :=
| PpTcp4 (src : SocketAddr)
| PpTcp6 (src : SocketAddr)
| PpUnix
| PpNone.                        (* v1 [UNKNOWN], v2 [Unspecified] *)

Class PppApi := {
  (** the command is [LOCAL], and the addresses *)
  v2_try_from : str -> option (bool * PpAddresses);
  v1_try_from : str -> option PpAddresses
}.

(** Kinds of [std::io::Error]. *)
Inductive io_error := PermissionDenied | UnexpectedEof | InvalidData | Unsupported | TimedOut | IoOther.

#[export] Instance io_error_eq_dec : EqDecision io_error.
Proof. solve_decision. Defined.

(** ** Constants *)

Definition V2_SIGNATURE : str := [13; 10; 13; 10; 0; 13; 10] ++ B "QUIT" ++ [10].
Definition V2_HEADER_FIXED_SIZE : nat := 16.
Definition V1_PREFIX : str := B "PROXY ".
Definition V1_MAX_LENGTH : nat := 107.
Definition V2_MAX_ADDR_LEN : nat := 2048.

Definition normalize_mapped_ipv4 (addr : IpAddr) : IpAddr :=
  match addr with
  | V6 v6 => match to_ipv4_mapped v6 with Some v4 => v4 | None => V6 v6 end
  | other => other
  end.

Section proxy_protocol.
Context `{IpNetApi} `{PppApi}.

(** [read_exact] of [n] bytes. *)
Definition read_exact (n : nat) (stream : str) : result io_error (str * str) :=
  if (length stream <? n)%nat then Err UnexpectedEof else Ok (take n stream, drop n stream).

(** The result, and the stream that remains. *)
Definition parse_v2_inbound (stream peek_buf : str) : result io_error (option SocketAddr * str) :=
  let addr_len := Z.to_nat (be_value (take 2 (drop 14 peek_buf))) in
  if (V2_MAX_ADDR_LEN <? addr_len)%nat then Err InvalidData
  else
    let total_len := (V2_HEADER_FIXED_SIZE + addr_len)%nat in
    '(header_buf, rest) ← read_exact total_len stream;
    '(is_local, addresses) ← ok_or (v2_try_from header_buf) InvalidData;
    if is_local : bool then Ok (None, rest)
    else
      match addresses with
      | PpTcp4 src | PpTcp6 src => Ok (Some src, rest)
      | PpUnix => Err Unsupported
      | PpNone => Ok (None, rest)
      end.

(** The loop that reads a byte at a time up to CR LF. *)
Fixpoint read_v1_line (fuel : nat) (header_bytes : str) (found_cr : bool) (stream : str)
    : result io_error (str * str) :=
  match fuel with
  | O => Err InvalidData
  | S fuel =>
      match stream with
      | [] => Err UnexpectedEof
      | byte :: rest =>
          let header_bytes := header_bytes ++ [byte] in
          if found_cr && (byte =? 10) then Ok (header_bytes, rest)
          else if (V1_MAX_LENGTH <=? length header_bytes)%nat then Err InvalidData
          else read_v1_line fuel header_bytes (byte =? 13) rest
      end
  end.

Definition parse_v1_inbound (stream : str) : result io_error (option SocketAddr * str) :=
  '(header_bytes, rest) ← read_v1_line V1_MAX_LENGTH [] false stream;
  addresses ← ok_or (v1_try_from header_bytes) InvalidData;
  match addresses with
  | PpTcp4 src | PpTcp6 src => Ok (Some src, rest)
  | PpUnix | PpNone => Ok (None, rest)
  end.

(** The peek loop over what the successive peeks return; [None] while none decides. *)
Fixpoint peek_loop (peeks : list (result io_error str)) : option (result io_error str) :=
  match peeks with
  | [] => None
  | Err e :: _ => Some (Err e)
  | Ok buf :: r =>
      if (length buf =? 0)%nat then Some (Err UnexpectedEof)
      else if (V2_HEADER_FIXED_SIZE <=? length buf)%nat then Some (Ok buf)
      else if (6 <=? length buf)%nat && bool_decide (take 6 buf = V1_PREFIX) then Some (Ok buf)
      else peek_loop r
  end.

(** The array the peeks fill: sixteen bytes, zero where none has arrived. *)
Definition peek_array (buf : str) : str := buf ++ replicate (V2_HEADER_FIXED_SIZE - length buf) 0.

Definition parse_inbound_proxy_header (stream : str) (peeks : list (result io_error str))
    (peer_addr : SocketAddr) (config : TcpRecvProxyProtocolConfig)
    : option (result io_error (option SocketAddr * str)) :=
  let normalized_peer_ip := normalize_mapped_ipv4 (sa_ip peer_addr) in
  if negb (existsb (fun net => net_contains net normalized_peer_ip) (pp_trusted_proxies config))
  then Some (Err PermissionDenied)
  else
    r ← peek_loop peeks;
    Some (buf ← r;
          let peek_buf := peek_array buf in
          if (12 <=? length buf)%nat && bool_decide (take 12 peek_buf = V2_SIGNATURE)
          then parse_v2_inbound stream peek_buf
          else if bool_decide (take 6 peek_buf = V1_PREFIX) then parse_v1_inbound stream
          else Err InvalidData).

(** A parse that does not finish in time is an error; no address keeps the peer's. *)
Definition PROXY_PROTOCOL_FALLBACK_TIMEOUT : Duration := from_secs 5.

Definition effective_timeout (config : TcpRecvProxyProtocolConfig) : Duration :=
  if pp_timeout config =? 0 then PROXY_PROTOCOL_FALLBACK_TIMEOUT else pp_timeout config.

Definition extract_parse_result_from_proxy_protocol_header (stream : str)
    (peeks : list (result io_error str)) (in_time : bool) (peer_addr : SocketAddr)
    (config : TcpRecvProxyProtocolConfig) : result io_error (SocketAddr * str) :=
  let parse_result :=
    if in_time
    then default (Err TimedOut) (parse_inbound_proxy_header stream peeks peer_addr config)
    else Err TimedOut in
  '(opt_addr, rest) ← parse_result;
  Ok (default peer_addr opt_addr, rest).
End proxy_protocol.

(** ** The line of version 1 *)

(** No CR LF ends inside [s] when the byte in front of it is a CR or not. *)
Fixpoint no_crlf (found_cr : bool) (s : str) : Prop :=
  match s with
  | [] => True
  | b :: r => ~ (found_cr = true /\ b = 10) /\ no_crlf (b =? 13) r
  end.

Lemma read_v1_line_spec fuel hb cr s hdr rest :
  (fuel + length hb <= V1_MAX_LENGTH)%nat ->
  read_v1_line fuel hb cr s = Ok (hdr, rest) ->
  exists body, hdr = hb ++ body ++ [10] /\ s = body ++ 10 :: rest /\ no_crlf cr body /\
    (match last body with Some b => b = 13 | None => cr = true end) /\
    (length hdr <= fuel + length hb)%nat.
Proof.
  revert hb cr s. induction fuel as [|fuel IH]; intros hb cr s Hf Hr; [done|].
  destruct s as [|b s]; [done|]. cbn [read_v1_line] in Hr.
  destruct (cr && (b =? 10)) eqn:E.
  - apply andb_prop in E as [-> ->%Z.eqb_eq]. injection Hr as <- <-. exists [].
    split_and!; try done. rewrite length_app. cbn. lia.
  - destruct (V1_MAX_LENGTH <=? length (hb ++ [b]))%nat eqn:El; [done|].
    apply IH in Hr as (body & -> & -> & Hno & Hlast & Hlen); [|rewrite length_app; cbn; lia].
    exists (b :: body). split_and!.
    + by rewrite <- app_assoc.
    + done.
    + cbn. split; [|done]. intros [-> ->]. done.
    + rewrite last_cons. destruct (last body); [done|]. by apply Z.eqb_eq.
    + rewrite !length_app in *. cbn [length] in *. lia.
Qed.

(** A line of at most 107 bytes is read. *)
Lemma read_v1_line_complete fuel hb cr body rest :
  (fuel + length hb = V1_MAX_LENGTH)%nat -> (length body < fuel)%nat -> no_crlf cr body ->
  (match last body with Some b => b = 13 | None => cr = true end) ->
  read_v1_line fuel hb cr (body ++ 10 :: rest) = Ok (hb ++ body ++ [10], rest).
Proof.
  revert hb cr body. induction fuel as [|fuel IH]; intros hb cr body Hf Hb Hno Hlast; [lia|].
  destruct body as [|b body]; cbn [app read_v1_line].
  - rewrite Hlast. done.
  - cbn [no_crlf] in Hno. destruct Hno as [Hn Hno]. cbn [length] in Hb.
    destruct (cr && (b =? 10)) eqn:E.
    { apply andb_prop in E as [-> ->%Z.eqb_eq]. by destruct Hn. }
    destruct (V1_MAX_LENGTH <=? length (hb ++ [b]))%nat eqn:El.
    { apply Nat.leb_le in El. rewrite length_app in El. cbn in El. lia. }
    rewrite IH; [by rewrite <- app_assoc|rewrite length_app; cbn; lia|lia|done|].
    rewrite last_cons in Hlast. destruct (last body); [done|]. by apply Z.eqb_eq.
Qed.

(** ** The header is consumed exactly *)

Section contract.
Context `{IpNetApi} `{PppApi}.

(** Every peek returns the first bytes of the stream, at most sixteen. *)
Definition peeks_of (stream : str) (peeks : list (result io_error str)) : Prop :=
  forall buf, Ok buf ∈ peeks -> (length buf <= V2_HEADER_FIXED_SIZE)%nat /\ exists r, stream = buf ++ r.

Lemma peek_loop_inv peeks buf :
  peek_loop peeks = Some (Ok buf) ->
  Ok buf ∈ peeks /\ ((V2_HEADER_FIXED_SIZE <= length buf)%nat \/ take 6 buf = V1_PREFIX).
Proof.
  induction peeks as [|[b|e] r IH]; [done| |done]. cbn [peek_loop].
  destruct (length b =? 0)%nat; [done|]. destruct (Nat.leb_spec V2_HEADER_FIXED_SIZE (length b)).
  { intros [= <-]. split; [by left|by left]. }
  destruct ((6 <=? length b)%nat && _) eqn:E.
  - apply andb_prop in E as [_ E%bool_decide_eq_true]. intros [= <-]. split; [by left|by right].
  - intros [Hin Hor]%IH. split; [by right|done].
Qed.

Lemma take_peek_array n buf : (n <= length buf)%nat -> take n (peek_array buf) = take n buf.
Proof. intros Hn. unfold peek_array. by rewrite take_app_le. Qed.

Lemma v2_not_v1 buf : take 6 buf = V1_PREFIX -> take 12 buf <> V2_SIGNATURE.
Proof.
  intros Ha Hb. apply (f_equal head) in Ha, Hb. destruct buf as [|b buf]; [done|].
  change (Some b = Some 80) in Ha. change (Some b = Some 13) in Hb. congruence.
Qed.

(** What was consumed. *)
Definition v1_header (hdr : str) : Prop :=
  take 6 hdr = V1_PREFIX /\ (length hdr <= V1_MAX_LENGTH)%nat /\
  exists body, hdr = body ++ [13; 10] /\ no_crlf false (body ++ [13]).

Definition v2_header (hdr : str) : Prop :=
  take 12 hdr = V2_SIGNATURE /\
  length hdr = (V2_HEADER_FIXED_SIZE + Z.to_nat (be_value (take 2 (drop 14 hdr))))%nat /\
  (length hdr <= V2_HEADER_FIXED_SIZE + V2_MAX_ADDR_LEN)%nat.

Lemma parse_v1_contract stream addr rest :
  take 6 stream = V1_PREFIX -> parse_v1_inbound stream = Ok (addr, rest) ->
  exists hdr, stream = hdr ++ rest /\ v1_header hdr /\ is_Some (v1_try_from hdr).
Proof.
  unfold parse_v1_inbound. intros Hpre Hp.
  destruct (read_v1_line _ _ _ _) as [[hdr r]|] eqn:Er; [|done]. cbn [mbind result_bind] in Hp.
  destruct (v1_try_from hdr) as [a|] eqn:Ea; [|done]. cbn [ok_or mbind result_bind] in Hp.
  assert (r = rest) as -> by (destruct a; by injection Hp).
  apply read_v1_line_spec in Er as (body & -> & -> & Hno & Hlast & Hlen); [|done].
  cbn [app] in *. destruct (last body) as [b|] eqn:Eb; [|done]. subst b.
  apply last_Some in Eb as [body' ->].
  exists ((body' ++ [13]) ++ [10]). split; [by rewrite <- (app_assoc _ [10] rest)|]. split; [|by eexists].
  split_and!; [|by rewrite Nat.add_0_r in Hlen|exists body'; split; [by rewrite <- app_assoc|done]].
  assert (6 <= length ((body' ++ [13%Z]) ++ [10%Z]))%nat as H6.
  { destruct (Nat.le_gt_cases 6 (length ((body' ++ [13%Z]) ++ [10%Z]))) as [|Hs]; [done|]. exfalso.
    pose proof Hpre as Hin.
    change ((body' ++ [13]) ++ 10 :: rest) with ((body' ++ [13]) ++ [10] ++ rest) in Hin.
    rewrite app_assoc, take_app_ge in Hin by lia.
    assert (10 ∉ V1_PREFIX) as Hbad by (by apply (bool_decide_unpack _)).
    apply Hbad. rewrite <- Hin. set_solver. }
  rewrite <- Hpre. change ((body' ++ [13]) ++ 10 :: rest) with ((body' ++ [13]) ++ [10] ++ rest).
  rewrite (app_assoc _ [10] rest). symmetry. by apply take_app_le.
Qed.

Lemma parse_v2_contract stream buf addr rest :
  length buf = V2_HEADER_FIXED_SIZE -> (exists r, stream = buf ++ r) -> take 12 buf = V2_SIGNATURE ->
  parse_v2_inbound stream buf = Ok (addr, rest) ->
  exists hdr, stream = hdr ++ rest /\ v2_header hdr /\ is_Some (v2_try_from hdr).
Proof.
  unfold parse_v2_inbound, read_exact. intros Hl [r ->] Hsig Hp.
  set (n := Z.to_nat (be_value (take 2 (drop 14 buf)))) in *.
  destruct (Nat.ltb_spec V2_MAX_ADDR_LEN n); [done|].
  destruct (Nat.ltb_spec (length (buf ++ r)) (V2_HEADER_FIXED_SIZE + n)); [done|].
  cbn [mbind result_bind] in Hp. set (hdr := take (V2_HEADER_FIXED_SIZE + n) (buf ++ r)) in *.
  destruct (v2_try_from hdr) as [[loc a]|] eqn:Ea; [|done]. cbn [ok_or mbind result_bind] in Hp.
  assert (rest = drop (V2_HEADER_FIXED_SIZE + n) (buf ++ r)) as ->.
  { destruct loc; [by injection Hp|]. destruct a; try done; by injection Hp. }
  assert (take 16 hdr = buf) as Hbuf.
  { unfold hdr. rewrite take_take, Nat.min_l by (unfold V2_HEADER_FIXED_SIZE; lia).
    by rewrite take_app_length'. }
  exists hdr. split; [unfold hdr; by rewrite take_drop|]. split; [|by eexists]. split_and!.
  - rewrite <- Hsig, <- Hbuf. by rewrite take_take.
  - unfold hdr at 1. rewrite length_take. fold hdr.
    assert (take 2 (drop 14 hdr) = take 2 (drop 14 buf)) as ->.
    { rewrite <- Hbuf. by rewrite skipn_firstn_comm, take_take. }
    fold n. lia.
  - unfold hdr. rewrite length_take. lia.
Qed.

(** C40: the PROXY header is only accepted from a trusted peer, and then exactly the header
    is consumed: the stream continues with the first byte of application data, after a
    text line of at most 107 bytes ending at its first CR LF or a binary header of the
    length it declares, at most 2064 bytes; from any other peer nothing is read. *)
Theorem proxy_header_consumed_exactly stream peeks peer config addr rest :
  peeks_of stream peeks ->
  (existsb (fun net => net_contains net (normalize_mapped_ipv4 (sa_ip peer))) (pp_trusted_proxies config)
     = false ->
   parse_inbound_proxy_header stream peeks peer config = Some (Err PermissionDenied)) /\
  (parse_inbound_proxy_header stream peeks peer config = Some (Ok (addr, rest)) ->
   exists hdr, stream = hdr ++ rest /\
     (v1_header hdr /\ is_Some (v1_try_from hdr) \/ v2_header hdr /\ is_Some (v2_try_from hdr))).
Proof.
  intros Hpeeks. unfold parse_inbound_proxy_header. split; [by intros ->|].
  destruct (existsb _ _); cbn [negb]; [|done].
  destruct (peek_loop peeks) as [[buf|]|] eqn:El; [|done..]. cbn [mbind option_bind result_bind].
  apply peek_loop_inv in El as [Hin Hor]. destruct (Hpeeks buf Hin) as [Hlen Hpre].
  destruct ((12 <=? length buf)%nat && _) eqn:E2.
  - apply andb_prop in E2 as [H12%Nat.leb_le Hsig%bool_decide_eq_true].
    rewrite take_peek_array in Hsig by done. intros [= Hp].
    assert (length buf = V2_HEADER_FIXED_SIZE) as Hl.
    { destruct Hor as [|Hv1]; [lia|]. by apply v2_not_v1 in Hv1. }
    unfold peek_array in Hp. rewrite Hl, Nat.sub_diag, app_nil_r in Hp.
    destruct (parse_v2_contract stream buf addr rest Hl Hpre Hsig Hp) as (hdr & ? & ?). by exists hdr; eauto.
  - destruct (bool_decide (take 6 (peek_array buf) = V1_PREFIX)) eqn:E1; [|done].
    apply bool_decide_eq_true in E1. intros [= Hp].
    assert (6 <= length buf)%nat as H6.
    { destruct Hor as [Hl|Hv1]; [unfold V2_HEADER_FIXED_SIZE in Hl; lia|].
      apply (f_equal length) in Hv1. rewrite length_take in Hv1.
      change (length V1_PREFIX) with 6%nat in Hv1. lia. }
    rewrite take_peek_array in E1 by done. destruct Hpre as [r ->].
    destruct (parse_v1_contract (buf ++ r) addr rest) as (hdr & ? & ?); [by rewrite take_app_le|done|].
    by exists hdr; eauto.
Qed.
End contract.

(** ** Witness *)

Module PpExamples.

(** A decoder that knows one address. *)
#[local] Instance toy_ppp : PppApi := {|
  v2_try_from := fun _ => Some (true, PpNone);
  v1_try_from := fun s => if starts_with V1_PREFIX s then Some (PpTcp4 {| sa_ip := V4 198 51 100 7; sa_port := 40000 |}) else None
|}.

Definition trusted : @TcpRecvProxyProtocolConfig Alist.net_api :=
  @Build_TcpRecvProxyProtocolConfig Alist.net_api [(V4 10 0 0 0, 8%nat)] (from_millis 50).

Definition line : str := B "PROXY TCP4 198.51.100.7 10.0.0.1 40000 443" ++ [13; 10].
Definition stream : str := line ++ B "GET / HTTP/1.1".
Definition peer : SocketAddr := {| sa_ip := V4 10 1 2 3; sa_port := 9 |}.

Lemma stream_peeks : peeks_of stream [Ok (B "PRO"); Ok (B "PROXY TCP4 198.5")].
Proof.
  intros buf [[= ->]|[= ->]%list_elem_of_singleton]%elem_of_cons.
  - split; [cbn; unfold V2_HEADER_FIXED_SIZE; lia|]. by exists (drop 3 stream).
  - split; [cbn; unfold V2_HEADER_FIXED_SIZE; lia|]. by exists (drop 16 stream).
Qed.

Lemma proxy_header_consumed_exactly_witness :
  exists hdr, stream = hdr ++ B "GET / HTTP/1.1" /\
    (v1_header hdr /\ is_Some (v1_try_from hdr) \/ v2_header hdr /\ is_Some (v2_try_from hdr)).
Proof.
  apply (proxy_header_consumed_exactly stream [Ok (B "PRO"); Ok (B "PROXY TCP4 198.5")] peer trusted
    (Some {| sa_ip := V4 198 51 100 7; sa_port := 40000 |}) (B "GET / HTTP/1.1") stream_peeks).
  vm_compute. reflexivity.
Defined.

End PpExamples.
