(* ===== verification/Listener.v ===== *)
(** * Listeners ([lib.rs], [proxy/proxy_main.rs], [proxy/proxy_quic_quinn.rs])

    The listeners an accepted configuration opens, what becomes of a connection on each,
    and how the TLS and the QUIC listener follow the certificate reloader. The outcome
    of a TLS handshake is a parameter ([HandshakeApi]); the events that reach a listener
    are explicit, so that every order of reloads and connections is a run. *)

From S2P Require Import Prelude RustStr RustNet HttpIface Globals NameExp ProxyProtocol Tls.

(** ** Listeners to open ([entrypoint]) *)

Inductive ListenerKind := HttpV4 | HttpV6 | HttpsV4 | HttpsV6 | Http3V4 | Http3V6.

Record ListenerSpec := { ls_kind : ListenerKind; ls_listening_on : SocketAddr }.

Definition tls_enabled (self : ListenerSpec) : bool :=
  match ls_kind self with
  | HttpsV4 | HttpsV6 | Http3V4 | Http3V6 => true
  | HttpV4 | HttpV6 => false
  end.

Definition is_http3 (self : ListenerSpec) : bool :=
  match ls_kind self with Http3V4 | Http3V6 => true | _ => false end.

Definition is_ipv4 (a : SocketAddr) : bool := match sa_ip a with V4 _ _ _ _ => true | V6 _ => false end.

Section listener_specs.
Context `{IpNetApi}.

Definition specs_of (proxy_config : ProxyConfig) (listening_on : SocketAddr) : list ListenerSpec :=
  let tls_enabled :=
    match https_port proxy_config with
    | Some https_port => https_port =? sa_port listening_on
    | None => false
    end in
  let kind :=
    match tls_enabled, is_ipv4 listening_on with
    | false, true => HttpV4
    | false, false => HttpV6
    | true, true => HttpsV4
    | true, false => HttpsV6
    end in
  {| ls_kind := kind; ls_listening_on := listening_on |} ::
  (if tls_enabled && http3 proxy_config
   then [{| ls_kind := if is_ipv4 listening_on then Http3V4 else Http3V6; ls_listening_on := listening_on |}]
   else []).

Definition listener_specs (proxy_config : ProxyConfig) : list ListenerSpec :=
  concat (map (specs_of proxy_config) (listen_sockets proxy_config)).

(** What [start] runs. *)
Inductive Service := StartWithQuic | StartWithTls | StartWithoutTls.

Definition start (self : ListenerSpec) : Service :=
  if is_http3 self then StartWithQuic
  else if tls_enabled self then StartWithTls
  else StartWithoutTls.
End listener_specs.

(** ** Handshakes *)

Class HandshakeApi `{TlsApi} := {
  Client : Type;
  (** whether a handshake for a name completes *)
  handshake : ServerConfig -> str -> Client -> bool;
  (** the client proved to hold a certificate that chains to the anchor *)
  proves : Client -> TrustAnchor -> Prop;
  (** [QuicServerConfig::try_from] *)
  quic_accepts : ServerConfig -> bool
}.

Class HandshakeLaws `(HandshakeApi) : Prop := {
  (** a server with a verifier asks for a certificate, unless a session is resumed, for
      which it needs tickets or a memory of sessions *)
  client_verified cfg sni c roots :
    handshake cfg sni c = true -> sc_client_roots cfg = Some roots ->
    sc_ticketer cfg = None -> sc_session_storage cfg = NoServerSessionStorage ->
    exists a, a ∈ roots /\ proves c a;
  (** a handshake needs a certificate for the name *)
  certificate_resolved cfg sni c :
    handshake cfg sni c = true -> is_Some (map_find (to_ascii_lowercase sni) (sc_resolver cfg))
}.

Section listeners.
Context `{IpNetApi} `{PppApi} `{TlsApi} `{!HandshakeApi}.

(** ** TLS over TCP *)

Record ClientHello := { ch_server_name : option str; ch_is_tls_alpn_challenge : bool }.

Inductive HandshakeError :=
| FailedToTlsHandshake
| NoServerNameInClientHello
| NoAcmeServerConfig
| NoTlsServingApp (server_name : ServerName)
| TlsHandshakeFailed.

Definition SniServerCryptoMap : Type := list (ServerName * ServerCryptoForSni).

(** The name, and whether the handshake was a challenge of ACME. *)
Definition serve_tls_handshake (hello : option ClientHello) (client : Client)
    (server_configs_acme_challenge : list (str * ServerConfig)) (server_crypto_map : SniServerCryptoMap)
    : result HandshakeError (ServerName * bool) :=
  start ← ok_or hello FailedToTlsHandshake;
  sni ← ok_or (ch_server_name start) NoServerNameInClientHello;
  let server_name := ServerName_from sni in
  '(server_crypto, is_handshake_acme) ←
    (if ch_is_tls_alpn_challenge start then
       server_crypto_acme ← ok_or (map_find (to_ascii_lowercase sni) server_configs_acme_challenge) NoAcmeServerConfig;
       Ok (server_crypto_acme, true)
     else
       server_crypto ← ok_or (map_find server_name server_crypto_map) (NoTlsServingApp server_name);
       Ok (sni_server_config server_crypto, false));
  _ ← ensure (handshake server_crypto sni client) TlsHandshakeFailed;
  Ok (server_name, is_handshake_acme).

(** A connection, with what the network, the semaphore of the PROXY parser, the clock
    and the per-address limit will say to it. *)
Record TcpConn := {
  tc_peer : SocketAddr;
  tc_stream : str;
  tc_peeks : list (result io_error str);
  tc_header_in_time : bool;
  tc_permit : bool;
  tc_try_acquire : IpAddr -> bool;
  tc_hello : option ClientHello;
  tc_client : Client;
  tc_handshake_in_time : bool
}.

(** [serve_connection] is called for a client at an address, with a server name from TLS. *)
Record Serve := { sv_client : Client; sv_addr : SocketAddr; sv_tls_server_name : option ServerName; sv_h3 : bool }.

(** The address to serve: the peer's, or the one its PROXY header gives. *)
Definition proxied_addr (pp_config : option TcpRecvProxyProtocolConfig) (c : TcpConn) : option SocketAddr :=
  match pp_config with
  | None => Some (tc_peer c)
  | Some pp =>
      if tc_permit c then
        fst <$> ok (extract_parse_result_from_proxy_protocol_header (tc_stream c) (tc_peeks c) (tc_header_in_time c)
                      (tc_peer c) pp)
      else None
  end.

Definition serve_tls_tcp_connection (pp_config : option TcpRecvProxyProtocolConfig)
    (acme : list (str * ServerConfig)) (server_crypto_map : option SniServerCryptoMap) (tcp_cnx : option TcpConn)
    : option Serve :=
  c ← tcp_cnx;
  server_crypto_map ← server_crypto_map;
  client_addr ← proxied_addr pp_config c;
  if tc_try_acquire c (sa_ip client_addr) then
    if tc_handshake_in_time c then
      match serve_tls_handshake (tc_hello c) (tc_client c) acme server_crypto_map with
      | Ok (server_name, is_handshake_acme) =>
          if is_handshake_acme : bool then None
          else Some {| sv_client := tc_client c; sv_addr := client_addr; sv_tls_server_name := Some server_name;
                       sv_h3 := false |}
      | Err _ => None
      end
    else None
  else None.

(** Cleartext HTTP. *)
Definition serve_tcp_connection (pp_config : option TcpRecvProxyProtocolConfig) (c : TcpConn) : option Serve :=
  client_addr ← proxied_addr pp_config c;
  if tc_try_acquire c (sa_ip client_addr)
  then Some {| sv_client := tc_client c; sv_addr := client_addr; sv_tls_server_name := None; sv_h3 := false |}
  else None.

(** ** QUIC *)

(** Settings of the transport: quinn's own, or those of the configuration. *)
Inductive TransportConfig :=
| TransportDefault
| TransportSet (bidi_streams uni_streams : Z) (idle_timeout : option Duration).

Record QuinnServerConfig := {
  qc_crypto : ServerConfig;
  qc_transport : TransportConfig;
  qc_max_incoming : option Z       (* quinn's own when not set *)
}.

Definition with_crypto (crypto : ServerConfig) : QuinnServerConfig :=
  {| qc_crypto := crypto; qc_transport := TransportDefault; qc_max_incoming := None |}.

Definition quinn_start (proxy_config : ProxyConfig) : QuinnServerConfig :=
  {| qc_crypto := {| sc_client_roots := None; sc_resolver := []; sc_alpn_protocols := []; sc_ticketer := None;
                     sc_session_storage := ServerSessionMemoryCache |};
     qc_transport := TransportSet (h3_max_concurrent_bidistream proxy_config)
                       (h3_max_concurrent_unistream proxy_config) (h3_max_idle_timeout proxy_config);
     qc_max_incoming := Some (h3_max_concurrent_connections proxy_config) |}.

(** An incoming connection: its address, the name it asks for, and the limits. *)
Record QuicConn := {
  qn_client : Client;
  qn_remote : SocketAddr;
  qn_server_name : option str;
  qn_try_acquire : IpAddr -> bool
}.

Definition serve_quic_connection (server_crypto : option ServerCrypto) (endpoint : QuinnServerConfig)
    (new_conn : option QuicConn) : option Serve :=
  _ ← server_crypto;
  incoming ← new_conn;
  new_server_name ← qn_server_name incoming;
  if handshake (qc_crypto endpoint) new_server_name (qn_client incoming) && qn_try_acquire incoming (sa_ip (qn_remote incoming))
  then Some {| sv_client := qn_client incoming; sv_addr := qn_remote incoming;
               sv_tls_server_name := Some (to_server_name new_server_name); sv_h3 := true |}
  else None.

(** ** Reloads and connections *)

Record World := {
  w_reloader : CryptoReloader;
  w_published : option ServerCryptoBase;             (* what the reloader last sent *)
  w_tickets : Tickets;
  w_tls_map : option SniServerCryptoMap;
  w_tls_up : bool;
  w_quic_crypto : option ServerCrypto;
  w_endpoint : QuinnServerConfig;
  w_quic_up : bool
}.

Inductive Event :=
| Reloaded (files : View)
| TlsChanged
| TlsAccepted (tcp_cnx : option TcpConn)
| QuicChanged
| QuicAccepted (new_conn : option QuicConn).

Definition set_tls (m : option SniServerCryptoMap) (up : bool) (t : Tickets) (w : World) : World :=
  {| w_reloader := w_reloader w; w_published := w_published w; w_tickets := t; w_tls_map := m; w_tls_up := up;
     w_quic_crypto := w_quic_crypto w; w_endpoint := w_endpoint w; w_quic_up := w_quic_up w |}.

Definition set_quic (c : option ServerCrypto) (e : QuinnServerConfig) (up : bool) (t : Tickets) (w : World) : World :=
  {| w_reloader := w_reloader w; w_published := w_published w; w_tickets := t; w_tls_map := w_tls_map w;
     w_tls_up := w_tls_up w; w_quic_crypto := c; w_endpoint := e; w_quic_up := up |}.

(** The map of the listener, by server name. *)
Definition sni_map (m : list (str * ServerCryptoForSni)) : SniServerCryptoMap :=
  fold_left (fun acc e => map_put (ServerName_from e.1) e.2 acc) m [].

(** [tls_listener_service] on a change: a base that gives no configuration is skipped. *)
Definition tls_changed (w : World) : World :=
  match w_published w with
  | None => set_tls (w_tls_map w) false (w_tickets w) w
  | Some base =>
      match ServerCrypto_try_into base (w_tickets w) with
      | (Err _, t) => set_tls (w_tls_map w) (w_tls_up w) t w
      | (Ok server_config, t) => set_tls (Some (sni_map (individual_config_map server_config))) (w_tls_up w) t w
      end
  end.

(** [h3_listener_service] on a change: the listener ends where there is none. *)
Definition quic_changed (w : World) : World :=
  match w_published w with
  | None => set_quic (w_quic_crypto w) (w_endpoint w) false (w_tickets w) w
  | Some base =>
      match ServerCrypto_try_into base (w_tickets w) with
      | (Err _, t) => set_quic None (w_endpoint w) false t w
      | (Ok inner, t) =>
          if quic_accepts (aggregated_config_no_client_auth inner)
          then set_quic (Some inner) (with_crypto (aggregated_config_no_client_auth inner)) (w_quic_up w) t w
          else set_quic (Some inner) (w_endpoint w) false t w
      end
  end.

(** The reloader service sends what it has read. *)
Definition reloaded (files : View) (w : World) : World :=
  let '(base, reloader) := reload files (w_reloader w) in
  {| w_reloader := reloader; w_published := Some base; w_tickets := w_tickets w; w_tls_map := w_tls_map w;
     w_tls_up := w_tls_up w; w_quic_crypto := w_quic_crypto w; w_endpoint := w_endpoint w; w_quic_up := w_quic_up w |}.

Section run.
Context (proxy_config : ProxyConfig) (acme : list (str * ServerConfig)).

Definition world_start (crypto_source_map : list (str * CryptoFileSource)) (t : Tickets) : World :=
  {| w_reloader := build_cert_reloader crypto_source_map; w_published := None; w_tickets := t; w_tls_map := None;
     w_tls_up := true; w_quic_crypto := None; w_endpoint := quinn_start proxy_config; w_quic_up := true |}.

Definition world_step (w : World) (e : Event) : World * option Serve :=
  match e with
  | Reloaded files => (reloaded files w, None)
  | TlsChanged => (if w_tls_up w then tls_changed w else w, None)
  | TlsAccepted c =>
      (w, if w_tls_up w
          then serve_tls_tcp_connection (tcp_recv_proxy_protocol proxy_config) acme (w_tls_map w) c
          else None)
  | QuicChanged => (if w_quic_up w then quic_changed w else w, None)
  | QuicAccepted c =>
      (w, if w_quic_up w then serve_quic_connection (w_quic_crypto w) (w_endpoint w) c else None)
  end.

Fixpoint world_run (w : World) (es : list Event) : World * list Serve :=
  match es with
  | [] => (w, [])
  | e :: es =>
      let '(w, s) := world_step w e in
      let '(w, ss) := world_run w es in
      (w, option_list s ++ ss)
  end.
End run.
End listeners.
