(* ===== verification/ListenerProps.v ===== *)
(** * Theorems about listeners

    An invariant of reloads and connections in any order, and what it gives: names that
    ask for client certificates are only served to clients that have proved one, and the
    keys of session tickets survive reloads. *)

From S2P Require Import Prelude RustStr RustNet HttpIface Globals NameExp ProxyProtocol Tls TlsProps Listener.
From S2P Require Import TrustedProxies StickyCookie NameExp LoadBalance Backend Config ConfigProps CryptoInstance.

(** ** Which listeners are opened *)

Section ports.
Context `{HttpApi} `{IpNetApi} `{!EqDecision IpNet} `{HashOrder} `{CryptoApi}.

(** The port a listener has to be on. *)
Definition on_its_port (pc : ProxyConfig) (spec : ListenerSpec) : Prop :=
  match start spec with
  | StartWithoutTls => http_port pc = Some (sa_port (ls_listening_on spec))
  | StartWithTls => https_port pc = Some (sa_port (ls_listening_on spec))
  | StartWithQuic => https_port pc = Some (sa_port (ls_listening_on spec)) /\ http3 pc = true
  end.

Lemma specs_on_ports c pc cl spec :
  validate_and_build_settings c = Ok (pc, cl) -> spec ∈ listener_specs pc ->
  ls_listening_on spec ∈ listen_sockets pc /\ on_its_port pc spec.
Proof.
  intros [Hdiff Hports]%settings_ports. unfold listener_specs, on_its_port.
  intros (a & Ha & Hs)%elem_of_concat_map. specialize (Hports _ Ha). unfold specs_of in Hs.
  destruct (https_port pc) as [p|] eqn:Ep.
  - destruct (p =? sa_port a) eqn:Eq; [apply Z.eqb_eq in Eq as -> |apply Z.eqb_neq in Eq];
      destruct (http3 pc), (is_ipv4 a); cbn in Hs; set_unfold in Hs; destruct_or? Hs; try done; subst; cbn; naive_solver.
  - destruct (is_ipv4 a); cbn in Hs; set_unfold in Hs; destruct_or? Hs; try done; subst; cbn; naive_solver.
Qed.

(** The listeners of an accepted configuration: every listener is on a configured
    socket; cleartext is served on the HTTP port only, TLS and QUIC on the HTTPS port
    only, and QUIC only when HTTP/3 is enabled. Every socket gets its TCP listener, and
    with HTTP/3 every HTTPS socket its QUIC listener. *)
Theorem listeners_follow_ports c pc cl :
  validate_and_build_settings c = Ok (pc, cl) ->
  (forall spec, spec ∈ listener_specs pc ->
     ls_listening_on spec ∈ listen_sockets pc /\ on_its_port pc spec) /\
  (forall a, a ∈ listen_sockets pc ->
     (exists spec, spec ∈ listener_specs pc /\ ls_listening_on spec = a /\ start spec <> StartWithQuic) /\
     (http3 pc = true -> https_port pc = Some (sa_port a) ->
        exists spec, spec ∈ listener_specs pc /\ ls_listening_on spec = a /\ start spec = StartWithQuic)).
Proof.
  intros Hv. split; [intros spec; by eapply specs_on_ports|]. unfold listener_specs.
  intros a Ha. split.
  - eexists. split; [apply elem_of_concat_map; exists a; split; [done|by left]|]. split; [done|].
    cbn. destruct (https_port pc) as [p|]; [destruct (p =? _)|]; destruct (is_ipv4 a); done.
  - intros Hh Ep. eexists. split; [apply elem_of_concat_map; exists a; split; [done|]|].
    + unfold specs_of. rewrite Ep, Z.eqb_refl, Hh. cbn [andb]. right. by left.
    + cbn. by destruct (is_ipv4 a).
Qed.
End ports.

Section listener_props.
Context `{IpNetApi} `{PppApi} `{TlsApi} `{!HandshakeApi}.
Context (proxy_config : ProxyConfig) (acme : list (str * ServerConfig)) (sources : list (str * CryptoFileSource)).

(** ** Certificates come from their sources *)

Definition views_of (es : list Event) : list View :=
  omap (M := list) (fun e => match e with Reloaded files => Some files | _ => None end) es.

(** Every entry was read from the source of its name at one of the reloads. *)
Definition base_ok (vs : list View) (base : ServerCryptoBase) : Prop :=
  forall k cks, (k, cks) ∈ base ->
  exists src v, map_find k (cr_inner (build_cert_reloader sources)) = Some src /\ v ∈ vs /\
    CryptoFileSource_read (v k) src = Ok cks.

Lemma base_ok_more vs v base : base_ok vs base -> base_ok (vs ++ [v]) base.
Proof. intros Hb k cks (src & v' & ? & ? & ?)%Hb. exists src, v'. set_solver. Qed.

Lemma reload_base_keys files r : NoDup (fst <$> (reload files r).1).
Proof.
  unfold reload. destruct (fold_left _ _ _) as [base lg] eqn:E. cbn [fst].
  assert (NoDup (fst <$> ([] : ServerCryptoBase))) as Hnil by constructor.
  revert E Hnil. generalize ([] : ServerCryptoBase), (cr_last_good r) as lg0.
  induction (cr_inner r) as [|[n src] l IH]; intros base0 lg0; [by intros [= <- <-]|]. cbn [fold_left].
  destruct (reload_one files _ _) as [b1 l1] eqn:E1. intros E Hnd. apply (IH _ _ E).
  unfold reload_one in E1. repeat case_match; simplify_eq; by try apply map_put_keys.
Qed.

Lemma reload_base_ok vs v :
  base_ok (vs ++ [v]) (reload v (reloads vs (build_cert_reloader sources))).1.
Proof.
  intros k cks Hin. apply (map_find_elem k cks) in Hin; [|apply reload_base_keys].
  rewrite published_latest in Hin. destruct (map_find k _) as [src|] eqn:Es; [|done].
  apply latest_read in Hin as (v' & Hv & Hr). exists src, v'. done.
Qed.

(** ** The invariant *)

Definition tls_map_ok (vs : list View) (t : Tickets) (m : SniServerCryptoMap) : Prop :=
  forall sn c, (sn, c) ∈ m ->
  exists base k cks, base_ok vs base /\ sn = ServerName_from k /\ sni_good base t k c cks.

Definition endpoint_ok (vs : list View) (q : QuinnServerConfig) : Prop :=
  forall k key, (k, key) ∈ sc_resolver (qc_crypto q) ->
  exists base name cks, base_ok vs base /\ (name, cks) ∈ base /\ k = to_ascii_lowercase name /\
    sk_client_ca_certs cks = None.

Record world_ok (vs : list View) (w : World) : Prop := {
  ok_reloader : w_reloader w = reloads vs (build_cert_reloader sources);
  ok_published base : w_published w = Some base -> base_ok vs base;
  ok_tls m : w_tls_map w = Some m -> tls_map_ok vs (w_tickets w) m;
  ok_quic : endpoint_ok vs (w_endpoint w);
  ok_quic_tickets c : w_quic_crypto w = Some c -> issues_tickets (w_tickets w) (aggregated_config_no_client_auth c)
}.

Lemma tls_map_ok_kept vs t t' m : ticketer_kept t t' -> tls_map_ok vs t m -> tls_map_ok vs t' m.
Proof.
  intros Hk Hm sn c (base & k & cks & Hb & Hs & Hg)%Hm. exists base, k, cks. split_and!; [done|done|by eapply sni_good_kept].
Qed.

Lemma sni_map_ok vs t base m :
  base_ok vs base -> (forall k c, (k, c) ∈ m -> exists cks, sni_good base t k c cks) -> tls_map_ok vs t (sni_map m).
Proof.
  intros Hb Hm sn c Hin. apply (fold_put_elem (fun e => ServerName_from e.1) snd) in Hin.
  destruct Hin as [?%elem_of_nil|([k c'] & Hin & -> & ->)]; [done|]. destruct (Hm _ _ Hin) as [cks Hg]. by exists base, k, cks.
Qed.

Lemma world_start_ok t : world_ok [] (world_start proxy_config sources t).
Proof. split; cbn; try done. by intros ? ? ?%elem_of_nil. Qed.

Lemma world_step_ok vs w e w' s :
  world_ok vs w -> world_step proxy_config acme w e = (w', s) ->
  world_ok (vs ++ views_of [e]) w' /\ ticketer_kept (w_tickets w) (w_tickets w').
Proof.
  intros [Hr Hp Ht Hq Hqt] Hs. destruct e as [files| |c| |c]; cbn [world_step] in Hs; simplify_eq.
  - unfold reloaded. destruct (reload files (w_reloader w)) as [base r] eqn:E. split; [|done].
    rewrite Hr in E. change (views_of [Reloaded files]) with [files]. split; cbn.
    + by rewrite reloads_snoc, E.
    + intros ? [= <-]. pose proof (reload_base_ok vs files) as Hb. by rewrite E in Hb.
    + intros m Hm sn c (base0 & k & cks & ? & ? & ?)%(Ht m Hm). exists base0, k, cks. split_and!; [by apply base_ok_more|done..].
    + intros k key (base0 & n & cks & ? & ?)%Hq. exists base0, n, cks. split_and!; [by apply base_ok_more|naive_solver..].
    + done.
  - change (views_of [TlsChanged]) with (@nil View). rewrite app_nil_r. destruct (w_tls_up w); [|by split; [split|]].
    unfold tls_changed. destruct (w_published w) as [base|] eqn:Eb; [|by split; [split; cbn; rewrite ?Eb|]].
    pose proof (try_into_keeps base (w_tickets w)) as Hk.
    destruct (ServerCrypto_try_into base (w_tickets w)) as [[crypto|e] t] eqn:E; cbn [snd] in Hk; (split; [|done]).
    + apply try_into_good in E as (_ & Hi & _). split; cbn; [done|by rewrite Eb| |done|].
      * intros m [= <-]. eapply sni_map_ok; [by apply Hp|exact Hi].
      * intros c Hc. eapply issues_tickets_kept; [exact Hk|by apply Hqt].
    + split; cbn; [done|by rewrite Eb| |done|].
      * intros m Hm. eapply tls_map_ok_kept; [exact Hk|by apply Ht].
      * intros c Hc. eapply issues_tickets_kept; [exact Hk|by apply Hqt].
  - change (views_of [TlsAccepted c]) with (@nil View). rewrite app_nil_r. by split; [split|].
  - change (views_of [QuicChanged]) with (@nil View). rewrite app_nil_r. destruct (w_quic_up w); [|by split; [split|]].
    unfold quic_changed. destruct (w_published w) as [base|] eqn:Eb; [|by split; [split; cbn; rewrite ?Eb|]].
    pose proof (try_into_keeps base (w_tickets w)) as Hk.
    destruct (ServerCrypto_try_into base (w_tickets w)) as [[crypto|e] t] eqn:E; cbn [snd] in Hk.
    + apply try_into_good in E as (_ & Hi & Ha & Hta).
      case_match; (split; [|done]); split; cbn; rewrite ?Eb; try done.
      all: try (intros m Hm; eapply tls_map_ok_kept; [exact Hk|by apply Ht]).
      all: try (by intros c [= <-]).
      intros k key (name & cks & Hn & -> & Hc & _)%Ha. exists base, name, cks. split_and!; [by apply Hp|done..].
    + split; [|done]. split; cbn; rewrite ?Eb; try done.
      intros m Hm. eapply tls_map_ok_kept; [exact Hk|by apply Ht].
  - change (views_of [QuicAccepted c]) with (@nil View). rewrite app_nil_r. by split; [split|].
Qed.

Lemma views_of_app es es' : views_of (es ++ es') = views_of es ++ views_of es'.
Proof. apply omap_app. Qed.

Lemma world_run_ok vs w es w' ss :
  world_ok vs w -> world_run proxy_config acme w es = (w', ss) ->
  world_ok (vs ++ views_of es) w' /\ ticketer_kept (w_tickets w) (w_tickets w').
Proof.
  revert vs w w' ss. induction es as [|e es IH]; intros vs w w' ss Hw; cbn [world_run].
  - intros [= <- <-]. rewrite app_nil_r. by split.
  - destruct (world_step _ _ w e) as [w1 s] eqn:E1. destruct (world_run _ _ w1 es) as [w2 ss'] eqn:E2. intros [= <- <-].
    apply (world_step_ok vs) in E1 as [Hw1 Hk1]; [|done]. apply (IH _ _ _ _ Hw1) in E2 as [Hw2 Hk2].
    rewrite <- app_assoc, <- views_of_app in Hw2. split; [exact Hw2|by etrans].
Qed.

(** A connection is served at some point of the run. *)
Lemma world_run_serves vs w es w' ss s :
  world_ok vs w -> world_run proxy_config acme w es = (w', ss) -> s ∈ ss ->
  exists es1 e es2 w1, es = es1 ++ e :: es2 /\ world_ok (vs ++ views_of es1) w1 /\
    (world_step proxy_config acme w1 e).2 = Some s.
Proof.
  revert vs w w' ss. induction es as [|e es IH]; intros vs w w' ss Hw; cbn [world_run].
  - intros [= <- <-] []%elem_of_nil.
  - destruct (world_step _ _ w e) as [w1 o] eqn:E1. destruct (world_run _ _ w1 es) as [w2 ss'] eqn:E2. intros [= <- <-].
    intros [Ho|Hs]%elem_of_app.
    + exists [], e, es, w. rewrite app_nil_r, E1. split_and!; [done|done|]. destruct o; [|by apply elem_of_nil in Ho].
      by apply list_elem_of_singleton in Ho as ->.
    + pose proof E1 as Hw1. apply (world_step_ok vs) in Hw1 as [Hw1 _]; [|done].
      destruct (IH _ _ _ _ Hw1 E2 Hs) as (es1 & e' & es2 & w3 & -> & Hw3 & Hstep).
      exists (e :: es1), e', es2, w3. rewrite <- app_assoc, <- views_of_app in Hw3. done.
Qed.

(** ** Who is served *)

Lemma serve_tls_inv m c s :
  serve_tls_tcp_connection (tcp_recv_proxy_protocol proxy_config) acme m c = Some s ->
  exists map_ sni sc, m = Some map_ /\ map_find (ServerName_from sni) map_ = Some sc /\
    handshake (sni_server_config sc) sni (sv_client s) = true /\
    sv_tls_server_name s = Some (ServerName_from sni) /\ sv_h3 s = false.
Proof.
  unfold serve_tls_tcp_connection. destruct c as [c|]; [|done]. destruct m as [m|]; [|done]. cbn [mbind option_bind].
  destruct (proxied_addr _ c) as [addr|]; [|done]. cbn [mbind option_bind].
  destruct (tc_try_acquire _ _); [|done]. destruct (tc_handshake_in_time c); [|done].
  destruct (serve_tls_handshake _ _ _ _) as [[sn challenge]|] eqn:Eh; [|done]. destruct challenge; [done|].
  intros [= <-]. cbn. apply result_bind_Ok in Eh as (hello & _ & Eh). apply result_bind_Ok in Eh as (sni & _ & Eh).
  apply result_bind_Ok in Eh as ([cfg ch] & Ec & Eh). apply result_bind_Ok in Eh as ([] & Hh%ensure_Ok & [= <- ->]).
  destruct (ch_is_tls_alpn_challenge hello).
  { apply result_bind_Ok in Ec as (? & _ & Ec). done. }
  apply result_bind_Ok in Ec as (sc & Hf%ok_or_Ok & [= <-]). by exists m, sni, sc.
Qed.

Lemma serve_quic_inv crypto q c s :
  serve_quic_connection crypto q c = Some s ->
  exists sni, handshake (qc_crypto q) sni (sv_client s) = true /\
    sv_tls_server_name s = Some (ServerName_from sni) /\ sv_h3 s = true.
Proof.
  unfold serve_quic_connection. destruct crypto; [|done]. destruct c as [c|]; [|done]. cbn [mbind option_bind].
  destruct (qn_server_name c) as [sni|]; [|done]. cbn [mbind option_bind].
  destruct (handshake _ _ _) eqn:Eh; [|done]. destruct (qn_try_acquire _ _); [|done]. intros [= <-]. by exists sni.
Qed.

(** The source an entry was read from, for the server name it is served under. *)
Lemma entry_source vs base k cks name src :
  NoDup (map (fun e => to_ascii_lowercase e.1) sources) -> (name, src) ∈ sources ->
  base_ok vs base -> (k, cks) ∈ base -> to_ascii_lowercase k = to_ascii_lowercase name ->
  exists v, v ∈ vs /\ CryptoFileSource_read (v (to_ascii_lowercase name)) src = Ok cks.
Proof.
  intros Hnd Hin Hb Hk Ek. destruct (Hb _ _ Hk) as (src' & v & Hf & Hv & Hr).
  assert (k = to_ascii_lowercase k) as El.
  { apply map_find_in in Hf. unfold build_cert_reloader, CryptoReloader_new in Hf. cbn [cr_inner] in Hf.
    apply (fold_put_elem fst snd) in Hf as [?%elem_of_nil|([k' src''] & Hf & -> & _)]; [done|].
    apply (fold_put_elem (fun e => to_ascii_lowercase e.1) snd) in Hf as [?%elem_of_nil|(e & _ & -> & _)]; [done|].
    cbn. by rewrite to_ascii_lowercase_idem. }
  rewrite Ek in El. subst k. rewrite (cert_reloader_source _ _ _ Hnd Hin) in Hf. injection Hf as <-. eauto.
Qed.

Section authenticated.
Context `{!HandshakeLaws H2}.

(** C11: Client authentication is enforced. Where a server name is configured with a
    client CA, no order of certificate reloads, handshakes and connections makes the
    proxy serve a connection for that name, unless the client has proved to hold a
    certificate that chains to one of the CA certificates read from the configured file;
    neither a resumed session, nor HTTP/3, nor an ACME challenge goes around it. *)
Theorem mutual_tls_enforced t es w served name src ca s :
  NoDup (map (fun e => to_ascii_lowercase e.1) sources) -> (name, src) ∈ sources ->
  cs_client_ca_cert_path src = Some ca ->
  world_run proxy_config acme (world_start proxy_config sources t) es = (w, served) ->
  s ∈ served -> sv_tls_server_name s = Some (ServerName_from name) ->
  sv_h3 s = false /\
  exists files content cas a,
    Reloaded files ∈ es /\ files (to_ascii_lowercase name) ca = Some content /\ pem_certs content = Some cas /\
    anchored cas a /\ proves (sv_client s) a.
Proof.
  intros Hnd Hin Hca Hrun Hs Hname.
  destruct (world_run_serves _ _ _ _ _ _ (world_start_ok t) Hrun Hs) as (es1 & e & es2 & w1 & -> & Hw & Hstep).
  cbn [app] in Hw. destruct e as [files| |c| |c]; cbn [world_step snd] in Hstep; try done.
  - destruct (w_tls_up w1); [|done].
    apply serve_tls_inv in Hstep as (m & sni & sc & Hm & Hf & Hh & Hsn & Hh3). split; [done|].
    rewrite Hname in Hsn. injection Hsn as Esni.
    destruct (ok_tls _ _ Hw m Hm _ _ (map_find_in _ _ _ Hf)) as (base & k & cks & Hb & Ek & Hg).
    injection Ek as Ek. rewrite <- Esni in Ek.
    destruct (entry_source _ _ _ _ _ _ Hnd Hin Hb (good_base _ _ _ _ _ Hg) (eq_sym Ek)) as (v & Hv & Hr).
    apply read_client_ca in Hr. rewrite Hca in Hr. destruct Hr as (content & cas & Hfile & Hpem & Hck).
    pose proof (good_client _ _ _ _ _ Hg) as Hc. rewrite Hck in Hc. destruct Hc as ((roots & Hroots & Hanch) & Htk & _).
    destruct (client_verified _ _ _ _ Hh Hroots Htk (good_storage _ _ _ _ _ Hg)) as (a & Ha & Hp).
    exists v, content, cas, a. split_and!; [|done|done|by apply Hanch|done].
    apply elem_of_app. left. apply list_elem_of_omap in Hv as (e & He & Ee). by destruct e; simplify_eq.
  - exfalso. destruct (w_quic_up w1); [|done]. apply serve_quic_inv in Hstep as (sni & Hh & Hsn & _).
    rewrite Hname in Hsn. injection Hsn as Esni. apply certificate_resolved in Hh as [key Hk%map_find_in].
    apply (ok_quic _ _ Hw) in Hk as (base & n & cks & Hb & Hn & Ek & Hnone).
    destruct (entry_source _ _ _ _ _ _ Hnd Hin Hb Hn) as (v & _ & Hr); [congruence|].
    apply read_client_ca in Hr. rewrite Hca in Hr. destruct Hr as (? & ? & _ & _ & Hck). congruence.
Qed.

End authenticated.

(** ** Tickets *)

(** The configurations in use. *)
Definition configs (w : World) : list ServerConfig :=
  map (fun e => sni_server_config e.2) (default [] (w_tls_map w)) ++
  map aggregated_config_no_client_auth (option_list (w_quic_crypto w)).

Lemma config_tickets vs w c t :
  world_ok vs w -> c ∈ configs w -> sc_ticketer c = Some t -> issues_tickets (w_tickets w) c.
Proof.
  intros Hw [Hin|Hin]%elem_of_app Ht; apply list_elem_of_In, in_map_iff in Hin.
  - destruct Hin as ([sn sc] & <- & Hin%list_elem_of_In). destruct (w_tls_map w) as [m|] eqn:Em; [|by apply elem_of_nil in Hin].
    destruct (ok_tls _ _ Hw m Em _ _ Hin) as (base & k & cks & _ & _ & Hg).
    pose proof (good_client _ _ _ _ _ Hg) as Hc. cbn in Ht. destruct (sk_client_ca_certs cks); [|by destruct Hc].
    destruct Hc as (_ & Hc & _). congruence.
  - destruct Hin as (crypto & <- & Hin%list_elem_of_In). apply (ok_quic_tickets _ _ Hw).
    destruct (w_quic_crypto w); [|by apply elem_of_nil in Hin]. by apply list_elem_of_singleton in Hin as ->.
Qed.

(** Session tickets survive reloads: whatever happens between them, two
    configurations that issue tickets, of any server names, over TCP or QUIC, use the
    same keys, those of the process; and a configuration that asks for client
    certificates issues none and stores no session. *)
Theorem tickets_survive_reloads t es1 w1 ss1 es2 w2 ss2 c1 c2 t1 t2 :
  world_run proxy_config acme (world_start proxy_config sources t) es1 = (w1, ss1) ->
  world_run proxy_config acme w1 es2 = (w2, ss2) ->
  c1 ∈ configs w1 -> c2 ∈ configs w2 -> sc_ticketer c1 = Some t1 -> sc_ticketer c2 = Some t2 ->
  t1 = t2 /\ SHARED_TICKETER (w_tickets w2) = Some t1 /\ sc_client_roots c1 = None /\ sc_client_roots c2 = None.
Proof.
  intros Hr1 Hr2 H1in H2in Ht1 Ht2.
  apply (world_run_ok [] _ _ _ _ (world_start_ok t)) in Hr1 as [Hw1 _].
  apply (world_run_ok _ _ _ _ _ Hw1) in Hr2 as [Hw2 Hk].
  destruct (config_tickets _ _ _ _ Hw1 H1in Ht1) as (Hr1 & _ & _ & E1).
  destruct (config_tickets _ _ _ _ Hw2 H2in Ht2) as (Hr2 & _ & _ & E2).
  rewrite Ht1 in E1. rewrite Ht2 in E2. pose proof (Hk _ (eq_sym E1)) as E3. rewrite E3 in E2. by simplify_eq.
Qed.
End listener_props.

(** ** Settings of the QUIC transport *)

Section transport.
Context `{IpNetApi} `{PppApi} `{TlsApi} `{!HandshakeApi}.
Context (proxy_config : ProxyConfig) (acme : list (str * ServerConfig)).

(** Whenever QUIC connections are served, the endpoint has the transport settings and the
    limit of incoming connections of quinn, not those of the configuration. *)
Definition transport_lost (w : World) : Prop :=
  w_quic_up w = true -> is_Some (w_quic_crypto w) ->
  qc_transport (w_endpoint w) = TransportDefault /\ qc_max_incoming (w_endpoint w) = None.

Lemma h3_limits_not_applied sources t es w ss :
  world_run proxy_config acme (world_start proxy_config sources t) es = (w, ss) -> transport_lost w.
Proof.
  assert (forall w0 w1 ss1, transport_lost w0 -> world_run proxy_config acme w0 es = (w1, ss1) -> transport_lost w1) as Hrun.
  2: { apply Hrun. by intros _ []. }
  induction es as [|e r IH]; intros w0 w1 ss1 H0'; cbn [world_run]; [by intros [= <- <-]|].
  destruct (world_step _ _ w0 e) as [w2 o] eqn:E. destruct (world_run _ _ w2 r) as [w3 ss3] eqn:E3. intros [= <- <-].
  apply (IH w2 _ ss3); [|done]. destruct e as [files| |c| |c]; cbn [world_step] in E; simplify_eq; try done.
  - unfold reloaded. by destruct (reload files _).
  - unfold tls_changed. by repeat case_match.
  - destruct (w_quic_up w0) eqn:Eup; [|done]. unfold quic_changed. repeat case_match; by intros ? ?.
Qed.
End transport.

(** ** Examples *)

Module ListenerExamples.
#[local] Existing Instance Alist.net_api.
#[local] Existing Instance toy_tls.

(** A client holds a certificate issued by one CA, or none; it never resumes. *)
#[local] Instance toy_handshake : HandshakeApi := {|
  Client := option str;
  handshake cfg sni c :=
    bool_decide (is_Some (map_find (to_ascii_lowercase sni) (sc_resolver cfg))) &&
    match sc_client_roots cfg, c with
    | None, _ => true
    | Some roots, Some a => existsb (fun r : str => bool_decide (r = a)) roots
    | Some _, None => false
    end;
  proves c a := c = Some a;
  quic_accepts _ := true
|}.

#[local] Instance toy_handshake_laws : HandshakeLaws toy_handshake.
Proof.
  split.
  - intros cfg sni c roots [_ Hh]%andb_true_iff Hr _ _. rewrite Hr in Hh. destruct c as [a|]; [|done].
    apply existsb_exists in Hh as (r & Hin%list_elem_of_In & ->%bool_decide_eq_true). by exists a.
  - intros cfg sni c [Hf _]%andb_true_iff. by apply bool_decide_eq_true in Hf.
Qed.

#[local] Instance no_ppp : PppApi := {| v2_try_from _ := None; v1_try_from _ := None |}.

Definition source (ca : option str) : CryptoFileSource :=
  {| cs_tls_cert_path := B "/cert.pem"; cs_tls_cert_key_path := B "/key.pem"; cs_client_ca_cert_path := ca |}.

Definition sources : list (str * CryptoFileSource) :=
  [(B "Secure.example.com", source (Some (B "/ca.pem"))); (B "open.example.com", source None)].

Definition files : View := fun _ path => Some path.

Definition conn (sni : str) (client : option str) : TcpConn := {|
  tc_peer := {| sa_ip := V4 192 0 2 1; sa_port := 4711 |}; tc_stream := []; tc_peeks := []; tc_header_in_time := true;
  tc_permit := true; tc_try_acquire _ := true;
  tc_hello := Some {| ch_server_name := Some sni; ch_is_tls_alpn_challenge := false |};
  tc_client := client; tc_handshake_in_time := true |}.

Definition quic_conn (sni : str) (client : option str) : QuicConn := {|
  qn_client := client; qn_remote := {| sa_ip := V4 192 0 2 1; sa_port := 4712 |}; qn_server_name := Some sni;
  qn_try_acquire _ := true |}.

Definition tickets : Tickets := {| SHARED_TICKETER := None; tk_calls := 0; tk_races := [] |}.

(** One client with a certificate and one without, over TCP and over QUIC. *)
Definition events : list Event := [
  Reloaded files; TlsChanged; QuicChanged;
  TlsAccepted (Some (conn (B "SECURE.example.com") (Some (B "/ca.pem"))));
  TlsAccepted (Some (conn (B "secure.example.com") None));
  QuicAccepted (Some (quic_conn (B "secure.example.com") (Some (B "/ca.pem"))));
  QuicAccepted (Some (quic_conn (B "open.example.com") None))
].

Definition start_world : World := world_start ProxyConfig_default sources tickets.
Definition final : World * list Serve := world_run ProxyConfig_default [] start_world events.

Definition secure : Serve :=
  {| sv_client := Some (B "/ca.pem") : Client; sv_addr := {| sa_ip := V4 192 0 2 1; sa_port := 4711 |};
     sv_tls_server_name := Some (ServerName_from (B "Secure.example.com")); sv_h3 := false |}.

Lemma final_served :
  final.2 = [secure;
    {| sv_client := None : Client; sv_addr := {| sa_ip := V4 192 0 2 1; sa_port := 4712 |};
       sv_tls_server_name := Some (ServerName_from (B "open.example.com")); sv_h3 := true |}].
Proof. vm_compute. reflexivity. Qed.

Lemma names_distinct : NoDup (map (fun e : str * CryptoFileSource => to_ascii_lowercase e.1) sources).
Proof. apply (bool_decide_unpack _). vm_compute. exact I. Qed.

Lemma mutual_tls_enforced_witness : exists a, anchored [B "/ca.pem"] a /\ proves (sv_client secure) a.
Proof.
  destruct (mutual_tls_enforced ProxyConfig_default [] sources tickets events final.1 final.2
              (B "Secure.example.com") (source (Some (B "/ca.pem"))) (B "/ca.pem") secure)
    as (_ & fs & content & cas & a & Hin & Hf & Hp & Ha & Hc).
  - exact names_distinct.
  - by left.
  - reflexivity.
  - apply surjective_pairing.
  - rewrite final_served. by left.
  - reflexivity.
  - exists a. split; [|exact Hc].
    assert (fs = files) as -> by (repeat (apply elem_of_cons in Hin as [Hin|Hin]; [by simplify_eq|]); by apply elem_of_nil in Hin).
    injection Hf as <-. injection Hp as <-. exact Ha.
Defined.

(** The configuration of QUIC, before and after another reload. *)
Definition pick (w : World) : ServerConfig := default (qc_crypto (w_endpoint w)) (last (configs w)).

Lemma pick_in w : negb (length (configs w) =? 0)%nat = true -> pick w ∈ configs w.
Proof.
  unfold pick. intros Hl. destruct (last (configs w)) as [c|] eqn:E.
  - apply last_Some in E as [l ->]. set_solver.
  - apply last_None in E. by rewrite E in Hl.
Qed.

Definition again : World * list Serve :=
  world_run ProxyConfig_default [] final.1 [Reloaded files; TlsChanged; QuicChanged].

Lemma tickets_survive_reloads_witness :
  SHARED_TICKETER (w_tickets again.1) = Some 0%nat /\ sc_client_roots (pick again.1) = None.
Proof.
  destruct (tickets_survive_reloads ProxyConfig_default [] sources tickets events final.1 final.2
              [Reloaded files; TlsChanged; QuicChanged] again.1 again.2 (pick final.1) (pick again.1) 0%nat 0%nat)
    as (_ & Hs & _ & Hr).
  - apply surjective_pairing.
  - apply surjective_pairing.
  - apply pick_in. vm_compute. reflexivity.
  - apply pick_in. vm_compute. reflexivity.
  - vm_compute. reflexivity.
  - vm_compute. reflexivity.
  - split; [exact Hs|exact Hr].
Defined.

#[local] Existing Instance ConfigExamples.net_eq_dec.
#[local] Existing Instance ConfigExamples.in_order.
#[local] Existing Instance toy_crypto.
#[local] Existing Instance Alist.api.

Definition https_socket : SocketAddr := {| sa_ip := V4 192 0 2 1; sa_port := 443 |}.

Lemma listeners_follow_ports_witness :
  exists spec, spec ∈ listener_specs (fst ConfigExamples.settings) /\ ls_listening_on spec = https_socket /\
    start spec <> StartWithQuic.
Proof.
  apply (listeners_follow_ports ConfigExamples.toml (fst ConfigExamples.settings) (snd ConfigExamples.settings)
           ConfigExamples.toml_accepted).
  apply (bool_decide_unpack _). vm_compute. exact I.
Defined.
End ListenerExamples.
