(* ===== verification/Socket.v ===== *)
(** * Sockets of the listeners ([proxy/socket.rs])

    How the TCP and UDP sockets are set up, call by call, and which of them a connection
    can reach. The sockets share their ports ([SO_REUSEPORT]), so that nothing but the
    addresses keeps two listeners apart. The calls are those of a Linux target. *)

From S2P Require Import Prelude RustStr RustNet HttpIface Globals StickyCookie CryptoInstance Config ConfigProps Listener ListenerProps.

(** ** Setting up *)

Inductive SockCall := NewSocket | SetOnlyV6 | SetNonblocking | SetReuseaddr | SetReuseport | BindTo (a : SocketAddr) | Listen (backlog : Z).

Inductive SocketError := Io (call : SockCall).

Record Sock := {
  sk_v6 : bool;
  sk_stream : bool;
  sk_only_v6 : bool;
  sk_nonblocking : bool;
  sk_reuseaddr : bool;
  sk_reuseport : bool;
  sk_bound : option SocketAddr;
  sk_backlog : option Z
}.

Definition is_ipv6 (a : SocketAddr) : bool := negb (is_ipv4 a).

(** A call of the system that succeeds or not. *)
Definition attempt (os : SockCall -> bool) (call : SockCall) (after : Sock) : result SocketError Sock :=
  if os call then Ok after else Err (Io call).

Definition set_only_v6 (s : Sock) : Sock :=
  {| sk_v6 := sk_v6 s; sk_stream := sk_stream s; sk_only_v6 := true; sk_nonblocking := sk_nonblocking s;
     sk_reuseaddr := sk_reuseaddr s; sk_reuseport := sk_reuseport s; sk_bound := sk_bound s; sk_backlog := sk_backlog s |}.

Definition set_nonblocking (s : Sock) : Sock :=
  {| sk_v6 := sk_v6 s; sk_stream := sk_stream s; sk_only_v6 := sk_only_v6 s; sk_nonblocking := true;
     sk_reuseaddr := sk_reuseaddr s; sk_reuseport := sk_reuseport s; sk_bound := sk_bound s; sk_backlog := sk_backlog s |}.

Definition set_reuseaddr (s : Sock) : Sock :=
  {| sk_v6 := sk_v6 s; sk_stream := sk_stream s; sk_only_v6 := sk_only_v6 s; sk_nonblocking := sk_nonblocking s;
     sk_reuseaddr := true; sk_reuseport := sk_reuseport s; sk_bound := sk_bound s; sk_backlog := sk_backlog s |}.

Definition set_reuseport (s : Sock) : Sock :=
  {| sk_v6 := sk_v6 s; sk_stream := sk_stream s; sk_only_v6 := sk_only_v6 s; sk_nonblocking := sk_nonblocking s;
     sk_reuseaddr := sk_reuseaddr s; sk_reuseport := true; sk_bound := sk_bound s; sk_backlog := sk_backlog s |}.

Definition bind_to (a : SocketAddr) (s : Sock) : Sock :=
  {| sk_v6 := sk_v6 s; sk_stream := sk_stream s; sk_only_v6 := sk_only_v6 s; sk_nonblocking := sk_nonblocking s;
     sk_reuseaddr := sk_reuseaddr s; sk_reuseport := sk_reuseport s; sk_bound := Some a; sk_backlog := sk_backlog s |}.

Definition listen_with (backlog : Z) (s : Sock) : Sock :=
  {| sk_v6 := sk_v6 s; sk_stream := sk_stream s; sk_only_v6 := sk_only_v6 s; sk_nonblocking := sk_nonblocking s;
     sk_reuseaddr := sk_reuseaddr s; sk_reuseport := sk_reuseport s; sk_bound := sk_bound s; sk_backlog := Some backlog |}.

(** [Socket::new(domain, ty, protocol)]; a stream socket is asked for as non-blocking. *)
Definition new_socket (v6 stream nonblocking : bool) : Sock :=
  {| sk_v6 := v6; sk_stream := stream; sk_only_v6 := false; sk_nonblocking := nonblocking; sk_reuseaddr := false;
     sk_reuseport := false; sk_bound := None; sk_backlog := None |}.

Definition bind_tcp_socket (os : SockCall -> bool) (listening_on : SocketAddr) : result SocketError Sock :=
  socket ← attempt os NewSocket (new_socket (is_ipv6 listening_on) true true);
  socket ← (if is_ipv6 listening_on then attempt os SetOnlyV6 (set_only_v6 socket) else Ok socket : result SocketError Sock);
  tcp_socket ← attempt os SetReuseaddr (set_reuseaddr socket);
  tcp_socket ← attempt os SetReuseport (set_reuseport tcp_socket);
  attempt os (BindTo listening_on) (bind_to listening_on tcp_socket).

Definition bind_udp_socket (os : SockCall -> bool) (listening_on : SocketAddr) : result SocketError Sock :=
  socket ← attempt os NewSocket (new_socket (is_ipv6 listening_on) false false);
  socket ← (if is_ipv6 listening_on then attempt os SetOnlyV6 (set_only_v6 socket) else Ok socket : result SocketError Sock);
  socket ← attempt os SetNonblocking (set_nonblocking socket);
  socket ← attempt os SetReuseaddr (set_reuseaddr socket);
  socket ← attempt os SetReuseport (set_reuseport socket);
  attempt os (BindTo listening_on) (bind_to listening_on socket).

(** The socket of a listener, ready to accept. *)
Definition listener_socket `{IpNetApi} (os : SockCall -> bool) (pc : ProxyConfig) (spec : ListenerSpec) : result SocketError Sock :=
  if is_http3 spec then bind_udp_socket os (ls_listening_on spec)
  else
    tcp_socket ← bind_tcp_socket os (ls_listening_on spec);
    attempt os (Listen (tcp_listen_backlog pc)) (listen_with (tcp_listen_backlog pc) tcp_socket).

(** ** What a socket receives *)

(** The network: whether a bound socket can be given what is sent to an address. *)
Class Delivery := { delivers : Sock -> SocketAddr -> bool }.

(** A socket gets what is sent to the address it is bound to, one bound to the wildcard what
    is sent to any address of its port: of its own family, or, for IPv6 without
    [IPV6_V6ONLY], of both. *)
Class DeliveryLaws `(Delivery) : Prop := {
  delivers_bound s dst :
    delivers s dst = true ->
    exists a, sk_bound s = Some a /\ sa_port a = sa_port dst /\
      (sa_ip a = sa_ip dst \/
       is_unspecified (sa_ip a) = true /\ (is_ipv4 a = is_ipv4 dst \/ sk_v6 s = true /\ sk_only_v6 s = false))
}.

(** ** Lemmas *)

Lemma attempt_Ok os call s s' : attempt os call s = Ok s' -> os call = true /\ s' = s.
Proof. unfold attempt. destruct (os call); [by intros [= ->]|done]. Qed.

(** A socket that was set up. *)
Record opened (stream : bool) (a : SocketAddr) (s : Sock) : Prop := {
  op_stream : sk_stream s = stream;
  op_family : sk_v6 s = is_ipv6 a;
  op_only : sk_only_v6 s = is_ipv6 a;
  op_flags : sk_nonblocking s = true /\ sk_reuseaddr s = true /\ sk_reuseport s = true;
  op_bound : sk_bound s = Some a
}.

Lemma bind_tcp_opened os a s : bind_tcp_socket os a = Ok s -> opened true a s.
Proof.
  unfold bind_tcp_socket. intros Hs. apply result_bind_Ok in Hs as (? & [_ ->]%attempt_Ok & Hs).
  apply result_bind_Ok in Hs as (s1 & H1 & Hs). do 2 (apply result_bind_Ok in Hs as (? & [_ ->]%attempt_Ok & Hs)).
  apply attempt_Ok in Hs as [_ ->].
  destruct (is_ipv6 a) eqn:E; [apply attempt_Ok in H1 as [_ ->]|injection H1 as <-]; by split; cbn; rewrite ?E.
Qed.

Lemma bind_udp_opened os a s : bind_udp_socket os a = Ok s -> opened false a s.
Proof.
  unfold bind_udp_socket. intros Hs. apply result_bind_Ok in Hs as (? & [_ ->]%attempt_Ok & Hs).
  apply result_bind_Ok in Hs as (s1 & H1 & Hs). do 3 (apply result_bind_Ok in Hs as (? & [_ ->]%attempt_Ok & Hs)).
  apply attempt_Ok in Hs as [_ ->].
  destruct (is_ipv6 a) eqn:E; [apply attempt_Ok in H1 as [_ ->]|injection H1 as <-]; by split; cbn; rewrite ?E.
Qed.

Lemma listener_opened `{IpNetApi} os pc spec s :
  listener_socket os pc spec = Ok s -> opened (negb (is_http3 spec)) (ls_listening_on spec) s.
Proof.
  unfold listener_socket. destruct (is_http3 spec); [by apply bind_udp_opened|].
  intros (s1 & Hb%bind_tcp_opened & [_ ->]%attempt_Ok)%result_bind_Ok. destruct Hb. by split.
Qed.

(** ** The addresses *)

Lemma parse_ipv4_family s ip : parse_ipv4 s = Some ip -> exists a b c d, ip = V4 a b c d.
Proof.
  unfold parse_ipv4, parse_with, read_ipv4_addr. destruct (15 <? length s)%nat; [done|]. intros Hp.
  do 4 (destruct (read_octet _ _) as [[? ?]|]; [|done]; cbn [mbind option_bind] in Hp). case_match; [|done]. injection Hp as <-. by do 4 eexists.
Qed.

Lemma parse_ipv6_family s ip : parse_ipv6 s = Some ip -> exists l, ip = V6 l.
Proof.
  unfold parse_ipv6, parse_with, read_ipv6_addr. destruct (read_groups 8 0 8 s) as [[hd e] s1]. intros Hp.
  destruct (length hd =? 8)%nat; [case_match; simplify_eq; eauto|]. destruct e; [done|].
  destruct (read_given_char COLON s1) as [s2|]; [|done]. cbn [mbind option_bind] in Hp.
  destruct (read_given_char COLON s2) as [s3|]; [|done]. cbn [mbind option_bind] in Hp.
  destruct (read_groups _ 0 _ s3) as [[tl e'] s4]. case_match; simplify_eq; eauto.
Qed.

Section addresses.
Context `{HashOrder}.

Definition v4 (ip : IpAddr) : bool := match ip with V4 _ _ _ _ => true | V6 _ => false end.

(** One family: no address twice, and the wildcard alone. *)
Definition family_ok (fam : bool) (ips : list IpAddr) : Prop :=
  NoDup ips /\ (forall ip, ip ∈ ips -> v4 ip = fam) /\ (forall ip, ip ∈ ips -> is_unspecified ip = true -> ips = [ip]).

Lemma family_single fam ip : v4 ip = fam -> family_ok fam [ip].
Proof.
  intros Hf. split_and!; [apply NoDup_singleton|by intros ? ->%list_elem_of_singleton|by intros ? ->%list_elem_of_singleton].
Qed.

Lemma listen_family_ok fam parse addrs ips :
  (forall a ip, parse a = Some ip -> v4 ip = fam) -> listen_family parse addrs = Ok ips -> family_ok fam ips.
Proof.
  intros Hp (_ & Hnd & Hin & Hw)%listen_family_spec. split_and!; [done| |done]. intros ip (a & _ & Ha)%Hin. by eapply Hp.
Qed.

Lemma build_listen_sockets_families l4 l6 listen_ipv6 http https l :
  build_listen_sockets l4 l6 listen_ipv6 http https = Ok l ->
  exists ips4 ips6, family_ok true ips4 /\ family_ok false ips6 /\
    l = concat (map (fun ip => map (Build_SocketAddr ip) (option_list http ++ option_list https)) (ips4 ++ ips6)).
Proof.
  unfold build_listen_sockets. intros (ips4 & H4 & (ips6 & H6 & [= <-])%result_bind_Ok)%result_bind_Ok.
  exists ips4, ips6. split_and!; [| |done].
  - destruct l4 as [addrs|]; [|injection H4 as <-; by apply family_single].
    eapply listen_family_ok; [|exact H4]. intros a ip (? & ? & ? & ? & ->)%parse_ipv4_family. done.
  - destruct l6 as [addrs|]; [eapply listen_family_ok; [|exact H6]; by intros a ip [? ->]%parse_ipv6_family|].
    destruct listen_ipv6; injection H6 as <-; [by apply family_single|]. split_and!; [constructor|by intros ? ?%elem_of_nil..].
Qed.

(** Two addresses of the list that a destination could reach are the same. *)
Lemma families_apart ips4 ips6 ip ip' :
  family_ok true ips4 -> family_ok false ips6 -> ip ∈ ips4 ++ ips6 -> ip' ∈ ips4 ++ ips6 -> v4 ip = v4 ip' ->
  is_unspecified ip = true -> ip' = ip.
Proof.
  intros (_ & F4 & W4) (_ & F6 & W6) [Hi|Hi]%elem_of_app [Hi'|Hi']%elem_of_app Hf Hu.
  - rewrite (W4 ip Hi Hu) in Hi'. by apply list_elem_of_singleton in Hi'.
  - rewrite (F4 _ Hi), (F6 _ Hi') in Hf. done.
  - rewrite (F6 _ Hi), (F4 _ Hi') in Hf. done.
  - rewrite (W6 ip Hi Hu) in Hi'. by apply list_elem_of_singleton in Hi'.
Qed.

Lemma families_NoDup ips4 ips6 : family_ok true ips4 -> family_ok false ips6 -> NoDup (ips4 ++ ips6).
Proof.
  intros (N4 & F4 & _) (N6 & F6 & _). apply NoDup_app. split_and!; [done| |done].
  intros ip Hi Hi'. apply F4 in Hi. apply F6 in Hi'. congruence.
Qed.
End addresses.

(** ** Listeners *)

Section listeners.
Context `{IpNetApi} `{!EqDecision IpNet} `{HashOrder} `{CryptoApi} `{HttpApi}.

Lemma NoDup_concat_map {A B} (f : A -> list B) l :
  NoDup l -> (forall x, x ∈ l -> NoDup (f x)) -> (forall x y z, x ∈ l -> y ∈ l -> z ∈ f x -> z ∈ f y -> x = y) -> NoDup (concat (map f l)).
Proof.
  intros Hl Hf Hd. induction Hl as [|x l Hx Hl IH]; cbn; [constructor|]. apply NoDup_app. split_and!.
  - apply Hf. by left.
  - intros z Hz (y & Hy & Hz')%elem_of_concat_map. assert (x = y) as -> by (apply (Hd x y z); [by left|by right|done|done]). done.
  - apply IH; [intros y Hy; apply Hf; by right|]. intros y y' z Hy Hy'. apply Hd; by right.
Qed.

Lemma specs_of_on pc a spec : spec ∈ specs_of pc a -> ls_listening_on spec = a.
Proof. unfold specs_of. intros Hs. case_match; [case_match; case_match|]; cbn in Hs; set_solver. Qed.

(** On an address there is one listener for TCP and at most one for UDP. *)
Lemma specs_of_transport pc a spec spec' :
  spec ∈ specs_of pc a -> spec' ∈ specs_of pc a -> is_http3 spec = is_http3 spec' -> spec = spec'.
Proof.
  unfold specs_of. intros Hs Hs'. destruct (https_port pc) as [p|]; cbn in Hs, Hs';
    [destruct (p =? sa_port a), (http3 pc)|]; destruct (is_ipv4 a); cbn in Hs, Hs';
    set_unfold in Hs; set_unfold in Hs'; destruct_or? Hs; destruct_or? Hs'; subst; done.
Qed.

Lemma specs_of_NoDup pc a : NoDup (specs_of pc a).
Proof.
  unfold specs_of. destruct (https_port pc) as [p|]; cbn; [destruct (p =? sa_port a), (http3 pc)|]; destruct (is_ipv4 a); cbn;
    repeat constructor; set_solver.
Qed.

Lemma settings_sockets c pc cl :
  validate_and_build_settings c = Ok (pc, cl) ->
  exists ips4 ips6, family_ok true ips4 /\ family_ok false ips6 /\
    listen_sockets pc = concat (map (fun ip => map (Build_SocketAddr ip) (option_list (http_port pc) ++ option_list (https_port pc))) (ips4 ++ ips6)).
Proof.
  unfold validate_and_build_settings. intros Hb.
  apply result_bind_Ok in Hb as (pc' & (_ & _ & Hs & _)%ProxyConfig_try_from_ok & Hb).
  do 6 apply result_bind_Ok in Hb as (? & _ & Hb). injection Hb as -> _. by apply build_listen_sockets_families in Hs.
Qed.

#[local] Instance socket_addr_inj ip : Inj (=) (=) (Build_SocketAddr ip).
Proof. by intros p p' [=]. Qed.

Lemma listen_sockets_NoDup c pc cl : validate_and_build_settings c = Ok (pc, cl) -> NoDup (listen_sockets pc).
Proof.
  intros Hv. pose proof (settings_ports _ _ _ Hv) as [Hne _]. destruct (settings_sockets _ _ _ Hv) as (ips4 & ips6 & F4 & F6 & ->).
  apply NoDup_concat_map; [by apply families_NoDup| |].
  - intros ip _. apply (NoDup_fmap_2 (Build_SocketAddr ip)). destruct (http_port pc), (https_port pc); cbn; repeat constructor; set_solver.
  - intros ip ip' s _ _ (p & -> & _)%list_elem_of_fmap (p' & Hp & _)%list_elem_of_fmap. by injection Hp.
Qed.

Lemma is_ipv4_v4 a : is_ipv4 a = v4 (sa_ip a).
Proof. by unfold is_ipv4; destruct (sa_ip a). Qed.

(** Two sockets of one family and port that a destination reaches have the same address. *)
Lemma delivered_same `{DeliveryLaws} c pc cl a a' s s' dst b b' :
  validate_and_build_settings c = Ok (pc, cl) -> a ∈ listen_sockets pc -> a' ∈ listen_sockets pc ->
  opened b a s -> opened b' a' s' -> delivers s dst = true -> delivers s' dst = true -> a = a'.
Proof.
  intros (ips4 & ips6 & F4 & F6 & Hl)%settings_sockets Ha Ha' Ho Ho' (x & Hx & Hp & Hr)%delivers_bound (x' & Hx' & Hp' & Hr')%delivers_bound.
  rewrite (op_bound _ _ _ Ho) in Hx. rewrite (op_bound _ _ _ Ho') in Hx'. injection Hx as <-. injection Hx' as <-.
  assert (forall a, a ∈ listen_sockets pc -> sa_ip a ∈ ips4 ++ ips6) as Hin.
  { intros y. rewrite Hl, elem_of_concat_map. intros (ip & Hip & (p & -> & _)%list_elem_of_fmap). done. }
  assert (forall a b s, opened b a s -> sa_ip a = sa_ip dst \/
      is_unspecified (sa_ip a) = true /\ (is_ipv4 a = is_ipv4 dst \/ sk_v6 s = true /\ sk_only_v6 s = false) ->
      v4 (sa_ip a) = v4 (sa_ip dst) /\ (sa_ip a = sa_ip dst \/ is_unspecified (sa_ip a) = true)) as Hfam.
  { intros y b0 t [_ Hv Hov _ _] [E|[Hu [E|[E1 E2]]]]; [rewrite E; auto|rewrite <- !is_ipv4_v4; auto|congruence]. }
  destruct (Hfam a b s Ho Hr) as [Hf Hc]. destruct (Hfam a' b' s' Ho' Hr') as [Hf' Hc'].
  assert (sa_ip a = sa_ip a') as Hip.
  { destruct Hc as [E|Hu]; [destruct Hc' as [E'|Hu']; [congruence|]|].
    - apply (families_apart ips4 ips6 (sa_ip a') (sa_ip a) F4 F6); auto; congruence.
    - symmetry. apply (families_apart ips4 ips6 (sa_ip a) (sa_ip a') F4 F6); auto; congruence. }
  destruct a, a'. cbn in *. congruence.
Qed.

(** C19: the listeners of an accepted configuration never take each other's connections,
    although all their sockets share ports: no listener is opened twice, every socket that
    is set up is non-blocking, bound to the address of its listener with both reuse
    options and, for IPv6, without dual stack, and whatever address a client connects to,
    at most one TCP listener and one UDP listener can be given it. *)
Theorem each_destination_one_listener `{DeliveryLaws} c pc cl :
  validate_and_build_settings c = Ok (pc, cl) ->
  NoDup (listener_specs pc) /\
  (forall os spec s, spec ∈ listener_specs pc -> listener_socket os pc spec = Ok s ->
     opened (negb (is_http3 spec)) (ls_listening_on spec) s) /\
  (forall os os' spec spec' s s' dst,
     spec ∈ listener_specs pc -> spec' ∈ listener_specs pc ->
     listener_socket os pc spec = Ok s -> listener_socket os' pc spec' = Ok s' -> is_http3 spec = is_http3 spec' ->
     delivers s dst = true -> delivers s' dst = true -> spec = spec').
Proof.
  intros Hv. split_and!.
  - apply NoDup_concat_map; [by eapply listen_sockets_NoDup|intros a _; apply specs_of_NoDup|].
    intros a a' spec _ _ <-%specs_of_on ?%specs_of_on. done.
  - intros os spec s _. apply listener_opened.
  - intros os os' spec spec' s s' dst Hs Hs' Ho%listener_opened Ho'%listener_opened Ht Hd Hd'.
    apply elem_of_concat_map in Hs as (a & Ha & Hs), Hs' as (a' & Ha' & Hs').
    rewrite (specs_of_on _ _ _ Hs) in Ho. rewrite (specs_of_on _ _ _ Hs') in Ho'.
    assert (a = a') as -> by (by eapply delivered_same). by eapply specs_of_transport.
Qed.
End listeners.

(** ** Witness *)

Module SocketExamples.
#[local] Existing Instance Alist.api.
#[local] Existing Instance Alist.net_api.
#[local] Existing Instance toy_crypto.
#[local] Existing Instance ConfigExamples.net_eq_dec.
#[local] Existing Instance ConfigExamples.in_order.

(** A network that follows the rule exactly. *)
#[local] Instance exact_delivery : Delivery := {|
  delivers s dst :=
    match sk_bound s with
    | Some a => (sa_port a =? sa_port dst) &&
        (bool_decide (sa_ip a = sa_ip dst) ||
         is_unspecified (sa_ip a) && (Bool.eqb (is_ipv4 a) (is_ipv4 dst) || sk_v6 s && negb (sk_only_v6 s)))
    | None => false
    end
|}.

#[local] Instance exact_delivery_laws : DeliveryLaws exact_delivery.
Proof.
  split. intros s dst. cbn. destruct (sk_bound s) as [a|]; [|done]. intros [Hp%Z.eqb_eq Hr]%andb_true_iff. exists a. split_and!; [done|done|].
  apply orb_true_iff in Hr as [Hr%bool_decide_eq_true|[Hu Hr]%andb_true_iff]; [by left|right]. split; [done|].
  apply orb_true_iff in Hr as [Hr%eqb_prop|[H1 H2%negb_true_iff]%andb_true_iff]; auto.
Qed.

Lemma each_destination_one_listener_witness : NoDup (listener_specs (fst ConfigExamples.settings)).
Proof.
  apply (each_destination_one_listener ConfigExamples.toml (fst ConfigExamples.settings) (snd ConfigExamples.settings)
           ConfigExamples.toml_accepted).
Defined.
End SocketExamples.
