(* ===== verification/QuicS2n.v ===== *)
(** * The s2n-quic listener ([proxy/proxy_quic_s2n.rs])

    The other QUIC back end, built with the feature [http3-s2n] in place of quinn. It
    builds a server anew, with its socket and its limits, whenever the certificates
    change. The listener runs beside the reloader and the TLS listener of [Listener]; which
    servers s2n-quic can build and which connections they accept are parameters. *)

From S2P Require Import Prelude RustStr RustNet HttpIface Globals NameExp ProxyProtocol Tls TlsProps Listener ListenerProps.

(** ** The library *)

Inductive LimitKind := LocalBidi | RemoteBidi | LocalUni | RemoteUni | ActiveConnectionIds | IdleTimeout.

Record Limits := {
  lm_local_bidi : Z;
  lm_remote_bidi : Z;
  lm_local_uni : Z;
  lm_remote_uni : Z;
  lm_active_connection_ids : Z;
  lm_idle_timeout : option Duration        (* the library's own when not set *)
}.

Class S2nApi `{HandshakeApi} := {
  S2nServer : Type;
  (** the TLS provider built from a resolver and protocols *)
  s2n_tls : Resolver -> list str -> option S2nServer;
  (** whether a server with these limits completes a connection, so that [accept] returns it *)
  s2n_accepts : S2nServer -> Limits -> QuicConn -> bool;
  (** whether a limit is one the library takes *)
  s2n_limit_accepts : LimitKind -> Z -> bool
}.

Section s2n.
Context `{IpNetApi} `{PppApi} `{TlsApi} `{!HandshakeApi} {s2n_api : S2nApi}.

Inductive S2nError :=
| CertificateReload
| FailedToUpdateServerCrypto
| IoFailed
| LimitRejected (k : LimitKind)
| NoServerCrypto
| StartFailed.

(** ** Operations *)

Definition receive_server_crypto (cert_keys_map : option ServerCryptoBase) (t : Tickets) : result S2nError S2nServer * Tickets :=
  match cert_keys_map with
  | None => (Err CertificateReload, t)
  | Some base =>
      let '(r, t) := ServerCrypto_try_into base t in
      let server_crypto :=
        v ← ok r;
        let rustls_server_config := aggregated_config_no_client_auth v in
        s2n_tls (sc_resolver rustls_server_config) (sc_alpn_protocols rustls_server_config) in
      (ok_or server_crypto FailedToUpdateServerCrypto, t)
  end.

Definition limit (k : LimitKind) (v : Z) : result S2nError Z :=
  _ ← ensure (s2n_limit_accepts k v) (LimitRejected k); Ok v.

Definition s2n_limits (pc : ProxyConfig) : result S2nError Limits :=
  local_bidi ← limit LocalBidi (h3_max_concurrent_bidistream pc);
  remote_bidi ← limit RemoteBidi (h3_max_concurrent_bidistream pc);
  local_uni ← limit LocalUni (h3_max_concurrent_unistream pc);
  remote_uni ← limit RemoteUni (h3_max_concurrent_unistream pc);
  ids ← limit ActiveConnectionIds (h3_max_concurrent_connections pc);
  idle ← match h3_max_idle_timeout pc with
         | Some v => Some <$> limit IdleTimeout v
         | None => Ok None
         end;
  Ok {| lm_local_bidi := local_bidi; lm_remote_bidi := remote_bidi; lm_local_uni := local_uni; lm_remote_uni := remote_uni;
        lm_active_connection_ids := ids; lm_idle_timeout := idle |}.

(** [h3_listener_service_inner] up to its accept loop: the socket, the limits, the server.
    [io_ok] and [start_ok] are whether the socket and the server can be made. *)
Definition s2n_server (pc : ProxyConfig) (io_ok start_ok : bool) (server_crypto : option S2nServer)
    : result S2nError (S2nServer * Limits) :=
  _ ← ensure io_ok IoFailed;
  limits ← s2n_limits pc;
  server_crypto ← ok_or server_crypto NoServerCrypto;
  _ ← ensure start_ok StartFailed;
  Ok (server_crypto, limits).

(** A connection that comes in, with the task that serves it. *)
Definition serve_s2n_connection (server : S2nServer) (limits : Limits) (new_conn : QuicConn) : option Serve :=
  incoming ← (if s2n_accepts server limits new_conn then Some new_conn else None);
  new_server_name ← qn_server_name incoming;
  if qn_try_acquire incoming (sa_ip (qn_remote incoming))
  then Some {| sv_client := qn_client incoming; sv_addr := qn_remote incoming;
               sv_tls_server_name := Some (to_server_name new_server_name); sv_h3 := true |}
  else None.

(** ** The event loop *)

(** Before the first certificates, with a server, or after the end (with an error or not). *)
Inductive S2nState :=
| S2nWaiting
| S2nListening (server : S2nServer) (limits : Limits)
| S2nEnded (ok : bool).

Definition s2n_up (st : S2nState) : bool := match st with S2nEnded _ => false | _ => true end.

(** The inner loop starts with new crypto; an error of it breaks the outer loop. *)
Definition s2n_begin (pc : ProxyConfig) (io_ok start_ok : bool) (server_crypto : S2nServer) : S2nState :=
  match s2n_server pc io_ok start_ok (Some server_crypto) with
  | Ok (server, limits) => S2nListening server limits
  | Err _ => S2nEnded true
  end.

(** [changed]: at first an error is returned, later it ends the loop. *)
Definition s2n_changed (pc : ProxyConfig) (io_ok start_ok : bool) (w : World) (st : S2nState) : World * S2nState :=
  if s2n_up st then
    let '(r, t) := receive_server_crypto (w_published w) (w_tickets w) in
    (set_tls (w_tls_map w) (w_tls_up w) t w,
     match r with
     | Ok sc => s2n_begin pc io_ok start_ok sc
     | Err _ => S2nEnded (match st with S2nWaiting => false | _ => true end)
     end)
  else (w, st).

Inductive S2nEvent :=
| Shared (e : Event)                                (* an event of the reloader and of the TLS listener *)
| S2nChanged (io_ok start_ok : bool)
| S2nIncoming (new_conn : QuicConn)
| S2nServerEnds (io_ok start_ok : bool).            (* [accept] has no more: the inner loop starts again *)

Section run.
Context (pc : ProxyConfig) (acme : list (str * ServerConfig)).

Definition s2n_step (x : World * S2nState) (e : S2nEvent) : (World * S2nState) * option Serve :=
  let '(w, st) := x in
  match e with
  | Shared QuicChanged | Shared (QuicAccepted _) => ((w, st), None)
  | Shared e => let '(w, s) := world_step pc acme w e in ((w, st), s)
  | S2nChanged io_ok start_ok => (s2n_changed pc io_ok start_ok w st, None)
  | S2nIncoming c => ((w, st), match st with S2nListening server limits => serve_s2n_connection server limits c | _ => None end)
  | S2nServerEnds io_ok start_ok =>
      ((w, match st with S2nListening server _ => s2n_begin pc io_ok start_ok server | _ => st end), None)
  end.

Fixpoint s2n_run (x : World * S2nState) (es : list S2nEvent) : (World * S2nState) * list Serve :=
  match es with
  | [] => (x, [])
  | e :: es =>
      let '(x, s) := s2n_step x e in
      let '(x, ss) := s2n_run x es in
      (x, option_list s ++ ss)
  end.
End run.

(** ** The limits *)

Definition configured_limits (pc : ProxyConfig) : Limits :=
  {| lm_local_bidi := h3_max_concurrent_bidistream pc; lm_remote_bidi := h3_max_concurrent_bidistream pc;
     lm_local_uni := h3_max_concurrent_unistream pc; lm_remote_uni := h3_max_concurrent_unistream pc;
     lm_active_connection_ids := h3_max_concurrent_connections pc; lm_idle_timeout := h3_max_idle_timeout pc |}.

Lemma limit_Ok k v v' : limit k v = Ok v' -> v' = v.
Proof. by intros ([] & _ & [= ->])%result_bind_Ok. Qed.

Lemma s2n_limits_configured pc l : s2n_limits pc = Ok l -> l = configured_limits pc.
Proof.
  unfold s2n_limits. intros Hl. do 5 (apply result_bind_Ok in Hl as (? & ->%limit_Ok & Hl)).
  apply result_bind_Ok in Hl as (idle & Hi & [= <-]). unfold configured_limits. f_equal.
  destruct (h3_max_idle_timeout pc); [|by injection Hi as <-].
  destruct (limit IdleTimeout d) eqn:E; [|done]. apply limit_Ok in E as ->. by injection Hi as <-.
Qed.

Lemma s2n_begin_listening pc a b sc server limits :
  s2n_begin pc a b sc = S2nListening server limits -> server = sc /\ limits = configured_limits pc.
Proof.
  unfold s2n_begin, s2n_server. destruct a; [|done]. cbn. destruct (s2n_limits pc) as [l|] eqn:El; [|done]. cbn.
  destruct b; [|done]. cbn. intros [= <- <-]. split; [done|by apply s2n_limits_configured].
Qed.

Lemma s2n_begin_up pc a b sc :
  s2n_up (s2n_begin pc a b sc) = true -> s2n_begin pc a b sc = S2nListening sc (configured_limits pc).
Proof.
  destruct (s2n_begin pc a b sc) as [|server limits|] eqn:E; try done.
  - unfold s2n_begin in E. by repeat case_match.
  - by apply s2n_begin_listening in E as [-> ->].
Qed.

(** ** The server in use *)

(** The state of a listener before anything happens. *)
Definition s2n_start (pc : ProxyConfig) (crypto_source_map : list (str * CryptoFileSource)) (t : Tickets) : World * S2nState :=
  (world_start pc crypto_source_map t, S2nWaiting).

Definition no_change (e : S2nEvent) : bool := match e with S2nChanged _ _ => false | _ => true end.

Lemma s2n_run_app pc acme x es e : (s2n_run pc acme x (es ++ [e])).1 = (s2n_step pc acme (s2n_run pc acme x es).1 e).1.
Proof.
  revert x. induction es as [|e' es IH]; intros x; cbn [s2n_run app fst].
  - by destruct (s2n_step pc acme x e).
  - destruct (s2n_step pc acme x e') as [x1 o]. specialize (IH x1). by destruct (s2n_run pc acme x1 (es ++ [e])), (s2n_run pc acme x1 es).
Qed.

(** An event that is no change keeps the server or ends the listener. *)
Lemma no_change_step pc acme w st e :
  no_change e = true ->
  (s2n_step pc acme (w, st) e).1.2 = st \/
  exists server limits a b, st = S2nListening server limits /\ (s2n_step pc acme (w, st) e).1.2 = s2n_begin pc a b server.
Proof.
  destruct e as [e|a b|c|a b]; try done; intros _; cbn.
  - left. destruct e; cbn; by repeat case_match.
  - by left.
  - destruct st as [|server limits|]; [by left| |by left]. right. by exists server, limits, a, b.
Qed.

(** The certificates the listener received at the last change it has seen. *)
Definition current_server (pc : ProxyConfig) (acme : list (str * ServerConfig)) (x : World * S2nState) (es : list S2nEvent)
    (server : S2nServer) : Prop :=
  exists es1 a b es2, es = es1 ++ S2nChanged a b :: es2 /\ forallb no_change es2 = true /\
    (receive_server_crypto (w_published (s2n_run pc acme x es1).1.1) (w_tickets (s2n_run pc acme x es1).1.1)).1 = Ok server.

Lemma current_server_snoc pc acme x es e server :
  no_change e = true -> current_server pc acme x (es ++ [e]) server <-> current_server pc acme x es server.
Proof.
  intros He. split; intros (es1 & a & b & es2 & Hes & Hn & Hr).
  - destruct es2 as [|y l _] using rev_ind.
    + apply app_inj_tail in Hes as [_ ->]. done.
    + rewrite app_comm_cons, app_assoc in Hes. apply app_inj_tail in Hes as [-> _].
      rewrite forallb_app in Hn. apply andb_prop in Hn as [Hn _]. by exists es1, a, b, l.
  - exists es1, a, b, (es2 ++ [e]). rewrite Hes, <- app_assoc. split_and!; [done| |done]. by rewrite forallb_app, Hn; cbn; rewrite He.
Qed.

Lemma current_server_change pc acme x es a b server :
  current_server pc acme x (es ++ [S2nChanged a b]) server <->
  (receive_server_crypto (w_published (s2n_run pc acme x es).1.1) (w_tickets (s2n_run pc acme x es).1.1)).1 = Ok server.
Proof.
  split; [intros (es1 & a' & b' & es2 & Hes & Hn & Hr)|intros Hr; by exists es, a, b, []].
  destruct es2 as [|y l _] using rev_ind; [by apply app_inj_tail in Hes as [-> _]|].
  rewrite app_comm_cons, app_assoc in Hes. apply app_inj_tail in Hes as [_ <-].
  rewrite forallb_app in Hn. by apply andb_prop in Hn as [_ ?].
Qed.

Lemma s2n_changed_up pc a b w st server limits :
  (s2n_changed pc a b w st).2 = S2nListening server limits <->
  s2n_up (s2n_changed pc a b w st).2 = true /\ limits = configured_limits pc /\
  (receive_server_crypto (w_published w) (w_tickets w)).1 = Ok server.
Proof.
  unfold s2n_changed. destruct (s2n_up st) eqn:Eu; [|cbn; split; [by intros ->|intros [Hu _]; congruence]].
  destruct (receive_server_crypto _ _) as [[sc|] t]; cbn; [|split; [done|by intros (_ & _ & ?)]]. split.
  - intros E. rewrite E. apply s2n_begin_listening in E as [-> ->]. done.
  - intros (Hup & -> & [= <-]). by apply s2n_begin_up.
Qed.

(** The listener serves under a server exactly if it is up and this is its current one. *)
Lemma listening_current pc acme sources t es server limits :
  (s2n_run pc acme (s2n_start pc sources t) es).1.2 = S2nListening server limits <->
  s2n_up (s2n_run pc acme (s2n_start pc sources t) es).1.2 = true /\ limits = configured_limits pc /\
  current_server pc acme (s2n_start pc sources t) es server.
Proof.
  revert server limits. induction es as [|e es IH] using rev_ind; intros server limits.
  - split; [done|]. intros (_ & _ & es1 & a & b & es2 & Hes & _). by destruct es1.
  - rewrite s2n_run_app. destruct (no_change e) eqn:En.
    + rewrite current_server_snoc by done. destruct (s2n_run pc acme (s2n_start pc sources t) es).1 as [w st] eqn:Ex. cbn [snd] in IH.
      destruct (no_change_step pc acme w st e En) as [->|(sv & lm & a & b & -> & ->)]; [apply IH|].
      destruct (IH sv lm) as [IH1 _]. destruct (IH1 eq_refl) as (_ & -> & Hcur). split.
      * intros E. rewrite E. apply s2n_begin_listening in E as [-> ->]. done.
      * intros (Hup & -> & Hc). rewrite s2n_begin_up by done. f_equal.
        assert (S2nListening sv (configured_limits pc) = S2nListening server (configured_limits pc)) as [= ->] by (by apply IH). done.
    + destruct e as [|a b| |]; try done. rewrite current_server_change.
      destruct (s2n_run pc acme (s2n_start pc sources t) es).1 as [w st]. apply s2n_changed_up.
Qed.

(** ** Theorems *)

(** The s2n-quic listener serves under the certificates it received last and the limits of
    the configuration: over every sequence of reloads, certificate changes, ends of the
    server and connections, a connection that comes in is served exactly if the listener
    is up, the server built from the certificates that were published at the last change
    accepts it under the configured limits, it names a server, and there is a slot for
    its address; it is then served as HTTP/3 for its address and its server name. *)
Theorem s2n_serves_current_certificates pc acme sources t es c s :
  (s2n_step pc acme (s2n_run pc acme (s2n_start pc sources t) es).1 (S2nIncoming c)).2 = Some s <->
  s2n_up (s2n_run pc acme (s2n_start pc sources t) es).1.2 = true /\
  exists server n, current_server pc acme (s2n_start pc sources t) es server /\
    s2n_accepts server (configured_limits pc) c = true /\ qn_server_name c = Some n /\
    qn_try_acquire c (sa_ip (qn_remote c)) = true /\
    s = {| sv_client := qn_client c; sv_addr := qn_remote c; sv_tls_server_name := Some (to_server_name n); sv_h3 := true |}.
Proof.
  pose proof (listening_current pc acme sources t es) as Hl.
  destruct (s2n_run pc acme (s2n_start pc sources t) es).1 as [w st]. cbn [fst snd s2n_step] in *. split.
  - destruct st as [|server limits|]; [done| |done]. destruct (Hl server limits) as [Hfw _].
    destruct (Hfw eq_refl) as (_ & -> & Hc). unfold serve_s2n_connection.
    destruct (s2n_accepts server _ c) eqn:Ea; [|done]. cbn. destruct (qn_server_name c) as [n|] eqn:En; [|done]. cbn.
    destruct (qn_try_acquire c _) eqn:Eq; [|done]. intros [= <-]. split; [done|]. by exists server, n.
  - intros (Hup & server & n & Hc & Ha & Hn & Hq & ->). rewrite (proj2 (Hl server (configured_limits pc))) by done.
    unfold serve_s2n_connection. rewrite Ha. cbn. rewrite Hn. cbn. by rewrite Hq.
Qed.
End s2n.

(** ** Example *)

Module S2nExamples.
#[local] Existing Instance Alist.net_api.
#[local] Existing Instance toy_tls.
#[local] Existing Instance ListenerExamples.toy_handshake.
#[local] Existing Instance ListenerExamples.no_ppp.

(** A library that accepts connections to the names it has a certificate for. *)
#[local] Instance toy_s2n : S2nApi := {|
  S2nServer := Resolver * list str;
  s2n_tls r a := Some (r, a);
  s2n_accepts s limits c :=
    match qn_server_name c with Some n => bool_decide (is_Some (map_find (to_ascii_lowercase n) s.1)) | None => false end;
  s2n_limit_accepts _ v := (0 <=? v) && (v <? 2 ^ 62)
|}.

(** The events of the quinn listener for this one. *)
Definition as_s2n (e : Event) : list S2nEvent :=
  match e with QuicChanged => [S2nChanged true true] | QuicAccepted (Some c) => [S2nIncoming c] | QuicAccepted None => [] | e => [Shared e] end.

Definition served : list Serve :=
  (s2n_run ProxyConfig_default [] (s2n_start ProxyConfig_default ListenerExamples.sources ListenerExamples.tickets)
    (concat (map as_s2n ListenerExamples.events))).2.

(** Here it serves what the quinn listener serves. *)
Example s2n_serves_as_quinn : served = ListenerExamples.final.2.
Proof. vm_compute. reflexivity. Qed.
End S2nExamples.
