(* ===== verification/Count.v ===== *)
(** * Connection counters ([rpxy-lib/src/count.rs])

    [PerIpConnectionCount] bounds the connections of one source address with
    guards that release their slot on drop; [RequestCount] bounds the
    connections (HTTP/3: request streams) served at once, with an atomic
    counter that every listener task increments and decrements. Both are shared
    between tasks: the operations are functions on the shared state, and a
    step relation interleaves them. *)

From S2P Require Import Prelude RustStr RustNet.

(** ** Per-IP connection slots *)

Module PerIp.

(** The map behind the mutex. *)
Notation IpConnectionMap := (gmap IpAddr Z).

Record PerIpConnectionCount := {
  inner : IpConnectionMap;
  max_per_ip : Z
}.

(** [state: Option<(Arc<Mutex<IpConnectionMap>>, IpAddr)>]: the shared map is the
    one of the counter, so a guard is the address it holds a slot for. *)
Record PerIpConnectionGuard := { state : option IpAddr }.

#[export] Instance PerIpConnectionGuard_eq_dec : EqDecision PerIpConnectionGuard.
Proof. solve_decision. Defined.

Definition PerIpConnectionCount_new (max_per_ip : Z) : PerIpConnectionCount :=
  {| inner := ∅; max_per_ip := max_per_ip |}.

(** [map.entry(ip).or_insert(0)]: the map with the entry, and its value. *)
Definition entry_or_insert (map : IpConnectionMap) (ip : IpAddr) (v : Z) : IpConnectionMap * Z :=
  match map !! ip with
  | Some c => (map, c)
  | None => (<[ip := v]> map, v)
  end.

Definition try_acquire (self : PerIpConnectionCount) (ip : IpAddr)
    : PerIpConnectionCount * option PerIpConnectionGuard :=
  if max_per_ip self =? 0 then (self, Some {| state := None |})
  else
    let '(map, count) := entry_or_insert (inner self) ip 0 in
    if max_per_ip self <=? count
    then ({| inner := map; max_per_ip := max_per_ip self |}, None)
    else ({| inner := <[ip := count + 1]> map; max_per_ip := max_per_ip self |},
          Some {| state := Some ip |}).

(** [Drop for PerIpConnectionGuard] *)
Definition drop_guard (self : PerIpConnectionCount) (g : PerIpConnectionGuard)
    : PerIpConnectionCount :=
  match state g with
  | None => self
  | Some ip =>
      match inner self !! ip with
      | None => self
      | Some count =>
          let count := saturating_sub count 1 in
          {| inner := if count =? 0 then delete ip (inner self)
                      else <[ip := count]> (inner self);
             max_per_ip := max_per_ip self |}
      end
  end.

(** The system: the shared counter and the guards alive in the connection tasks.
    Tasks acquire (and may be refused) and drop guards in any order. *)
Record sys := { counter : PerIpConnectionCount; guards : list PerIpConnectionGuard }.

Definition sys_init (max : Z) : sys :=
  {| counter := PerIpConnectionCount_new max; guards := [] |}.

Inductive step : sys -> sys -> Prop :=
| step_acquired s ip c g :
    try_acquire (counter s) ip = (c, Some g) ->
    step s {| counter := c; guards := g :: guards s |}
| step_refused s ip c :
    try_acquire (counter s) ip = (c, None) ->
    step s {| counter := c; guards := guards s |}
| step_drop s i g :
    guards s !! i = Some g ->
    step s {| counter := drop_guard (counter s) g; guards := delete i (guards s) |}.

(** The slots of an address that are held. *)
Definition holds (ip : IpAddr) (g : PerIpConnectionGuard) : bool :=
  bool_decide (state g = Some ip).

Definition live (s : sys) (ip : IpAddr) : Z := count_if (holds ip) (guards s).

(** The map is exactly the table of held slots, with no entry for an address
    that holds none, and no address holds more than the limit. *)
Record inv (max : Z) (s : sys) : Prop := {
  inv_max : max_per_ip (counter s) = max;
  inv_map ip : inner (counter s) !! ip = if live s ip =? 0 then None else Some (live s ip);
  inv_cap ip : live s ip <= max
}.

(** ** Lemmas *)

Lemma live_nonneg s ip : 0 <= live s ip.
Proof. apply count_if_bounds. Qed.

Lemma inv_count max s ip v :
  inv max s -> default v (inner (counter s) !! ip) = if live s ip =? 0 then v else live s ip.
Proof. intros H. rewrite (inv_map _ _ H). by case_match. Qed.

Lemma entry_or_insert_fst map ip v ip' :
  fst (entry_or_insert map ip v) !! ip'
    = if decide (ip = ip') then Some (default v (map !! ip)) else map !! ip'.
Proof.
  unfold entry_or_insert. destruct (map !! ip) eqn:E; cbn; case_decide; subst; try done.
  - by rewrite lookup_insert_eq.
  - by rewrite lookup_insert_ne.
Qed.

Lemma entry_or_insert_snd map ip v : snd (entry_or_insert map ip v) = default v (map !! ip).
Proof. unfold entry_or_insert. by destruct (map !! ip). Qed.

Lemma holds_guard ip ip' : holds ip {| state := Some ip' |} = bool_decide (ip' = ip).
Proof. unfold holds; cbn. apply bool_decide_ext. naive_solver. Qed.

Lemma slots_inv_init max : 0 <= max -> inv max (sys_init max).
Proof. intros H. split; [done| |done]. intros ip. cbn. by rewrite lookup_empty. Qed.

Lemma inv_try_acquire max s ip :
  0 < max -> inv max s ->
  try_acquire (counter s) ip =
    if max <=? live s ip then (counter s, None)
    else ({| inner := <[ip := live s ip + 1]> (inner (counter s)); max_per_ip := max |},
          Some {| state := Some ip |}).
Proof.
  intros Hmax H. unfold try_acquire. rewrite (inv_max _ _ H).
  replace (max =? 0) with false by lia.
  pose proof (live_nonneg s ip). pose proof (inv_map _ _ H ip) as Hip.
  unfold entry_or_insert. rewrite Hip. destruct (Z.eqb_spec (live s ip) 0) as [E|E].
  - rewrite E. replace (max <=? 0) with false by lia. by rewrite insert_insert_eq.
  - destruct (max <=? live s ip); [|done].
    f_equal. rewrite <- (inv_max _ _ H). by destruct (counter s).
Qed.

Lemma live_acquired c s ip ip' :
  live {| counter := c; guards := {| state := Some ip |} :: guards s |} ip'
    = (if decide (ip = ip') then 1 else 0) + live s ip'.
Proof.
  unfold live; cbn [guards count_if]. rewrite holds_guard.
  by case_bool_decide; case_decide.
Qed.

Lemma live_dropped c s i g ip :
  guards s !! i = Some g ->
  live {| counter := c; guards := delete i (guards s) |} ip
    = live s ip - (if holds ip g then 1 else 0).
Proof. intros Hg. unfold live; cbn [guards]. by rewrite (count_if_delete _ _ _ g). Qed.

Lemma inv_acquired max s ip :
  0 < max -> inv max s -> live s ip < max ->
  inv max {| counter := {| inner := <[ip := live s ip + 1]> (inner (counter s));
                           max_per_ip := max |};
             guards := {| state := Some ip |} :: guards s |}.
Proof.
  intros Hmax H Hlt. split; [done| |]; intros ip'; rewrite live_acquired; cbn [counter inner].
  - destruct (decide (ip = ip')) as [->|Hne].
    + rewrite lookup_insert_eq. pose proof (live_nonneg s ip').
      replace (1 + live s ip' =? 0) with false by lia. f_equal. lia.
    + rewrite lookup_insert_ne by done. apply (inv_map _ _ H).
  - pose proof (inv_cap _ _ H ip'). case_decide; subst; lia.
Qed.

Lemma inv_dropped max s i g :
  inv max s -> guards s !! i = Some g ->
  inv max {| counter := drop_guard (counter s) g; guards := delete i (guards s) |}.
Proof.
  intros H Hg. unfold drop_guard. destruct g as [[ip|]]; cbn [state].
  2:{ split; [apply H| |]; intros ip'; rewrite (live_dropped _ _ _ _ _ Hg), Z.sub_0_r; apply H. }
  assert (1 <= live s ip) as Hpos.
  { eapply count_if_pos; [done|]. by rewrite holds_guard, bool_decide_true. }
  rewrite (inv_map _ _ H ip). replace (live s ip =? 0) with false by lia.
  rewrite saturating_sub_exact by lia.
  split; [apply H| |]; intros ip'; rewrite (live_dropped _ _ _ _ _ Hg), holds_guard;
    cbn [counter inner].
  - destruct (bool_decide_reflect (ip = ip')) as [->|Hne].
    + case_match; [by rewrite lookup_delete_eq|by rewrite lookup_insert_eq].
    + rewrite Z.sub_0_r.
      case_match; [rewrite lookup_delete_ne by done|rewrite lookup_insert_ne by done]; apply H.
  - pose proof (inv_cap _ _ H ip'). case_match; lia.
Qed.

Lemma slots_inv_step max s s' : 0 < max -> inv max s -> step s s' -> inv max s'.
Proof.
  intros Hmax H Hs. destruct Hs as [s ip c g Ha|s ip c Ha|s i g Hg]; [| |by apply inv_dropped].
  all: rewrite (inv_try_acquire max) in Ha by done.
  all: destruct (Z.leb_spec max (live s ip)); simplify_eq.
  - by apply inv_acquired.
  - by destruct s.
Qed.

Lemma max_reachable max s : rtc step (sys_init max) s -> max_per_ip (counter s) = max.
Proof.
  intros Hr. apply (rtc_ind_r (fun s => max_per_ip (counter s) = max) (sys_init max)) in Hr;
    [done|done|].
  intros s1 s2 _ Hs IH. destruct Hs as [s1 ip c g Ha|s1 ip c Ha|s1 i g Hg];
    cbn; unfold try_acquire, drop_guard in *; repeat case_match; by simplify_eq.
Qed.

Lemma slots_inv_reachable max s : 0 < max -> rtc step (sys_init max) s -> inv max s.
Proof.
  intros Hmax Hr. assert (inv max (sys_init max)) as H by (apply slots_inv_init; lia).
  induction Hr; eauto using slots_inv_step.
Qed.

End PerIp.

(** ** Served connections *)

Module Requests.

(** [RequestCount(Arc<AtomicUsize>)]: the value of the atomic. *)
Notation RequestCount := Z (only parsing).

(** [fetch_add(1)]: wraps, returns the value before. *)
Definition increment (c : RequestCount) : RequestCount * Z := (wrap_usize (c + 1), c).

(** [decrement] is a compare-exchange loop; its atomic accesses are separate steps. *)
Inductive dec_pc :=
| DecLoad
| DecCas (count : Z).

(** One atomic access: the counter after it, and either the next program point
    or the value returned. *)
Definition decrement_step (c : RequestCount) (pc : dec_pc) : RequestCount * (dec_pc + Z) :=
  match pc with
  | DecLoad => (c, if 0 <? c then inl (DecCas c) else inr c)
  | DecCas count => if c =? count then (count - 1, inr count) else (c, inl DecLoad)
  end.

(** A connection of [Proxy::serve_connection] (a request stream of
    [h3_serve_connection]): it increments, is rejected when the count before was
    not below [max_clients], and decrements on its way out in both cases. *)
Inductive conn :=
| Arriving
| Rejected (pc : dec_pc)
| Serving
| Closing (pc : dec_pc)
| Closed.

Definition serve_connection_step (max_clients : Z) (c : RequestCount) (k : conn)
    : RequestCount * conn :=
  let leave pc next :=
    match decrement_step c pc with
    | (c', inl pc') => (c', next pc')
    | (c', inr _) => (c', Closed)
    end in
  match k with
  | Arriving =>
      let '(c', old) := increment c in
      (c', if max_clients <=? old then Rejected DecLoad else Serving)
  | Rejected pc => leave pc Rejected
  | Serving => (c, Closing DecLoad)
  | Closing pc => leave pc Closing
  | Closed => (c, Closed)
  end.

Record sys := { count : RequestCount; conns : list conn }.

Definition sys_init (n : nat) : sys := {| count := 0; conns := replicate n Arriving |}.

(** Any connection may take its next atomic step. *)
Inductive step (max_clients : Z) : sys -> sys -> Prop :=
| step_conn s i k c' k' :
    conns s !! i = Some k ->
    serve_connection_step max_clients (count s) k = (c', k') ->
    step max_clients s {| count := c'; conns := <[i := k']> (conns s) |}.

(** The connections that incremented and have not decremented yet, and those served. *)
Definition holding (k : conn) : bool :=
  match k with Rejected _ | Serving | Closing _ => true | Arriving | Closed => false end.
Definition serving (k : conn) : bool :=
  match k with Serving | Closing _ => true | _ => false end.

Record inv (max : Z) (n : nat) (s : sys) : Prop := {
  inv_conns : length (conns s) = n;
  inv_count : count s = count_if holding (conns s);
  inv_served : count_if serving (conns s) <= max;
  inv_cas i count : conns s !! i = Some (Rejected (DecCas count)) \/
                    conns s !! i = Some (Closing (DecCas count)) -> 0 < count
}.

Lemma serving_holding k : serving k = true -> holding k = true.
Proof. by destruct k. Qed.

Lemma holding_replicate f n : f Arriving = false -> count_if f (replicate n Arriving) = 0.
Proof. intros H. apply count_if_zero, Forall_replicate. by rewrite H. Qed.

Lemma clients_inv_init max n : 0 <= max -> inv max n (sys_init n).
Proof.
  intros Hm. split; cbn; [by rewrite length_replicate|by rewrite holding_replicate| |].
  - rewrite holding_replicate by done. lia.
  - intros i c [H|H]; by apply lookup_replicate in H as [? _].
Qed.

(** One step of one connection: how it changes the counter and the two counts. *)
Lemma serve_connection_step_counts max c k c' k' h :
  serve_connection_step max c k = (c', k') ->
  0 <= c < usize_max -> (holding k = true -> 1 <= c) -> h <= c -> h <= max ->
  (forall n, k = Rejected (DecCas n) \/ k = Closing (DecCas n) -> 0 < n) ->
  c' = c - (if holding k then 1 else 0) + (if holding k' then 1 else 0) /\
  h - (if serving k then 1 else 0) + (if serving k' then 1 else 0) <= max /\
  (forall n, k' = Rejected (DecCas n) \/ k' = Closing (DecCas n) -> 0 < n).
Proof.
  intros Hs Hc Hk Hhc Hm Hn. destruct k as [|pc| |pc|]; cbn in Hs.
  - rewrite wrap_usize_small in Hs by lia.
    destruct (Z.leb_spec max c); simplify_eq; cbn; (split_and!; [lia|lia|naive_solver]).
  - specialize (Hk eq_refl). destruct pc as [|n]; cbn in Hs; repeat case_match; simplify_eq; cbn;
      breflect; (split_and!; [lia|lia|naive_solver lia]).
  - simplify_eq; cbn. split_and!; [lia|lia|naive_solver].
  - specialize (Hk eq_refl). destruct pc as [|n]; cbn in Hs; repeat case_match; simplify_eq; cbn;
      breflect; (split_and!; [lia|lia|naive_solver lia]).
  - simplify_eq; cbn. split_and!; [lia|lia|naive_solver].
Qed.

Lemma clients_inv_step max n s s' :
  Z.of_nat n < usize_max -> inv max n s -> step max s s' -> inv max n s'.
Proof.
  intros Hn [Hl Hc Hs Hcas] Hstep. destruct Hstep as [s i k c' k' Hi Hk].
  pose proof (count_if_bounds holding (conns s)).
  pose proof (count_if_le _ _ (conns s) serving_holding).
  eapply (serve_connection_step_counts _ _ _ _ _ (count_if serving (conns s))) in Hk
    as (-> & Hmax & Hpos); try lia.
  - split; cbn [count conns]; [by rewrite length_insert| | |].
    + rewrite (count_if_insert _ _ _ k) by done. lia.
    + by rewrite (count_if_insert _ _ _ k) by done.
    + intros j m Hj. destruct (decide (i = j)) as [<-|Hne].
      * rewrite list_lookup_insert_eq in Hj by (by eapply lookup_lt_Some). naive_solver.
      * rewrite list_lookup_insert_ne in Hj by done. by eapply Hcas.
  - intros Hh. rewrite Hc. by eapply count_if_pos.
  - intros m Hm. apply (Hcas i). naive_solver.
Qed.

Lemma clients_inv_reachable max n s :
  0 <= max -> Z.of_nat n < usize_max -> rtc (step max) (sys_init n) s -> inv max n s.
Proof.
  intros Hm Hn Hr. pose proof (clients_inv_init max n Hm) as H. induction Hr; eauto using clients_inv_step.
Qed.

(** A [decrement] that runs alone finishes in two accesses. *)
Definition decrement (c : RequestCount) : RequestCount * option Z :=
  match decrement_step c DecLoad with
  | (c', inr v) => (c', Some v)
  | (c', inl pc) =>
      match decrement_step c' pc with
      | (c'', inr v) => (c'', Some v)
      | (c'', inl _) => (c'', None)
      end
  end.

Lemma decrement_alone c : 0 <= c -> decrement c = (saturating_sub c 1, Some c).
Proof.
  intros Hc. unfold decrement, saturating_sub; cbn.
  destruct (Z.ltb_spec 0 c); cbn; [rewrite Z.eqb_refl; do 2 f_equal; lia|].
  do 2 f_equal; lia.
Qed.

End Requests.

(** ** Properties *)

Module PerIpProps.
Import PerIp.

(** Whatever the order in which connection tasks acquire and drop slots, the
    shared map holds exactly the number of live guards of every address, no
    address ever holds more than [max_per_ip] slots, and an address without
    connections has no entry (the map does not grow with past clients). *)
Theorem per_ip_slots_exact (max : Z) (s : sys) (ip : IpAddr) :
  0 < max -> rtc step (sys_init max) s ->
  live s ip <= max /\
  inner (counter s) !! ip = (if live s ip =? 0 then None else Some (live s ip)).
Proof. intros Hm Hr. destruct (slots_inv_reachable _ _ Hm Hr) as [_ Hmap Hcap]. auto. Qed.

(** An acquisition is refused exactly when the limit is on and the address
    already holds [max_per_ip] live guards, and a refusal leaves the shared
    counter as it was. *)
Theorem try_acquire_refused_iff_full (max : Z) (s : sys) (ip : IpAddr) :
  0 <= max -> rtc step (sys_init max) s ->
  (snd (try_acquire (counter s) ip) = None <-> 0 < max /\ live s ip = max) /\
  (snd (try_acquire (counter s) ip) = None -> fst (try_acquire (counter s) ip) = counter s).
Proof.
  intros Hm Hr. destruct (decide (max = 0)) as [->|Hne].
  - unfold try_acquire. rewrite (max_reachable 0) by done. cbn. split; [naive_solver lia|done].
  - assert (0 < max) as Hpos by lia. pose proof (slots_inv_reachable _ _ Hpos Hr) as H.
    rewrite (inv_try_acquire max) by done. pose proof (inv_cap _ _ H ip).
    destruct (Z.leb_spec max (live s ip)); cbn; split; naive_solver lia.
Qed.

(** The limit at 2: a third connection of the same address is refused. *)
Definition ip1 : IpAddr := V4 192 0 2 1.
Definition sys_full : sys :=
  {| counter := {| inner := {[ip1 := 2]}; max_per_ip := 2 |};
     guards := [{| state := Some ip1 |}; {| state := Some ip1 |}] |}.

Lemma sys_full_reachable : rtc step (sys_init 2) sys_full.
Proof.
  eapply rtc_l; [by apply (step_acquired (sys_init 2) ip1)|].
  eapply rtc_l; [by eapply (step_acquired _ ip1)|]. apply rtc_refl.
Qed.

Lemma per_ip_slots_exact_witness :
  live sys_full ip1 <= 2 /\ inner (counter sys_full) !! ip1 = Some 2.
Proof. apply (per_ip_slots_exact 2 sys_full ip1); [lia|apply sys_full_reachable]. Defined.

Lemma try_acquire_refused_iff_full_witness : snd (try_acquire (counter sys_full) ip1) = None.
Proof.
  apply (try_acquire_refused_iff_full 2 sys_full ip1); [lia|apply sys_full_reachable|].
  split; [lia|reflexivity].
Defined.

End PerIpProps.

Module RequestsProps.
Import Requests.

(** Under every interleaving of the atomic accesses of any number of
    connections, at most [max_clients] connections are served at once, and the
    shared counter is exactly the number of connections that entered and have
    not left (no increment is lost, no decrement is lost or applied twice). *)
Theorem max_clients_enforced (max : Z) (n : nat) (s : sys) :
  0 <= max -> Z.of_nat n < usize_max -> rtc (step max) (sys_init n) s ->
  count_if serving (conns s) <= max /\ count s = count_if holding (conns s).
Proof. intros Hm Hn Hr. destruct (clients_inv_reachable _ _ _ Hm Hn Hr). auto. Qed.

(** Once every connection has left, the counter is back at 0. *)
Theorem request_count_returns_to_zero (max : Z) (n : nat) (s : sys) :
  0 <= max -> Z.of_nat n < usize_max -> rtc (step max) (sys_init n) s ->
  Forall (fun k => k = Arriving \/ k = Closed) (conns s) -> count s = 0.
Proof.
  intros Hm Hn Hr Hall. destruct (clients_inv_reachable _ _ _ Hm Hn Hr) as [_ -> _ _].
  apply count_if_zero. eapply Forall_impl; [done|]. by intros k [->| ->].
Qed.

(** Two connections and room for one: the second is rejected while the first is served. *)
Definition sys_one_of_two : sys := {| count := 2; conns := [Serving; Rejected DecLoad] |}.

Lemma sys_one_of_two_reachable : rtc (step 1) (sys_init 2) sys_one_of_two.
Proof.
  eapply rtc_l; [by eapply (step_conn _ (sys_init 2) 0)|].
  eapply rtc_l; [by eapply (step_conn _ _ 1)|]. apply rtc_refl.
Qed.

Lemma max_clients_enforced_witness :
  count_if serving (conns sys_one_of_two) = 1 /\ count_if serving (conns sys_one_of_two) <= 1.
Proof.
  split; [reflexivity|].
  apply (max_clients_enforced 1 2 sys_one_of_two); [lia|reflexivity|].
  apply sys_one_of_two_reachable.
Defined.

End RequestsProps.
