(* ===== verification/Connections.v ===== *)
(** * Connections and the shared limits ([proxy/proxy_main.rs], [proxy/proxy_h3.rs])

    Every listener of a service shares one table of connections per address and one
    counter of served requests, and a listener that reads PROXY headers has a semaphore.
    Here the tasks of TCP connections, of QUIC connections and of HTTP/3 request streams
    run side by side, from [accept] to the release of what they hold, one atomic access at
    a time and in any order. A step of a task is the next access its code makes; what the
    network does is an event. Listener tasks are not serialised: a cleartext listener
    without PROXY headers, which admits one connection after the other, has fewer orders
    than the relation allows. *)

From S2P Require Import Prelude RustStr RustNet HttpIface Globals NameExp ProxyProtocol Tls Listener Count.
Import PerIp.

Section connections.
Context `{IpNetApi} `{PppApi} `{TlsApi} `{!HandshakeApi}.
Context (pp_config : option TcpRecvProxyProtocolConfig) (acme : list (str * ServerConfig)) (max_clients : Z).

(** ** State *)

(** A TCP listener: its permits are those left in [pp_semaphore]. *)
Record TcpListener := {
  tl_tls : bool;
  tl_crypto : option SniServerCryptoMap;
  tl_permits : Z
}.

Inductive TaskOf :=
| TcpConnection (listener : nat) (c : TcpConn)
| QuicConnection (client_addr : SocketAddr)
| H3Stream (connection : nat).

(** Where a task is. [Active] is the handling of the requests of a TCP connection or of an
    HTTP/3 stream, [Connected] the accept loop of a QUIC connection. *)
Inductive Pc :=
| Pending
| Parsing
| Reserving (addr : SocketAddr)
| Handshaking (addr : SocketAddr) (g : PerIpConnectionGuard)
| Admitting (g : PerIpConnectionGuard) (w : option Serve)
| Refusing (g : PerIpConnectionGuard) (pc : Requests.dec_pc)
| Releasing (g : PerIpConnectionGuard)
| Active (g : PerIpConnectionGuard) (w : option Serve)
| Connected (g : PerIpConnectionGuard)
| Finishing (g : PerIpConnectionGuard) (pc : Requests.dec_pc)
| Dropping (g : PerIpConnectionGuard)
| Gone.

(** [tk_crypto] is the map the TLS listener gave to the task, [tk_permit] whether it holds a
    permit, [tk_tunnel] whether the bytes of an upgraded connection are being copied. *)
Record Task := {
  tk_of : TaskOf;
  tk_pc : Pc;
  tk_crypto : SniServerCryptoMap;
  tk_permit : bool;
  tk_tunnel : bool
}.

Record Sys := {
  sy_per_ip : PerIpConnectionCount;
  sy_requests : Z;
  sy_listeners : list TcpListener;
  sy_tasks : list Task
}.

Definition task_start (k : TaskOf) : Task :=
  {| tk_of := k; tk_pc := Pending; tk_crypto := []; tk_permit := false; tk_tunnel := false |}.

(** The semaphores have [max_clients] permits. *)
Definition listener_start (tls : bool) : TcpListener :=
  {| tl_tls := tls; tl_crypto := None; tl_permits := max_clients |}.

Definition sys_start (max_per_ip : Z) (listeners : list bool) (tasks : list TaskOf) : Sys :=
  {| sy_per_ip := PerIpConnectionCount_new max_per_ip; sy_requests := 0; sy_listeners := map listener_start listeners;
     sy_tasks := map task_start tasks |}.

Definition goto (t : Task) (pc : Pc) : Task :=
  {| tk_of := tk_of t; tk_pc := pc; tk_crypto := tk_crypto t; tk_permit := tk_permit t; tk_tunnel := tk_tunnel t |}.

Definition set_permits (l : TcpListener) (n : Z) : TcpListener :=
  {| tl_tls := tl_tls l; tl_crypto := tl_crypto l; tl_permits := n |}.

(** ** Steps of a task *)

(** [start_without_tls] and [serve_tls_tcp_connection] up to the task they spawn. *)
Definition tcp_accepted (l : TcpListener) (c : TcpConn) (t : Task) : TcpListener * Task :=
  if tl_tls l && negb (bool_decide (is_Some (tl_crypto l))) then (l, goto t Gone)
  else
    let t := {| tk_of := tk_of t; tk_pc := tk_pc t; tk_crypto := default [] (tl_crypto l); tk_permit := tk_permit t;
                tk_tunnel := tk_tunnel t |} in
    match pp_config with
    | None => (l, goto t (Reserving (tc_peer c)))
    | Some _ =>
        if 0 <? tl_permits l
        then (set_permits l (tl_permits l - 1),
              {| tk_of := tk_of t; tk_pc := Parsing; tk_crypto := tk_crypto t; tk_permit := true; tk_tunnel := tk_tunnel t |})
        else (l, goto t Gone)
    end.

(** The PROXY header. *)
Definition tcp_parsed (c : TcpConn) : Pc :=
  match pp_config with
  | None => Gone
  | Some pp =>
      match extract_parse_result_from_proxy_protocol_header (tc_stream c) (tc_peeks c) (tc_header_in_time c) (tc_peer c) pp with
      | Ok (addr, _) => Reserving addr
      | Err _ => Gone
      end
  end.

(** The slot of the address, before the TLS handshake. *)
Definition tcp_reserved (tls : bool) (c : TcpConn) (addr : SocketAddr) (g : option PerIpConnectionGuard) : Pc :=
  match g with
  | None => Gone
  | Some g =>
      if tls then Handshaking addr g
      else Admitting g (Some {| sv_client := tc_client c; sv_addr := addr; sv_tls_server_name := None; sv_h3 := false |})
  end.

Definition tcp_handshaken (c : TcpConn) (m : SniServerCryptoMap) (addr : SocketAddr) (g : PerIpConnectionGuard) : Pc :=
  if tc_handshake_in_time c then
    match serve_tls_handshake (tc_hello c) (tc_client c) acme m with
    | Ok (server_name, is_handshake_acme) =>
        if is_handshake_acme : bool then Releasing g
        else Admitting g (Some {| sv_client := tc_client c; sv_addr := addr; sv_tls_server_name := Some server_name;
                                  sv_h3 := false |})
    | Err _ => Releasing g
    end
  else Releasing g.

(** [serve_connection]: the admission, and the access of [decrement] on the way out. *)
Definition admitted (g : PerIpConnectionGuard) (w : option Serve) (old : Z) : Pc :=
  if max_clients <=? old then Refusing g Requests.DecLoad else Active g w.

Definition decremented (next : Requests.dec_pc -> Pc) (last : Pc) (r : Requests.dec_pc + Z) : Pc :=
  match r with inl pc => next pc | inr _ => last end.

(** The QUIC connection that a stream belongs to accepts requests. *)
Definition connected (s : Sys) (j : nat) : bool :=
  match sy_tasks s !! j with Some {| tk_pc := Connected _ |} => true | _ => false end.

Definition with_task (s : Sys) (i : nat) (t : Task) : Sys :=
  {| sy_per_ip := sy_per_ip s; sy_requests := sy_requests s; sy_listeners := sy_listeners s;
     sy_tasks := <[i := t]> (sy_tasks s) |}.

Definition with_slots (s : Sys) (c : PerIpConnectionCount) : Sys :=
  {| sy_per_ip := c; sy_requests := sy_requests s; sy_listeners := sy_listeners s; sy_tasks := sy_tasks s |}.

Definition with_requests (s : Sys) (n : Z) : Sys :=
  {| sy_per_ip := sy_per_ip s; sy_requests := n; sy_listeners := sy_listeners s; sy_tasks := sy_tasks s |}.

Definition with_listener (s : Sys) (j : nat) (l : TcpListener) : Sys :=
  {| sy_per_ip := sy_per_ip s; sy_requests := sy_requests s; sy_listeners := <[j := l]> (sy_listeners s);
     sy_tasks := sy_tasks s |}.

(** A task that starts: the shared state and the task after it. *)
Definition start_step (s : Sys) (t : Task) : option (Sys * Task) :=
  match tk_of t with
  | TcpConnection j c =>
      l ← sy_listeners s !! j;
      let '(l, t) := tcp_accepted l c t in
      Some (with_listener s j l, t)
  | QuicConnection client_addr => Some (s, goto t (Reserving client_addr))
  | H3Stream j => if connected s j then Some (s, goto t (Admitting {| state := None |} None)) else None
  end.

(** A task that reserves the slot of its address. *)
Definition reserve_step (s : Sys) (t : Task) (addr : SocketAddr) : option (Sys * Task) :=
  let '(c, g) := try_acquire (sy_per_ip s) (sa_ip addr) in
  match tk_of t with
  | TcpConnection j conn =>
      l ← sy_listeners s !! j;
      Some (with_slots s c, goto t (tcp_reserved (tl_tls l) conn addr g))
  | _ => Some (with_slots s c, goto t (match g with Some g => Connected g | None => Gone end))
  end.

(** The next access of a task; none for one that waits for the network or has ended. *)
Definition conn_step (s : Sys) (t : Task) : option (Sys * Task) :=
  match tk_pc t with
  | Pending => start_step s t
  | Parsing => match tk_of t with TcpConnection _ c => Some (s, goto t (tcp_parsed c)) | _ => None end
  | Reserving addr => reserve_step s t addr
  | Handshaking addr g =>
      match tk_of t with
      | TcpConnection _ c => Some (s, goto t (tcp_handshaken c (tk_crypto t) addr g))
      | _ => None
      end
  | Admitting g w =>
      let '(n, old) := Requests.increment (sy_requests s) in
      Some (with_requests s n, goto t (admitted g w old))
  | Refusing g pc =>
      let '(n, r) := Requests.decrement_step (sy_requests s) pc in
      Some (with_requests s n, goto t (decremented (Refusing g) (Releasing g) r))
  | Finishing g pc =>
      let '(n, r) := Requests.decrement_step (sy_requests s) pc in
      Some (with_requests s n, goto t (decremented (Finishing g) (Dropping g) r))
  | Releasing g | Dropping g => Some (with_slots s (drop_guard (sy_per_ip s) g), goto t Gone)
  | Active _ _ | Connected _ | Gone => None
  end.

(** ** The system *)

Inductive ConnEvent :=
| Steps (i : nat)
| Ends (i : nat) (upgraded : bool)    (* the connection or the stream ends, times out or is upgraded *)
| PermitDropped (i : nat)             (* the task that was spawned by the listener ends *)
| TunnelCloses (i : nat)
| CryptoChanged (j : nat) (m : SniServerCryptoMap).

(** [serve_connection_with_upgrades] also ends when it has handed the stream to an upgrade;
    the copying task of the handler then runs on its own. *)
Definition ended (t : Task) (upgraded : bool) : option Task :=
  match tk_pc t with
  | Active g _ =>
      let tunnel := upgraded && match tk_of t with TcpConnection _ _ => true | _ => false end in
      Some {| tk_of := tk_of t; tk_pc := Finishing g Requests.DecLoad; tk_crypto := tk_crypto t; tk_permit := tk_permit t;
              tk_tunnel := tunnel |}
  | Connected g => Some (goto t (Dropping g))
  | _ => None
  end.

(** The spawned task is over once [serve_connection] has returned, or the connection was
    given up: the permit is the last thing it drops. *)
Definition permit_free (t : Task) : bool :=
  match tk_pc t with Active _ _ | Finishing _ _ | Dropping _ | Gone => true | _ => false end.

Definition drop_permit (s : Sys) (t : Task) : option (Sys * Task) :=
  match tk_of t with
  | TcpConnection j _ =>
      if tk_permit t && permit_free t then
        l ← sy_listeners s !! j;
        Some (with_listener s j (set_permits l (tl_permits l + 1)),
              {| tk_of := tk_of t; tk_pc := tk_pc t; tk_crypto := tk_crypto t; tk_permit := false; tk_tunnel := tk_tunnel t |})
      else None
  | _ => None
  end.

Definition close_tunnel (t : Task) : option Task :=
  if tk_tunnel t
  then Some {| tk_of := tk_of t; tk_pc := tk_pc t; tk_crypto := tk_crypto t; tk_permit := tk_permit t; tk_tunnel := false |}
  else None.

(** [None]: the event cannot happen in this state. *)
Definition sys_step (s : Sys) (e : ConnEvent) : option Sys :=
  match e with
  | Steps i => t ← sy_tasks s !! i; '(s, t) ← conn_step s t; Some (with_task s i t)
  | Ends i upgraded => t ← sy_tasks s !! i; t ← ended t upgraded; Some (with_task s i t)
  | PermitDropped i => t ← sy_tasks s !! i; '(s, t) ← drop_permit s t; Some (with_task s i t)
  | TunnelCloses i => t ← sy_tasks s !! i; t ← close_tunnel t; Some (with_task s i t)
  | CryptoChanged j m =>
      l ← sy_listeners s !! j;
      Some (with_listener s j {| tl_tls := tl_tls l; tl_crypto := Some m; tl_permits := tl_permits l |})
  end.

Definition cstep (s s' : Sys) : Prop := exists e, sys_step s e = Some s'.
End connections.

(** ** What a task holds *)

Section held.
Context `{IpNetApi} `{PppApi} `{TlsApi} `{!HandshakeApi}.

Definition guard_at (pc : Pc) : option PerIpConnectionGuard :=
  match pc with
  | Handshaking _ g | Admitting g _ | Refusing g _ | Releasing g | Active g _ | Connected g | Finishing g _ | Dropping g => Some g
  | Pending | Parsing | Reserving _ | Gone => None
  end.

(** The guard, where it stands for a slot: that of a stream, and every guard where the limit
    is off, does not. *)
Definition guard_of (t : Task) : option PerIpConnectionGuard :=
  g ← guard_at (tk_pc t); _ ← state g; Some g.

Definition slot_of (ip : IpAddr) (t : Task) : bool :=
  match guard_of t with Some g => holds ip g | None => false end.

(** Counted: between its increment and its decrement. Served: admitted as well. *)
Definition counted_task (t : Task) : bool :=
  match tk_pc t with Refusing _ _ | Active _ _ | Finishing _ _ => true | _ => false end.

Definition served_task (t : Task) : bool :=
  match tk_pc t with Active _ _ | Finishing _ _ => true | _ => false end.

Definition permit_of (j : nat) (t : Task) : bool :=
  match tk_of t with TcpConnection j' _ => bool_decide (j' = j) && tk_permit t | _ => false end.

(** ** The counters as the parts they are

    A task seen by the request counter is one of [Requests.conn], where a task that leaves
    without having been counted never arrives. *)

Definition seen_as (t : Task) (k : Requests.conn) : Prop :=
  match tk_pc t with
  | Pending | Parsing | Reserving _ | Handshaking _ _ | Admitting _ _ => k = Requests.Arriving
  | Refusing _ pc => k = Requests.Rejected pc
  | Active _ _ => k = Requests.Serving
  | Finishing _ pc => k = Requests.Closing pc
  | Releasing _ | Connected _ | Dropping _ | Gone => k = Requests.Arriving \/ k = Requests.Closed
  end.

(** The step of a task as the request counter sees it. *)
Definition counts (max_clients : Z) (n : Z) (t : Task) (n' : Z) (t' : Task) : Prop :=
  forall k, seen_as t k ->
    (n' = n /\ seen_as t' k) \/ (exists k', Requests.serve_connection_step max_clients n k = (n', k') /\ seen_as t' k').

(** The step of a task as the table of addresses sees it. *)
Inductive slots : PerIpConnectionCount -> option PerIpConnectionGuard -> PerIpConnectionCount -> option PerIpConnectionGuard -> Prop :=
| slots_same c g : slots c g c g
| slots_acquired c ip c' g : try_acquire c ip = (c', Some g) -> slots c None c' (Some g)
| slots_refused c ip c' : try_acquire c ip = (c', None) -> slots c None c' None
| slots_dropped c g : slots c (Some g) (drop_guard c g) None.

(** The related states of the parts. *)
Record parts (s : Sys) (r : Requests.sys) (q : PerIp.sys) : Prop := {
  parts_count : Requests.count r = sy_requests s;
  parts_conns : Forall2 seen_as (sy_tasks s) (Requests.conns r);
  parts_table : counter q = sy_per_ip s;
  parts_guards : guards q ≡ₚ omap (M := list) guard_of (sy_tasks s)
}.

Lemma omap_insert_Permutation {A B} (f : A -> option B) (l : list A) i x y :
  l !! i = Some x ->
  omap (M := list) f l ≡ₚ option_list (f x) ++ omap (M := list) f (delete i l) /\
  omap (M := list) f (<[i := y]> l) ≡ₚ option_list (f y) ++ omap (M := list) f (delete i l).
Proof.
  intros Hi. assert (i < length l)%nat by (by eapply lookup_lt_Some).
  rewrite <- (take_drop_middle l i x) by done. rewrite insert_app_r_alt, delete_take_drop by (rewrite length_take; lia).
  rewrite length_take, Nat.min_l, Nat.sub_diag by lia. cbn [insert list_insert].
  rewrite take_app_le, take_take, Nat.min_id by (rewrite length_take; lia).
  rewrite drop_app_ge, length_take, Nat.min_l by (rewrite ?length_take; lia).
  replace (S i - i)%nat with 1%nat by lia. cbn [drop]. rewrite !omap_app.
  split; [destruct (f x) eqn:E|destruct (f y) eqn:E]; cbn; rewrite ?E; cbn; by rewrite ?Permutation_middle.
Qed.
End held.

Section simulation.
Context `{IpNetApi} `{PppApi} `{TlsApi} `{!HandshakeApi}.
Context (pp_config : option TcpRecvProxyProtocolConfig) (acme : list (str * ServerConfig)) (max_clients : Z).

#[local] Notation tstep := (conn_step pp_config acme max_clients).
#[local] Notation sys_step := (sys_step pp_config acme max_clients).
#[local] Notation cstep := (cstep pp_config acme max_clients).

(** One task moves: everything else is as it was. *)
Record only_task (s s' : Sys) (t t' : Task) : Prop := {
  ot_tasks : sy_tasks s' = sy_tasks s;
  ot_of : tk_of t' = tk_of t;
  ot_counts : counts max_clients (sy_requests s) t (sy_requests s') t';
  ot_slots : slots (sy_per_ip s) (guard_of t) (sy_per_ip s') (guard_of t')
}.

Lemma counts_same n t t' : (forall k, seen_as t k -> seen_as t' k) -> counts max_clients n t n t'.
Proof. intros Hk k ?. left. auto. Qed.

Lemma counts_step n t n' t' k k' :
  (forall x, seen_as t x -> x = k) -> Requests.serve_connection_step max_clients n k = (n', k') -> seen_as t' k' ->
  counts max_clients n t n' t'.
Proof. intros Hk Hs Ht x ->%Hk. right. by exists k'. Qed.

(** A step that keeps the guard and what the request counter sees. *)
Lemma only_goto s s' t pc :
  sy_tasks s' = sy_tasks s -> sy_requests s' = sy_requests s -> sy_per_ip s' = sy_per_ip s ->
  guard_of (goto t pc) = guard_of t -> (forall k, seen_as t k -> seen_as (goto t pc) k) -> only_task s s' t (goto t pc).
Proof.
  intros Ht Hr Hp Hg Hk. split; [done|done| |].
  - rewrite Hr. by apply counts_same.
  - rewrite Hp, Hg. constructor.
Qed.

Lemma start_only s t s' t' : tk_pc t = Pending -> start_step pp_config s t = Some (s', t') -> only_task s s' t t'.
Proof.
  intros Hpc. assert (forall k, seen_as t k -> k = Requests.Arriving) as Hk by (intros k; unfold seen_as; by rewrite Hpc).
  assert (guard_of t = None) as Hg by (unfold guard_of; by rewrite Hpc).
  unfold start_step, tcp_accepted. destruct (tk_of t) as [j c|a|j] eqn:Et.
  - destruct (sy_listeners s !! j) as [l|]; [|done]. cbn -[goto].
    repeat case_match; simplify_eq; intros [= <- <-];
      (split; cbn; [done|by rewrite ?Et|apply counts_same; intros k ->%Hk; cbn; auto|rewrite Hg; constructor]).
  - intros [= <- <-]. by apply only_goto.
  - destruct (connected s j); [|done]. intros [= <- <-]. by apply only_goto.
Qed.

(** An acquisition gives a slot of the address, or nothing where the limit is off. *)
Lemma acquire_slots c ip c' g :
  try_acquire c ip = (c', g) -> slots c None c' (g ← g; _ ← state g; Some g).
Proof.
  intros Ha. destruct g as [g|]; cbn; [|by eapply slots_refused].
  destruct (state g) as [ip'|] eqn:Eg; cbn; [by eapply slots_acquired|].
  unfold try_acquire in Ha. repeat case_match; simplify_eq. constructor.
Qed.

Lemma reserve_only s t addr s' t' :
  tk_pc t = Reserving addr -> reserve_step s t addr = Some (s', t') -> only_task s s' t t'.
Proof.
  intros Hpc. unfold reserve_step. destruct (try_acquire _ _) as [c g] eqn:Ea.
  assert (guard_of t = None) as Hg by (unfold guard_of; by rewrite Hpc).
  apply acquire_slots in Ea. intros Hs.
  assert (exists pc, s' = with_slots s c /\ t' = goto t pc /\ guard_of (goto t pc) = (g ← g; _ ← state g; Some g) /\
    (seen_as (goto t pc) Requests.Arriving)) as (pc & -> & -> & Hg' & Hk).
  { destruct (tk_of t); [destruct (sy_listeners s !! _) as [l|]; [|done]|..]; injection Hs as <- <-;
      eexists; (split_and!; [done|done|..]); destruct g; cbn; try destruct (tl_tls _); cbn; auto. }
  split; [done|done| |].
  - apply counts_same. intros k. unfold seen_as at 1. rewrite Hpc. by intros ->.
  - rewrite Hg, Hg'. done.
Qed.

Lemma tcp_parsed_cases c : (exists addr, tcp_parsed pp_config c = Reserving addr) \/ tcp_parsed pp_config c = Gone.
Proof. unfold tcp_parsed. repeat case_match; eauto. Qed.

Lemma tcp_handshaken_cases c m addr g :
  (exists sv, tcp_handshaken acme c m addr g = Admitting g (Some sv)) \/ tcp_handshaken acme c m addr g = Releasing g.
Proof. unfold tcp_handshaken. repeat case_match; eauto. Qed.

Lemma task_only s t s' t' : tstep s t = Some (s', t') -> only_task s s' t t'.
Proof.
  unfold conn_step. destruct (tk_pc t) as [| |addr|addr g|g w|g pc|g|g w|g|g pc|g|] eqn:Hpc; try done.
  - by apply start_only.
  - destruct (tk_of t) as [j c| |]; [|done..]. intros [= <- <-]. apply only_goto; try done.
    + unfold guard_of. rewrite Hpc. by destruct (tcp_parsed_cases c) as [[a ->]| ->].
    + unfold seen_as at 1. rewrite Hpc. intros k ->. destruct (tcp_parsed_cases c) as [[a ->]| ->]; cbn; auto.
  - by apply reserve_only.
  - destruct (tk_of t) as [j c| |]; [|done..]. intros [= <- <-]. apply only_goto; try done.
    + unfold guard_of. rewrite Hpc. by destruct (tcp_handshaken_cases c (tk_crypto t) addr g) as [[a ->]| ->].
    + unfold seen_as at 1. rewrite Hpc. intros k ->.
      destruct (tcp_handshaken_cases c (tk_crypto t) addr g) as [[a ->]| ->]; cbn; auto.
  - destruct (Requests.increment _) as [n old] eqn:Ei. intros [= <- <-]. split; [done|done| |].
    + eapply (counts_step _ _ _ _ Requests.Arriving); [unfold seen_as; rewrite Hpc; by intros ?|unfold Requests.serve_connection_step; by rewrite Ei|].
      unfold admitted. cbn. by case_match.
    + unfold guard_of, admitted. rewrite Hpc. cbn. case_match; constructor.
  - destruct (Requests.decrement_step _ pc) as [n r] eqn:Ed. intros [= <- <-]. split; [done|done| |].
    + destruct r; (eapply (counts_step _ _ _ _ (Requests.Rejected pc));
        [unfold seen_as; rewrite Hpc; by intros ?|unfold Requests.serve_connection_step; by rewrite Ed|cbn; auto]).
    + unfold guard_of. rewrite Hpc. destruct r; cbn; constructor.
  - intros [= <- <-]. split; [done|done|apply counts_same; unfold seen_as; by rewrite Hpc|].
    unfold guard_of. rewrite Hpc. cbn. destruct (state g) eqn:Eg; cbn; [constructor|].
    unfold drop_guard. rewrite Eg. constructor.
  - destruct (Requests.decrement_step _ pc) as [n r] eqn:Ed. intros [= <- <-]. split; [done|done| |].
    + destruct r; (eapply (counts_step _ _ _ _ (Requests.Closing pc));
        [unfold seen_as; rewrite Hpc; by intros ?|unfold Requests.serve_connection_step; by rewrite Ed|cbn; auto]).
    + unfold guard_of. rewrite Hpc. destruct r; cbn; constructor.
  - intros [= <- <-]. split; [done|done|apply counts_same; unfold seen_as; by rewrite Hpc|].
    unfold guard_of. rewrite Hpc. cbn. destruct (state g) eqn:Eg; cbn; [constructor|].
    unfold drop_guard. rewrite Eg. constructor.
Qed.

Lemma ended_only s t t' b : ended t b = Some t' -> only_task s s t t'.
Proof.
  unfold ended. destruct (tk_pc t) as [| | | | | | |g w|g| | |] eqn:Hpc; try done; intros [= <-].
  - split; [done|done| |unfold guard_of; rewrite Hpc; constructor].
    eapply (counts_step _ _ _ _ Requests.Serving); [unfold seen_as; rewrite Hpc; by intros ?|done|done].
  - apply only_goto; try done; [unfold guard_of; by rewrite Hpc|]. unfold seen_as. by rewrite Hpc.
Qed.

Lemma same_pc_only s s' t t' :
  sy_tasks s' = sy_tasks s -> sy_requests s' = sy_requests s -> sy_per_ip s' = sy_per_ip s ->
  tk_of t' = tk_of t -> tk_pc t' = tk_pc t -> only_task s s' t t'.
Proof.
  intros Ht Hr Hp Ho Hpc. split; [done|done| |unfold guard_of; rewrite Hp, Hpc; constructor].
  rewrite Hr. apply counts_same. unfold seen_as. by rewrite Hpc.
Qed.

Lemma drop_permit_only s t s' t' : drop_permit s t = Some (s', t') -> only_task s s' t t'.
Proof.
  unfold drop_permit. destruct (tk_of t) as [j c| |] eqn:Et; [|done..]. case_match; [|done].
  destruct (sy_listeners s !! j); [|done]. intros [= <- <-]. by apply same_pc_only.
Qed.

Lemma close_tunnel_only s t t' : close_tunnel t = Some t' -> only_task s s t t'.
Proof. unfold close_tunnel. case_match; [|done]. intros [= <-]. by apply same_pc_only. Qed.

(** An event moves one task, or gives a listener new certificates. *)
Lemma sys_step_inv s e s' :
  sys_step s e = Some s' ->
  (exists i t s1 t', sy_tasks s !! i = Some t /\ only_task s s1 t t' /\ s' = with_task s1 i t') \/
  (sy_tasks s' = sy_tasks s /\ sy_requests s' = sy_requests s /\ sy_per_ip s' = sy_per_ip s).
Proof.
  destruct e as [i|i b|i|i|j m]; cbn; [..|destruct (sy_listeners s !! j); [|done]; intros [= <-]; by right];
    destruct (sy_tasks s !! i) as [t|] eqn:Ei; try done; cbn; intros Hs; left.
  - destruct (tstep s t) as [[s1 t']|] eqn:E; [|done]. injection Hs as <-. apply task_only in E. by exists i, t, s1, t'.
  - destruct (ended t b) as [t'|] eqn:E; [|done]. injection Hs as <-. apply (ended_only s) in E. by exists i, t, s, t'.
  - destruct (drop_permit s t) as [[s1 t']|] eqn:E; [|done]. injection Hs as <-. apply drop_permit_only in E. by exists i, t, s1, t'.
  - destruct (close_tunnel t) as [t'|] eqn:E; [|done]. injection Hs as <-. apply (close_tunnel_only s) in E. by exists i, t, s, t'.
Qed.

Lemma Forall2_insert_l {A B} (P : A -> B -> Prop) l k i x y :
  Forall2 P l k -> k !! i = Some y -> P x y -> Forall2 P (<[i := x]> l) k.
Proof. intros HF Hi Hp. rewrite <- (list_insert_id k i y) by done. by apply Forall2_insert. Qed.

(** The request counter makes the step of the task, or none. *)
Lemma requests_step l r i t t' n n' :
  Requests.count r = n -> Forall2 seen_as l (Requests.conns r) -> l !! i = Some t -> counts max_clients n t n' t' ->
  exists r', rtc (Requests.step max_clients) r r' /\ Requests.count r' = n' /\ Forall2 seen_as (<[i := t']> l) (Requests.conns r').
Proof.
  intros Hn HF Hi Hc. destruct (Forall2_lookup_l _ _ _ _ _ HF Hi) as (k & Hk & Hs). destruct (Hc k Hs) as [[-> Hs']|(k' & Hst & Hs')].
  - exists r. split_and!; [apply rtc_refl|done|by eapply Forall2_insert_l].
  - eexists. split; [apply rtc_once; eapply (Requests.step_conn _ r i k); [done|by rewrite Hn]|]. cbn. split; [done|].
    by apply Forall2_insert.
Qed.

(** So does the table of addresses. *)
Lemma table_step l q i t t' c c' :
  counter q = c -> guards q ≡ₚ omap (M := list) guard_of l -> l !! i = Some t -> slots c (guard_of t) c' (guard_of t') ->
  exists q', rtc PerIp.step q q' /\ counter q' = c' /\ guards q' ≡ₚ omap (M := list) guard_of (<[i := t']> l).
Proof.
  intros <- HP Hi Hs. destruct (omap_insert_Permutation guard_of l i t t' Hi) as [P1 P2]. rewrite P1 in HP. setoid_rewrite P2. clear P1 P2.
  revert Hs HP. generalize (guard_of t) (guard_of t'). intros g0 g1 Hs HP.
  inversion Hs as [c0 g|c0 ip c1 g Ha|c0 ip c1 Ha|c0 g]; subst; cbn [option_list app] in HP |- *.
  - exists q. split_and!; [apply rtc_refl|done|done].
  - eexists. split; [apply rtc_once; by eapply step_acquired|]. cbn. split; [done|]. by rewrite HP.
  - eexists. split; [apply rtc_once; by eapply step_refused|]. cbn. by split.
  - assert (g ∈ guards q) as [k Hk]%list_elem_of_lookup by (rewrite HP; by left).
    eexists. split; [apply rtc_once; by eapply (step_drop q k)|]. cbn. split; [done|].
    apply (Permutation_cons_inv (a := g)). rewrite <- (delete_Permutation _ k g) by done. done.
Qed.

Lemma parts_step s e s' r q :
  sys_step s e = Some s' -> parts s r q ->
  exists r' q', rtc (Requests.step max_clients) r r' /\ rtc PerIp.step q q' /\ parts s' r' q'.
Proof.
  intros [(i & t & s1 & t' & Hi & [Ht _ Hc Hp] & ->)|(Ht & Hr & Hp)]%sys_step_inv [Pn Pk Pt Pg].
  - destruct (requests_step _ r i t t' _ _ Pn Pk Hi Hc) as (r' & Hr' & Hn & HF).
    destruct (table_step _ q i t t' _ _ Pt Pg Hi Hp) as (q' & Hq' & Hcn & HP).
    exists r', q'. split_and!; [done|done|]. split; cbn; rewrite ?Ht; done.
  - exists r, q. split_and!; [apply rtc_refl..|]. split; rewrite ?Ht, ?Hr, ?Hp; done.
Qed.

Lemma parts_start max_per_ip ls ks :
  parts (sys_start max_clients max_per_ip ls ks) (Requests.sys_init (length ks)) (PerIp.sys_init max_per_ip).
Proof.
  split; cbn; [done| |done|].
  - induction ks; cbn; by constructor.
  - by induction ks.
Qed.

Lemma parts_reachable max_per_ip ls ks s :
  rtc cstep (sys_start max_clients max_per_ip ls ks) s ->
  exists r q, rtc (Requests.step max_clients) (Requests.sys_init (length ks)) r /\
    rtc PerIp.step (PerIp.sys_init max_per_ip) q /\ parts s r q.
Proof.
  intros Hr. pose proof (parts_start max_per_ip ls ks) as Hp. revert Hp.
  generalize (Requests.sys_init (length ks)) (PerIp.sys_init max_per_ip).
  induction Hr as [s|s1 s2 s3 [e He] Hr IH]; intros r q Hp; [exists r, q; by split_and!; try apply rtc_refl|].
  destruct (parts_step _ _ _ r q He Hp) as (r1 & q1 & Hr1 & Hq1 & Hp1). destruct (IH r1 q1 Hp1) as (r2 & q2 & Hr2 & Hq2 & Hp2).
  exists r2, q2. split_and!; [by etrans|by etrans|done].
Qed.
End simulation.
