(* ===== verification/ConnectionProps.v ===== *)
(** * Theorems on the shared limits

    Invariants of the tasks of [Connections]: the permits, the slots and the request counter
    are what the tasks hold, a served connection is the one its listener lets through, all
    is given back in the end, and upgraded connections are outside the limits. *)

From S2P Require Import Prelude RustStr RustNet HttpIface Globals NameExp ProxyProtocol Tls TlsProps Listener ListenerProps Count Connections.
Import PerIp.

(** The number of tasks that hold what [f] asks for. *)
Definition holders `{IpNetApi} `{PppApi} `{TlsApi} `{!HandshakeApi} (f : Task -> bool) (s : Sys) : Z := count_if f (sy_tasks s).

(** ** Invariants of the tasks *)

Section invariant.
Context `{IpNetApi} `{PppApi} `{TlsApi} `{!HandshakeApi}.
Context (pp_config : option TcpRecvProxyProtocolConfig) (acme : list (str * ServerConfig)) (max_clients max_ip : Z).
Context (listeners : list bool).

#[local] Notation tstep := (conn_step pp_config acme max_clients).
#[local] Notation sys_step := (sys_step pp_config acme max_clients).
#[local] Notation cstep := (cstep pp_config acme max_clients).

(** The connection with the answers it was given: a permit and a slot. *)
Definition granted (c : TcpConn) : TcpConn :=
  {| tc_peer := tc_peer c; tc_stream := tc_stream c; tc_peeks := tc_peeks c; tc_header_in_time := tc_header_in_time c;
     tc_permit := true; tc_try_acquire := fun _ => true; tc_hello := tc_hello c; tc_client := tc_client c;
     tc_handshake_in_time := tc_handshake_in_time c |}.

(** The guard is for a slot of the address, unless the limit is off. *)
Definition slot_for (a : SocketAddr) (g : PerIpConnectionGuard) : Prop :=
  state g = if max_ip =? 0 then None else Some (sa_ip a).

(** What the listener's own function says becomes of the connection. *)
Definition served_as (j : nat) (c : TcpConn) (m : SniServerCryptoMap) (sv : Serve) : Prop :=
  match listeners !! j with
  | Some true => serve_tls_tcp_connection pp_config acme (Some m) (Some (granted c)) = Some sv
  | Some false => serve_tcp_connection pp_config (granted c) = Some sv
  | None => False
  end.

Definition working (t : Task) (g : PerIpConnectionGuard) (w : option Serve) : Prop :=
  match tk_of t with
  | TcpConnection j c => exists sv, w = Some sv /\ slot_for (sv_addr sv) g /\ served_as j c (tk_crypto t) sv
  | QuicConnection _ => False
  | H3Stream _ => w = None
  end.

Definition task_ok (t : Task) : Prop :=
  match tk_pc t with
  | Pending => tk_permit t = false
  | Parsing => match tk_of t with TcpConnection _ _ => True | _ => False end
  | Reserving addr =>
      match tk_of t with
      | TcpConnection j c => proxied_addr pp_config (granted c) = Some addr
      | QuicConnection a => addr = a
      | H3Stream _ => False
      end
  | Handshaking addr g =>
      match tk_of t with
      | TcpConnection j c => proxied_addr pp_config (granted c) = Some addr /\ slot_for addr g /\ listeners !! j = Some true
      | _ => False
      end
  | Admitting g w | Active g w => working t g w
  | Connected g => match tk_of t with QuicConnection a => slot_for a g | _ => False end
  | _ => True
  end.

Definition permits_ok (ls : list TcpListener) (ts : list Task) : Prop :=
  forall j l, ls !! j = Some l -> 0 <= tl_permits l /\ tl_permits l + count_if (permit_of j) ts = max_clients.

Record sys_ok (s : Sys) : Prop := {
  so_tls : map tl_tls (sy_listeners s) = listeners;
  so_max : max_per_ip (sy_per_ip s) = max_ip;
  so_tasks : Forall task_ok (sy_tasks s);
  so_permits : permits_ok (sy_listeners s) (sy_tasks s)
}.

Lemma try_acquire_max c ip : max_per_ip (try_acquire c ip).1 = max_per_ip c.
Proof. unfold try_acquire. by repeat case_match. Qed.

Lemma drop_guard_max c g : max_per_ip (drop_guard c g) = max_per_ip c.
Proof. unfold drop_guard. by repeat case_match. Qed.

Lemma acquired_slot c a c' g : max_per_ip c = max_ip -> try_acquire c (sa_ip a) = (c', Some g) -> slot_for a g.
Proof. unfold slot_for, try_acquire. intros ->. by repeat case_match; intros [= _ <-]. Qed.

Lemma listener_tls s j l : map tl_tls (sy_listeners s) = listeners -> sy_listeners s !! j = Some l -> listeners !! j = Some (tl_tls l).
Proof. intros <- Hl. by rewrite list_lookup_fmap, Hl. Qed.

(** A task keeps its invariant. *)
Lemma start_ok s t s' t' :
  tk_pc t = Pending -> tk_permit t = false -> start_step pp_config s t = Some (s', t') -> task_ok t'.
Proof.
  intros Hpc Hp. unfold start_step, tcp_accepted. destruct (tk_of t) as [j c|a|j] eqn:Et.
  - destruct (sy_listeners s !! j) as [l|]; [|done]. cbn -[goto].
    destruct (tl_tls l && _); [by intros [= <- <-]|].
    destruct pp_config as [pp|] eqn:Epp; [destruct (0 <? tl_permits l); intros [= <- <-]; unfold task_ok; cbn; by rewrite ?Et|].
    intros [= <- <-]. unfold task_ok. cbn. by rewrite Epp.
  - intros [= <- <-]. unfold task_ok. cbn. by rewrite Et.
  - case_match; [|done]. intros [= <- <-]. unfold task_ok, working. cbn. by rewrite Et.
Qed.

Lemma tcp_parsed_ok c addr : tcp_parsed pp_config c = Reserving addr -> proxied_addr pp_config (granted c) = Some addr.
Proof.
  unfold tcp_parsed, proxied_addr. destruct pp_config as [pp|]; [|done]. cbn [granted tc_permit tc_stream tc_peeks tc_header_in_time tc_peer].
  destruct (extract_parse_result_from_proxy_protocol_header _ _ _ _ _) as [[a r]|] eqn:E; [|done]. by intros [= ->].
Qed.

Lemma reserve_ok s t addr s' t' :
  sys_ok s -> tk_pc t = Reserving addr -> task_ok t -> reserve_step s t addr = Some (s', t') -> task_ok t'.
Proof.
  intros [Htls Hmax _ _] Hpc Hok. unfold reserve_step. destruct (try_acquire _ _) as [c [g|]] eqn:Ea;
    [|destruct (tk_of t) as [j conn|a|j]; [destruct (sy_listeners s !! j); [|done]|..]; by intros [= <- <-]].
  apply acquired_slot in Ea; [|done]. unfold task_ok in Hok. rewrite Hpc in Hok.
  destruct (tk_of t) as [j conn|a|j] eqn:Et; [|intros [= <- <-]; unfold task_ok; cbn; by rewrite Et, <- Hok|done].
  destruct (sy_listeners s !! j) as [l|] eqn:El; [|done]. apply listener_tls in El; [|done]. cbn. intros [= <- <-].
  unfold task_ok. cbn. destruct (tl_tls l); cbn; [by rewrite Et|]. unfold working. cbn. rewrite Et. eexists. split; [done|].
  split; [done|]. unfold served_as. rewrite El. unfold serve_tcp_connection. by rewrite Hok.
Qed.

Lemma handshake_ok t j c addr g :
  tk_pc t = Handshaking addr g -> tk_of t = TcpConnection j c -> task_ok t ->
  task_ok (goto t (tcp_handshaken acme c (tk_crypto t) addr g)).
Proof.
  unfold task_ok at 1. intros -> Et. rewrite Et. intros (Ha & Hg & Hl).
  unfold tcp_handshaken. destruct (tc_handshake_in_time c) eqn:Eh; [|done].
  destruct (serve_tls_handshake _ _ _ _) as [[sn []]|] eqn:Es; try done. unfold task_ok, working. cbn. rewrite Et. eexists.
  split; [done|]. split; [done|]. unfold served_as. rewrite Hl. unfold serve_tls_tcp_connection. cbn. rewrite Ha. cbn. by rewrite Eh, Es.
Qed.

Lemma conn_step_ok s t s' t' : sys_ok s -> task_ok t -> tstep s t = Some (s', t') -> task_ok t'.
Proof.
  intros Hs Hok. unfold conn_step. destruct (tk_pc t) as [| |addr|addr g|g w|g pc|g|g w|g|g pc|g|] eqn:Hpc; try done.
  - apply start_ok; [done|]. unfold task_ok in Hok. by rewrite Hpc in Hok.
  - destruct (tk_of t) as [j c| |] eqn:Et; [|done..]. intros [= <- <-].
    destruct (tcp_parsed_cases pp_config c) as [[a Ha]| ->]; [|done]. rewrite Ha. unfold task_ok. cbn. rewrite Et. by apply tcp_parsed_ok.
  - by apply reserve_ok.
  - destruct (tk_of t) as [j c| |] eqn:Et; [|done..]. intros [= <- <-]. by eapply handshake_ok.
  - destruct (Requests.increment _) as [n old]. intros [= <- <-]. unfold admitted. case_match; [done|].
    unfold task_ok in Hok. by rewrite Hpc in Hok.
  - destruct (Requests.decrement_step _ _) as [n []]; by intros [= <- <-].
  - by intros [= <- <-].
  - destruct (Requests.decrement_step _ _) as [n []]; by intros [= <- <-].
  - by intros [= <- <-].
Qed.

(** ** Permits *)

Definition b2z (b : bool) : Z := if b then 1 else 0.

(** The permits of a listener follow those of its tasks. *)
Lemma permits_move ls ts i t t' j c l :
  permits_ok ls ts -> ts !! i = Some t -> tk_of t = TcpConnection j c -> tk_of t' = tk_of t -> ls !! j = Some l ->
  0 <= tl_permits l + b2z (tk_permit t) - b2z (tk_permit t') ->
  permits_ok (<[j := set_permits l (tl_permits l + b2z (tk_permit t) - b2z (tk_permit t'))]> ls) (<[i := t']> ts).
Proof.
  intros Hp Hi Et Et' Hj Hd k l' Hk. rewrite (count_if_insert _ _ _ t) by done. unfold permit_of at 2 3. rewrite Et', Et.
  destruct (decide (j = k)) as [<-|Hne].
  - rewrite list_lookup_insert_eq in Hk by (by eapply lookup_lt_Some). injection Hk as <-. rewrite bool_decide_true by done. cbn.
    destruct (Hp j l Hj). unfold b2z in *. destruct (tk_permit t), (tk_permit t'); lia.
  - rewrite list_lookup_insert_ne in Hk by done. rewrite bool_decide_false by done. cbn. destruct (Hp k l' Hk). lia.
Qed.

#[local] Ltac move_permits :=
  match goal with
  | Hi : sy_tasks ?s !! ?i = Some ?t, Et : tk_of ?t = TcpConnection ?j ?c, El : sy_listeners ?s !! ?j = Some ?l |- permits_ok _ (<[_ := ?x]> _) =>
      apply (permits_move (sy_listeners s) (sy_tasks s) i t x j c l)
  end.

Lemma permits_same ls ts i t t' :
  permits_ok ls ts -> ts !! i = Some t -> tk_of t' = tk_of t -> tk_permit t' = tk_permit t -> permits_ok ls (<[i := t']> ts).
Proof.
  intros Hp Hi Ho Hk j l Hj. rewrite (count_if_insert _ _ _ t) by done. destruct (Hp j l Hj). unfold permit_of at 2 3. rewrite Ho, Hk. lia.
Qed.

Lemma set_permits_id l : set_permits l (tl_permits l) = l.
Proof. by destruct l. Qed.

Lemma start_permits s i t s' t' :
  permits_ok (sy_listeners s) (sy_tasks s) -> sy_tasks s !! i = Some t -> tk_permit t = false ->
  start_step pp_config s t = Some (s', t') -> permits_ok (sy_listeners s') (<[i := t']> (sy_tasks s)).
Proof.
  intros Hp Hi Hf. unfold start_step, tcp_accepted. destruct (tk_of t) as [j c|a|j] eqn:Et;
    [|intros [= <- <-]; by eapply permits_same|case_match; [|done]; intros [= <- <-]; by eapply permits_same].
  destruct (sy_listeners s !! j) as [l|] eqn:El; [|done]. cbn -[goto].
  assert (forall t', tk_of t' = tk_of t -> tk_permit t' = false -> permits_ok (<[j := l]> (sy_listeners s)) (<[i := t']> (sy_tasks s))) as Hsame.
  { intros t1 H1' H2'. rewrite list_insert_id by done. eapply permits_same; [done|done|done|]. by rewrite Hf. }
  destruct (tl_tls l && _); [intros [= <- <-]; by apply Hsame|].
  destruct pp_config as [pp|]; [|intros [= <- <-]; apply Hsame; cbn; by rewrite ?Et].
  destruct (Z.ltb_spec 0 (tl_permits l)); intros [= <- <-]; [|apply Hsame; cbn; by rewrite ?Et].
  replace (tl_permits l - 1) with (tl_permits l + b2z (tk_permit t) - b2z true) by (rewrite Hf; cbn; lia).
  move_permits; cbn; rewrite ?Hf, ?Et; cbn; try done. lia.
Qed.

Lemma task_permits s i t s' t' :
  sys_ok s -> sy_tasks s !! i = Some t -> task_ok t -> tstep s t = Some (s', t') ->
  permits_ok (sy_listeners s') (<[i := t']> (sy_tasks s)).
Proof.
  intros Hs Hi Hok. pose proof (so_permits _ Hs) as Hp. unfold conn_step.
  destruct (tk_pc t) as [| |addr|addr g|g w|g pc|g|g w|g|g pc|g|] eqn:Hpc; try done;
    [apply start_permits; try done; unfold task_ok in Hok; by rewrite Hpc in Hok|..];
    intros Hst; assert (sy_listeners s' = sy_listeners s /\ tk_of t' = tk_of t /\ tk_permit t' = tk_permit t) as (-> & Ho & Hk);
    try (by eapply permits_same).
  all: unfold reserve_step in Hst; repeat (case_match; try done); cbn in Hst; simplify_eq; try done.
  destruct (sy_listeners s !! listener); [|done]. cbn in Hst. by simplify_eq.
Qed.

Lemma conn_step_max s t s' t' : tstep s t = Some (s', t') -> max_per_ip (sy_per_ip s') = max_per_ip (sy_per_ip s).
Proof.
  intros [_ _ _ Hs]%task_only. revert Hs. generalize (guard_of t) (guard_of t') (sy_per_ip s) (sy_per_ip s').
  intros g g' c c' [|c0 ip c1 ? Ha|c0 ip c1 Ha|]; [done| | |by rewrite drop_guard_max];
    (rewrite <- (try_acquire_max c0 ip), Ha; done).
Qed.

Lemma conn_step_tls s t s' t' : tstep s t = Some (s', t') -> map tl_tls (sy_listeners s') = map tl_tls (sy_listeners s).
Proof.
  assert (forall j l l', sy_listeners s !! j = Some l -> tl_tls l' = tl_tls l ->
    map tl_tls (<[j := l']> (sy_listeners s)) = map tl_tls (sy_listeners s)) as Hins.
  { intros j l l' Hj Ht. change (map tl_tls) with (fmap (M := list) tl_tls). rewrite list_fmap_insert, Ht.
    apply list_insert_id. by rewrite list_lookup_fmap, Hj. }
  unfold conn_step, start_step, reserve_step. destruct (tk_pc t) as [| |addr|addr g|g w|g pc|g|g w|g|g pc|g|]; try done.
  - destruct (tk_of t) as [j c|a|j]; [|by intros [= <- _]|case_match; [|done]; by intros [= <- _]].
    destruct (sy_listeners s !! j) as [l|] eqn:El; [|done]. cbn. destruct (tcp_accepted _ _ _ _) as [l' t1] eqn:Ea. intros [= <- _].
    apply (Hins j l); [done|]. unfold tcp_accepted in Ea. by repeat case_match; simplify_eq.
  - case_match; [|done..]. by intros [= <- _].
  - destruct (try_acquire _ _). destruct (tk_of t) as [j c|a|j]; [destruct (sy_listeners s !! j); [|done]|..]; by intros [= <- _].
  - case_match; [|done..]. by intros [= <- _].
  - destruct (Requests.increment _). by intros [= <- _].
  - destruct (Requests.decrement_step _ _). by intros [= <- _].
  - by intros [= <- _].
  - destruct (Requests.decrement_step _ _). by intros [= <- _].
  - by intros [= <- _].
Qed.

Lemma sys_ok_task s i t s' t' :
  sys_ok s -> sy_tasks s !! i = Some t -> tstep s t = Some (s', t') -> sys_ok (with_task s' i t').
Proof.
  intros Hs Hi Hst. assert (task_ok t) as Hok by (by eapply Forall_lookup_1; [apply (so_tasks _ Hs)|]).
  pose proof (task_only _ _ _ _ _ _ _ Hst) as [Ht _ _ _]. split; cbn.
  - rewrite (conn_step_tls _ _ _ _ Hst). apply Hs.
  - rewrite (conn_step_max _ _ _ _ Hst). apply Hs.
  - rewrite Ht. apply Forall_insert; [apply Hs|by eapply conn_step_ok].
  - rewrite Ht. by eapply task_permits.
Qed.

(** An event that changes one task and no counter. *)
Lemma sys_ok_quiet s i t t' :
  sys_ok s -> sy_tasks s !! i = Some t -> tk_of t' = tk_of t -> tk_permit t' = tk_permit t -> task_ok t' -> sys_ok (with_task s i t').
Proof.
  intros [H1' H2' H3' H4'] Hi Ho Hk Hok. split; cbn; [done|done|by apply Forall_insert|by eapply permits_same].
Qed.

Lemma ended_ok t b t' : ended t b = Some t' -> tk_of t' = tk_of t /\ tk_permit t' = tk_permit t /\ task_ok t'.
Proof. unfold ended. destruct (tk_pc t); try done; by intros [= <-]. Qed.

Lemma sys_ok_permit s i t s' t' :
  sys_ok s -> sy_tasks s !! i = Some t -> drop_permit s t = Some (s', t') -> sys_ok (with_task s' i t').
Proof.
  intros Hs Hi Hd. assert (task_ok t) as Hok by (by eapply Forall_lookup_1; [apply (so_tasks _ Hs)|]).
  unfold drop_permit in Hd. destruct (tk_of t) as [j c| |] eqn:Et; [|done..].
  destruct (tk_permit t && permit_free t) eqn:Ep; [|done]. apply andb_true_iff in Ep as [Ep Ef].
  destruct (sy_listeners s !! j) as [l|] eqn:El; [|done]. cbn in Hd. injection Hd as <- <-. destruct Hs as [H1' H2' H3' H4'].
  split; cbn; [|done| |].
  - change (map tl_tls) with (fmap (M := list) tl_tls) in *. rewrite list_fmap_insert. cbn. rewrite list_insert_id; [done|].
    by rewrite list_lookup_fmap, El.
  - apply Forall_insert; [done|]. revert Hok Ef. unfold task_ok, permit_free, working. cbn. rewrite Et. by destruct (tk_pc t).
  - replace (tl_permits l + 1) with (tl_permits l + b2z (tk_permit t) - b2z false) by (rewrite Ep; cbn; lia).
    destruct (H4' j l El). move_permits; cbn; rewrite ?Ep, ?Et; cbn; try done. lia.
Qed.

Lemma sys_step_ok s e s' : sys_ok s -> sys_step s e = Some s' -> sys_ok s'.
Proof.
  intros Hs. destruct e as [i|i b|i|i|j m]; cbn;
    [destruct (sy_tasks s !! i) as [t|] eqn:Ei; [|done]; cbn; intros Hst..|].
  - destruct (tstep s t) as [[s1 t']|] eqn:E; [|done]. injection Hst as <-. by eapply sys_ok_task.
  - destruct (ended t b) as [t'|] eqn:E; [|done]. injection Hst as <-. apply ended_ok in E as (? & ? & ?). by eapply sys_ok_quiet.
  - destruct (drop_permit s t) as [[s1 t']|] eqn:E; [|done]. injection Hst as <-. by eapply sys_ok_permit.
  - unfold close_tunnel in Hst. destruct (tk_tunnel t) eqn:Et; [|done]. injection Hst as <-. eapply sys_ok_quiet; [done..|].
    exact (Forall_lookup_1 task_ok _ _ _ (so_tasks _ Hs) Ei).
  - destruct (sy_listeners s !! j) as [l|] eqn:El; [|done]. intros [= <-]. destruct Hs as [H1' H2' H3' H4']. split; cbn; [|done|done|].
    + change (map tl_tls) with (fmap (M := list) tl_tls) in *. rewrite list_fmap_insert. cbn. rewrite list_insert_id; [done|].
      by rewrite list_lookup_fmap, El.
    + intros k l' Hk. destruct (decide (j = k)) as [<-|Hne].
      * rewrite list_lookup_insert_eq in Hk by (by eapply lookup_lt_Some). injection Hk as <-. exact (H4' j l El).
      * rewrite list_lookup_insert_ne in Hk by done. by apply H4'.
Qed.

Lemma sys_ok_start ks : 0 <= max_clients -> sys_ok (sys_start max_clients max_ip listeners ks).
Proof.
  intros Hm. split; cbn; [|done| |].
  - rewrite map_map. cbn. apply map_id.
  - by apply Forall_map, Forall_true.
  - intros j l Hj. rewrite list_lookup_fmap in Hj. destruct (listeners !! j); [|done]. injection Hj as <-. cbn. split; [done|].
    rewrite count_if_zero; [lia|]. apply Forall_map, Forall_true. intros k. unfold permit_of. cbn. destruct k; [apply andb_false_r|done..].
Qed.

Lemma sys_ok_reachable ks s : 0 <= max_clients -> rtc cstep (sys_start max_clients max_ip listeners ks) s -> sys_ok s.
Proof.
  intros Hm Hr. pose proof (sys_ok_start ks Hm) as Hs. induction Hr as [|s1 s2 s3 [e He] Hr IH]; [done|]. by apply IH, (sys_step_ok _ e s2 Hs).
Qed.
End invariant.

(** ** The limits *)

Section limits.
Context `{IpNetApi} `{PppApi} `{TlsApi} `{!HandshakeApi}.
Context (pp_config : option TcpRecvProxyProtocolConfig) (acme : list (str * ServerConfig)) (max_clients max_ip : Z).
Context (listeners : list bool) (ks : list TaskOf).

#[local] Notation cstep := (cstep pp_config acme max_clients).
#[local] Notation start := (sys_start max_clients max_ip listeners ks).

Lemma Forall2_count {A B} (P : A -> B -> Prop) f g l k :
  Forall2 P l k -> (forall x y, P x y -> f x = g y) -> count_if f l = count_if g k.
Proof. intros HF Hfg. induction HF as [|x y l k Hp _ IH]; cbn [count_if]; [done|]. by rewrite IH, (Hfg x y Hp). Qed.

Lemma seen_counted t k : seen_as t k -> counted_task t = Requests.holding k.
Proof. unfold seen_as, counted_task. destruct (tk_pc t); naive_solver. Qed.

Lemma seen_served t k : seen_as t k -> served_task t = Requests.serving k.
Proof. unfold seen_as, served_task. destruct (tk_pc t); naive_solver. Qed.

Lemma requests_exact s :
  0 <= max_clients -> Z.of_nat (length ks) < usize_max -> rtc cstep start s ->
  sy_requests s = count_if counted_task (sy_tasks s) /\ count_if served_task (sy_tasks s) <= max_clients.
Proof.
  intros Hm Hn (r & q & Hr & _ & [Pn Pk _ _])%parts_reachable.
  apply Requests.clients_inv_reachable in Hr as [_ Hc Hs _]; [|done..].
  rewrite <- Pn, Hc, (Forall2_count _ _ _ _ _ Pk seen_counted), (Forall2_count _ _ _ _ _ Pk seen_served). done.
Qed.

Lemma count_slots ts ip : count_if (slot_of ip) ts = count_if (holds ip) (omap (M := list) guard_of ts).
Proof.
  induction ts as [|t ts IH]; [done|]. cbn. unfold slot_of at 1. destruct (guard_of t); cbn; rewrite IH; lia.
Qed.

Lemma count_if_Permutation {A} (f : A -> bool) l k : l ≡ₚ k -> count_if f l = count_if f k.
Proof. induction 1; cbn [count_if]; lia. Qed.

Lemma slots_exact s ip :
  0 < max_ip -> rtc cstep start s ->
  count_if (slot_of ip) (sy_tasks s) <= max_ip /\
  inner (sy_per_ip s) !! ip = (let n := count_if (slot_of ip) (sy_tasks s) in if n =? 0 then None else Some n).
Proof.
  intros Hm (r & q & _ & Hq & [_ _ Pt Pg])%parts_reachable. apply slots_inv_reachable in Hq as [_ Hmap Hcap]; [|done].
  specialize (Hmap ip). specialize (Hcap ip). unfold live in Hmap, Hcap.
  by rewrite <- Pt, count_slots, <- (count_if_Permutation _ _ _ Pg).
Qed.

(** ** Every task can finish *)

Definition homed (k : TaskOf) : Prop := match k with TcpConnection j _ => is_Some (listeners !! j) | _ => True end.

Definition holds_permit (t : Task) : bool := match tk_of t with TcpConnection _ _ => tk_permit t | _ => false end.

(** A task has not begun, or has ended and holds nothing. *)
Definition at_rest (t : Task) : bool :=
  match tk_pc t with Pending => true | Gone => negb (holds_permit t) | _ => false end.

Definition dec_rank (n : Z) (pc : Requests.dec_pc) : nat :=
  match pc with Requests.DecLoad => 2 | Requests.DecCas c => if c =? n then 1 else 3 end.

(** How many events a task is away from its end when no other task moves. *)
Definition rank (n : Z) (t : Task) : nat :=
  match tk_pc t with
  | Pending => 0
  | Parsing => 20
  | Reserving _ => 19
  | Handshaking _ _ => 18
  | Admitting _ _ => 17
  | Active _ _ => 16
  | Refusing _ pc | Finishing _ pc => 10 + dec_rank n pc
  | Connected _ => 9
  | Releasing _ | Dropping _ => 8
  | Gone => if holds_permit t then 1 else 0
  end.

#[local] Notation tstep := (conn_step pp_config acme max_clients).
#[local] Notation sys_step := (sys_step pp_config acme max_clients).

Lemma decrement_rank n pc n' r (f : Requests.dec_pc -> Pc) g t :
  Requests.decrement_step n pc = (n', r) -> f = Refusing g \/ f = Finishing g ->
  (rank n' (goto t (decremented f (match f Requests.DecLoad with Refusing _ _ => Releasing g | _ => Dropping g end) r)) < 10 + dec_rank n pc)%nat.
Proof.
  intros Hd [-> | ->]; destruct pc as [|c]; cbn in Hd; repeat case_match; simplify_eq; cbn; rewrite ?Z.eqb_refl; breflect; try lia;
    case_match; breflect; lia.
Qed.

(** The task has begun, and its next access needs no event from outside. *)
Definition steps_alone (t : Task) : bool :=
  match tk_pc t with Pending | Active _ _ | Connected _ | Gone => false | _ => true end.

Lemma begun_step s t :
  sys_ok pp_config acme max_clients max_ip listeners s -> task_ok pp_config acme max_ip listeners t -> homed (tk_of t) ->
  steps_alone t = true ->
  exists s' t', tstep s t = Some (s', t') /\ (rank (sy_requests s') t' < rank (sy_requests s) t)%nat /\ tk_pc t' <> Pending.
Proof.
  intros Hs Hok Hh Hpc. unfold task_ok in Hok. unfold steps_alone in Hpc. unfold conn_step. unfold rank at 2.
  assert (forall j c, tk_of t = TcpConnection j c -> is_Some (sy_listeners s !! j)) as Hl.
  { intros j c Et. unfold homed in Hh. rewrite Et, <- (so_tls _ _ _ _ _ _ Hs) in Hh. rewrite list_lookup_fmap in Hh. by apply fmap_is_Some in Hh. }
  destruct (tk_pc t) as [| |addr|addr g|g w|g pc|g|g w|g|g pc|g|] eqn:Epc; try done.
  - destruct (tk_of t) as [j c| |]; try done. do 2 eexists. split; [done|].
    destruct (tcp_parsed_cases pp_config c) as [[a ->]| ->]; cbn; [|case_match]; (split; [lia|done]).
  - unfold reserve_step. destruct (try_acquire _ _) as [c g]. destruct (tk_of t) as [j conn|a|j] eqn:Et; [|..|done].
    + destruct (Hl j conn eq_refl) as [l ->]. do 2 eexists. split; [done|]. destruct g; cbn; [destruct (tl_tls l); cbn|case_match]; (split; [lia|done]).
    + do 2 eexists. split; [done|]. destruct g; cbn; [|case_match]; (split; [lia|done]).
  - destruct (tk_of t) as [j c| |]; try done. do 2 eexists. split; [done|].
    destruct (tcp_handshaken_cases acme c (tk_crypto t) addr g) as [[a ->]| ->]; cbn; (split; [lia|done]).
  - destruct (Requests.increment _) as [n old]. do 2 eexists. split; [done|]. unfold admitted. case_match; cbn; (split; [lia|done]).
  - destruct (Requests.decrement_step _ _) as [n r] eqn:Ed. do 2 eexists. split; [done|]. split; [|by destruct r].
    apply (decrement_rank _ _ _ _ (Refusing g) g t) in Ed; [exact Ed|by left].
  - do 2 eexists. split; [done|]. cbn. case_match; (split; [lia|done]).
  - destruct (Requests.decrement_step _ _) as [n r] eqn:Ed. do 2 eexists. split; [done|]. split; [|by destruct r].
    apply (decrement_rank _ _ _ _ (Finishing g) g t) in Ed; [exact Ed|by right].
  - do 2 eexists. split; [done|]. cbn. case_match; (split; [lia|done]).
Qed.

#[local] Notation ok := (sys_ok pp_config acme max_clients max_ip listeners).

(** A task that has begun and is not over has an event that brings it nearer to its end and
    moves no other task. *)
Lemma finish_step s i t :
  ok s -> sy_tasks s !! i = Some t -> homed (tk_of t) -> at_rest t = false ->
  exists e s' t', sys_step s e = Some s' /\ sy_tasks s' = <[i := t']> (sy_tasks s) /\
    (rank (sy_requests s') t' < rank (sy_requests s) t)%nat /\ tk_of t' = tk_of t /\ tk_pc t' <> Pending.
Proof.
  intros Hs Hi Hh Hr. pose proof (Forall_lookup_1 _ _ _ _ (so_tasks _ _ _ _ _ _ Hs) Hi) as Hok.
  destruct (steps_alone t) eqn:Hb.
  - destruct (begun_step s t Hs Hok Hh Hb) as (s' & t' & Hst & Hrk & Hpc). destruct (task_only _ _ _ _ _ _ _ Hst) as [Ht Ho _ _].
    exists (Steps i), (with_task s' i t'), t'. cbn. rewrite Hi. cbn. rewrite Hst. cbn. by rewrite Ht.
  - unfold at_rest in Hr. unfold steps_alone in Hb. destruct (tk_pc t) as [| | | | | | |g w|g| | |] eqn:Epc; try done.
    + exists (Ends i false). do 2 eexists. split; [cbn; unfold ended; rewrite Hi; cbn; rewrite Epc; done|]. split; [done|].
      unfold rank. cbn. rewrite Epc. split_and!; [lia|done|done].
    + exists (Ends i false). do 2 eexists. split; [cbn; unfold ended; rewrite Hi; cbn; rewrite Epc; done|]. split; [done|].
      unfold rank. cbn. rewrite Epc. split_and!; [lia|done|done].
    + apply negb_false_iff in Hr. unfold holds_permit in Hr. destruct (tk_of t) as [j c| |] eqn:Et; [|done..].
      unfold homed in Hh. rewrite <- (so_tls _ _ _ _ _ _ Hs) in Hh. rewrite list_lookup_fmap in Hh. apply fmap_is_Some in Hh as [l Hl].
      exists (PermitDropped i). do 2 eexists.
      split; [cbn; unfold drop_permit; rewrite Hi; cbn; rewrite Et, Hr; unfold permit_free; rewrite Epc; cbn; rewrite Hl; done|].
      cbn. split; [done|]. unfold rank, holds_permit. cbn. rewrite Epc, Et, Hr. split_and!; [lia|done|done].
Qed.

Lemma finish_one m s i t :
  (rank (sy_requests s) t <= m)%nat -> ok s -> sy_tasks s !! i = Some t -> homed (tk_of t) ->
  exists s' t', rtc cstep s s' /\ sy_tasks s' = <[i := t']> (sy_tasks s) /\ at_rest t' = true /\ tk_of t' = tk_of t.
Proof.
  revert s t. induction m as [|m IH]; intros s t Hm Hs Hi Hh; (destruct (at_rest t) eqn:Er;
    [exists s, t; split_and!; [apply rtc_refl|by rewrite list_insert_id|done|done]|]);
    destruct (finish_step s i t Hs Hi Hh Er) as (e & s1 & t1 & Hst & Ht1 & Hrk & Ho & _); [lia|].
  assert (i < length (sy_tasks s))%nat by (by eapply lookup_lt_Some).
  destruct (IH s1 t1) as (s2 & t2 & Hr2 & Ht2 & Hrest & Ho2); [lia|by eapply sys_step_ok| |by rewrite Ho|].
  { rewrite Ht1. by apply list_lookup_insert_eq. }
  exists s2, t2. split_and!; [eapply rtc_l; [by exists e|done]| |done|by rewrite Ho2].
  by rewrite Ht2, Ht1, list_insert_insert_eq.
Qed.

Lemma reachable_ok s s' : ok s -> rtc cstep s s' -> ok s'.
Proof. intros Hs Hr. induction Hr as [|s1 s2 s3 [e He] Hr IH]; [done|]. by apply IH, (sys_step_ok _ _ _ _ _ _ e s2 Hs). Qed.

(** All tasks of the list up to [m] can be brought to rest. *)
Lemma finish_upto m s :
  ok s -> Forall homed (map tk_of (sy_tasks s)) ->
  exists s', rtc cstep s s' /\ ok s' /\ Forall homed (map tk_of (sy_tasks s')) /\ length (sy_tasks s') = length (sy_tasks s) /\
    forall i t, (i < m)%nat -> sy_tasks s' !! i = Some t -> at_rest t = true.
Proof.
  intros Hs Hh. induction m as [|m (s1 & Hr & Hs1 & Hh1 & Hl1 & Hrest)]; [exists s; split_and!; [apply rtc_refl|done|done|done|lia]|].
  destruct (sy_tasks s1 !! m) as [t|] eqn:Em.
  - assert (homed (tk_of t)) as Ht by (eapply (Forall_lookup_1 homed); [exact Hh1|]; by erewrite list_lookup_fmap, Em).
    destruct (finish_one _ s1 m t (Nat.le_refl _) Hs1 Em Ht) as (s2 & t2 & Hr2 & Ht2 & Hat & Ho).
    exists s2. split_and!; [by etrans|by eapply reachable_ok| |by rewrite Ht2, length_insert|].
    + rewrite Ht2. change (map tk_of) with (fmap (M := list) tk_of) in *. rewrite list_fmap_insert. apply Forall_insert; [done|by rewrite Ho].
    + intros i t' Hi Hit. rewrite Ht2 in Hit. destruct (decide (m = i)) as [<-|Hne].
      * rewrite list_lookup_insert_eq in Hit by (by eapply lookup_lt_Some). by injection Hit as <-.
      * rewrite list_lookup_insert_ne in Hit by done. apply (Hrest i); [lia|done].
  - exists s1. split_and!; try done. intros i t Hi Hit. apply (Hrest i); [|done]. destruct (decide (i = m)) as [->|]; [congruence|lia].
Qed.

Lemma start_homed s : rtc cstep start s -> map tk_of (sy_tasks s) = ks.
Proof.
  intros Hr. assert (map tk_of (sy_tasks start) = ks) as Hk by (cbn; rewrite map_map; apply map_id). revert Hk.
  induction Hr as [|s1 s2 s3 [e He] Hr IH]; [done|]. intros Hk. apply IH. rewrite <- Hk.
  apply sys_step_inv in He as [(i & t & s' & t' & Hi & [Ht Ho _ _] & ->)|(Ht & _ & _)]; [|by rewrite Ht].
  cbn. rewrite Ht. change (map tk_of) with (fmap (M := list) tk_of). rewrite list_fmap_insert, Ho. apply list_insert_id. by rewrite list_lookup_fmap, Hi.
Qed.

(** Where every task is at rest, nothing is held. *)
Lemma rest_counts ts f : (forall t, at_rest t = true -> f t = false) -> (forall i t, ts !! i = Some t -> at_rest t = true) -> count_if f ts = 0.
Proof. intros Hf Hr. apply count_if_zero, Forall_lookup. intros i t Hi. apply Hf. by eapply Hr. Qed.

Lemma rest_released s :
  0 <= max_clients -> 0 < max_ip -> Z.of_nat (length ks) < usize_max -> rtc cstep start s ->
  (forall i t, sy_tasks s !! i = Some t -> at_rest t = true) ->
  sy_requests s = 0 /\ inner (sy_per_ip s) = ∅ /\ forall j l, sy_listeners s !! j = Some l -> tl_permits l = max_clients.
Proof.
  intros Hm Hip Hn Hr Hrest. split_and!.
  - destruct (requests_exact s Hm Hn Hr) as [-> _]. apply rest_counts; [|done]. intros t. unfold at_rest, counted_task. by destruct (tk_pc t).
  - apply map_eq. intros ip. destruct (slots_exact s ip Hip Hr) as [_ ->]. rewrite rest_counts; [done| |done].
    intros t. unfold at_rest, slot_of, guard_of. by destruct (tk_pc t).
  - intros j l Hj. pose proof (sys_ok_reachable _ _ _ _ _ _ _ Hm Hr) as [_ _ Hts Hp]. destruct (Hp j l Hj) as [_ Hc].
    rewrite count_if_zero in Hc; [lia|]. apply Forall_lookup. intros i t Hi. specialize (Hrest i t Hi).
    pose proof (Forall_lookup_1 _ _ _ _ Hts Hi) as Hok. unfold at_rest, holds_permit in Hrest. unfold task_ok in Hok. unfold permit_of.
    destruct (tk_of t); [|done..]. destruct (tk_pc t); try done; [rewrite Hok; apply andb_false_r|].
    apply negb_true_iff in Hrest. rewrite Hrest. apply andb_false_r.
Qed.

(** ** Theorems *)

(** C13: the limits are shared by all listeners and hold in every order of the accesses of
    their tasks, whatever TCP connections, QUIC connections and HTTP/3 streams arrive: the
    permits of every PROXY semaphore are those its tasks do not hold, the table of
    addresses counts exactly the connections of an address from before their TLS handshake
    on and never more than [max_clients_per_ip], the request counter is the number of
    tasks between their increment and their decrement, and at most [max_clients] are
    served. *)
Theorem connection_limits_hold s ip :
  0 <= max_clients -> 0 < max_ip -> Z.of_nat (length ks) < usize_max -> rtc cstep start s ->
  (forall j l, sy_listeners s !! j = Some l ->
     0 <= tl_permits l /\ tl_permits l + holders (permit_of j) s = max_clients) /\
  holders (slot_of ip) s <= max_ip /\
  inner (sy_per_ip s) !! ip = (let n := holders (slot_of ip) s in if n =? 0 then None else Some n) /\
  sy_requests s = holders counted_task s /\
  holders served_task s <= max_clients.
Proof.
  intros Hm Hip Hn Hr. pose proof (sys_ok_reachable _ _ _ _ _ _ _ Hm Hr) as [_ _ _ Hp].
  destruct (slots_exact s ip Hip Hr), (requests_exact s Hm Hn Hr). by split_and!.
Qed.

(** C17: the tasks refine the counters and the listeners: what the tasks do to the request
    counter and to the table of addresses is a run of each counter on its own, and a TCP
    connection that is being served holds the slot of the very address it is served for
    and is served with the address and the server name that the listener's function gives
    for it, given the permit and the slot. *)
Theorem connections_refine_parts s :
  0 <= max_clients -> rtc cstep start s ->
  (exists r q, rtc (Requests.step max_clients) (Requests.sys_init (length ks)) r /\
     rtc PerIp.step (PerIp.sys_init max_ip) q /\ parts s r q) /\
  (forall i t j c g w, sy_tasks s !! i = Some t -> tk_of t = TcpConnection j c -> tk_pc t = Active g w ->
     exists sv, w = Some sv /\ state g = (if max_ip =? 0 then None else Some (sa_ip (sv_addr sv))) /\
       served_as pp_config acme listeners j c (tk_crypto t) sv).
Proof.
  intros Hm Hr. split; [by apply parts_reachable in Hr|]. intros i t j c g w Hi Ht Hpc.
  pose proof (sys_ok_reachable _ _ _ _ _ _ _ Hm Hr) as [_ _ Hts _]. pose proof (Forall_lookup_1 _ _ _ _ Hts Hi) as Hok.
  unfold task_ok, working in Hok. by rewrite Hpc, Ht in Hok.
Qed.

(** C18: no slot is lost: from every state that can be reached the tasks that have begun can
    all be brought to their end, and then every semaphore has its [max_clients] permits
    again, the table of addresses is empty and the request counter is 0. *)
Theorem connections_release_everything s :
  0 <= max_clients -> 0 < max_ip -> Z.of_nat (length ks) < usize_max -> Forall homed ks -> rtc cstep start s ->
  exists s', rtc cstep s s' /\ (forall i t, sy_tasks s' !! i = Some t -> at_rest t = true) /\
    sy_requests s' = 0 /\ inner (sy_per_ip s') = ∅ /\
    forall j l, sy_listeners s' !! j = Some l -> tl_permits l = max_clients.
Proof.
  intros Hm Hip Hn Hh Hr. pose proof (sys_ok_reachable _ _ _ _ _ _ _ Hm Hr) as Hs.
  destruct (finish_upto (length (sy_tasks s)) s Hs) as (s' & Hr' & _ & _ & Hl & Hrest); [by rewrite start_homed|].
  assert (forall i t, sy_tasks s' !! i = Some t -> at_rest t = true) as Hall.
  { intros i t Hi. apply (Hrest i); [|done]. rewrite <- Hl. by eapply lookup_lt_Some. }
  exists s'. split; [done|]. split; [done|]. apply rest_released; try done. by etrans.
Qed.
End limits.

(** ** Upgraded connections *)

Section tunnels.
Context `{IpNetApi} `{PppApi} `{TlsApi} `{!HandshakeApi}.
Context (acme : list (str * ServerConfig)) (max_clients max_ip : Z) (c : TcpConn).

#[local] Notation cstep := (cstep None acme max_clients).
#[local] Notation sys_step := (sys_step None acme max_clients).

Definition quiet (ts : list Task) : Sys :=
  {| sy_per_ip := PerIpConnectionCount_new max_ip; sy_requests := 0; sy_listeners := [listener_start max_clients false];
     sy_tasks := ts |}.

(** A connection that was upgraded, after its service has ended. *)
Definition tunnelled : Task :=
  {| tk_of := TcpConnection 0 c; tk_pc := Gone; tk_crypto := []; tk_permit := false; tk_tunnel := true |}.

(** One connection is accepted, served, upgraded and released. *)
Definition upgrade_events (i : nat) : list ConnEvent :=
  [Steps i; Steps i; Steps i; Ends i true; Steps i; Steps i; Steps i].

Lemma acquire_alone ip : 0 < max_ip ->
  try_acquire (PerIpConnectionCount_new max_ip) ip = ({| inner := {[ip := 1]}; max_per_ip := max_ip |}, Some {| state := Some ip |}).
Proof.
  intros Hm. unfold try_acquire, entry_or_insert. cbn. destruct (Z.eqb_spec max_ip 0); [lia|]. rewrite lookup_empty.
  destruct (Z.leb_spec max_ip 0); [lia|]. by rewrite insert_insert_eq.
Qed.

Lemma drop_alone ip : drop_guard {| inner := {[ip := 1]}; max_per_ip := max_ip |} {| state := Some ip |} = PerIpConnectionCount_new max_ip.
Proof. unfold drop_guard. cbn. rewrite lookup_singleton_eq. cbn. unfold PerIpConnectionCount_new. f_equal. apply delete_singleton_eq. Qed.

(** The state with one task at a program point. *)
Definition busy (ts : list Task) (i : nat) (p : PerIpConnectionCount) (n : Z) (pc : Pc) (tunnel : bool) : Sys :=
  {| sy_per_ip := p; sy_requests := n; sy_listeners := [listener_start max_clients false];
     sy_tasks := <[i := {| tk_of := TcpConnection 0 c; tk_pc := pc; tk_crypto := []; tk_permit := false; tk_tunnel := tunnel |}]> ts |}.

#[local] Ltac busy_step :=
  unfold busy; cbn -[try_acquire drop_guard wrap_usize]; rewrite list_lookup_insert_eq by done; cbn -[try_acquire drop_guard wrap_usize];
  unfold reserve_step, with_task; cbn -[try_acquire drop_guard wrap_usize].

Definition guard_for : PerIpConnectionGuard := {| state := Some (sa_ip (tc_peer c)) |}.
Definition one_slot : PerIpConnectionCount := {| inner := {[sa_ip (tc_peer c) := 1]}; max_per_ip := max_ip |}.
Definition serve_peer : Serve :=
  {| sv_client := tc_client c; sv_addr := tc_peer c; sv_tls_server_name := None; sv_h3 := false |}.

Lemma upgrade_run ts i :
  0 < max_clients -> 0 < max_ip -> ts !! i = Some (task_start (TcpConnection 0 c)) ->
  run_events sys_step (quiet ts) (upgrade_events i) = Some (quiet (<[i := tunnelled]> ts)).
Proof.
  intros Hm Hip Hi. assert (i < length ts)%nat by (by eapply lookup_lt_Some).
  assert (sys_step (quiet ts) (Steps i) = Some (busy ts i (PerIpConnectionCount_new max_ip) 0 (Reserving (tc_peer c)) false)) as E1.
  { cbn. by rewrite Hi. }
  assert (sys_step (busy ts i (PerIpConnectionCount_new max_ip) 0 (Reserving (tc_peer c)) false) (Steps i) =
    Some (busy ts i one_slot 0 (Admitting guard_for (Some serve_peer)) false)) as E2.
  { busy_step. rewrite acquire_alone by done. cbn. by rewrite list_insert_insert_eq. }
  assert (sys_step (busy ts i one_slot 0 (Admitting guard_for (Some serve_peer)) false) (Steps i) =
    Some (busy ts i one_slot 1 (Active guard_for (Some serve_peer)) false)) as E3.
  { busy_step. unfold admitted. destruct (Z.leb_spec max_clients 0); [lia|]. by rewrite list_insert_insert_eq. }
  assert (sys_step (busy ts i one_slot 1 (Active guard_for (Some serve_peer)) false) (Ends i true) =
    Some (busy ts i one_slot 1 (Finishing guard_for Requests.DecLoad) true)) as E4.
  { busy_step. by rewrite list_insert_insert_eq. }
  assert (sys_step (busy ts i one_slot 1 (Finishing guard_for Requests.DecLoad) true) (Steps i) =
    Some (busy ts i one_slot 1 (Finishing guard_for (Requests.DecCas 1)) true)) as E5.
  { busy_step. by rewrite list_insert_insert_eq. }
  assert (sys_step (busy ts i one_slot 1 (Finishing guard_for (Requests.DecCas 1)) true) (Steps i) =
    Some (busy ts i one_slot 0 (Dropping guard_for) true)) as E6.
  { busy_step. by rewrite list_insert_insert_eq. }
  assert (sys_step (busy ts i one_slot 0 (Dropping guard_for) true) (Steps i) = Some (quiet (<[i := tunnelled]> ts))) as E7.
  { busy_step. unfold one_slot, guard_for. rewrite drop_alone. by rewrite list_insert_insert_eq. }
  unfold run_events, upgrade_events. cbn [foldl mbind option_bind].
  do 7 (first [rewrite E1|rewrite E2|rewrite E3|rewrite E4|rewrite E5|rewrite E6|rewrite E7]; cbn [mbind option_bind]). done.
Qed.

(** [m] connections have been upgraded, [k] have not arrived. *)
Lemma upgrade_all m k :
  0 < max_clients -> 0 < max_ip ->
  rtc cstep (quiet (replicate m tunnelled ++ replicate k (task_start (TcpConnection 0 c)))) (quiet (replicate (m + k) tunnelled)).
Proof.
  intros Hm Hip. revert m. induction k as [|k IH]; intros m; [rewrite app_nil_r, Nat.add_0_r; apply rtc_refl|].
  etrans; [|replace (m + S k)%nat with (S m + k)%nat by lia; apply IH].
  eapply (run_events_rtc sys_step (upgrade_events m)). rewrite (upgrade_run _ m Hm Hip).
  - do 2 f_equal. rewrite insert_app_r_alt by (rewrite length_replicate; lia). rewrite length_replicate, Nat.sub_diag. cbn [replicate insert list_insert].
    change (tunnelled :: replicate m tunnelled) with (replicate (S m) tunnelled). by rewrite replicate_S_end, <- app_assoc.
  - rewrite lookup_app_r by (rewrite length_replicate; lia). by rewrite length_replicate, Nat.sub_diag.
Qed.

(** C27: an upgraded connection leaves the limits while it lives: whatever [max_clients] and
    [max_clients_per_ip] are, any number of connections of one client can be upgraded and
    open at the same time, with the request counter at 0, no entry in the table of
    addresses and room for the next one. *)
Theorem upgraded_connections_uncounted n :
  0 < max_clients -> 0 < max_ip ->
  exists s, rtc cstep (sys_start max_clients max_ip [false] (replicate n (TcpConnection 0 c))) s /\
    holders tk_tunnel s = Z.of_nat n /\ sy_requests s = 0 /\ inner (sy_per_ip s) = ∅.
Proof.
  intros Hm Hip. exists (quiet (replicate n tunnelled)). split_and!; [|unfold holders; cbn|done|done].
  - pose proof (upgrade_all 0 n Hm Hip) as Hr. cbn in Hr. unfold quiet, sys_start in *. cbn.
    change (map task_start) with (fmap (M := list) task_start). by rewrite fmap_replicate.
  - induction n as [|n IH]; [done|]. cbn [replicate count_if]. rewrite IH. cbn. lia.
Qed.
End tunnels.

(** ** Witnesses *)

Module ConnExamples.
#[local] Existing Instance Alist.net_api.
#[local] Existing Instance toy_tls.
#[local] Existing Instance ListenerExamples.toy_handshake.
#[local] Existing Instance PpExamples.toy_ppp.

(** A connection behind a load balancer that speaks the PROXY protocol. *)
Definition conn : TcpConn := {|
  tc_peer := PpExamples.peer; tc_stream := PpExamples.stream; tc_peeks := [Ok (B "PRO"); Ok (B "PROXY TCP4 198.5")];
  tc_header_in_time := true; tc_permit := false; tc_try_acquire _ := false; tc_hello := None; tc_client := None;
  tc_handshake_in_time := true |}.

Definition client : IpAddr := V4 198 51 100 7.

(** Two connections of the client and one over QUIC with a request; one slot per address. *)
Definition tasks : list TaskOf :=
  [TcpConnection 0 conn; TcpConnection 0 conn; QuicConnection {| sa_ip := V4 203 0 113 9; sa_port := 5 |}; H3Stream 2].

Definition events : list ConnEvent :=
  [Steps 0; Steps 1; Steps 0; Steps 0; Steps 2; Steps 1; Steps 2; Steps 1; Steps 0; Steps 3; Steps 3; PermitDropped 1].

Definition busy_start : Sys := sys_start 2 1 [false] tasks.
Definition busy_run : option Sys := run_events (sys_step (Some PpExamples.trusted) [] 2) busy_start events.
Definition busy_now : Sys := default busy_start busy_run.

Lemma busy_reachable : rtc (cstep (Some PpExamples.trusted) [] 2) busy_start busy_now.
Proof.
  apply (run_events_rtc (sys_step (Some PpExamples.trusted) [] 2) events). change (busy_run = Some busy_now).
  unfold busy_now. assert (bool_decide (is_Some busy_run) = true) as [s ->]%bool_decide_eq_true by (vm_compute; reflexivity). done.
Qed.

Lemma connection_limits_hold_witness :
  count_if (slot_of client) (sy_tasks busy_now) <= 1 /\ inner (sy_per_ip busy_now) !! client = Some 1 /\
  sy_requests busy_now = 2 /\ count_if served_task (sy_tasks busy_now) <= 2.
Proof.
  destruct (connection_limits_hold (Some PpExamples.trusted) [] 2 1 [false] tasks busy_now client)
    as (_ & H1 & H2 & H3 & H4); [lia|lia|reflexivity|apply busy_reachable|].
  split; [exact H1|]. split; [rewrite H2; vm_compute; reflexivity|]. split; [rewrite H3; vm_compute; reflexivity|exact H4].
Defined.

Lemma connections_refine_parts_witness :
  exists r, rtc (Requests.step 2) (Requests.sys_init 4) r /\ Requests.count r = sy_requests busy_now.
Proof.
  destruct (connections_refine_parts (Some PpExamples.trusted) [] 2 1 [false] tasks busy_now) as [(r & q & Hr & _ & Hp) _];
    [lia|apply busy_reachable|]. exists r. split; [exact Hr|exact (parts_count _ _ _ Hp)].
Defined.

Lemma connections_release_everything_witness :
  exists s', rtc (cstep (Some PpExamples.trusted) [] 2) busy_now s' /\ sy_requests s' = 0 /\ inner (sy_per_ip s') = ∅.
Proof.
  destruct (connections_release_everything (Some PpExamples.trusted) [] 2 1 [false] tasks busy_now)
    as (s' & Hr & _ & H1 & H2 & _); [lia|lia|reflexivity| |apply busy_reachable|].
  { repeat (apply Forall_cons_2; [first [exact I|by eexists]|]). apply Forall_nil_2. }
  exists s'. split; [exact Hr|]. split; [exact H1|exact H2].
Defined.

Lemma upgraded_connections_uncounted_witness :
  exists s, rtc (cstep None [] 1) (sys_start 1 1 [false] (replicate 3 (TcpConnection 0 conn))) s /\
    count_if tk_tunnel (sy_tasks s) = 3 /\ sy_requests s = 0.
Proof.
  destruct (upgraded_connections_uncounted [] 1 1 conn 3) as (s & Hr & H1 & H2 & _); [lia|lia|].
  exists s. split; [exact Hr|]. split; [exact H1|exact H2].
Defined.
End ConnExamples.
