(* ===== verification/H3Serve.v ===== *)
(** * HTTP/3 connections ([proxy/proxy_h3.rs])

    The accept loops of all HTTP/3 connections over the shared counters, one event at a
    time, and the relay of a response onto its stream. The interleaving inside the
    counters' operations is in [Count]; here each is one step. What the [h3] crate
    yields (connections, requests, whether an operation on a stream succeeds) is the
    input. *)

From S2P Require Import Prelude RustStr RustNet Count Body.
Import PerIp.

(** ** The accept loop *)

(** What [accept] yields; a request is resolved or not. *)
Inductive Accepted :=
| NoMore
| AcceptFailed
| Incoming (resolved : bool).

(** The counters, the guards of the open connections, and the live request streams. *)
Record H3World := {
  h_slots : PerIpConnectionCount;
  h_count : Z;
  h_open : list PerIpConnectionGuard;
  h_streams : nat
}.

Definition h3_start (max_per_ip : Z) : H3World :=
  {| h_slots := PerIpConnectionCount_new max_per_ip; h_count := 0; h_open := []; h_streams := 0 |}.

(** The head of [h3_serve_connection], up to the loop. *)
Definition h3_connect (ip : IpAddr) (established : bool) (w : H3World) : H3World :=
  match try_acquire (h_slots w) ip with
  | (slots, None) =>
      {| h_slots := slots; h_count := h_count w; h_open := h_open w; h_streams := h_streams w |}
  | (slots, Some g) =>
      if established
      then {| h_slots := slots; h_count := h_count w; h_open := g :: h_open w; h_streams := h_streams w |}
      else {| h_slots := drop_guard slots g; h_count := h_count w; h_open := h_open w; h_streams := h_streams w |}
  end.

(** The end of a connection drops its guard. *)
Definition h3_close (i : nat) (g : PerIpConnectionGuard) (w : H3World) : H3World :=
  {| h_slots := drop_guard (h_slots w) g; h_count := h_count w; h_open := delete i (h_open w);
     h_streams := h_streams w |}.

Definition with_count (c : Z) (n : nat) (w : H3World) : H3World :=
  {| h_slots := h_slots w; h_count := c; h_open := h_open w; h_streams := n |}.

(** One turn of the loop of the [i]th open connection. *)
Definition h3_accept (max_clients : Z) (i : nat) (a : Accepted) (w : H3World) : H3World :=
  match h_open w !! i with
  | None => w
  | Some g =>
      match a with
      | NoMore | AcceptFailed => h3_close i g w
      | Incoming false => w
      | Incoming true =>
          let '(c, old) := Requests.increment (h_count w) in
          if max_clients <=? old
          then h3_close i g (with_count (fst (Requests.decrement c)) (h_streams w) w)
          else with_count c (S (h_streams w)) w
      end
  end.

(** A stream task ends, with whatever result. *)
Definition h3_stream_done (w : H3World) : H3World :=
  match h_streams w with
  | O => w
  | S n => with_count (fst (Requests.decrement (h_count w))) n w
  end.

Inductive H3Event :=
| Connects (ip : IpAddr) (established : bool)
| Accepts (i : nat) (a : Accepted)
| StreamDone.

Definition h3_step (max_clients : Z) (w : H3World) (e : H3Event) : H3World :=
  match e with
  | Connects ip established => h3_connect ip established w
  | Accepts i a => h3_accept max_clients i a w
  | StreamDone => h3_stream_done w
  end.

Definition h3_run (max_clients : Z) (w : H3World) (es : list H3Event) : H3World := foldl (h3_step max_clients) w es.

(** ** The response on its stream *)

(** The operations on the sending half. *)
Inductive StreamOp :=
| SendResponse
| SendData (d : str)
| SendTrailers (t : list (str * str))
| Finish.

(** What the stream is told, and whether the function returned without error. The [n]th
    operation succeeds if [ok n]. *)
Definition finish (ok : nat -> bool) (n : nat) : list StreamOp * bool := ([Finish], ok n).

Fixpoint relay_frames (ok : nat -> bool) (n : nat) (frames : list (result () Frame)) : list StreamOp * bool :=
  match frames with
  | [] => finish ok n
  | Err _ :: _ => ([], false)
  | Ok f :: r =>
      let op := match f with Data d => SendData d | Trailers t => SendTrailers t end in
      if ok n then let '(ops, res) := relay_frames ok (S n) r in (op :: ops, res)
      else ([op], false)
  end.

(** From the answer of the message handler on; an error of the handler is returned. *)
Definition h3_serve_stream (ok : nat -> bool) (res : result () (list (result () Frame))) : list StreamOp * bool :=
  match res with
  | Err _ => ([], false)
  | Ok frames =>
      let '(ops, r) := if ok 0%nat then relay_frames ok 1 frames else finish ok 1 in
      (SendResponse :: ops, r)
  end.

(** ** The counters *)

Definition as_slots (w : H3World) : sys := {| counter := h_slots w; guards := h_open w |}.

(** The slots of a connection that is accepted and not established come and go. *)
Lemma connect_slots ip b w : rtc step (as_slots w) (as_slots (h3_connect ip b w)).
Proof.
  unfold h3_connect. destruct (try_acquire (h_slots w) ip) as [slots [g|]] eqn:E.
  - assert (step (as_slots w) {| counter := slots; guards := g :: h_open w |}) as Hs by (by eapply step_acquired).
    destruct b; [by apply rtc_once|]. eapply rtc_l; [exact Hs|]. apply rtc_once.
    exact (step_drop {| counter := slots; guards := g :: h_open w |} 0 g eq_refl).
  - apply rtc_once. by eapply step_refused.
Qed.

Lemma close_slots i g w :
  h_open w !! i = Some g -> rtc step (as_slots w) (as_slots (h3_close i g w)).
Proof. intros Hg. apply rtc_once. exact (step_drop (as_slots w) i g Hg). Qed.

Lemma step_slots max w e : rtc step (as_slots w) (as_slots (h3_step max w e)).
Proof.
  destruct e as [ip b|i a|]; cbn [h3_step].
  - apply connect_slots.
  - unfold h3_accept. destruct (h_open w !! i) as [g|] eqn:Eg; [|done].
    destruct a as [| |[]]; [by apply close_slots..| |done].
    destruct (Requests.increment (h_count w)) as [c old]. case_match; [|done].
    by apply (close_slots i g (with_count _ _ w)).
  - unfold h3_stream_done. by destruct (h_streams w).
Qed.

Lemma run_slots max w es : rtc step (as_slots w) (as_slots (h3_run max w es)).
Proof.
  revert w. induction es as [|e es IH]; intros w; [done|]. etrans; [apply (step_slots max w e)|]. apply IH.
Qed.

(** The counter is the number of live streams, which stays within the limit. *)
Definition counted (max : Z) (w : H3World) : Prop :=
  h_count w = Z.of_nat (h_streams w) /\ h_count w <= max.

Lemma increment_small c : 0 <= c < usize_max -> Requests.increment c = (c + 1, c).
Proof. intros Hc. unfold Requests.increment. by rewrite wrap_usize_small by lia. Qed.

Lemma decrement_pos c : 0 < c -> fst (Requests.decrement c) = c - 1.
Proof. intros Hc. rewrite Requests.decrement_alone by lia. cbn. unfold saturating_sub. lia. Qed.

Lemma step_counted max w e : 0 <= max < usize_max -> counted max w -> counted max (h3_step max w e).
Proof.
  intros Hm [Hc Hle]. destruct e as [ip b|i a|]; cbn [h3_step].
  - unfold h3_connect. destruct (try_acquire _ _) as [slots [g|]]; [destruct b|]; done.
  - unfold h3_accept. destruct (h_open w !! i) as [g|]; [|done]. destruct a as [| |[]]; try done.
    rewrite increment_small by lia. unfold counted, h3_close, with_count. case_match; cbn [h_count h_streams h_slots h_open]; [rewrite decrement_pos by lia|]; lia.
  - unfold h3_stream_done. destruct (h_streams w) as [|n] eqn:E; [unfold counted; rewrite E; lia|].
    unfold counted, with_count. cbn [h_count h_streams]. rewrite decrement_pos by lia. lia.
Qed.

Lemma run_counted max w es : 0 <= max < usize_max -> counted max w -> counted max (h3_run max w es).
Proof.
  intros Hm. revert w. induction es as [|e es IH]; intros w Hw; [done|]. by apply IH, step_counted.
Qed.

(** ** Theorems *)

(** The shared limits hold across HTTP/3 connections, however connections, requests
    and stream ends are ordered: the request counter is the number of streams being
    served and never exceeds [max_clients], the table of addresses holds exactly the open
    connections of every address, and no address has more than [max_per_ip]. *)
Theorem h3_limits_exact max_clients max_per_ip es ip :
  0 <= max_clients < usize_max -> 0 < max_per_ip ->
  let w := h3_run max_clients (h3_start max_per_ip) es in
  h_count w = Z.of_nat (h_streams w) /\ h_count w <= max_clients /\
  count_if (holds ip) (h_open w) <= max_per_ip /\
  inner (h_slots w) !! ip =
    (let n := count_if (holds ip) (h_open w) in if n =? 0 then None else Some n).
Proof.
  intros Hc Hp w. destruct (run_counted max_clients (h3_start max_per_ip) es Hc) as [H1 H2]; [split; cbn; lia|].
  destruct (slots_inv_reachable max_per_ip (as_slots w) Hp (run_slots max_clients (h3_start max_per_ip) es))
    as [_ Hmap Hcap].
  split_and!; [done|done|apply (Hcap ip)|apply (Hmap ip)].
Qed.

Definition op_of (f : Frame) : StreamOp := match f with Data d => SendData d | Trailers t => SendTrailers t end.

Lemma relay_all ok n frames :
  (forall k, ok k = true) -> relay_frames ok n (map Ok frames) = (map op_of frames ++ [Finish], true).
Proof.
  intros Hok. revert n. induction frames as [|f r IH]; intros n; cbn; unfold finish; rewrite Hok; [done|]. by rewrite IH.
Qed.

(** The end is only told after every frame. *)
Lemma relay_finish ok n frames :
  Finish ∈ fst (relay_frames ok n frames) ->
  exists fs, frames = map Ok fs /\ fst (relay_frames ok n frames) = map op_of fs ++ [Finish].
Proof.
  revert n. induction frames as [|[f|[]] r IH]; intros n.
  - intros _. by exists [].
  - cbn. destruct (ok n); [|intros H%list_elem_of_singleton; by destruct f].
    specialize (IH (S n)). destruct (relay_frames ok (S n) r) as [ops res]. cbn in *.
    intros [H|H]%elem_of_cons; [by destruct f|]. destruct (IH H) as (fs & -> & ->). by exists (f :: fs).
  - by intros H%elem_of_nil.
Qed.

(** A response is relayed onto its HTTP/3 stream frame by frame: with no failure the
    stream is told the head, every frame in order and the end; and once the head went
    out, the end is told only after every frame of a body that did not fail, so that a
    response that breaks off is never passed on as a complete one. *)
Theorem h3_response_relayed ok res :
  (forall frames, res = Ok (map Ok frames) -> (forall k, ok k = true) ->
     h3_serve_stream ok res = (SendResponse :: map op_of frames ++ [Finish], true)) /\
  (ok 0%nat = true -> Finish ∈ fst (h3_serve_stream ok res) ->
     exists frames, res = Ok (map Ok frames) /\
       fst (h3_serve_stream ok res) = SendResponse :: map op_of frames ++ [Finish]).
Proof.
  split.
  - intros frames -> Hok. cbn. by rewrite Hok, relay_all.
  - intros Hok. destruct res as [frames|[]]; cbn; [|by intros H%elem_of_nil]. rewrite Hok.
    pose proof (relay_finish ok 1 frames) as H. destruct (relay_frames ok 1 frames) as [ops r]. cbn in *.
    intros [|Hf]%elem_of_cons; [done|]. destruct (H Hf) as (fs & -> & ->). by exists fs.
Qed.

(** ** Witnesses *)

Module H3Examples.

Definition ip1 : IpAddr := V4 192 0 2 1.

(** Two connections of one address with room for one; three requests with room for two. *)
Definition busy : list H3Event :=
  [Connects ip1 true; Connects ip1 true; Accepts 0 (Incoming true); Accepts 0 (Incoming false);
   Accepts 0 (Incoming true); Accepts 0 (Incoming true); StreamDone].

Lemma h3_limits_exact_witness :
  h_count (h3_run 2 (h3_start 1) busy) <= 2 /\ count_if (holds ip1) (h_open (h3_run 2 (h3_start 1) busy)) <= 1 /\
  h_count (h3_run 2 (h3_start 1) busy) = 1 /\ h_open (h3_run 2 (h3_start 1) busy) = [] /\
  length (h_open (h3_run 2 (h3_start 1) (take 5 busy))) = 1%nat.
Proof.
  split; [apply (h3_limits_exact 2 1 busy ip1); unfold usize_max; lia|].
  split; [apply (h3_limits_exact 2 1 busy ip1); unfold usize_max; lia|].
  split_and!; vm_compute; reflexivity.
Defined.

Lemma h3_response_relayed_witness :
  h3_serve_stream (fun _ => true) (Ok (map Ok [Data (B "a"); Trailers []]))
    = ([SendResponse; SendData (B "a"); SendTrailers []; Finish], true) /\
  h3_serve_stream (fun _ => true) (Ok [Ok (Data (B "a")); Err ()]) = ([SendResponse; SendData (B "a")], false).
Proof.
  split; [|reflexivity]. destruct (h3_response_relayed (fun _ => true) (Ok (map Ok [Data (B "a"); Trailers []]))) as [H _].
  exact (H [Data (B "a"); Trailers []] eq_refl (fun _ => eq_refl)).
Defined.

End H3Examples.
