(* ===== verification/Supervise.v ===== *)
(** * Tasks of a service ([lib.rs], [backend/health_check/checker.rs], [proxy/proxy_main.rs],
      [rpxy-bin/src/main.rs])

    Which health checker tasks a service starts, how [entrypoint] supervises them together
    with the listener tasks, and how [start_inner] joins the entry point with the
    certificate and ACME tasks: the tasks, their handles, the cancellation tokens and the
    waiting loops as a step relation over every order of events. A task whose handle is
    dropped goes on, as it does in tokio. What a listener or a reloader returns, and that a
    task panics, are events. *)

From S2P Require Import Prelude RustStr RustNet HttpIface Globals HealthCheck StickyCookie.
From S2P Require Import NameExp LoadBalance Backend BalanceProps CryptoInstance RouteProps Listener.

(** ** Health checkers to start *)

Section spawn.
Context `{HttpApi} `{CryptoApi}.

Definition is_http_check (c : HealthCheckConfig) : bool :=
  match check_type c with Http _ _ => true | Tcp => false end.

Definition has_http_health_check (app_manager : BackendAppManager) : bool :=
  existsb (fun '(_, backend_app) =>
    existsb (fun '(_, candidates) =>
      match uc_health_check_config candidates with Some c => is_http_check c | None => false end)
      (iter_candidates (path_manager backend_app))) (apps app_manager).

(** The arguments of a checker task; [ck_http_client] is whether it was given the client. *)
Record Checker := {
  ck_server_name : ServerName;
  ck_path : PathName;
  ck_upstreams : list (Uri * UpstreamHealth);
  ck_config : HealthCheckConfig;
  ck_http_client : bool
}.

Definition health_upstreams (candidates : UpstreamCandidates) : list (Uri * UpstreamHealth) :=
  omap (M := list) (fun upstream => (fun h => (u_uri upstream, h)) <$> u_health upstream) (uc_inner candidates).

Definition checker_of (http_client : bool) (server_name : ServerName) (path : PathName) (candidates : UpstreamCandidates)
    : option Checker :=
  match health_upstreams candidates with
  | [] => None
  | upstreams =>
      match uc_health_check_config candidates with
      | None => None
      | Some config =>
          Some {| ck_server_name := server_name; ck_path := path; ck_upstreams := upstreams; ck_config := config;
                  ck_http_client := if is_http_check config then http_client else false |}
      end
  end.

(** [client_ok] is whether the HTTP client can be built. *)
Definition spawn_health_checkers (client_ok : bool) (app_manager : BackendAppManager) : result () (list Checker) :=
  http_client ←
    (if has_http_health_check app_manager then if client_ok then Ok true else Err () else Ok false : result () bool);
  Ok (concat (map (fun '(_, backend_app) =>
    omap (M := list) (fun '(path, candidates) => checker_of http_client (ba_server_name backend_app) path candidates)
      (iter_candidates (path_manager backend_app))) (apps app_manager))).
End spawn.

(** ** Supervision *)

(** How a task ends. *)
Inductive Outcome := Done | Failed | Panicked.

Definition task_ok (o : Outcome) : bool := match o with Done => true | _ => false end.

Inductive TaskKind := HealthTask | ProxyTask (service : Service).

(** What [start] returns when the listener of the service has exited. The TLS and the QUIC
    listener run in a task of their own, whose result is dropped. *)
Definition start_outcome (service : Service) (listener_ok : bool) : Outcome :=
  match service with
  | StartWithoutTls => if listener_ok then Done else Failed
  | StartWithTls | StartWithQuic => Done
  end.

(** What the listener of [start_without_tls] returns, if it does: an error when the socket
    cannot be bound or put to listen, and none at the first [accept] that fails, where the
    loop ends. [tls_listener_service] goes on after such an error. *)
Fixpoint accept_loop (tls : bool) (accepts : list bool) : option bool :=
  match accepts with
  | [] => None
  | true :: accepts => accept_loop tls accepts
  | false :: accepts => if tls then accept_loop tls accepts else Some true
  end.

Definition tcp_listener (tls bound listening : bool) (accepts : list bool) : option bool :=
  if bound && listening then accept_loop tls accepts else Some false.

(** A task runs, has ended, or has ended and been seen by the waiting loop. *)
Inductive TaskState := Running | Ended (o : Outcome) | Collected (o : Outcome).

(** The listener of a proxy task: not started, listening, or down, with what it returned. *)
Inductive ListenerState := Idle | Listening | Down (ok : bool).

Record Task := { t_kind : TaskKind; t_state : TaskState; t_listener : ListenerState }.

(** The TLS and the QUIC listener run in a task that the proxy task spawns and waits for. *)
Definition own_task (k : TaskKind) : bool :=
  match k with ProxyTask StartWithTls | ProxyTask StartWithQuic => true | _ => false end.

Definition running (t : Task) : bool := match t_state t with Running => true | _ => false end.

Definition collected (t : Task) : bool := match t_state t with Collected _ => true | _ => false end.

Definition listening (t : Task) : bool := match t_listener t with Listening => true | _ => false end.

Definition with_state (t : Task) (st : TaskState) : Task :=
  {| t_kind := t_kind t; t_state := st; t_listener := t_listener t |}.

Definition with_listener (t : Task) (l : ListenerState) : Task :=
  {| t_kind := t_kind t; t_state := t_state t; t_listener := l |}.

(** A task that ends drops what it holds: the listener of [start_without_tls], which it ran
    itself, or the handle of the spawned task, which is then detached and goes on. *)
Definition end_task (t : Task) (o : Outcome) : Task :=
  {| t_kind := t_kind t; t_state := Ended o; t_listener := if own_task (t_kind t) then t_listener t else Down true |}.

Inductive Waiter :=
| Waiting
| Draining (first_error : nat)
| Returned (first_error : option nat).

Record Supervisor := {
  sp_tasks : list Task;
  sp_cancelled : bool;
  sp_waiter : Waiter
}.

Definition supervise_start (kinds : list TaskKind) : Supervisor :=
  {| sp_tasks := map (fun k => {| t_kind := k; t_state := Running; t_listener := Idle |}) kinds;
     sp_cancelled := false; sp_waiter := Waiting |}.

Definition set_task (s : Supervisor) (i : nat) (t : Task) (cancel : bool) : Supervisor :=
  {| sp_tasks := <[i := t]> (sp_tasks s); sp_cancelled := sp_cancelled s || cancel; sp_waiter := sp_waiter s |}.

Inductive SEvent :=
| Cancelled                          (* from outside: a reload or the end of the process *)
| Starts (i : nat)                   (* a proxy task enters [start] *)
| Notices (i : nat)                  (* a task takes its cancellation branch *)
| ListenerReturns (i : nat) (ok : bool)
| ListenerNotices (i : nat)          (* a spawned listener task takes its cancellation branch *)
| Joins (i : nat)                    (* a proxy task sees the end of the task it spawned *)
| TaskPanics (i : nat)
| Collects (i : nat)                 (* the waiting loop takes a finished task *)
| LoopEnds.                          (* no task is left *)

(** [None]: the event cannot happen in this state. The token of a spawned listener task is
    a child of the service's; cancelling it, as that task does when its listener returns,
    reaches nothing else. A spawned task that panics is as one that returns, as its result
    is dropped. *)
Definition supervise_step (s : Supervisor) (e : SEvent) : option Supervisor :=
  match e with
  | Cancelled => Some {| sp_tasks := sp_tasks s; sp_cancelled := true; sp_waiter := sp_waiter s |}
  | Starts i =>
      t ← sp_tasks s !! i;
      match t_kind t, t_state t, t_listener t with
      | ProxyTask _, Running, Idle => Some (set_task s i (with_listener t Listening) false)
      | _, _, _ => None
      end
  | Notices i =>
      t ← sp_tasks s !! i;
      if running t && sp_cancelled s then Some (set_task s i (end_task t Done) false) else None
  | ListenerReturns i ok =>
      t ← sp_tasks s !! i;
      match t_kind t, t_state t, t_listener t with
      | ProxyTask StartWithoutTls, Running, Listening =>
          Some (set_task s i (end_task t (start_outcome StartWithoutTls ok)) true)
      | ProxyTask StartWithTls, _, Listening | ProxyTask StartWithQuic, _, Listening =>
          Some (set_task s i (with_listener t (Down ok)) false)
      | _, _, _ => None
      end
  | ListenerNotices i =>
      t ← sp_tasks s !! i;
      if own_task (t_kind t) && listening t && sp_cancelled s
      then Some (set_task s i (with_listener t (Down true)) false) else None
  | Joins i =>
      t ← sp_tasks s !! i;
      match t_kind t, t_state t, t_listener t with
      | ProxyTask service, Running, Down ok =>
          if own_task (t_kind t) then Some (set_task s i (end_task t (start_outcome service ok)) true) else None
      | _, _, _ => None
      end
  | TaskPanics i =>
      t ← sp_tasks s !! i;
      if running t then Some (set_task s i (end_task t Panicked) false) else None
  | Collects i =>
      t ← sp_tasks s !! i;
      match t_state t, sp_waiter s with
      | Ended o, Waiting =>
          let s := set_task s i (with_state t (Collected o)) (negb (task_ok o)) in
          Some {| sp_tasks := sp_tasks s; sp_cancelled := sp_cancelled s;
                  sp_waiter := if task_ok o then Waiting else Draining i |}
      | Ended o, Draining _ => Some (set_task s i (with_state t (Collected o)) false)
      | _, _ => None
      end
  | LoopEnds =>
      if forallb collected (sp_tasks s) then
        match sp_waiter s with
        | Waiting => Some {| sp_tasks := sp_tasks s; sp_cancelled := sp_cancelled s; sp_waiter := Returned None |}
        | Draining i => Some {| sp_tasks := sp_tasks s; sp_cancelled := sp_cancelled s; sp_waiter := Returned (Some i) |}
        | Returned _ => None
        end
      else None
  end.

Definition sstep (s s' : Supervisor) : Prop := exists e, supervise_step s e = Some s'.

(** ** The service and its companions ([start_inner])

    The token given to [start_inner] is the parent of the entry point's and of the ACME
    manager tasks': cancelling the parent cancels the children, and not the other way
    round. Panics of the entry point and of the certificate task are left out. *)

Record Inner := {
  in_sup : Supervisor;
  in_entry : option bool;            (* the entry point's task: running, or whether it returned well *)
  in_parent_cancelled : bool;
  in_cert : option (option bool);    (* [None] without a certificate service *)
  in_acme : list (option bool);      (* the manager tasks: running, or whether they ended without a panic *)
  in_acme_handle : option (option bool);  (* the task that waits for the first of them, if any *)
  in_result : option bool
}.

(** [acme]: the number of manager tasks. Without a certificate service their handles are
    dropped at once. *)
Definition inner_start (kinds : list TaskKind) (cert : bool) (acme : nat) : Inner :=
  {| in_sup := supervise_start kinds; in_entry := None; in_parent_cancelled := false;
     in_cert := if cert then Some None else None; in_acme := repeat None acme;
     in_acme_handle := if cert && negb (acme =? 0)%nat then Some None else None;
     in_result := None |}.

Definition cancel_parent (s : Inner) : Inner :=
  {| in_sup := {| sp_tasks := sp_tasks (in_sup s); sp_cancelled := true; sp_waiter := sp_waiter (in_sup s) |};
     in_entry := in_entry s; in_parent_cancelled := true; in_cert := in_cert s; in_acme := in_acme s;
     in_acme_handle := in_acme_handle s; in_result := in_result s |}.

Definition with_sup (s : Inner) (sup : Supervisor) : Inner :=
  {| in_sup := sup; in_entry := in_entry s; in_parent_cancelled := in_parent_cancelled s; in_cert := in_cert s;
     in_acme := in_acme s; in_acme_handle := in_acme_handle s; in_result := in_result s |}.

Definition with_entry (s : Inner) (ok : bool) : Inner :=
  {| in_sup := in_sup s; in_entry := Some ok; in_parent_cancelled := in_parent_cancelled s; in_cert := in_cert s;
     in_acme := in_acme s; in_acme_handle := in_acme_handle s; in_result := in_result s |}.

Definition with_cert (s : Inner) (ok : bool) : Inner :=
  {| in_sup := in_sup s; in_entry := in_entry s; in_parent_cancelled := in_parent_cancelled s; in_cert := Some (Some ok);
     in_acme := in_acme s; in_acme_handle := in_acme_handle s; in_result := in_result s |}.

Definition with_acme (s : Inner) (i : nat) (ok : bool) : Inner :=
  {| in_sup := in_sup s; in_entry := in_entry s; in_parent_cancelled := in_parent_cancelled s; in_cert := in_cert s;
     in_acme := <[i := Some ok]> (in_acme s); in_acme_handle := in_acme_handle s; in_result := in_result s |}.

Definition with_acme_handle (s : Inner) (ok : bool) : Inner :=
  {| in_sup := in_sup s; in_entry := in_entry s; in_parent_cancelled := in_parent_cancelled s; in_cert := in_cert s;
     in_acme := in_acme s; in_acme_handle := Some (Some ok); in_result := in_result s |}.

Definition with_result (s : Inner) (ok : bool) : Inner :=
  {| in_sup := in_sup s; in_entry := in_entry s; in_parent_cancelled := in_parent_cancelled s; in_cert := in_cert s;
     in_acme := in_acme s; in_acme_handle := in_acme_handle s; in_result := Some ok |}.

Inductive IEvent :=
| ConfigChanges                      (* the caller cancels the parent token *)
| Supervises (e : SEvent)            (* an event of the entry point *)
| EntryReturns
| CertReturns (ok : bool)
| CertNotices
| AcmeEnds (i : nat) (ok : bool)     (* a manager task has no more events, or panics *)
| AcmeNotices (i : nat)              (* a manager task ends at the token *)
| AcmeJoins (i : nat)                (* [select_all] sees the end of a manager task *)
| InnerReturns.

(** What a companion that is waited for has returned. *)
Definition companion_result (c : option (option bool)) : option bool :=
  match c with None => Some true | Some r => r end.

(** [select_all] is over with the first manager task: the handles of the others are
    dropped. *)
Definition inner_step (s : Inner) (e : IEvent) : option Inner :=
  match e with
  | ConfigChanges => Some (cancel_parent s)
  | Supervises Cancelled => None
  | Supervises e => with_sup s <$> supervise_step (in_sup s) e
  | EntryReturns =>
      match sp_waiter (in_sup s), in_entry s with
      | Returned None, None => Some (with_entry s true)
      | Returned (Some _), None => Some (cancel_parent (with_entry s false))
      | _, _ => None
      end
  | CertReturns ok =>
      match in_cert s with Some None => Some (cancel_parent (with_cert s ok)) | _ => None end
  | CertNotices =>
      match in_cert s with
      | Some None => if in_parent_cancelled s then Some (with_cert s true) else None
      | _ => None
      end
  | AcmeEnds i ok =>
      match in_acme s !! i with Some None => Some (with_acme s i ok) | _ => None end
  | AcmeNotices i =>
      match in_acme s !! i with
      | Some None => if in_parent_cancelled s then Some (with_acme s i true) else None
      | _ => None
      end
  | AcmeJoins i =>
      match in_acme_handle s, in_acme s !! i with
      | Some None, Some (Some ok) => Some (cancel_parent (with_acme_handle s ok))
      | _, _ => None
      end
  | InnerReturns =>
      match in_result s, in_entry s, companion_result (in_cert s), companion_result (in_acme_handle s) with
      | None, Some rpxy, Some cert, Some acme => Some (with_result s (rpxy && cert && acme))
      | _, _, _, _ => None
      end
  end.

Definition istep (s s' : Inner) : Prop := exists e, inner_step s e = Some s'.

(** ** The checkers *)

Section spawn_lemmas.
Context `{HttpApi} `{CryptoApi}.

(** A route as built: its upstreams have a flag exactly if a check is configured. *)
Definition flags_match (c : UpstreamCandidates) : Prop :=
  forall u, u ∈ uc_inner c -> is_Some (u_health u) <-> is_Some (uc_health_check_config c).

Lemma built_flags_match cl m n a p c :
  BackendAppManager_try_from cl = Ok m -> (n, a) ∈ apps m -> (p, c) ∈ iter_candidates (path_manager a) -> flags_match c.
Proof.
  intros [(_ & Hel & _) _]%manager_inv Ha Hc. destruct (Hel n a Ha) as (_ & cfg & _ & Hb).
  unfold BackendApp_try_from in Hb. destruct (PathManager_try_from cfg) as [pm|] eqn:Ep; [|done].
  injection Hb as <-. apply try_from_inv in Ep as [(_ & Hr & _) _]. destruct (Hr p c Hc) as (_ & rpc & _ & Hcand).
  unfold candidates_of in Hcand. destruct (load_balance_of _ _ _ _); [|done]. injection Hcand as <-.
  intros u. cbn. unfold upstream_vec_of. intros (v & -> & _)%list_elem_of_fmap. cbn. apply fmap_is_Some.
Qed.

Lemma health_upstreams_all c config :
  flags_match c -> uc_health_check_config c = Some config ->
  map fst (health_upstreams c) = map u_uri (uc_inner c).
Proof.
  unfold flags_match, health_upstreams. intros Hf Hc. rewrite Hc in Hf.
  induction (uc_inner c) as [|u l IH]; [done|]. cbn. destruct (Hf u) as [_ [h Hh]]; [by left|done|].
  rewrite Hh. cbn. f_equal. apply IH. intros u' Hu'. apply Hf. by right.
Qed.

Lemma spawned_elem client_ok m tasks t :
  spawn_health_checkers client_ok m = Ok tasks ->
  t ∈ tasks <-> exists n a p c, (n, a) ∈ apps m /\ (p, c) ∈ iter_candidates (path_manager a) /\
    checker_of (has_http_health_check m) (ba_server_name a) p c = Some t.
Proof.
  unfold spawn_health_checkers. intros Hs.
  assert (tasks = concat (map (fun '(_, backend_app) =>
    omap (M := list) (fun '(path, candidates) => checker_of (has_http_health_check m) (ba_server_name backend_app) path candidates)
      (iter_candidates (path_manager backend_app))) (apps m))) as ->.
  { destruct (has_http_health_check m); [destruct client_ok; [|done]|]; by injection Hs as <-. }
  rewrite elem_of_concat_map. split.
  - intros ([n a] & Ha & Ht). apply list_elem_of_omap in Ht as ([p c] & Hc & Ht). by exists n, a, p, c.
  - intros (n & a & p & c & Ha & Hc & Ht). exists (n, a). split; [done|]. apply list_elem_of_omap. by exists (p, c).
Qed.

Lemma has_http_spec m n a p c config :
  (n, a) ∈ apps m -> (p, c) ∈ iter_candidates (path_manager a) -> uc_health_check_config c = Some config ->
  is_http_check config = true -> has_http_health_check m = true.
Proof.
  intros Ha Hc Hcfg Hh. unfold has_http_health_check. apply existsb_exists. exists (n, a). split; [by apply list_elem_of_In|].
  apply existsb_exists. exists (p, c). split; [by apply list_elem_of_In|]. by rewrite Hcfg.
Qed.
End spawn_lemmas.

(** ** The supervisor *)

(** The steps by what they do: a listener changes, a task ends, the loop takes a task, or it
    ends. *)
Inductive moves (s : Supervisor) : Supervisor -> Prop :=
| moves_listen i t :
    sp_tasks s !! i = Some t -> t_state t = Running -> t_listener t = Idle ->
    moves s (set_task s i (with_listener t Listening) false)
| moves_down i t ok :
    sp_tasks s !! i = Some t -> own_task (t_kind t) = true -> t_listener t = Listening ->
    moves s (set_task s i (with_listener t (Down ok)) false)
| moves_end i t o b :
    sp_tasks s !! i = Some t -> t_state t = Running -> (o <> Panicked -> sp_cancelled s || b = true) ->
    moves s (set_task s i (end_task t o) b)
| moves_collect i t o :
    sp_tasks s !! i = Some t -> t_state t = Ended o -> sp_waiter s = Waiting ->
    moves s {| sp_tasks := <[i := with_state t (Collected o)]> (sp_tasks s); sp_cancelled := sp_cancelled s || negb (task_ok o);
               sp_waiter := if task_ok o then Waiting else Draining i |}
| moves_drain i t o j :
    sp_tasks s !! i = Some t -> t_state t = Ended o -> sp_waiter s = Draining j ->
    moves s (set_task s i (with_state t (Collected o)) false)
| moves_return :
    forallb collected (sp_tasks s) = true -> sp_waiter s = Waiting ->
    moves s {| sp_tasks := sp_tasks s; sp_cancelled := sp_cancelled s; sp_waiter := Returned None |}
| moves_fail j :
    forallb collected (sp_tasks s) = true -> sp_waiter s = Draining j ->
    moves s {| sp_tasks := sp_tasks s; sp_cancelled := sp_cancelled s; sp_waiter := Returned (Some j) |}.

Lemma running_state t : running t = true <-> t_state t = Running.
Proof. unfold running. by destruct (t_state t). Qed.

Lemma step_moves s e s' : supervise_step s e = Some s' -> e = Cancelled \/ moves s s'.
Proof.
  destruct e as [|i|i|i ok|i|i|i|i|]; cbn [supervise_step];
    [by left|destruct (sp_tasks s !! i) as [t|] eqn:Ei; [cbn|done]..|]; intros He; right; revert He.
  - destruct (t_kind t), (t_state t) eqn:Es, (t_listener t) eqn:El; try done. intros [= <-]. by constructor.
  - destruct (running t) eqn:Er; [|done]. destruct (sp_cancelled s) eqn:Ec; [|done]. intros [= <-].
    apply moves_end; [done|by apply running_state|by rewrite Ec].
  - destruct (t_kind t) as [|[]] eqn:Ek; try done; destruct (t_state t) eqn:Es, (t_listener t) eqn:El; try done;
      intros [= <-]; try (by apply moves_down; rewrite ?Ek).
    apply moves_end; [done|done|]. by rewrite orb_true_r.
  - destruct (own_task (t_kind t)) eqn:Eo; [|done]. unfold listening. destruct (t_listener t) eqn:El; try done.
    destruct (sp_cancelled s); [|done]. intros [= <-]. by apply moves_down.
  - destruct (t_kind t) as [|service] eqn:Ek; try done; destruct (t_state t) eqn:Es, (t_listener t) eqn:El; try done.
    destruct (own_task (ProxyTask service)); [|done]. intros [= <-]. apply moves_end; [done|done|]. by rewrite orb_true_r.
  - destruct (running t) eqn:Er; [|done]. intros [= <-]. apply moves_end; [done|by apply running_state|done].
  - destruct (t_state t) eqn:Es; try done. destruct (sp_waiter s) eqn:Ew; try done; intros [= <-];
      [by apply moves_collect|by eapply moves_drain].
  - destruct (forallb _ _) eqn:Ea; [|done]. destruct (sp_waiter s) eqn:Ew; try done; intros [= <-]; by constructor.
Qed.

Definition settled (s : Supervisor) : Prop :=
  forall i t o, sp_tasks s !! i = Some t -> t_state t = Collected o -> task_ok o = true.

Definition failed_at (s : Supervisor) (j : nat) : Prop :=
  exists t o, sp_tasks s !! j = Some t /\ t_state t = Collected o /\ task_ok o = false /\ sp_cancelled s = true.

Definition all_collected (s : Supervisor) : Prop := forallb collected (sp_tasks s) = true.

(** A task that has ended, unless by a panic, has cancelled the service or seen that it is
    cancelled; only a spawned listener outlives it. *)
Definition task_inv (cancelled : bool) (t : Task) : Prop :=
  forall o, t_state t = Ended o \/ t_state t = Collected o ->
    (o <> Panicked -> cancelled = true) /\ (t_listener t = Listening -> own_task (t_kind t) = true).

Definition waiter_inv (s : Supervisor) : Prop :=
  match sp_waiter s with
  | Waiting => settled s
  | Draining j => failed_at s j
  | Returned None => settled s /\ all_collected s
  | Returned (Some j) => failed_at s j /\ all_collected s
  end.

Definition supervised (s : Supervisor) : Prop :=
  (forall i t, sp_tasks s !! i = Some t -> task_inv (sp_cancelled s) t) /\ waiter_inv s.

Lemma start_supervised kinds : supervised (supervise_start kinds).
Proof.
  assert (forall i t, sp_tasks (supervise_start kinds) !! i = Some t -> t_state t = Running) as Hr.
  { intros i t. cbn. rewrite list_lookup_fmap. destruct (kinds !! i); [|done]. by intros [= <-]. }
  split; [intros i t Hi o; rewrite (Hr i t Hi); by intros []|intros i t o Hi; by rewrite (Hr i t Hi)].
Qed.

Lemma set_task_lookup (l : list Task) i y j x :
  <[i := y]> l !! j = Some x -> (j = i /\ x = y) \/ (j <> i /\ l !! j = Some x).
Proof.
  intros Hl. destruct (decide (j = i)) as [->|Hne].
  - apply list_lookup_insert_Some in Hl as [(_ & <- & _)|[? _]]; [by left|done].
  - rewrite list_lookup_insert_ne in Hl by done. by right.
Qed.

Lemma task_inv_mono c c' t : (c = true -> c' = true) -> task_inv c t -> task_inv c' t.
Proof. intros Hc Ht o Ho. destruct (Ht o Ho) as [H1 H2]. split; auto. Qed.

(** What a change of task [i] needs to keep of the loop's part of the invariant. *)
Lemma waiter_kept s i t t' b :
  sp_tasks s !! i = Some t ->
  (forall o, t_state t' = Collected o <-> t_state t = Collected o) ->
  waiter_inv s -> waiter_inv (set_task s i t' b).
Proof.
  intros Hi Ht. assert ((i < length (sp_tasks s))%nat) as Hlt by (by eapply lookup_lt_Some).
  assert (settled s -> settled (set_task s i t' b)) as Hset.
  { intros Hs j u o [[-> ->]|[_ Hj]]%set_task_lookup Hu; [|by eapply Hs]. eapply Hs; [exact Hi|by apply Ht]. }
  assert (forall j, failed_at s j -> failed_at (set_task s i t' b) j) as Hfail.
  { intros j (u & o & Hj & Hu & Ho & Hc). destruct (decide (j = i)) as [->|Hne].
    - rewrite Hi in Hj. injection Hj as <-. exists t', o. cbn. rewrite list_lookup_insert_eq by done. rewrite Hc. split_and!; try done. by apply Ht.
    - exists u, o. cbn. rewrite list_lookup_insert_ne by done. by rewrite Hc. }
  assert (all_collected s -> all_collected (set_task s i t' b)) as Hall.
  { unfold all_collected. rewrite !forallb_forall. intros Ha u Hu. apply list_elem_of_In, list_elem_of_lookup_1 in Hu as [j Hj].
    assert (forall j u, sp_tasks s !! j = Some u -> collected u = true) as Ha' by (intros j' u' Hj'; by apply Ha, list_elem_of_In, (list_elem_of_lookup_2 _ j')).
    apply set_task_lookup in Hj as [[-> ->]|[_ Hj]]; [|by eapply Ha']. pose proof (Ha' i t Hi) as Hct. unfold collected in *.
    destruct (t_state t) as [| |o]; try done. by rewrite (proj2 (Ht o) eq_refl). }
  unfold waiter_inv. cbn [sp_waiter set_task]. destruct (sp_waiter s) as [|j|[j|]]; [by apply Hset|by apply Hfail|intros []; auto..].
Qed.

(** Putting task [i] in a new state: the part of the invariant on tasks. *)
Lemma tasks_kept s i t' b c :
  (forall j t, sp_tasks s !! j = Some t -> task_inv (sp_cancelled s) t) -> c = sp_cancelled s || b -> task_inv c t' ->
  forall j t, <[i := t']> (sp_tasks s) !! j = Some t -> task_inv c t.
Proof.
  intros Hs -> Ht j t [[_ ->]|[_ Hj]]%set_task_lookup; [done|]. eapply task_inv_mono; [|by eapply Hs]. by intros ->.
Qed.

Lemma moves_supervised s s' : supervised s -> moves s s' -> supervised s'.
Proof.
  intros [Hp Hw] Hm. destruct Hm as [i t Hi Hr Hl|i t ok Hi Ho Hl|i t o b Hi Hr Hc|i t o Hi Hs Ew|i t o j Hi Hs Ew|Ha Ew|j Ha Ew].
  - split; [|by eapply waiter_kept]. eapply tasks_kept; [done..|]. intros o. cbn. rewrite Hr. by intros [].
  - split; [|by eapply waiter_kept]. eapply tasks_kept; [done..|]. intros o Hs. cbn in *. rewrite orb_false_r. split; [by eapply Hp|done].
  - split; [|eapply waiter_kept; [done| |done]; intros o'; by rewrite Hr]. eapply tasks_kept; [done..|].
    intros o' Ho'. assert (o' = o) as -> by (cbn in Ho'; by destruct Ho' as [[=]|[=]]).
    split; [done|]. cbn. by destruct (own_task (t_kind t)).
  - assert ((i < length (sp_tasks s))%nat) as Hlt by (by eapply lookup_lt_Some). unfold waiter_inv in *. rewrite Ew in Hw. split; cbn.
    + eapply tasks_kept; [done..|]. intros o' Ho'. cbn in Ho'. assert (o' = o) as -> by (by destruct Ho' as [[=]|[=]]).
      destruct (Hp i t Hi o (or_introl Hs)) as [H1 H2]. cbn. split; [intros Hne; by rewrite H1|done].
    + destruct (task_ok o) eqn:Eo.
      * intros j u o' [[_ ->]|[_ Hj]]%set_task_lookup Hu; [by injection Hu as <-|by eapply Hw].
      * exists (with_state t (Collected o)), o. cbn. rewrite list_lookup_insert_eq by done. by rewrite orb_true_r.
  - split.
    + eapply tasks_kept; [done..|]. intros o' Ho'. cbn in Ho'. assert (o' = o) as -> by (by destruct Ho' as [[=]|[=]]).
      destruct (Hp i t Hi o (or_introl Hs)) as [H1 H2]. cbn. split; [intros Hne; by rewrite H1|done].
    + unfold waiter_inv in *. cbn. rewrite Ew in *. destruct Hw as (u & o' & Hj & Hu & Ho & Hc). exists u, o'. cbn.
      rewrite list_lookup_insert_ne by (intros ->; congruence). by rewrite Hc.
  - unfold waiter_inv in Hw. rewrite Ew in Hw. by split.
  - unfold waiter_inv in Hw. rewrite Ew in Hw. by split.
Qed.

Lemma supervised_cancel s : supervised s ->
  supervised {| sp_tasks := sp_tasks s; sp_cancelled := true; sp_waiter := sp_waiter s |}.
Proof.
  intros [Hp Hw]. split; cbn; [intros i t Hi; by eapply task_inv_mono; [|by eapply Hp]|].
  unfold waiter_inv in *. cbn. destruct (sp_waiter s) as [|j|[j|]]; [done|..]; unfold failed_at in *; cbn; naive_solver.
Qed.

Lemma step_supervised s e s' : supervised s -> supervise_step s e = Some s' -> supervised s'.
Proof.
  intros Hs He. destruct (step_moves s e s' He) as [->|Hm]; [|by eapply moves_supervised].
  injection He as <-. by apply supervised_cancel.
Qed.

Lemma reachable_supervised kinds s : rtc sstep (supervise_start kinds) s -> supervised s.
Proof.
  intros Hr. pose proof (start_supervised kinds) as H0. induction Hr as [|x y z [e He] _ IH]; [done|].
  by apply IH, (step_supervised x e).
Qed.

(** ** Termination *)

Definition task_weight (t : Task) : nat :=
  match t_state t with Running => 2 | Ended _ => 1 | Collected _ => 0 end +
  match t_listener t with Idle => 2 | Listening => 1 | Down _ => 0 end.

Definition remaining (s : Supervisor) : nat :=
  sum_list_with task_weight (sp_tasks s) + match sp_waiter s with Returned _ => 0 | _ => 1 end.

Lemma weight_insert {A} (w : A -> nat) (l : list A) i x y :
  l !! i = Some x -> (w y < w x)%nat -> (sum_list_with w (<[i := y]> l) < sum_list_with w l)%nat.
Proof.
  revert i. induction l as [|z l IH]; intros [|i] Hi Hw; try done.
  - injection Hi as ->. cbn. lia.
  - change (<[S i:=y]> (z :: l)) with (z :: <[i:=y]> l). cbn [sum_list_with]. specialize (IH i Hi Hw). lia.
Qed.

Lemma step_decreases s e s' :
  supervise_step s e = Some s' -> (remaining s' < remaining s)%nat \/ e = Cancelled.
Proof.
  intros He. destruct (step_moves s e s' He) as [->|Hm]; [by right|left]. unfold remaining.
  assert (forall i t t', sp_tasks s !! i = Some t -> (task_weight t' < task_weight t)%nat ->
    (sum_list_with task_weight (<[i := t']> (sp_tasks s)) < sum_list_with task_weight (sp_tasks s))%nat) as Hset
    by (intros i t t'; apply weight_insert).
  destruct Hm as [i t Hi Hr Hl|i t ok Hi Ho Hl|i t o b Hi Hr Hc|i t o Hi Hs Ew|i t o j Hi Hs Ew|Ha Ew|j Ha Ew]; cbn [set_task sp_tasks sp_waiter].
  - apply Nat.add_lt_mono_r, (Hset i t _ Hi). unfold task_weight. cbn. rewrite Hl. lia.
  - apply Nat.add_lt_mono_r, (Hset i t _ Hi). unfold task_weight. cbn. rewrite Hl. lia.
  - apply Nat.add_lt_mono_r, (Hset i t _ Hi). unfold task_weight. cbn. rewrite Hr. destruct (own_task (t_kind t)), (t_listener t); lia.
  - rewrite Ew. pose proof (Hset i t (with_state t (Collected o)) Hi) as Hlt. unfold task_weight at 1 2 in Hlt. cbn in Hlt. rewrite Hs in Hlt.
    destruct (task_ok o); lia.
  - apply Nat.add_lt_mono_r, (Hset i t _ Hi). unfold task_weight. cbn. rewrite Hs. lia.
  - rewrite Ew. lia.
  - rewrite Ew. lia.
Qed.

(** Something can happen without an outside cause. *)
Definition internal (e : SEvent) : bool :=
  match e with Cancelled | ListenerReturns _ _ | TaskPanics _ => false | _ => true end.

Lemma find_task (f : Task -> bool) (l : list Task) :
  forallb f l = false -> exists i t, l !! i = Some t /\ f t = false.
Proof.
  induction l as [|t l IH]; [done|]. cbn. destruct (f t) eqn:Et; [|by exists 0%nat, t].
  intros (i & t' & ? & ?)%IH. by exists (S i), t'.
Qed.

(** No listener is left, neither in a task of the entry point nor detached. *)
Definition no_listener (s : Supervisor) : bool := forallb (fun t => negb (listening t)) (sp_tasks s).

Definition returned (s : Supervisor) : bool := match sp_waiter s with Returned _ => true | _ => false end.

Lemma supervise_progress s :
  supervised s -> sp_cancelled s = true -> returned s && no_listener s = false ->
  exists e s', internal e = true /\ supervise_step s e = Some s'.
Proof.
  intros [Hp _] Hc Hn. destruct (no_listener s) eqn:El.
  - rewrite andb_true_r in Hn. destruct (forallb collected (sp_tasks s)) eqn:E.
    + exists LoopEnds. cbn. rewrite E. unfold returned in Hn. destruct (sp_waiter s); [by eexists..|done].
    + apply find_task in E as (i & t & Hi & Ht). unfold collected in Ht. destruct (t_state t) eqn:Et; [| |done].
      * exists (Notices i). cbn. rewrite Hi. cbn. unfold running. rewrite Et, Hc. by eexists.
      * exists (Collects i). cbn. rewrite Hi. cbn. rewrite Et. unfold returned in Hn. destruct (sp_waiter s); [by eexists..|done].
  - apply find_task in El as (i & t & Hi & Ht). unfold listening in Ht. destruct (t_listener t) eqn:El; try done.
    destruct (running t) eqn:Er; [exists (Notices i); cbn; rewrite Hi; cbn; rewrite Er, Hc; by eexists|].
    exists (ListenerNotices i). cbn. rewrite Hi. cbn. unfold listening. rewrite El, Hc.
    unfold running in Er. destruct (t_state t) as [|o|o] eqn:Es; [done|..];
      (destruct (Hp i t Hi o) as [_ Ho]; [auto|]; rewrite Ho by done; by eexists).
Qed.

Lemma all_collected_lookup s i t : all_collected s -> sp_tasks s !! i = Some t -> collected t = true.
Proof. unfold all_collected. rewrite forallb_forall. intros H Hi. by apply H, list_elem_of_In, (list_elem_of_lookup_2 _ i). Qed.

(** Once the loop has returned, a listener that is left is a detached one, and its token is
    cancelled. *)
Lemma left_over s r i t :
  supervised s -> sp_waiter s = Returned r -> sp_tasks s !! i = Some t -> listening t = true ->
  own_task (t_kind t) = true /\ sp_cancelled s = true.
Proof.
  intros [Hp Hw] Er Hi Hl. unfold waiter_inv in Hw. rewrite Er in Hw. assert (all_collected s) as Ha by (by destruct r; destruct Hw).
  unfold listening in Hl. destruct (t_listener t) eqn:El; try done.
  apply (all_collected_lookup s i t) in Ha; [|done]. unfold collected in Ha. destruct (t_state t) as [| |o] eqn:Es; [done..|].
  destruct (Hp i t Hi o) as [Hc Ho]; [by right|]. split; [auto|].
  destruct r as [j|]; destruct Hw as [Hw _]; [by destruct Hw as (? & ? & _ & _ & _ & ?)|].
  apply Hc. intros ->. by specialize (Hw i t Panicked Hi Es).
Qed.

(** ** Theorems *)

(** Every health flag has its checker: for the applications of an accepted
    configuration, a route with a health check and upstreams has a task that probes all
    of its upstreams in order under its own configuration, the upstreams of a route
    without a check have no flag, every task belongs to such a route, and a task that
    probes over HTTP always has the client; starting fails only if a check over HTTP is
    configured and the client cannot be built. *)
Theorem health_flags_all_checked `{HttpApi} `{CryptoApi} cl m client_ok :
  BackendAppManager_try_from cl = Ok m ->
  (spawn_health_checkers client_ok m = Err () <-> has_http_health_check m = true /\ client_ok = false) /\
  (forall tasks, spawn_health_checkers client_ok m = Ok tasks ->
     (forall n a p c, (n, a) ∈ apps m -> (p, c) ∈ iter_candidates (path_manager a) ->
        match uc_health_check_config c with
        | Some config => uc_inner c <> [] -> exists t, t ∈ tasks /\ ck_server_name t = n /\ ck_path t = p /\
            ck_config t = config /\ map fst (ck_upstreams t) = map u_uri (uc_inner c)
        | None => forall u, u ∈ uc_inner c -> u_health u = None
        end) /\
     (forall t, t ∈ tasks -> (is_http_check (ck_config t) = true -> ck_http_client t = true) /\
        exists n a p c, (n, a) ∈ apps m /\ (p, c) ∈ iter_candidates (path_manager a) /\
          uc_health_check_config c = Some (ck_config t) /\ ck_upstreams t = health_upstreams c)).
Proof.
  intros Hm. split.
  { unfold spawn_health_checkers. destruct (has_http_health_check m), client_ok; cbn; split; intuition congruence. }
  intros tasks Hs. split.
  - intros n a p c Ha Hc. pose proof (built_flags_match cl m n a p c Hm Ha Hc) as Hf.
    destruct (uc_health_check_config c) as [config|] eqn:Ec.
    + intros Hne. pose proof (health_upstreams_all c config Hf Ec) as Hu.
      assert (exists t, checker_of (has_http_health_check m) (ba_server_name a) p c = Some t /\ ck_server_name t = n /\
        ck_path t = p /\ ck_config t = config /\ ck_upstreams t = health_upstreams c) as (t & Ht & H1 & H2 & H3 & H4).
      { unfold checker_of. rewrite Ec. destruct (health_upstreams c) as [|x l] eqn:Eh.
        - by destruct (uc_inner c).
        - apply manager_inv in Hm as [(_ & Hel & _) _]. destruct (Hel n a Ha) as [Hn _]. eexists. by split_and!. }
      exists t. rewrite H4. split_and!; try done. apply (spawned_elem _ _ _ _ Hs). by exists n, a, p, c.
    + intros u Hu. destruct (u_health u) eqn:E; [|done]. destruct (Hf u Hu) as [Hx _]. rewrite E, Ec in Hx.
      by destruct Hx as [? ?]; [by eexists|].
  - intros t Ht. apply (spawned_elem _ _ _ _ Hs) in Ht as (n & a & p & c & Ha & Hc & Ht). unfold checker_of in Ht.
    destruct (health_upstreams c) as [|x l] eqn:Eh; [done|].
    destruct (uc_health_check_config c) as [config|] eqn:Ec; [|done]. injection Ht as <-. cbn. split.
    + intros Hh. rewrite Hh. by eapply has_http_spec.
    + exists n, a, p, c. by rewrite Eh.
Qed.

(** A service never outlives its supervision: whatever the order in which listeners
    return, tasks panic and the service is cancelled, [entrypoint] returns only once
    every task it has handles of has ended and been collected, without error exactly if all
    ended well, and otherwise with the error of a task that failed, after cancelling the
    others; a listener that is left then is one of TLS or QUIC whose task was detached, and
    its token is cancelled; a task that ends without a panic leaves the service cancelled;
    and once cancelled, every event but another cancellation brings the end closer and
    there is always one that needs no outside cause until [entrypoint] has returned and no
    listener is left. *)
Theorem service_shuts_down_together kinds s :
  rtc sstep (supervise_start kinds) s ->
  (forall r, sp_waiter s = Returned r -> all_collected s /\
     (forall i t, sp_tasks s !! i = Some t -> listening t = true -> own_task (t_kind t) = true /\ sp_cancelled s = true) /\
     match r with
     | None => forall i t o, sp_tasks s !! i = Some t -> t_state t = Collected o -> o = Done
     | Some j => exists t o, sp_tasks s !! j = Some t /\ t_state t = Collected o /\ o <> Done /\ sp_cancelled s = true
     end) /\
  (forall i t o, sp_tasks s !! i = Some t -> t_state t = Ended o -> o <> Panicked -> sp_cancelled s = true) /\
  (sp_cancelled s = true -> returned s && no_listener s = false ->
     exists e s', internal e = true /\ supervise_step s e = Some s') /\
  (forall e s', supervise_step s e = Some s' -> (remaining s' < remaining s)%nat \/ e = Cancelled).
Proof.
  intros Hr. pose proof (reachable_supervised kinds s Hr) as Hs. pose proof Hs as [Hp Hw]. split_and!.
  - intros r Er. split_and!; [|intros i t; by eapply left_over|]; unfold waiter_inv in Hw; rewrite Er in Hw; destruct r as [j|];
      destruct Hw as [Hw Hall]; try done.
    + destruct Hw as (t & o & Hj & Ht & Ho & Hc). exists t, o. split_and!; [done|done|by intros ->|done].
    + intros i t o Hi Ht. apply (Hw i t o Hi) in Ht. by destruct o.
  - intros i t o Hi Ht. by apply (Hp i t Hi o (or_introl Ht)).
  - by apply supervise_progress.
  - apply step_decreases.
Qed.

(** ** Companions *)

(** An event that needs neither the outside nor a companion that ends of its own accord. *)
Definition internal_inner (e : IEvent) : bool :=
  match e with
  | Supervises e => internal e
  | EntryReturns | CertNotices | AcmeNotices _ | AcmeJoins _ | InnerReturns => true
  | _ => false
  end.


Record joined (s : Inner) : Prop := {
  jn_sup : supervised (in_sup s);
  jn_cancel : in_parent_cancelled s = true -> sp_cancelled (in_sup s) = true;
  jn_entry ok : in_entry s = Some ok -> exists r, sp_waiter (in_sup s) = Returned r /\ (ok = true <-> r = None);
  jn_failed : in_entry s = Some false \/ (exists ok, in_cert s = Some (Some ok)) -> in_parent_cancelled s = true;
  jn_handle ok : in_acme_handle s = Some (Some ok) -> in_parent_cancelled s = true /\ exists i, in_acme s !! i = Some (Some ok);
  jn_waits : in_acme s <> [] -> in_cert s <> None -> in_acme_handle s <> None;
  jn_unwaited : in_acme s = [] \/ in_cert s = None -> in_acme_handle s = None;
  jn_result ok : in_result s = Some ok -> exists rpxy cert acme, in_entry s = Some rpxy /\
    companion_result (in_cert s) = Some cert /\ companion_result (in_acme_handle s) = Some acme /\ ok = rpxy && cert && acme
}.

Lemma start_joined kinds cert acme : joined (inner_start kinds cert acme).
Proof.
  split; cbn; try done; [apply start_supervised|..]; destruct cert, acme; cbn; naive_solver.
Qed.

Lemma returned_stays s e s' r : sp_waiter s = Returned r -> supervise_step s e = Some s' -> sp_waiter s' = Returned r.
Proof.
  intros Hr He. destruct (step_moves s e s' He) as [->|Hm]; [by injection He as <-|].
  destruct Hm; cbn; congruence.
Qed.

Lemma cancelled_stays s e s' : sp_cancelled s = true -> supervise_step s e = Some s' -> sp_cancelled s' = true.
Proof.
  intros Hr He. destruct (step_moves s e s' He) as [->|Hm]; [by injection He as <-|].
  destruct Hm; cbn; by rewrite ?Hr.
Qed.

(** Companions that have ended, and the result, stay. *)
Lemma joined_sup s e sup : joined s -> supervise_step (in_sup s) e = Some sup -> joined (with_sup s sup).
Proof.
  intros [H1 H2 H3 H4 H5 H6 H7 H8] He. split; cbn; try done; [by eapply step_supervised| |].
  - intros Hc. eapply cancelled_stays; [|exact He]. auto.
  - intros ok Ho. destruct (H3 ok Ho) as (r & Hr & Hok). exists r. split; [by eapply returned_stays|done].
Qed.

Lemma joined_cancel s : joined s -> joined (cancel_parent s).
Proof.
  intros [H1 H2 H3 H4 H5 H6 H7 H8]. split; cbn; try done; [by apply supervised_cancel|].
  intros ok Hok. by destruct (H5 ok Hok).
Qed.

Lemma joined_entry s ok r :
  joined s -> in_entry s = None -> sp_waiter (in_sup s) = Returned r -> (ok = true <-> r = None) ->
  (ok = false -> in_parent_cancelled s = true) -> joined (with_entry s ok).
Proof.
  intros [H1 H2 H3 H4 H5 H6 H7 H8] Hn Hr Hok Hc. split; cbn; try done.
  - intros ok' [= <-]. by exists r.
  - intros [[= ->]|?]; auto.
  - intros b Hb. destruct (H8 b Hb) as (x & _ & _ & Hx & _). congruence.
Qed.

Lemma joined_cert s ok :
  joined s -> in_cert s = Some None -> in_parent_cancelled s = true -> joined (with_cert s ok).
Proof.
  intros [H1 H2 H3 H4 H5 H6 H7 H8] Hn Hc. split; cbn; try done.
  - intros Ha _. apply H6; [done|by rewrite Hn].
  - intros [?|[=]]; auto.
  - intros b Hb. destruct (H8 b Hb) as (x & y & z & _ & Hy & _). rewrite Hn in Hy. done.
Qed.

Lemma joined_acme s i ok : joined s -> in_acme s !! i = Some None -> joined (with_acme s i ok).
Proof.
  intros [H1 H2 H3 H4 H5 H6 H7 H8] Hn. split; cbn; try done.
  - intros b Hb. destruct (H5 b Hb) as (Hc & j & Hj). split; [done|]. exists j.
    by rewrite list_lookup_insert_ne by (intros ->; congruence).
  - intros _. apply H6. by intros E; rewrite E in Hn.
  - intros [E|?]; [|auto]. apply (f_equal length) in E. rewrite length_insert in E. by destruct (in_acme s).
Qed.

Lemma joined_handle s i ok :
  joined s -> in_acme_handle s = Some None -> in_acme s !! i = Some (Some ok) -> in_parent_cancelled s = true ->
  joined (with_acme_handle s ok).
Proof.
  intros [H1 H2 H3 H4 H5 H6 H7 H8] Hh Hn Hc. split; cbn; try done.
  - intros b [= <-]. split; [done|by exists i].
  - intros E. apply H7 in E. congruence.
  - intros b Hb. destruct (H8 b Hb) as (x & y & z & _ & _ & Hz & _). by rewrite Hh in Hz.
Qed.

Lemma step_joined s e s' : joined s -> inner_step s e = Some s' -> joined s'.
Proof.
  intros Hj He. pose proof (joined_cancel s Hj) as Hjc. destruct e as [|e| |ok| |i ok|i|i|]; cbn in He.
  - by injection He as <-.
  - assert (with_sup s <$> supervise_step (in_sup s) e = Some s') as He' by (by destruct e).
    apply fmap_Some in He' as (sup & Hs & ->). by eapply joined_sup.
  - destruct (sp_waiter (in_sup s)) as [| |[j|]] eqn:Ew; try done; destruct (in_entry s) eqn:Ee; try done;
      injection He as <-; [|by eapply joined_entry].
    by apply (joined_entry (cancel_parent s) false (Some j)).
  - destruct (in_cert s) as [[]|] eqn:Ec; try done. injection He as <-. by apply (joined_cert (cancel_parent s)).
  - destruct (in_cert s) as [[]|] eqn:Ec; try done. destruct (in_parent_cancelled s) eqn:Ep; [|done]. injection He as <-.
    by apply joined_cert.
  - destruct (in_acme s !! i) as [[]|] eqn:Ea; try done. injection He as <-. by apply joined_acme.
  - destruct (in_acme s !! i) as [[]|] eqn:Ea; try done. destruct (in_parent_cancelled s); [|done]. injection He as <-.
    by apply joined_acme.
  - destruct (in_acme_handle s) as [[]|] eqn:Eh, (in_acme s !! i) as [[ok|]|] eqn:Ea; try done. injection He as <-.
    by apply (joined_handle (cancel_parent s) i).
  - destruct (in_result s), (in_entry s) as [x|] eqn:E1, (companion_result (in_cert s)) as [y|] eqn:E2,
      (companion_result (in_acme_handle s)) as [z|] eqn:E3; try done. injection He as <-.
    destruct Hj as [H1 H2 H3 H4 H5 H6 H7 H8]. split; cbn; try done. intros ok [= <-]. by exists x, y, z.
Qed.

Lemma reachable_joined kinds cert acme s : rtc istep (inner_start kinds cert acme) s -> joined s.
Proof.
  intros Hr. pose proof (start_joined kinds cert acme) as H0. induction Hr as [|x y z [e He] _ IH]; [done|].
  by apply IH, (step_joined x e).
Qed.

(** The entry point has returned only after all its tasks. *)
Lemma joined_collected s x : joined s -> in_entry s = Some x -> all_collected (in_sup s).
Proof.
  intros Hj Hx. destruct (jn_entry s Hj x Hx) as (r & Er & _). destruct (jn_sup s Hj) as [_ H1].
  unfold waiter_inv in H1. rewrite Er in H1. by destruct r; destruct H1.
Qed.

(** *** Progress *)





(** *** Termination *)

Definition acme_weight (t : option bool) : nat := match t with None => 1 | Some _ => 0 end.

Definition inner_remaining (s : Inner) : nat :=
  remaining (in_sup s) + match in_entry s with None => 1 | _ => 0 end + match in_cert s with Some None => 1 | _ => 0 end +
  sum_list_with acme_weight (in_acme s) + match in_acme_handle s with Some None => 1 | _ => 0 end +
  match in_result s with None => 1 | _ => 0 end.

Lemma inner_decreases s e s' : inner_step s e = Some s' -> (inner_remaining s' < inner_remaining s)%nat \/ e = ConfigChanges.
Proof.
  intros He. destruct e as [|e| |ok| |i ok|i|i|]; [by right|left..]; cbn in He.
  - assert (exists sup, supervise_step (in_sup s) e = Some sup /\ s' = with_sup s sup /\ e <> Cancelled) as (sup & Hs & -> & Hne).
    { destruct e; [done|..]; apply fmap_Some in He as (sup & ? & ->); by exists sup. }
    destruct (step_decreases _ _ _ Hs) as [Hlt|]; [|done]. unfold inner_remaining. cbn. lia.
  - destruct (sp_waiter (in_sup s)) as [| |[j|]] eqn:Ew; try done; destruct (in_entry s) eqn:Ee; try done;
      injection He as <-; unfold inner_remaining, remaining; cbn; rewrite Ee; lia.
  - destruct (in_cert s) as [[]|] eqn:Ec; try done. injection He as <-. unfold inner_remaining, remaining. cbn. rewrite Ec. lia.
  - destruct (in_cert s) as [[]|] eqn:Ec; try done. destruct (in_parent_cancelled s); [|done]. injection He as <-.
    unfold inner_remaining, remaining. cbn. rewrite Ec. lia.
  - destruct (in_acme s !! i) as [[]|] eqn:Ea; try done. injection He as <-. apply (weight_insert acme_weight _ _ _ (Some ok)) in Ea; [|cbn; lia].
    unfold inner_remaining. cbn. lia.
  - destruct (in_acme s !! i) as [[]|] eqn:Ea; try done. destruct (in_parent_cancelled s); [|done]. injection He as <-.
    apply (weight_insert acme_weight _ _ _ (Some true)) in Ea; [|cbn; lia]. unfold inner_remaining. cbn. lia.
  - destruct (in_acme_handle s) as [[]|] eqn:Eh, (in_acme s !! i) as [[]|]; try done. injection He as <-.
    unfold inner_remaining, remaining. cbn. rewrite Eh. lia.
  - destruct (in_result s) eqn:Er, (in_entry s) eqn:E1, (companion_result (in_cert s)) eqn:E2,
      (companion_result (in_acme_handle s)) eqn:E3; try done. injection He as <-. unfold inner_remaining. cbn. rewrite Er, E1. lia.
Qed.



(** *** A listener that ends *)

(** A step that needs no outside cause. *)
Definition own_istep (s s' : Inner) : Prop := exists e, internal_inner e = true /\ inner_step s e = Some s'.

Lemma own_istep_istep s s' : rtc own_istep s s' -> rtc istep s s'.
Proof. intros Hr. induction Hr as [|x y z (e & _ & He) _ IH]; [done|]. eapply rtc_l; [by exists e|done]. Qed.

(** The state of a service whose entry point has returned well, with no listener left,
    while nothing has told the certificate task to end. *)
Definition stranded (s : Inner) : Prop :=
  all_collected (in_sup s) /\ no_listener (in_sup s) = true /\ in_entry s = Some true /\ in_cert s = Some None /\
  in_parent_cancelled s = false /\ in_result s = None.

(** The listener of task [i] has ended, and what has ended beside it has ended well. *)
Record all_well (i : nat) (s : Supervisor) : Prop := {
  aw_tasks j t : sp_tasks s !! j = Some t -> t_state t = Running \/ t_state t = Ended Done \/ t_state t = Collected Done;
  aw_waiter : sp_waiter s = Waiting \/ sp_waiter s = Returned None;
  aw_cause : sp_cancelled s = true \/ exists t ok, sp_tasks s !! i = Some t /\ t_state t = Running /\
    own_task (t_kind t) = true /\ t_listener t = Down ok
}.

Lemma well_set i s j u u' b :
  all_well i s -> sp_tasks s !! j = Some u ->
  (t_state u' = Running \/ t_state u' = Ended Done \/ t_state u' = Collected Done) ->
  (i = j -> sp_cancelled s || b = true \/ forall ok, t_listener u <> Down ok \/ t_state u <> Running) ->
  all_well i (set_task s j u' b).
Proof.
  intros [H1 H2 H3] Hj Hu Hc. split; cbn; [|done|].
  - intros k t [[_ ->]|[_ Hk]]%set_task_lookup; [done|by eapply H1].
  - destruct H3 as [->|(t & ok & Hi & Ht & Ho & Hl)]; [by left|]. destruct (decide (i = j)) as [->|Hne].
    + destruct (Hc eq_refl) as [?|Hd]; [by left|]. rewrite Hj in Hi. injection Hi as <-. by destruct (Hd ok).
    + right. exists t, ok. by rewrite list_lookup_insert_ne.
Qed.

Lemma well_step i s e s' : all_well i s -> internal e = true -> supervise_step s e = Some s' -> all_well i s'.
Proof.
  intros Hw Hi He. pose proof Hw as [Ht Hwt Hc].
  destruct e as [|j|j|j ok|j|j|j|j|]; try done; cbn in He; [destruct (sp_tasks s !! j) as [t|] eqn:Ej; [cbn in He|done]..|].
  - destruct (t_kind t), (t_state t) eqn:Es, (t_listener t) eqn:El; try done. injection He as <-.
    eapply well_set; [done|done|by left|]. intros _. right. intros ok. left. by rewrite El.
  - destruct (running t) eqn:Er; [|done]. destruct (sp_cancelled s) eqn:Ec; [|done]. injection He as <-.
    eapply well_set; [done|done|by right; left|]. intros _. left. by rewrite Ec.
  - destruct (own_task (t_kind t)); [|done]. unfold listening in He. destruct (t_listener t) eqn:El; try done.
    destruct (sp_cancelled s); [|done]. injection He as <-.
    eapply well_set; [done|done|exact (Ht j t Ej)|]. intros _. right. intros ok. left. by rewrite El.
  - destruct (t_kind t) as [|service] eqn:Ek; try done. destruct (t_state t), (t_listener t); try done.
    destruct (own_task (ProxyTask service)) eqn:Eo; [|done]. injection He as <-. eapply well_set; [done|done| |].
    + right. left. cbn. by destruct service.
    + intros _. left. by rewrite orb_true_r.
  - destruct (t_state t) as [|o|] eqn:Es; try done. destruct (Ht j t Ej) as [E|[E|E]]; rewrite Es in E; try done. injection E as ->.
    destruct Hwt as [Ew|Ew]; rewrite Ew in He; [|done]. injection He as <-.
    assert (all_well i (set_task s j (with_state t (Collected Done)) false)) as [H1 H2 H3].
    { eapply well_set; [done|done|by right; right|]. intros _. right. intros ok. right. by rewrite Es. }
    split; [done|by left|done].
  - destruct (forallb collected (sp_tasks s)); [|done]. destruct Hwt as [Ew|Ew]; rewrite Ew in He; [|done]. injection He as <-.
    split; [done|by right|done].
Qed.

Lemma well_progress i s :
  supervised s -> all_well i s -> returned s && no_listener s = false \/ sp_cancelled s = false ->
  exists e s', internal e = true /\ supervise_step s e = Some s'.
Proof.
  intros Hs [Ht Hw Hc] Hn. destruct Hc as [Hc|(t & ok & Hi & Hr & Ho & Hl)].
  - destruct Hn as [Hn|Hn]; [by apply supervise_progress|congruence].
  - exists (Joins i). cbn. rewrite Hi. cbn. rewrite Hr, Hl, Ho. destruct (t_kind t); [done|by eexists].
Qed.

(** The service while nothing else disturbs it. *)
Record calm (cert : bool) (i : nat) (s : Inner) : Prop := {
  cm_joined : joined s;
  cm_parent : in_parent_cancelled s = false;
  cm_cert : in_cert s = if cert then Some None else None;
  cm_acme j t : in_acme s !! j = Some t -> t = None;
  cm_sup : all_well i (in_sup s);
  cm_result : in_result s <> Some false
}.

Lemma calm_step cert i s e s' : calm cert i s -> internal_inner e = true -> inner_step s e = Some s' -> calm cert i s'.
Proof.
  intros [Hj Hp Hc Ha Hw Hr] Hi He. pose proof (step_joined s e s' Hj He) as Hj'.
  destruct e as [|e| |ok| |j ok|j|j|]; try done; cbn in He.
  - assert (exists sup, supervise_step (in_sup s) e = Some sup /\ s' = with_sup s sup) as (sup & Hs & ->).
    { destruct e; try done; apply fmap_Some in He as (sup & ? & ->); by exists sup. }
    split; cbn; try done. by eapply well_step.
  - destruct (aw_waiter i _ Hw) as [Ew|Ew]; rewrite Ew in He; [done|]. destruct (in_entry s); [done|]. injection He as <-. by split.
  - destruct (in_cert s) as [[]|]; try done. by rewrite Hp in He.
  - destruct (in_acme s !! j) as [[]|]; try done. by rewrite Hp in He.
  - destruct (in_acme_handle s) as [[]|], (in_acme s !! j) as [[]|] eqn:Ej; try done. by apply Ha in Ej.
  - destruct (in_result s), (in_entry s) as [x|] eqn:E1, (companion_result (in_cert s)) as [y|] eqn:E2,
      (companion_result (in_acme_handle s)) as [z|] eqn:E3; try done. injection He as <-. split; cbn; try done.
    destruct cert; rewrite Hc in E2; [done|]. injection E2 as <-.
    rewrite (jn_unwaited s Hj (or_intror Hc)) in E3. injection E3 as <-. destruct x; [done|].
    rewrite (jn_failed s Hj) in Hp; [done|by left].
Qed.

(** What such a service comes to. *)
Definition ended_quietly (cert : bool) (s : Inner) : Prop :=
  all_collected (in_sup s) /\ in_entry s = Some true /\
  if cert then stranded s /\ forall e, internal_inner e = true -> inner_step s e = None else in_result s = Some true.

(** Nothing happens of its own accord in a stranded service. *)
Lemma stranded_stuck cert i s e : calm cert i s -> stranded s -> internal_inner e = true -> inner_step s e = None.
Proof.
  intros [Hj _ _ Ha _ _] (Hall & Hl & He & Hc & Hp & Hr) Hi. destruct (jn_entry s Hj true He) as (r & Er & _).
  assert (forall j t, sp_tasks (in_sup s) !! j = Some t -> collected t = true /\ listening t = false) as Hx.
  { intros j t Ht. split; [by eapply all_collected_lookup|]. unfold no_listener in Hl. rewrite forallb_forall in Hl.
    apply negb_true_iff, Hl, list_elem_of_In. by eapply list_elem_of_lookup_2. }
  destruct e as [|e| |ok| |j ok|j|j|]; try done; cbn; rewrite ?Hp.
  - destruct e as [|j|j|j ok|j|j|j|j|]; try done; cbn; rewrite ?Er;
      [destruct (sp_tasks (in_sup s) !! j) as [t|] eqn:Ej; [cbn; apply Hx in Ej as [E1 E2]|done]..|by destruct (forallb _ _)];
      unfold running, collected in *; destruct (t_state t), (t_kind t); rewrite ?E2; try done. by rewrite andb_false_r.
  - rewrite Er, He. by destruct r.
  - by rewrite Hc.
  - by destruct (in_acme s !! j) as [[]|].
  - destruct (in_acme_handle s) as [[]|], (in_acme s !! j) as [[]|] eqn:Ej; try done. by apply Ha in Ej.
  - by rewrite Hr, He, Hc.
Qed.

Lemma calm_progress cert i s : calm cert i s -> (exists s', own_istep s s') \/ ended_quietly cert s.
Proof.
  intros Hcalm. pose proof Hcalm as [Hj Hp Hc Ha Hw Hr].
  destruct (returned (in_sup s) && no_listener (in_sup s) && sp_cancelled (in_sup s)) eqn:En.
  2: { destruct (well_progress i (in_sup s)) as (e & sup & Hi & He); [apply Hj|done|by apply andb_false_iff in En|].
       left. exists (with_sup s sup), (Supervises e). split; [done|]. destruct e; try done; cbn [inner_step]; by rewrite He. }
  apply andb_prop in En as [[Er El]%andb_prop _]. unfold returned in Er.
  destruct (aw_waiter i _ Hw) as [Ew|Ew]; rewrite Ew in Er; [done|].
  destruct (in_entry s) as [x|] eqn:Ee.
  2: { left. exists (with_entry s true), EntryReturns. cbn. by rewrite Ew, Ee. }
  assert (x = true) as -> by (destruct (jn_entry s Hj x Ee) as (r & Er' & Hx); rewrite Ew in Er'; injection Er' as <-; by apply Hx).
  assert (all_collected (in_sup s)) as Hall by (by eapply joined_collected). destruct cert.
  - assert (in_result s = None) as Hres.
    { destruct (in_result s) as [b|] eqn:E; [|done]. destruct (jn_result s Hj b E) as (? & ? & ? & _ & Hy & _). by rewrite Hc in Hy. }
    right. assert (stranded s) as Hst by done. split; [done|]. split; [done|]. split; [done|]. intros e. by eapply stranded_stuck.
  - destruct (in_result s) as [[]|] eqn:E; [by right|done|]. left. exists (with_result s true), InnerReturns. cbn.
    rewrite E, Ee, Hc, (jn_unwaited s Hj (or_intror Hc)). done.
Qed.

Lemma calm_ends n cert i s :
  (inner_remaining s <= n)%nat -> calm cert i s -> exists s', rtc own_istep s s' /\ ended_quietly cert s'.
Proof.
  revert s. induction n as [|n IH]; intros s Hn Hc;
    (destruct (calm_progress cert i s Hc) as [(s1 & e & Hi & He)|Hq]; [|by exists s]);
    (destruct (inner_decreases s e s1 He) as [Hlt| ->]; [|done]); [lia|].
  destruct (IH s1) as (s2 & Hr & Hq); [lia|by eapply calm_step|]. exists s2. split; [eapply rtc_l; [by exists e|done]|done].
Qed.

Lemma kinds_kept s e s' : supervise_step s e = Some s' -> map t_kind (sp_tasks s') = map t_kind (sp_tasks s).
Proof.
  intros He. destruct (step_moves s e s' He) as [->|Hm]; [by injection He as <-|].
  assert (forall i t t', sp_tasks s !! i = Some t -> t_kind t' = t_kind t ->
    map t_kind (<[i := t']> (sp_tasks s)) = map t_kind (sp_tasks s)) as Hset.
  { intros i t t' Hi Hk. change (map t_kind) with (fmap (M := list) t_kind). rewrite list_fmap_insert. apply list_insert_id.
    by rewrite list_lookup_fmap, Hi, Hk. }
  destruct Hm; cbn; try done; by eapply Hset.
Qed.

(** What no event of a service changes, or only in one direction. *)
Record keeps (s s' : Inner) : Prop := {
  kp_kinds : map t_kind (sp_tasks (in_sup s')) = map t_kind (sp_tasks (in_sup s));
  kp_acme : length (in_acme s') = length (in_acme s);
  kp_cert : in_cert s' = None <-> in_cert s = None;
  kp_cancelled : in_parent_cancelled s = true -> in_parent_cancelled s' = true
}.

Lemma inner_keeps s e s' : inner_step s e = Some s' -> keeps s s' /\ (e <> InnerReturns -> in_result s' = in_result s).
Proof.
  destruct e as [|e| |ok| |j ok|j|j|]; cbn; intros He.
  - injection He as <-. by split_and!.
  - assert (with_sup s <$> supervise_step (in_sup s) e = Some s') as (sup & Hs & ->)%fmap_Some by (by destruct e).
    split; [|done]. split; try done. by eapply kinds_kept.
  - destruct (sp_waiter (in_sup s)) as [| |[]], (in_entry s); simplify_eq; by split.
  - destruct (in_cert s) as [[]|] eqn:Ec; simplify_eq. split; [|done]. split; cbn; by rewrite ?Ec.
  - destruct (in_cert s) as [[]|] eqn:Ec; try done. destruct (in_parent_cancelled s) eqn:Ep; simplify_eq. split; [|done]. split; cbn; by rewrite ?Ec.
  - destruct (in_acme s !! j) as [[]|]; simplify_eq. split; [|done]. split; try done. apply length_insert.
  - destruct (in_acme s !! j) as [[]|]; try done. destruct (in_parent_cancelled s) eqn:Ep; simplify_eq. split; [|done]. split; try done. apply length_insert.
  - destruct (in_acme_handle s) as [[]|], (in_acme s !! j) as [[]|]; simplify_eq; by split.
  - destruct (in_result s), (in_entry s), (companion_result (in_cert s)), (companion_result (in_acme_handle s)); simplify_eq; by split.
Qed.

Lemma cert_configured kinds cert acme s :
  rtc istep (inner_start kinds cert acme) s -> in_parent_cancelled s = false -> in_cert s = if cert then Some None else None.
Proof.
  intros Hr Hp. pose proof (reachable_joined kinds cert acme s Hr) as Hj.
  assert (in_cert s = None <-> cert = false) as Hn.
  { assert (in_cert (inner_start kinds cert acme) = None <-> cert = false) as H0 by (by destruct cert).
    clear Hp Hj. induction Hr as [|x y z [e He] _ IH]; [done|]. apply IH. by rewrite (kp_cert x y (proj1 (inner_keeps x e y He))). }
  destruct (in_cert s) as [[ok|]|] eqn:Ec; [|by destruct cert; [|destruct Hn as [_ Hn]; specialize (Hn eq_refl)]|by rewrite (proj1 Hn eq_refl)].
  rewrite (jn_failed s Hj) in Hp; [done|by right; exists ok].
Qed.

(** The event itself: task [i] was running, and its listener returns without the entry
    point noticing an error. *)
Lemma listener_ends_calm kinds cert acme s i t service ok s0 :
  rtc istep (inner_start kinds cert acme) s -> in_parent_cancelled s = false ->
  (forall j u, sp_tasks (in_sup s) !! j = Some u -> t_state u = Running) -> (forall j u, in_acme s !! j = Some u -> u = None) ->
  sp_tasks (in_sup s) !! i = Some t -> t_kind t = ProxyTask service -> start_outcome service ok = Done ->
  inner_step s (Supervises (ListenerReturns i ok)) = Some s0 -> calm cert i s0.
Proof.
  intros Hr Hp Ht Ha Hi Hk Ho He. pose proof (reachable_joined kinds cert acme s Hr) as Hj.
  pose proof (cert_configured kinds cert acme s Hr Hp) as Hc. pose proof (step_joined s _ s0 Hj He) as Hj0.
  assert (sp_waiter (in_sup s) = Waiting) as Ew.
  { pose proof (Ht i t Hi) as Hrun. destruct (jn_sup s Hj) as [_ Hw]. unfold waiter_inv in Hw.
    assert (all_collected (in_sup s) -> False) as Hno.
    { intros Hall. apply (all_collected_lookup _ i t) in Hall; [|done]. unfold collected in Hall. by rewrite Hrun in Hall. }
    destruct (sp_waiter (in_sup s)) as [|j|[j|]]; [done| |by destruct Hw as [_ ?%Hno]..].
    destruct Hw as (u & o & Hu & Hs & _). apply Ht in Hu. congruence. }
  assert (in_result s <> Some false) as Hres.
  { intros Hres. destruct (jn_result s Hj _ Hres) as (x & _ & _ & Hx & _). destruct (jn_entry s Hj x Hx) as (r & Er & _). congruence. }
  cbn in He. rewrite Hi in He. cbn in He. rewrite Hk, (Ht i t Hi) in He.
  assert ((i < length (sp_tasks (in_sup s)))%nat) as Hlt by (by eapply lookup_lt_Some).
  destruct service, (t_listener t) eqn:El; try done; injection He as <-; (split; try done); cbn; (split; cbn; [|by left|]).
  all: try (intros j u [[_ ->]|[_ Hu]]%set_task_lookup; cbn; [|left; by eapply Ht]).
  1,3: left; exact (Ht i t Hi).
  3: right; left; cbn in Ho; by rewrite Ho.
  3: left; apply orb_true_r.
  all: right; eexists _, ok; rewrite list_lookup_insert_eq by done; split_and!; [done|exact (Ht i t Hi)|by cbn; rewrite Hk|done].
Qed.

(** C25: a listener that ends without the knowledge of the service stops it without ending
    the process as a failure. Take a service in any state it can reach in which nothing
    has been cancelled and no task has ended. When a TLS or QUIC listener of it fails, or
    its cleartext listener meets one [accept] error, then, however many listeners and
    checkers it has and in whatever order its parts react, it goes on until all of them
    have ended and the entry point has returned without error. Without certificates the
    service then returns as if nothing had failed; with certificates it stays, with no
    listener and no event that could happen without an outside cause. *)
Theorem ended_listener_strands_service kinds cert acme s i t service ok s0 :
  rtc istep (inner_start kinds cert acme) s -> in_parent_cancelled s = false ->
  (forall j u, sp_tasks (in_sup s) !! j = Some u -> t_state u = Running) -> (forall j u, in_acme s !! j = Some u -> u = None) ->
  sp_tasks (in_sup s) !! i = Some t -> t_kind t = ProxyTask service ->
  (service <> StartWithoutTls \/ exists accepts, false ∈ accepts /\ tcp_listener false true true accepts = Some ok) ->
  inner_step s (Supervises (ListenerReturns i ok)) = Some s0 ->
  (forall s1, rtc own_istep s0 s1 -> (exists s2, own_istep s1 s2) \/ ended_quietly cert s1) /\
  (forall s1 s2, own_istep s1 s2 -> (inner_remaining s2 < inner_remaining s1)%nat) /\
  exists s1, rtc own_istep s0 s1 /\ ended_quietly cert s1.
Proof.
  intros Hr Hp Ht Ha Hi Hk Hs H0. assert (start_outcome service ok = Done) as Ho.
  { destruct Hs as [Hs|(accepts & Hin & Hac)]; [by destruct service|]. assert (ok = true) as ->; [|by destruct service].
    unfold tcp_listener in Hac. cbn in Hac. clear Hin. induction accepts as [|[] l IH]; [done|by apply IH|by injection Hac as <-]. }
  pose proof (listener_ends_calm kinds cert acme s i t service ok s0 Hr Hp Ht Ha Hi Hk Ho H0) as Hc. split_and!.
  - intros s1 Hr1. apply (calm_progress cert i). clear H0. induction Hr1 as [|x y z (e & He & Hst) _ IH]; [done|]. by apply IH; eapply calm_step.
  - intros s1 s2 (e & He & Hst). destruct (inner_decreases _ _ _ Hst) as [?| ->]; [done|done].
  - by eapply calm_ends.
Qed.

(** ** Witnesses *)

Module SuperviseExamples.

(** A checker and two listeners; the first listener fails. *)
Definition tasks : list TaskKind := [HealthTask; ProxyTask StartWithoutTls; ProxyTask StartWithTls].

Definition events : list SEvent :=
  [Starts 1; Starts 2; ListenerReturns 1 false; Collects 1; Notices 0; Notices 2; Collects 2; Collects 0; LoopEnds].

(** The listener of the second was detached, and is still there. *)
Definition ended : Supervisor :=
  {| sp_tasks := [{| t_kind := HealthTask; t_state := Collected Done; t_listener := Down true |};
                  {| t_kind := ProxyTask StartWithoutTls; t_state := Collected Failed; t_listener := Down true |};
                  {| t_kind := ProxyTask StartWithTls; t_state := Collected Done; t_listener := Listening |}];
     sp_cancelled := true; sp_waiter := Returned (Some 1%nat) |}.

Lemma service_shuts_down_together_witness :
  all_collected ended /\ no_listener ended = false /\
  exists t o, sp_tasks ended !! 1%nat = Some t /\ t_state t = Collected o /\ o <> Done /\ sp_cancelled ended = true.
Proof.
  destruct (service_shuts_down_together tasks ended) as [H _].
  - apply (run_events_rtc supervise_step events). vm_compute. reflexivity.
  - destruct (H (Some 1%nat) eq_refl) as (H1 & _ & H2). split_and!; [exact H1|reflexivity|exact H2].
Defined.




(** A service with certificates listens on three sockets; then the QUIC listener fails. *)
Definition three : list TaskKind := HealthTask :: map ProxyTask [StartWithoutTls; StartWithTls; StartWithQuic].

Definition serving : option Inner :=
  run_events inner_step (inner_start three true 1) (map (fun i => Supervises (Starts i)) [1; 2; 3]%nat).

Definition all_running (s : option Inner) : bool :=
  match s with
  | Some s => forallb running (sp_tasks (in_sup s)) && negb (in_parent_cancelled s) && bool_decide (in_acme s = [None])
  | None => false
  end.

Lemma ended_listener_strands_service_witness : exists s, stranded s.
Proof.
  assert (all_running serving = true) as Hrun by (vm_compute; reflexivity).
  assert (exists s, serving = Some s) as [s Es] by (vm_compute; eexists; reflexivity). rewrite Es in Hrun.
  apply andb_prop in Hrun as [[Ht Hp]%andb_prop Ha]. apply bool_decide_eq_true_1 in Ha. apply negb_true_iff in Hp.
  assert (exists t s0, sp_tasks (in_sup s) !! 3%nat = Some t /\ t_kind t = ProxyTask StartWithQuic /\
    inner_step s (Supervises (ListenerReturns 3 false)) = Some s0) as (t & s0 & Hi & Hk & H0).
  { vm_compute in Es. injection Es as <-. eexists _, _. split_and!; reflexivity. }
  destruct (ended_listener_strands_service three true 1 s 3 t StartWithQuic false s0) as (_ & _ & s1 & _ & _ & _ & Hst & _);
    [|exact Hp| | |exact Hi|exact Hk|left; discriminate|exact H0|exists s1; exact Hst].
  - apply (run_events_rtc inner_step (map (fun i => Supervises (Starts i)) [1; 2; 3]%nat)). exact Es.
  - intros j u Hu. rewrite forallb_forall in Ht. apply running_state, Ht, list_elem_of_In. exact (list_elem_of_lookup_2 _ j _ Hu).
  - intros j u Hu. rewrite Ha in Hu. destruct j; [injection Hu as <-; reflexivity|discriminate Hu].
Defined.

(** A route that is checked over HTTP and one that is not. *)
#[local] Existing Instance Alist.api.
#[local] Existing Instance toy_crypto.

Definition http_check : HealthCheckConfig :=
  {| check_type := Http (B "/health") 200; hc_interval := 10; hc_timeout := 5; unhealthy_threshold := 3; healthy_threshold := 2 |}.

Definition cfg : @AppConfig Alist.api :=
  {| ac_app_name := B "app1"; ac_server_name := B "example.com";
     ac_reverse_proxy :=
       [{| rp_path := None; rp_replace_path := None;
           rp_upstream := [RouteExamples.uri_of "a.internal"; RouteExamples.uri_of "b.internal"];
           rp_upstream_options := None; rp_load_balance := None; rp_health_check := Some http_check |};
        RouteExamples.rp (Some "/api"%string) ["c.internal"%string] None];
     ac_tls := None |}.

Definition cl : @AppConfigList Alist.api := {| acl_inner := [cfg]; acl_default_app := None |}.

Definition manager : BackendAppManager :=
  default {| apps := []; default_server_name := None |} (ok (BackendAppManager_try_from cl)).

Lemma cl_manager : BackendAppManager_try_from cl = Ok manager.
Proof.
  assert (is_ok (BackendAppManager_try_from cl) = true) as Hok by (vm_compute; reflexivity).
  unfold manager. by destruct (BackendAppManager_try_from cl).
Qed.

Lemma health_flags_all_checked_witness :
  spawn_health_checkers false manager = Err () /\
  match spawn_health_checkers true manager with
  | Ok [t] => ck_http_client t = true /\ length (ck_upstreams t) = 2%nat
  | _ => False
  end.
Proof.
  destruct (health_flags_all_checked cl manager false cl_manager) as [[_ H] _].
  split; [apply H; vm_compute; split; reflexivity|vm_compute; split; reflexivity].
Defined.

End SuperviseExamples.
