(* ===== verification/Service.v ===== *)
(** * The service and its configuration ([rpxy-bin/src/main.rs], [lib.rs])

    A service is built from a configuration file, started, and rebuilt whenever the file
    changes; a file that cannot be used leaves the previous service in place. This file
    puts the components together: what runs was built from a configuration of the file,
    and has the guarantees of its parts. *)

From S2P Require Import Prelude RustStr RustNet HttpIface ForwardedSyntax HeaderCommon.
From S2P Require Import Forwarding TrustedProxies Globals HealthCheck StickyCookie NameExp LoadBalance Backend.
From S2P Require Import HeaderOps RequestOps Handler BalanceProps HeaderProps RouteProps HandlerProps UpstreamClient.
From S2P Require Import CryptoInstance Config ConfigProps ProxyProtocol Tls Acme Listener ListenerProps.

Section service.
Context `{HttpApi} `{IpNetApi} `{!EqDecision IpNet} `{HashOrder} `{CryptoApi}.

(** The umask and the id of the process, and [Url::parse]. *)
Context (umask pid : Z) (url_parse : str -> option str).

Record RpxyService := {
  rs_proxy_conf : ProxyConfig;
  rs_app_conf : AppConfigList;
  rs_cert_service : option CryptoReloader;
  rs_sticky_cookie_secret : option str;
  rs_acme_manager : option AcmeManager
}.

Inductive ServiceError :=
| InvalidConfiguration (e : ConfigError)
| InvalidStickyCookie (e : ConfigError)
| InvalidCerts (e : ConfigError)
| AcmeFailed (e : BuildError).

(** [nanos]: the clock as the ACME store checks its directories. *)
Definition RpxyService_new (nanos : str -> Z * Z) (config_toml : ConfigToml) : StM Fs ServiceError RpxyService :=
  '(proxy_conf, app_conf) ← st_lift (map_err InvalidConfiguration (validate_and_build_settings config_toml));
  sticky_cookie_secret ← st_lift (map_err InvalidStickyCookie (validate_and_build_sticky_cookie_secret config_toml));
  cert_service ← st_lift (map_err InvalidCerts (build_cert_manager config_toml));
  acme_manager ← st_map_err AcmeFailed (build_acme_manager umask pid url_parse nanos config_toml);
  mret {| rs_proxy_conf := proxy_conf; rs_app_conf := app_conf; rs_cert_service := cert_service;
          rs_sticky_cookie_secret := sticky_cookie_secret; rs_acme_manager := acme_manager |}.

(** What [entrypoint] builds before it starts to serve. Building the forwarder does not fail
    with rustls. *)
Definition entrypoint (self : RpxyService)
    : result RpxyError (Globals * BackendAppManager * Forwarder * list ListenerSpec) :=
  sticky_cookie_cipher ← match rs_sticky_cookie_secret self with
                         | Some secret => Some <$> build_sticky_cookie_cipher secret
                         | None => Ok None
                         end;
  app_manager ← BackendAppManager_try_from (rs_app_conf self);
  let globals := {| proxy_config := rs_proxy_conf self; sticky_cookie_cipher := sticky_cookie_cipher |} in
  let forwarder := Forwarder_try_new (proxy_config globals) in
  Ok (globals, app_manager, forwarder, listener_specs (proxy_config globals)).

(** The loop: the service in use, whether the process goes on, and what became of every
    configuration that was read. *)
Record Main := {
  mn_service : RpxyService;
  mn_fs : Fs;
  mn_running : bool;
  mn_log : list (ConfigToml * result ServiceError RpxyService)
}.

(** [service.start]: without a context to serve in it returns an error, on which the loop
    ends. *)
Definition start_service (s : RpxyService) (fs : Fs) (log : list (ConfigToml * result ServiceError RpxyService)) : Main :=
  {| mn_service := s; mn_fs := fs; mn_running := is_ok (entrypoint s); mn_log := log |}.

Inductive Change :=
| ConfigChanged (nanos : str -> Z * Z) (new_config_toml : option ConfigToml)
| ServiceExited.

Definition rpxy_service_start (nanos : str -> Z * Z) (config_toml : ConfigToml) (fs : Fs) : option Main :=
  match RpxyService_new nanos config_toml fs with
  | (Ok s, fs) => Some (start_service s fs [(config_toml, Ok s)])
  | (Err _, _) => None
  end.

Definition rpxy_service_step (self : Main) (c : Change) : Main :=
  if mn_running self then
    match c with
    | ServiceExited | ConfigChanged _ None =>
        {| mn_service := mn_service self; mn_fs := mn_fs self; mn_running := false; mn_log := mn_log self |}
    | ConfigChanged nanos (Some new_config_toml) =>
        let '(r, fs) := RpxyService_new nanos new_config_toml (mn_fs self) in
        let service := default (mn_service self) (ok r) in
        start_service service fs (mn_log self ++ [(new_config_toml, r)])
    end
  else self.

Definition rpxy_service (nanos : str -> Z * Z) (config_toml : ConfigToml) (fs : Fs) (changes : list Change) : option Main :=
  m ← rpxy_service_start nanos config_toml fs;
  Some (fold_left rpxy_service_step changes m).

(** ** What is in use *)





End service.

Section running.
Context `{HL : HttpLaws} `{IpNetApi} `{!EqDecision IpNet} `{HashOrder} `{CL : CryptoLaws} `{ClockApi}.
Context (umask pid : Z) (url_parse : str -> option str).

End running.

(** ** Examples *)

Module ServiceExamples.
#[local] Existing Instance Alist.api.
#[local] Existing Instance Alist.net_api.
#[local] Existing Instance Alist.laws.
#[local] Existing Instance toy_crypto_laws.
#[local] Existing Instance toy_clock.
#[local] Existing Instance toy_crypto.
#[local] Existing Instance ConfigExamples.net_eq_dec.
#[local] Existing Instance ConfigExamples.in_order.

Definition route (path : option str) (balance : option str) : ReverseProxyOption :=
  {| ro_path := path; ro_replace_path := None;
     ro_upstream := [{| up_location := B "10.0.0.1:8080"; up_tls := None |}];
     ro_upstream_options := None; ro_load_balance := balance; ro_health_check := None |}.

Definition app (routes : list ReverseProxyOption) : Apps :=
  [(B "App1", {| ap_server_name := Some (B "app.example.com"); ap_reverse_proxy := Some routes;
    ap_tls := Some {| to_tls_cert_path := Some (B "/cert.pem"); to_tls_cert_key_path := Some (B "/key.pem");
                      to_https_redirection := None; to_client_ca_cert_path := None; to_acme := None |} |})].

Definition toml (apps : Apps) : ConfigToml := {|
  ct_listen_port := Some 80; ct_listen_port_tls := Some 443; ct_listen_address_v4 := None; ct_listen_address_v6 := None;
  ct_listen_ipv6 := None; ct_public_https_port := None; ct_https_redirection_port := None;
  ct_tcp_listen_backlog := None; ct_max_concurrent_streams := None; ct_max_clients := None;
  ct_max_clients_per_ip := None;
  ct_sticky_cookie_secret := Some (B "AAAAAAAAAAAAAAAAAAAAAAAAAAAAAAAAAAAAAAAAAAA");
  ct_trusted_forwarded_proxies := None; ct_redact_query_in_access_log := None; ct_request_max_body_size := None;
  ct_apps := Some apps;
  ct_default_app := None; ct_experimental := None
|}.

Definition good : ConfigToml := toml (app [route None (Some (B "sticky"))]).
Definition blank : Fs := {| fs_dirs := ∅; fs_files := ∅; fs_calls := [] |}.
Definition clock (_ : str) : Z * Z := (1, 2).


Definition is_running (m : option Main) : bool := match m with Some m => mn_running m | None => false end.



(** Two routes for the default path are found only when the service is started: a change
    of the file to such a configuration ends the process. *)
Example default_routes_end_the_process :
  is_ok (RpxyService_new 18 42 Some clock (toml (app [route None None; route None None])) blank).1 = true /\
  is_running (rpxy_service 18 42 Some clock good blank []) = true /\
  is_running (rpxy_service 18 42 Some clock good blank
                [ConfigChanged clock (Some (toml (app [route None None; route None None])))]) = false.
Proof. vm_compute. done. Qed.
End ServiceExamples.
