(* ===== verification/Process.v ===== *)
(** * The process ([rpxy-bin/src/main.rs], [lib.rs])

    [main] runs the service of the configuration file until it returns or the reloader
    of the file ends: the service of [Service], the tasks of [Supervise] that it starts, and
    the services that were replaced by a new configuration and are still ending. That the
    file changes again while a service that could not be started returns its error is left
    out: such a service ends the process at once. *)

From S2P Require Import Prelude RustStr RustNet HttpIface Globals HealthCheck StickyCookie NameExp LoadBalance Backend.
From S2P Require Import CryptoInstance Config ConfigProps Tls Acme Listener ListenerProps Supervise Service.

Section process.
Context `{HttpApi} `{IpNetApi} `{!EqDecision IpNet} `{HashOrder} `{CryptoApi}.
Context (umask pid : Z) (url_parse : str -> option str).

(** ** State *)





(** ** Events *)







(** ** Invariant *)








End process.

(** ** Witness *)

Module ProcessExamples.
Import ServiceExamples.
#[local] Existing Instance Alist.api.
#[local] Existing Instance Alist.net_api.
#[local] Existing Instance toy_crypto.
#[local] Existing Instance ConfigExamples.net_eq_dec.
#[local] Existing Instance ConfigExamples.in_order.





End ProcessExamples.
